(** * A game distribution and matchmaking platform

    Shallow embedding of the three servers of the platform:
    - the Catalog store ([server/database_server.py]),
    - the Developer Gateway's upload conversation
      ([server/developer_server.py], [common/validate_game.py]),
    - the Lobby ([server/lobby_server.py]),
    together with the properties of their request handlers.

    Every handler is a function from the state it reads to the state it
    leaves and the reply it gives.  What a handler obtains from outside the
    program (clock, uuid4, sockets, child processes, the JSON parser) is an
    argument of that function.  The Lobby serves every connection on a
    thread of its own: [Lobby.run] handles each message in one step, and
    [Threads.run] runs the handlers lock section by lock section, under
    any schedule. *)

From Stdlib Require Import ZArith String Ascii List Bool Lia.
From stdpp Require Import base decidable option list sorting gmap strings countable
  fin_maps pretty.

(** ** Python values and dictionaries *)

Module Py.

(** The scalar JSON values that occur in the documents and requests of the
    platform: [None], integers and strings.  On these Python's [==] is
    structural equality.  Fractions and booleans are left out, for which
    it is not ([1 == 1.0 == True]): what is stated of a number below is
    stated of an integer. *)
Inductive jval :=
| JNull
| JNum (n : Z)
| JStr (s : string).

#[global] Instance jval_eq_dec : EqDecision jval.
Proof. solve_decision. Defined.

#[global] Instance jval_countable : Countable jval.
Proof.
  refine (inj_countable'
    (fun v => match v with
              | JNull => inl tt
              | JNum n => inr (inl n)
              | JStr s => inr (inr s)
              end)
    (fun x => match x with
              | inl _ => JNull
              | inr (inl n) => JNum n
              | inr (inr s) => JStr s
              end) _).
  intros []; reflexivity.
Defined.

(** Python truthiness: [None], [0] and [''] are falsy. *)
Definition truthy (v : jval) : bool :=
  match v with
  | JNull => false
  | JNum n => negb (n =? 0)%Z
  | JStr s => negb (bool_decide (s = EmptyString))
  end.

(** [not d.get(k)] *)
Definition falsy_opt (o : option jval) : bool :=
  match o with
  | Some v => negb (truthy v)
  | None => true
  end.

(** [str(v)], as an f-string renders it. *)
Definition py_str (v : jval) : string :=
  match v with
  | JNull => "None"
  | JNum n => pretty n
  | JStr s => s
  end.

(** A document: a flat JSON object. *)
Abbreviation doc := (gmap string jval).

(** A Python [dict] whose iteration order the code depends on: keys in
    insertion order, assignment to a present key keeps its place. *)
Section Dict.
Context {K V : Type} `{EqDecision K}.

Fixpoint dict_get (k : K) (d : list (K * V)) : option V :=
  match d with
  | [] => None
  | (k', v) :: d' => if decide (k = k') then Some v else dict_get k d'
  end.

Fixpoint dict_set (k : K) (v : V) (d : list (K * V)) : list (K * V) :=
  match d with
  | [] => [(k, v)]
  | (k', v') :: d' =>
      if decide (k = k') then (k', v) :: d' else (k', v') :: dict_set k v d'
  end.

Fixpoint dict_del (k : K) (d : list (K * V)) : list (K * V) :=
  match d with
  | [] => []
  | (k', v') :: d' =>
      if decide (k = k') then d' else (k', v') :: dict_del k d'
  end.

End Dict.

End Py.
Export Py.

(** ** The Catalog store ([server/database_server.py]) *)

Module Catalog.

(** The keys of [self.collections]. *)
Inductive coll_name := User | Game | Version | Room | Review.

#[global] Instance coll_name_eq_dec : EqDecision coll_name.
Proof. solve_decision. Defined.

(** [collection in self.collections] *)
Definition coll_of_name (s : string) : option coll_name :=
  if decide (s = "User") then Some User
  else if decide (s = "Game") then Some Game
  else if decide (s = "Version") then Some Version
  else if decide (s = "Room") then Some Room
  else if decide (s = "Review") then Some Review
  else None.

Definition name_of_coll (c : coll_name) : string :=
  match c with
  | User => "User" | Game => "Game" | Version => "Version"
  | Room => "Room" | Review => "Review"
  end.

(** A collection maps document ids to documents, in insertion order. *)
Abbreviation coll := (list (jval * doc)).

(** [self.collections]: one collection under each of the five names. *)
Record store := {
  c_User : coll;
  c_Game : coll;
  c_Version : coll;
  c_Room : coll;
  c_Review : coll
}.

Definition get_coll (c : coll_name) (s : store) : coll :=
  match c with
  | User => c_User s | Game => c_Game s | Version => c_Version s
  | Room => c_Room s | Review => c_Review s
  end.

Definition set_coll (c : coll_name) (x : coll) (s : store) : store :=
  match c with
  | User => {| c_User := x; c_Game := c_Game s; c_Version := c_Version s;
               c_Room := c_Room s; c_Review := c_Review s |}
  | Game => {| c_User := c_User s; c_Game := x; c_Version := c_Version s;
               c_Room := c_Room s; c_Review := c_Review s |}
  | Version => {| c_User := c_User s; c_Game := c_Game s; c_Version := x;
                  c_Room := c_Room s; c_Review := c_Review s |}
  | Room => {| c_User := c_User s; c_Game := c_Game s; c_Version := c_Version s;
               c_Room := x; c_Review := c_Review s |}
  | Review => {| c_User := c_User s; c_Game := c_Game s; c_Version := c_Version s;
                 c_Room := c_Room s; c_Review := x |}
  end.

(** The server: the collections in memory and their JSON files.  A file
    is kept as the collection that [_load_data] reads from it: a file that
    is missing, or that [json.load] cannot decode, leaves the collection
    empty there, and so counts as the empty collection. *)
Record catalog := {
  collections : store;
  files : store
}.

Definition empty_store : store :=
  {| c_User := []; c_Game := []; c_Version := []; c_Room := []; c_Review := [] |}.

Definition init : catalog := {| collections := empty_store; files := empty_store |}.

(** The [data] member of a request: the document itself for [insert], and
    the nested [query] and [update] objects of the other actions. *)
Record db_data := {
  body : doc;
  query : option doc;
  update : option doc
}.

Definition no_data : db_data := {| body := ∅; query := None; update := None |}.

(** [{action, collection, data}] *)
Record db_request := {
  action : option string;
  collection : option string;
  data : option db_data
}.

(** The replies of the five handlers and the error reply. *)
Inductive db_response :=
| DbId (id : jval)              (* {'success': True, 'id': id} *)
| DbResults (ds : list doc)     (* {'success': True, 'results': ds} *)
| DbResult (d : doc)            (* {'success': True, 'result': d} *)
| DbCount (n : nat)             (* {'success': True, 'count': n} *)
| DbError (e : string).         (* {'success': False, 'error': e} *)

(** [response.get('success')] *)
Definition success (r : db_response) : bool :=
  match r with
  | DbError _ => false
  | _ => true
  end.

(** What a request draws from outside: [uuid.uuid4()], [datetime.now()] and
    how the writing of the collection's file goes: [disk_ok] when
    [json.dump] completes; when it does not, [cut_short] tells whether
    [open(filepath, 'w')] had succeeded, and so emptied the file, before
    the error. *)
Record db_env := {
  fresh_id : string;
  now : string;
  disk_ok : bool;
  cut_short : bool
}.

(** [_save_collection]: a failed write is printed and swallowed.  A write
    that fails in [json.dump] leaves a part of the text, which is no JSON
    document; a write that fails in [open] leaves the file as it was. *)
Definition _save_collection (e : db_env) (c : coll_name) (st : catalog) : catalog :=
  if disk_ok e
  then {| collections := collections st;
          files := set_coll c (get_coll c (collections st)) (files st) |}
  else if cut_short e
  then {| collections := collections st; files := set_coll c [] (files st) |}
  else st.

Definition with_coll (c : coll_name) (x : coll) (st : catalog) : catalog :=
  {| collections := set_coll c x (collections st); files := files st |}.

(** [_match_query]: every key of the query is in the document with an equal
    value. *)
Definition _match_query (d q : doc) : bool :=
  forallb (fun kv => bool_decide (d !! kv.1 = Some kv.2)) (map_to_list q).

Definition query_of (data : db_data) : doc := default ∅ (query data).
Definition update_of (data : db_data) : doc := default ∅ (update data).

Definition _handle_insert (e : db_env) (st : catalog) (c : coll_name)
    (data : db_data) : catalog * db_response :=
  let doc_id :=
    match body data !! "_id" with
    | Some v => if truthy v then v else JStr (fresh_id e)
    | None => JStr (fresh_id e)
    end in
  let d := <["created_at" := JStr (now e)]> (<["_id" := doc_id]> (body data)) in
  let st' := with_coll c (dict_set doc_id d (get_coll c (collections st))) st in
  (_save_collection e c st', DbId doc_id).

Definition _handle_find (st : catalog) (c : coll_name) (data : db_data)
    : catalog * db_response :=
  let results :=
    (filter (fun kd => _match_query kd.2 (query_of data) = true)
            (get_coll c (collections st))).*2 in
  (st, DbResults results).

Definition _handle_find_one (st : catalog) (c : coll_name) (data : db_data)
    : catalog * db_response :=
  match list_find (fun kd => _match_query kd.2 (query_of data) = true)
                  (get_coll c (collections st)) with
  | Some (_, (_, d)) => (st, DbResult d)
  | None => (st, DbError "Not found")
  end.

Definition _handle_update (e : db_env) (st : catalog) (c : coll_name)
    (data : db_data) : catalog * db_response :=
  let hit (kd : jval * doc) := _match_query kd.2 (query_of data) in
  let coll := get_coll c (collections st) in
  let coll' :=
    (fun kd => if hit kd
               then (kd.1, <["updated_at" := JStr (now e)]> (update_of data ∪ kd.2))
               else kd) <$> coll in
  let updated_count := length (filter (fun kd => hit kd = true) coll) in
  let st' := with_coll c coll' st in
  (if decide (0 < updated_count)%nat then _save_collection e c st' else st',
   DbCount updated_count).

Definition _handle_delete (e : db_env) (st : catalog) (c : coll_name)
    (data : db_data) : catalog * db_response :=
  let hit (kd : jval * doc) := _match_query kd.2 (query_of data) in
  let coll := get_coll c (collections st) in
  let to_delete := (filter (fun kd => hit kd = true) coll).*1 in
  let st' := with_coll c (foldl (fun d k => dict_del k d) coll to_delete) st in
  (match to_delete with
   | [] => st'
   | _ => _save_collection e c st'
   end,
   DbCount (length to_delete)).

Definition invalid_request (st : catalog) : catalog * db_response :=
  (st, DbError "Invalid request").

Definition _process_request (e : db_env) (st : catalog) (request : db_request)
    : catalog * db_response :=
  match action request, collection request with
  | Some a, Some cn =>
      if bool_decide (a = EmptyString) then invalid_request st
      else
        match coll_of_name cn with
        | None => invalid_request st
        | Some c =>
            let d := default no_data (data request) in
            if bool_decide (a = "insert") then _handle_insert e st c d
            else if bool_decide (a = "find") then _handle_find st c d
            else if bool_decide (a = "find_one") then _handle_find_one st c d
            else if bool_decide (a = "update") then _handle_update e st c d
            else if bool_decide (a = "delete") then _handle_delete e st c d
            else (st, DbError "Unknown action")
        end
  | _, _ => invalid_request st
  end.

(** Requests as the other two servers build them. *)
Definition find_one_req (cn : string) (q : doc) : db_request :=
  {| action := Some "find_one"; collection := Some cn;
     data := Some {| body := ∅; query := Some q; update := None |} |}.

Definition find_req (cn : string) (q : doc) : db_request :=
  {| action := Some "find"; collection := Some cn;
     data := Some {| body := ∅; query := Some q; update := None |} |}.

Definition insert_req (cn : string) (d : doc) : db_request :=
  {| action := Some "insert"; collection := Some cn;
     data := Some {| body := d; query := None; update := None |} |}.

Definition update_req (cn : string) (q u : doc) : db_request :=
  {| action := Some "update"; collection := Some cn;
     data := Some {| body := ∅; query := Some q; update := Some u |} |}.

End Catalog.

(** ** Strings and paths *)

Module Text.

(** ASCII white space, which [str.strip] removes at both ends (it removes
    the other Unicode spaces too; the strings here are taken as ASCII). *)
Definition is_space (c : ascii) : bool :=
  let n := nat_of_ascii c in
  ((9 <=? n)%nat && (n <=? 13)%nat) || ((28 <=? n)%nat && (n <=? 32)%nat).

Fixpoint lstrip (s : string) : string :=
  match s with
  | EmptyString => EmptyString
  | String c s' => if is_space c then lstrip s' else s
  end.

Definition strip (s : string) : string :=
  String.rev (lstrip (String.rev (lstrip s))).

(** [s.replace(pat, rep)] for a non-empty [pat]: leftmost occurrences, not
    overlapping.  [skip] counts the characters of a matched occurrence that
    are still to be dropped. *)
Fixpoint replace_from (pat rep : string) (skip : nat) (s : string) : string :=
  match s with
  | EmptyString => EmptyString
  | String c s' =>
      match skip with
      | S k => replace_from pat rep k s'
      | O =>
          if String.prefix pat s
          then rep +:+ replace_from pat rep (String.length pat - 1) s'
          else String c (replace_from pat rep 0 s')
      end
  end.

Definition replace (pat rep s : string) : string := replace_from pat rep 0 s.

(** The double quote character, as a string. *)
Definition quote : string := String (ascii_of_nat 34) EmptyString.

(** [s[:n]] *)
Definition take_str (n : nat) (s : string) : string := String.substring 0 n s.

Definition ends_with_slash (s : string) : bool :=
  match String.rev s with
  | String c _ => bool_decide (c = "/"%char)
  | EmptyString => false
  end.

(** [os.path.join(a, b)] on POSIX. *)
Definition path_join (a b : string) : string :=
  if String.prefix "/" b then b
  else if bool_decide (a = EmptyString) then b
  else if ends_with_slash a then a +:+ b
  else a +:+ "/" +:+ b.

End Text.
Export Text.

(** ** Game packages ([common/validate_game.py]) *)

Module Package.

(** The [server] and [client] objects of a manifest. *)
Record program := {
  entry_point : option string;
  start_command : option string;
  arguments : option (list string)
}.

(** A parsed [game_info.json]: its scalar members and its two programs.
    These are the manifests that are JSON objects whose [server] and
    [client], when present, are objects with strings for entry points; on
    any other JSON value the checks of [validate_game_package] raise
    [TypeError], which is left out here. *)
Record manifest := {
  fields : doc;
  server : option program;
  client : option program
}.

(** [json.load]: the object, or the text of the decoder's error. *)
Inductive parsed :=
| Parsed (m : manifest)
| ParseError (e : string).

(** A directory: its files by relative path, in the order [os.walk] lists
    them.  A file system: the directories by path. *)
Abbreviation dir := (list (string * string)).
Abbreviation filesystem := (gmap string dir).

(** [os.path.exists(os.path.join(game_dir, rel))] for a file of the
    package named by its path as uploaded.  ([os.path.exists] accepts
    more: the empty name, the name of a sub-directory, another spelling
    of a path, an absolute path; these are not counted.) *)
Definition exists_in (fs : filesystem) (game_dir rel : string) : bool :=
  match fs !! game_dir with
  | Some d => bool_decide (is_Some (dict_get rel d))
  | None => false
  end.

Definition read_file (fs : filesystem) (game_dir rel : string) : option string :=
  fs !! game_dir ≫= dict_get rel.

Definition required_fields : list string :=
  ["name"; "version"; "description"; "min_players"; "max_players"].

Definition validate_game_package (json_load : string → parsed)
    (fs : filesystem) (game_dir : string)
    : bool * option string * option manifest :=
  match read_file fs game_dir "game_info.json" with
  | None => (false, Some "Missing game_info.json", None)
  | Some text =>
      match json_load text with
      | ParseError e =>
          (false, Some ("Invalid JSON in game_info.json: " +:+ e), None)
      | Parsed game_info =>
          match list_find (fun field => fields game_info !! field = None)
                          required_fields with
          | Some (_, field) =>
              (false, Some ("Missing required field: " +:+ field), None)
          | None =>
              match server game_info with
              | None => (false, Some "Missing 'server' configuration", None)
              | Some server_config =>
                  match entry_point server_config with
                  | None => (false, Some "Missing server.entry_point", None)
                  | Some server_entry =>
                      if negb (exists_in fs game_dir server_entry)
                      then (false,
                            Some ("Server entry point not found: " +:+ server_entry),
                            None)
                      else
                        match client game_info with
                        | None =>
                            (false, Some "Missing 'client' configuration", None)
                        | Some client_config =>
                            match entry_point client_config with
                            | None =>
                                (false, Some "Missing client.entry_point", None)
                            | Some client_entry =>
                                if negb (exists_in fs game_dir client_entry)
                                then (false,
                                      Some ("Client entry point not found: "
                                            +:+ client_entry),
                                      None)
                                else (true, None, Some game_info)
                            end
                        end
                  end
              end
          end
      end
  end.

(** [get_game_files]: the relative paths of the files of a directory. *)
Definition get_game_files (fs : filesystem) (game_dir : string) : list string :=
  (default [] (fs !! game_dir)).*1.

End Package.

(** ** What the Gateway and the Lobby share *)

Module Server.
Import Catalog Package.

(** The constructor arguments of a server and the two library functions it
    calls: SHA-256 in hexadecimal and the JSON decoder. *)
Record config := {
  upload_dir : string;
  logs_dir : string;
  advertise_host : string;
  hash_password : string → string;
  json_load : string → parsed
}.

(** The fate of one round trip to the Catalog: answered, or the text of the
    exception that [_db_request] catches. *)
Inductive link :=
| LinkUp
| LinkDown (e : string).

(** [_db_request]: a fresh connection to the Catalog for one request. *)
Definition _db_request (l : link) (e : db_env) (db : catalog)
    (request : db_request) : catalog * db_response :=
  match l with
  | LinkUp => _process_request e db request
  | LinkDown msg => (db, DbError msg)
  end.

(** A value of a reply: a flag, a scalar, an object, a list of objects, or
    the average rating [round(total / count, 1)], kept as the fraction. *)
Inductive rval :=
| RBool (b : bool)
| RVal (v : jval)
| RDoc (d : doc)
| RDocs (ds : list doc)
| RAvg (total : Z) (count : nat).

(** A reply: the members of the JSON object, in the order the code writes
    them. *)
Abbreviation response := (list (string * rval)).

(** How a handler ends: with the reply the client loop sends, with [None]
    (nothing more is sent), or with an exception that reaches the loop. *)
Inductive outcome :=
| Reply (r : response)
| NoReply
| Raise (e : string).

Definition RStr (s : string) : rval := RVal (JStr s).
Definition RNum (n : Z) : rval := RVal (JNum n).

(** [{'success': False, 'error': msg}] *)
Definition failure (msg : string) : response :=
  [("success", RBool false); ("error", RStr msg)].

(** [reply.get(k)] *)
Definition member (k : string) (r : response) : option rval := dict_get k r.

(** [d[k]] for a key that may be missing: the value, or the [KeyError]. *)
Definition key_error (k : string) : outcome := Raise ("KeyError: " +:+ k).

(** [request.get(k, '').strip()]: [None] when the member is not a string and
    the call raises [AttributeError]. *)
Definition get_stripped (request : doc) (k : string) : option string :=
  match request !! k with
  | None => Some (strip EmptyString)
  | Some (JStr s) => Some (strip s)
  | Some _ => None
  end.

(** The per-connection [session] dictionary of a client loop. *)
Record session := {
  logged_in : bool;
  user_id : jval;
  username : jval
}.

Definition new_session : session :=
  {| logged_in := false; user_id := JNull; username := JNull |}.

End Server.
(** ** The Developer Gateway's upload ([server/developer_server.py]) *)

Module Gateway.
Import Catalog Package Server.

(** What the client puts on the connection after the ready signal: message
    frames and file frames, a file frame possibly cut short by the end of
    the connection. *)
Inductive frame :=
| Message (m : doc)
| File (content : string)
| FilePart (content : string).

(** What one upload draws from outside. *)
Record env := {
  link : nat → link;          (* the fate of its k-th Catalog round trip *)
  dbe : nat → db_env;         (* what the Catalog draws on that trip *)
  uuid4 : string;             (* str(uuid.uuid4()) *)
  incoming : list frame
}.

(** The upload directory and the Catalog. *)
Record state := {
  fs : filesystem;
  db : catalog
}.

Record result := {
  after : state;
  sent : list response;       (* messages sent before the handler returns *)
  unread : list frame;
  reply : outcome
}.

(** [protocol.receive_message()]: anything but a whole message frame closes
    the connection and gives [None]. *)
Definition receive_message (inc : list frame) : option doc * list frame :=
  match inc with
  | Message m :: rest => (Some m, rest)
  | _ => (None, [])
  end.

(** [not msg]: [None] or the empty object. *)
Definition no_message (m : option doc) : bool :=
  match m with
  | Some d => bool_decide (d = ∅)
  | None => true
  end.

(** [open(os.path.join(d, rel), 'wb')] and the writes: [rel] is taken as
    the name of the file, which it is when it is plain ([Paths.plain]). *)
Definition write_file (fs : filesystem) (d rel content : string) : filesystem :=
  <[d := dict_set rel content (default [] (fs !! d))]> fs.

(** [os.makedirs(d, exist_ok=True)] *)
Definition makedirs (fs : filesystem) (d : string) : filesystem :=
  match fs !! d with
  | Some _ => fs
  | None => <[d := []]> fs
  end.

(** [shutil.rmtree(d)] when [os.path.exists(d)] *)
Definition rmtree_if_exists (fs : filesystem) (d : string) : filesystem :=
  delete d fs.

(** [protocol.receive_file(save_path)]: the bytes that arrived are written
    even when the frame is cut short. *)
Definition receive_file (fs : filesystem) (d rel : string) (inc : list frame)
    : bool * filesystem * list frame :=
  match inc with
  | File content :: rest => (true, write_file fs d rel content, rest)
  | FilePart content :: _ => (false, write_file fs d rel content, [])
  | _ => (false, fs, [])
  end.

(** The loop [for i in range(file_count)]: the error text of the exception
    that ends it, if any. *)
Fixpoint receive_files (n : nat) (temp_dir : string) (fs : filesystem)
    (inc : list frame) : filesystem * list frame * option string :=
  match n with
  | O => (fs, inc, None)
  | S n' =>
      let '(file_info, inc1) := receive_message inc in
      if no_message file_info
      then (fs, inc1, Some "Failed to receive file info")
      else
        match default ∅ file_info !! "path" with
        | None => (fs, inc1, Some "'path'")
        | Some (JStr rel_path) =>
            let '(ok, fs1, inc2) := receive_file fs temp_dir rel_path inc1 in
            if ok then receive_files n' temp_dir fs1 inc2
            else (fs1, inc2, Some ("Failed to receive file: " +:+ rel_path))
        | Some _ => (fs, inc1, Some "expected str, bytes or os.PathLike object")
        end
  end.

Definition game_record (s : session) (game_name : string) (version : jval)
    (game_info : manifest) : doc :=
  <["name" := JStr game_name]> (
  <["developer_id" := user_id s]> (
  <["developer_name" := username s]> (
  <["latest_version" := version]> (
  <["description" := default (JStr EmptyString) (fields game_info !! "description")]> (
  <["min_players" := default (JNum 2) (fields game_info !! "min_players")]> (
  <["max_players" := default (JNum 2) (fields game_info !! "max_players")]> (
  <["status" := JStr "active"]> ∅))))))).

Definition version_record (game_id version : jval) (final_dir_name : string) : doc :=
  <["game_id" := game_id]> (
  <["version" := version]> (
  <["file_path" := JStr final_dir_name]> ∅)).

(** The body of the [try] block of [_handle_upload_game]: the state it
    reaches, and either the text of the exception raised ([inl]) or the
    message of the success reply ([inr]). *)
Definition upload_attempt (cfg : config) (e : env) (st : state) (s : session)
    (game_name : string) (file_count : jval) (temp_dir : string)
    (inc : list frame) : state * list frame * (string + string) :=
  match file_count with
  | JNum n =>
      let '(fs1, inc1, failed) :=
        receive_files (Z.to_nat n) temp_dir (fs st) inc in
      match failed with
      | Some msg => ({| fs := fs1; db := db st |}, inc1, inl msg)
      | None =>
          let '(ok, error, game_info) :=
            validate_game_package (json_load cfg) fs1 temp_dir in
          match ok, game_info with
          | true, Some game_info =>
              match fields game_info !! "version", fs1 !! temp_dir with
              | Some version, Some staged =>
                  let final_dir_name := game_name +:+ "_" +:+ py_str version in
                  let final_dir := path_join (upload_dir cfg) final_dir_name in
                  (* move to the final location *)
                  let fs2 :=
                    <[final_dir := staged]>
                      (delete temp_dir (rmtree_if_exists fs1 final_dir)) in
                  (* save to the database *)
                  let '(db1, game_result) :=
                    _db_request (link e 1) (dbe e 1) (db st)
                      (insert_req "Game" (game_record s game_name version game_info)) in
                  match game_result with
                  | DbError _ =>
                      ({| fs := fs2; db := db1 |}, inc1,
                       inl "Failed to save game to database")
                  | DbId game_id =>
                      let '(db2, _) :=
                        _db_request (link e 2) (dbe e 2) db1
                          (insert_req "Version"
                             (version_record game_id version final_dir_name)) in
                      ({| fs := fs2; db := db2 |}, inc1,
                       inr ("Game " +:+ quote +:+ game_name +:+ quote +:+ " v" +:+ py_str version
                            +:+ " uploaded successfully"))
                  | _ => ({| fs := fs2; db := db1 |}, inc1, inl "'id'")
                  end
              | None, _ => ({| fs := fs1; db := db st |}, inc1, inl "'version'")
              | _, None =>
                  ({| fs := fs1; db := db st |}, inc1,
                   inl "No such file or directory")
              end
          | _, _ =>
              ({| fs := fs1; db := db st |}, inc1,
               inl ("Invalid game package: " +:+ default "None" error))
          end
      end
  | _ =>
      (st, inc, inl "object cannot be interpreted as an integer")
  end.

Definition ready : response :=
  [("success", RBool true); ("message", RStr "Ready to receive files")].

Definition _handle_upload_game (cfg : config) (e : env) (st : state)
    (s : session) (request : doc) : result :=
  match get_stripped request "game_name" with
  | None =>
      {| after := st; sent := []; unread := incoming e;
         reply := Raise "AttributeError: strip" |}
  | Some game_name =>
      if bool_decide (game_name = EmptyString)
      then {| after := st; sent := []; unread := incoming e;
              reply := Reply (failure "Game name required") |}
      else
        (* check if the game name exists *)
        let check :=
          (_db_request (link e 0) (dbe e 0) (db st)
             (find_one_req "Game" (<["name" := JStr game_name]> ∅))).2 in
        if success check
        then {| after := st; sent := []; unread := incoming e;
                reply := Reply (failure "Game name already exists") |}
        else
          (* ready signal, then the file count *)
          let '(file_msg, inc1) := receive_message (incoming e) in
          if no_message file_msg
          then {| after := st; sent := [ready]; unread := inc1; reply := NoReply |}
          else
            let file_count :=
              default (JNum 0) (default ∅ file_msg !! "file_count") in
            if bool_decide (file_count = JNum 0)
            then {| after := st; sent := [ready]; unread := inc1;
                    reply := Reply (failure "No files to upload") |}
            else
              let temp_dir :=
                path_join (upload_dir cfg) ("temp_" +:+ take_str 8 (uuid4 e)) in
              let st1 := {| fs := makedirs (fs st) temp_dir; db := db st |} in
              let '(st2, inc2, ended) :=
                upload_attempt cfg e st1 s game_name file_count temp_dir inc1 in
              match ended with
              | inr msg =>
                  {| after := st2; sent := [ready]; unread := inc2;
                     reply := Reply [("success", RBool true); ("message", RStr msg)] |}
              | inl msg =>
                  (* cleanup on error *)
                  {| after := {| fs := rmtree_if_exists (fs st2) temp_dir;
                                 db := db st2 |};
                     sent := [ready]; unread := inc2;
                     reply := Reply (failure msg) |}
              end
  end.

End Gateway.
(** ** The Lobby ([server/lobby_server.py]) *)

Module Lobby.
Import Catalog Package Server.

Inductive room_status := waiting | in_game.

#[global] Instance room_status_eq_dec : EqDecision room_status.
Proof. solve_decision. Defined.

Definition status_name (s : room_status) : string :=
  match s with
  | waiting => "waiting"
  | in_game => "in_game"
  end.

(** A room record.  [game_process] is the child's pid and [game_log_file]
    the handle of its log; an absent key and [None] are both [None]. *)
Record room := {
  room_id : string;
  game_name : jval;
  game_id : jval;
  version : jval;
  host_id : jval;
  host_name : jval;
  players : list jval;
  max_players : jval;
  status : room_status;
  game_process : option nat;
  game_port : option Z;
  game_log_file : option nat
}.

(** An entry of [self.sessions]; [protocol] is the connection. *)
Record session_entry := {
  entry_username : string;
  protocol : nat
}.

(** The Lobby object, with the side of the operating system it acts on:
    the log handles it has opened and not closed, the children it has
    spawned and the children it has sent [terminate()]. *)
Record lobby := {
  sessions : gmap jval session_entry;
  rooms : list (string * room);
  next_game_port : Z;
  open_files : list nat;
  next_file : nat;
  children : list (nat * list string);
  terminated : list nat
}.

Definition init : lobby :=
  {| sessions := ∅; rooms := []; next_game_port := 5000;
     open_files := []; next_file := 0; children := []; terminated := [] |}.

(** How the launch of a game server goes: opening the log fails, [Popen]
    fails, the child has exited when polled after 0.3 s, or it runs. *)
Inductive launch :=
| OpenFails (e : string)
| PopenFails (e : string)
| ExitsEarly (exit_code : Z)
| Runs.

(** What one request draws from outside the Lobby. *)
Record env := {
  db : catalog;                    (* the Catalog when the request arrives *)
  link : nat → link;               (* the fate of its k-th Catalog round trip *)
  dbe : nat → db_env;              (* what the Catalog draws on that trip *)
  uuid4 : string;                  (* str(uuid.uuid4()) *)
  fs : filesystem;                 (* the upload directory *)
  poll : nat → nat → option Z;     (* the k-th [poll()] of a child, by pid *)
  can_bind : Z → bool;             (* whether a port can be bound now *)
  launched : launch
}.

(** *** Field updates *)

Definition set_players (ps : list jval) (r : room) : room :=
  {| room_id := room_id r; game_name := game_name r; game_id := game_id r;
     version := version r; host_id := host_id r; host_name := host_name r;
     players := ps; max_players := max_players r; status := status r;
     game_process := game_process r; game_port := game_port r;
     game_log_file := game_log_file r |}.

Definition set_host_id (h : jval) (r : room) : room :=
  {| room_id := room_id r; game_name := game_name r; game_id := game_id r;
     version := version r; host_id := h; host_name := host_name r;
     players := players r; max_players := max_players r; status := status r;
     game_process := game_process r; game_port := game_port r;
     game_log_file := game_log_file r |}.

Definition set_host_name (n : jval) (r : room) : room :=
  {| room_id := room_id r; game_name := game_name r; game_id := game_id r;
     version := version r; host_id := host_id r; host_name := n;
     players := players r; max_players := max_players r; status := status r;
     game_process := game_process r; game_port := game_port r;
     game_log_file := game_log_file r |}.

Definition set_version (v : jval) (r : room) : room :=
  {| room_id := room_id r; game_name := game_name r; game_id := game_id r;
     version := v; host_id := host_id r; host_name := host_name r;
     players := players r; max_players := max_players r; status := status r;
     game_process := game_process r; game_port := game_port r;
     game_log_file := game_log_file r |}.

(** [status = 'waiting'; game_process = None; game_port = None;
    game_log_file = None] *)
Definition reset_room (r : room) : room :=
  {| room_id := room_id r; game_name := game_name r; game_id := game_id r;
     version := version r; host_id := host_id r; host_name := host_name r;
     players := players r; max_players := max_players r; status := waiting;
     game_process := None; game_port := None; game_log_file := None |}.

(** The reset after a crash on startup, which leaves [game_log_file]. *)
Definition reset_crashed (r : room) : room :=
  {| room_id := room_id r; game_name := game_name r; game_id := game_id r;
     version := version r; host_id := host_id r; host_name := host_name r;
     players := players r; max_players := max_players r; status := waiting;
     game_process := None; game_port := None;
     game_log_file := game_log_file r |}.

Definition set_running (pid : nat) (port : Z) (log : nat) (r : room) : room :=
  {| room_id := room_id r; game_name := game_name r; game_id := game_id r;
     version := version r; host_id := host_id r; host_name := host_name r;
     players := players r; max_players := max_players r; status := in_game;
     game_process := Some pid; game_port := Some port;
     game_log_file := Some log |}.

Definition set_sessions (x : gmap jval session_entry) (L : lobby) : lobby :=
  {| sessions := x; rooms := rooms L; next_game_port := next_game_port L;
     open_files := open_files L; next_file := next_file L;
     children := children L; terminated := terminated L |}.

Definition set_rooms (x : list (string * room)) (L : lobby) : lobby :=
  {| sessions := sessions L; rooms := x; next_game_port := next_game_port L;
     open_files := open_files L; next_file := next_file L;
     children := children L; terminated := terminated L |}.

Definition set_next_game_port (p : Z) (L : lobby) : lobby :=
  {| sessions := sessions L; rooms := rooms L; next_game_port := p;
     open_files := open_files L; next_file := next_file L;
     children := children L; terminated := terminated L |}.

(** *** The operating system *)

(** [process.terminate()] *)
Definition terminate (pid : nat) (L : lobby) : lobby :=
  {| sessions := sessions L; rooms := rooms L; next_game_port := next_game_port L;
     open_files := open_files L; next_file := next_file L;
     children := children L; terminated := terminated L ++ [pid] |}.

(** [open(log_file_path, 'w')]: a new handle. *)
Definition open_log (L : lobby) : nat * lobby :=
  (next_file L,
   {| sessions := sessions L; rooms := rooms L; next_game_port := next_game_port L;
      open_files := open_files L ++ [next_file L]; next_file := S (next_file L);
      children := children L; terminated := terminated L |}).

(** [log_file.close()] *)
Definition close_file (h : nat) (L : lobby) : lobby :=
  {| sessions := sessions L; rooms := rooms L; next_game_port := next_game_port L;
     open_files := filter (fun h' => h' ≠ h) (open_files L);
     next_file := next_file L;
     children := children L; terminated := terminated L |}.

(** [subprocess.Popen(command, ...)]: the pid of the new child. *)
Definition popen (command : list string) (L : lobby) : nat * lobby :=
  (length (children L),
   {| sessions := sessions L; rooms := rooms L; next_game_port := next_game_port L;
      open_files := open_files L; next_file := next_file L;
      children := children L ++ [(length (children L), command)];
      terminated := terminated L |}).

(** [if room.get('game_process'): room['game_process'].terminate()] *)
Definition terminate_game (r : room) (L : lobby) : lobby :=
  match game_process r with
  | Some pid => terminate pid L
  | None => L
  end.

(** [if room.get('game_log_file'): room['game_log_file'].close()] *)
Definition close_log (r : room) (L : lobby) : lobby :=
  match game_log_file r with
  | Some h => close_file h L
  | None => L
  end.

(** *** Port allocation *)

(** [range(lo, hi)] *)
Definition range (lo hi : Z) : list Z := seqZ lo (hi - lo).

Definition _find_available_port (can_bind : Z → bool) (L : lobby)
    : option Z * lobby :=
  match list_find (fun port => can_bind port = true)
                  (range (next_game_port L) 5100) with
  | Some (_, port) => (Some port, set_next_game_port (port + 1) L)
  | None => (None, set_next_game_port 5000 L)
  end.

Definition no_ports : string := "No available ports in range 5000-5100".

(** *** Rooms *)

(** [l.remove(x)]: the first occurrence. *)
Fixpoint remove_first (x : jval) (l : list jval) : list jval :=
  match l with
  | [] => []
  | y :: l' => if decide (x = y) then l' else y :: remove_first x l'
  end.

(** The first room, in the order of [self.rooms], that holds the user, and
    its position. *)
Definition room_of (uid : jval) (rs : list (string * room))
    : option (nat * (string * room)) :=
  list_find (fun kr => uid ∈ players kr.2) rs.

(** The room at a position mutated in place. *)
Definition set_room (i : nat) (rid : string) (r : room) (L : lobby) : lobby :=
  set_rooms (<[i := (rid, r)]> (rooms L)) L.

(** [del self.rooms[room_id]] for the room at a position. *)
Definition del_room (i : nat) (L : lobby) : lobby :=
  set_rooms (delete i (rooms L)) L.

(** One turn of the loop of [_remove_user_from_all_rooms]: the room as the
    loop leaves it ([None] when deleted) and the child it terminates. *)
Definition remove_user_from_room (ss : gmap jval session_entry) (uid : jval)
    (r : room) : option room * option nat :=
  if bool_decide (uid ∈ players r)
  then
    match remove_first uid (players r) with
    | [] => (None, game_process r)
    | p0 :: ps =>
        if bool_decide (uid = host_id r)
        then
          let r1 := set_host_id p0 (set_players (p0 :: ps) r) in
          match ss !! p0 with
          | Some se => (Some (set_host_name (JStr (entry_username se)) r1), None)
          | None => (Some r1, None)
          end
        else (Some (set_players (p0 :: ps) r), None)
    end
  else (Some r, None).

Fixpoint remove_user_from_rooms (ss : gmap jval session_entry) (uid : jval)
    (rs : list (string * room)) : list (string * room) * list nat :=
  match rs with
  | [] => ([], [])
  | (rid, r) :: rest =>
      let '(r', killed) := remove_user_from_room ss uid r in
      let '(rest', killed') := remove_user_from_rooms ss uid rest in
      (match r' with
       | Some r1 => (rid, r1) :: rest'
       | None => rest'
       end,
       option_list killed ++ killed')
  end.

Definition _remove_user_from_all_rooms (uid : jval) (L : lobby) : lobby :=
  let '(rs, killed) := remove_user_from_rooms (sessions L) uid (rooms L) in
  foldl (fun L' pid => terminate pid L') (set_rooms rs L) killed.

Definition _cleanup_session (s : session) (L : lobby) : lobby :=
  _remove_user_from_all_rooms (user_id s)
    (set_sessions (delete (user_id s) (sessions L)) L).

(** [process_ended] as [leave_room] and [check_game_status] compute it:
    one [poll()]. *)
Definition process_ended (e : env) (r : room) : bool :=
  match game_process r with
  | Some pid => bool_decide (is_Some (poll e pid 0))
  | None => true
  end.

(** [process_ended] as [start_game] computes it: up to ten [poll()]s. *)
Definition process_ended_retry (e : env) (r : room) : bool :=
  match game_process r with
  | Some pid => existsb (fun k => bool_decide (is_Some (poll e pid k))) (seq 0 10)
  | None => true
  end.

Definition ok_message (msg : string) : response :=
  [("success", RBool true); ("message", RStr msg)].

Definition port_value (p : option Z) : jval :=
  match p with
  | Some n => JNum n
  | None => JNull
  end.

Definition game_server (cfg : config) (p : option Z) : rval :=
  RDoc (<["host" := JStr (advertise_host cfg)]> (<["port" := port_value p]> ∅)).

Definition _handle_leave_room (e : env) (s : session) (L : lobby)
    : lobby * outcome :=
  match room_of (user_id s) (rooms L) with
  | None => (L, Reply (failure "Not in any room"))
  | Some (i, (rid, r)) =>
      match remove_first (user_id s) (players r) with
      | [] =>
          (* empty room, delete it *)
          (del_room i (close_log r (terminate_game r L)),
           Reply (ok_message "Left room"))
      | p0 :: ps =>
          if bool_decide (user_id s = host_id r)
          then
            (* host left, assign new host *)
            let r1 := set_host_id p0 (set_players (p0 :: ps) r) in
            match sessions L !! p0 with
            | None => (set_room i rid r1 L, key_error (py_str p0))
            | Some se =>
                let r2 := set_host_name (JStr (entry_username se)) r1 in
                if bool_decide (status r2 = in_game) && process_ended e r2
                then (set_room i rid (reset_room r2) (close_log r2 L),
                      Reply (ok_message "Left room"))
                else (set_room i rid r2 L, Reply (ok_message "Left room"))
            end
          else (set_room i rid (set_players (p0 :: ps) r) L,
                Reply (ok_message "Left room"))
      end
  end.

Definition _handle_check_game_status (cfg : config) (e : env) (s : session)
    (L : lobby) : lobby * outcome :=
  match room_of (user_id s) (rooms L) with
  | None => (L, Reply [("success", RBool true); ("game_started", RBool false)])
  | Some (i, (rid, r)) =>
      let is_host := bool_decide (user_id s = host_id r) in
      match status r with
      | in_game =>
          if process_ended e r
          then
            (* the game process has exited, reset the room to waiting *)
            (set_room i rid (reset_room r) (close_log r L),
             Reply [("success", RBool true); ("game_started", RBool false)])
          else
            (L, Reply [("success", RBool true);
                       ("game_started", RBool true);
                       ("game_server", game_server cfg (game_port r));
                       ("game_name", RVal (game_name r));
                       ("version", RVal (version r));
                       ("room_id", RStr (room_id r));
                       ("host_id", RVal (host_id r));
                       ("host_name", RVal (host_name r));
                       ("is_host", RBool is_host);
                       ("status", RStr (status_name (status r)))])
      | waiting =>
          (L, Reply [("success", RBool true);
                     ("game_started", RBool false);
                     ("room_id", RStr (room_id r));
                     ("host_id", RVal (host_id r));
                     ("host_name", RVal (host_name r));
                     ("is_host", RBool is_host);
                     ("status", RStr (status_name (status r)))])
      end
  end.

Definition _handle_end_game (e : env) (s : session) (L : lobby)
    : lobby * outcome :=
  match room_of (user_id s) (rooms L) with
  | None => (L, Reply (ok_message "Not in any room"))
  | Some (i, (rid, r)) =>
      match status r with
      | waiting => (L, Reply (ok_message "Game not in progress"))
      | in_game =>
          (* terminate the game process if still running *)
          let L1 :=
            match game_process r with
            | Some pid =>
                match poll e pid 0 with
                | None => terminate pid L
                | Some _ => L
                end
            | None => L
            end in
          (set_room i rid (reset_room r) (close_log r L1),
           Reply (ok_message "Game ended, room reset to waiting"))
      end
  end.

Definition active_game_by_name (game_name : jval) : doc :=
  <["name" := game_name]> (<["status" := JStr "active"]> ∅).

Definition new_room (rid : string) (game_name gid latest maxp : jval)
    (s : session) : room :=
  {| room_id := rid; game_name := game_name; game_id := gid;
     version := latest; host_id := user_id s; host_name := username s;
     players := [user_id s]; max_players := maxp; status := waiting;
     game_process := None; game_port := None; game_log_file := None |}.

Definition _handle_create_room (e : env) (s : session) (request : doc)
    (L : lobby) : lobby * outcome :=
  match request !! "game_name" with
  | Some game_name =>
      if negb (truthy game_name)
      then (L, Reply (failure "Game name required"))
      else
        (* remove from any existing rooms *)
        let L1 := _remove_user_from_all_rooms (user_id s) L in
        let game_result :=
          (_db_request (link e 0) (dbe e 0) (db e)
             (find_one_req "Game" (active_game_by_name game_name))).2 in
        match game_result with
        | DbError _ => (L1, Reply (failure "Game not found"))
        | DbResult game =>
            let rid := take_str 8 (uuid4 e) in
            match game !! "_id", game !! "latest_version", game !! "max_players" with
            | Some gid, Some latest, Some maxp =>
                (set_rooms
                   (dict_set rid (new_room rid game_name gid latest maxp s) (rooms L1))
                   L1,
                 Reply [("success", RBool true);
                        ("room_id", RStr rid);
                        ("message", RStr ("Room created for " +:+ py_str game_name));
                        ("is_host", RBool true)])
            | None, _, _ => (L1, key_error "_id")
            | _, None, _ => (L1, key_error "latest_version")
            | _, _, None => (L1, key_error "max_players")
            end
        | _ => (L1, key_error "result")
        end
  | None => (L, Reply (failure "Game name required"))
  end.

(** [self.rooms.get(room_id)] for a key taken from a request: the keys of
    [self.rooms] are strings, so no other value is among them. *)
Definition lookup_room (room_id : jval) (rs : list (string * room))
    : option (string * room) :=
  match room_id with
  | JStr rid => pair rid <$> dict_get rid rs
  | _ => None
  end.

Definition _handle_join_room (s : session) (request : doc) (L : lobby)
    : lobby * outcome :=
  match request !! "room_id" with
  | Some room_id =>
      if negb (truthy room_id)
      then (L, Reply (failure "Room ID required"))
      else
        (* remove from any existing rooms *)
        let L1 := _remove_user_from_all_rooms (user_id s) L in
        match lookup_room room_id (rooms L1) with
        | None => (L1, Reply (failure "Room not found"))
        | Some (rid, r) =>
            if bool_decide (status r ≠ waiting)
            then (L1, Reply (failure "Room is not accepting players"))
            else
              (* [len(room['players']) >= room['max_players']]: an
                 integer is compared; [None] and a string raise *)
              match max_players r with
              | JNum m =>
                  if (m <=? Z.of_nat (length (players r)))%Z
                  then (L1, Reply (failure "Room is full"))
                  else if bool_decide (user_id s ∈ players r)
                  then (L1, Reply (failure "Already in room"))
                  else
                    (set_rooms
                       (dict_set rid (set_players (players r ++ [user_id s]) r)
                          (rooms L1))
                       L1,
                     Reply [("success", RBool true);
                            ("room_id", RVal room_id);
                            ("game_name", RVal (game_name r));
                            ("is_host", RBool false)])
              | _ => (L1, Raise "TypeError: >= not supported")
              end
        end
  | None => (L, Reply (failure "Room ID required"))
  end.

(** The command line of the game server: [start_command] (default
    [python]), the entry point under the package directory, and the
    arguments with [{PORT}] and [{NUM_PLAYERS}] filled in. *)
Definition server_command (game_dir entry : string) (server_config : program)
    (game_port : Z) (num_players : nat) : list string :=
  default "python" (start_command server_config)
  :: path_join game_dir entry
  :: ((fun arg => replace "{NUM_PLAYERS}" (pretty num_players)
                     (replace "{PORT}" (pretty game_port) arg))
        <$> default [] (arguments server_config)).

Definition started (cfg : config) (game_port : Z) (r : room) : response :=
  [("success", RBool true);
   ("game_server", game_server cfg (Some game_port));
   ("game_name", RVal (game_name r));
   ("version", RVal (version r))].

(** [_handle_start_game] from the port allocation on. *)
Definition launch_game (cfg : config) (e : env) (i : nat) (rid : string)
    (r : room) (game_dir : string) (game_info : manifest) (L : lobby)
    : lobby * outcome :=
  match _find_available_port (can_bind e) L with
  | (None, L1) =>
      (L1, Reply (failure ("No available ports: " +:+ no_ports)))
  | (Some game_port, L1) =>
      match server game_info with
      | None => (L1, key_error "server")
      | Some server_config =>
          match entry_point server_config with
          | None => (L1, key_error "entry_point")
          | Some entry =>
              let command :=
                server_command game_dir entry server_config game_port
                  (length (players r)) in
              match launched e with
              | OpenFails msg =>
                  (L1, Reply (failure ("Failed to start server: " +:+ msg)))
              | PopenFails msg =>
                  let '(_, L2) := open_log L1 in
                  (L2, Reply (failure ("Failed to start server: " +:+ msg)))
              | ExitsEarly exit_code =>
                  let '(log_file, L2) := open_log L1 in
                  let '(_, L3) := popen command L2 in
                  (* the game server crashed immediately *)
                  (set_room i rid (reset_crashed r) (close_file log_file L3),
                   Reply (failure ("Game server crashed on startup (exit "
                                   +:+ pretty exit_code
                                   +:+ "). Check server logs.")))
              | Runs =>
                  let '(log_file, L2) := open_log L1 in
                  let '(process, L3) := popen command L2 in
                  let r1 := set_running process game_port log_file r in
                  (set_room i rid r1 L3, Reply (started cfg game_port r1))
              end
          end
      end
  end.

(** [_handle_start_game] from the re-fetch of the Game on. *)
Definition fetch_and_launch (cfg : config) (e : env) (i : nat) (rid : string)
    (r : room) (L : lobby) : lobby * outcome :=
  let game_result :=
    (_db_request (link e 0) (dbe e 0) (db e)
       (find_one_req "Game"
          (<["_id" := game_id r]> (<["status" := JStr "active"]> ∅)))).2 in
  match game_result with
  | DbError _ => (L, Reply (failure "Game not found"))
  | DbResult game =>
      match game !! "latest_version" with
      | None => (L, key_error "latest_version")
      | Some latest_version =>
          (* update the room to the latest version *)
          let r1 := set_version latest_version r in
          let L1 := set_room i rid r1 L in
          let version_result :=
            (_db_request (link e 1) (dbe e 1) (db e)
               (find_one_req "Version"
                  (<["game_id" := game_id r1]>
                     (<["version" := latest_version]> ∅)))).2 in
          match version_result with
          | DbError _ => (L1, Reply (failure "Game version not found"))
          | DbResult version_info =>
              match version_info !! "file_path" with
              | Some (JStr file_path) =>
                  let game_dir := path_join (upload_dir cfg) file_path in
                  match read_file (fs e) game_dir "game_info.json" with
                  | None => (L1, Raise "FileNotFoundError: game_info.json")
                  | Some text =>
                      match json_load cfg text with
                      | ParseError msg => (L1, Raise ("JSONDecodeError: " +:+ msg))
                      | Parsed game_info =>
                          launch_game cfg e i rid r1 game_dir game_info L1
                      end
                  end
              | Some _ => (L1, Raise "TypeError: join")
              | None => (L1, key_error "file_path")
              end
          | _ => (L1, key_error "result")
          end
      end
  | _ => (L, key_error "result")
  end.

Definition _handle_start_game (cfg : config) (e : env) (s : session)
    (L : lobby) : lobby * outcome :=
  match room_of (user_id s) (rooms L) with
  | None => (L, Reply (failure "Not in any room"))
  | Some (i, (rid, r)) =>
      if bool_decide (host_id r ≠ user_id s)
      then (L, Reply (failure "Only host can start game"))
      else
        match status r with
        | in_game =>
            if process_ended_retry e r
            then
              (* the game ended, reset to waiting *)
              fetch_and_launch cfg e i rid (reset_room r)
                (set_room i rid (reset_room r) (close_log r L))
            else (L, Reply (failure "Game already started"))
        | waiting => fetch_and_launch cfg e i rid r L
        end
  end.

Definition _handle_list_games (e : env) : outcome :=
  match (_db_request (link e 0) (dbe e 0) (db e)
           (find_req "Game" (<["status" := JStr "active"]> ∅))).2 with
  | DbError _ => Reply (failure "Failed to fetch games")
  | DbResults games => Reply [("success", RBool true); ("games", RDocs games)]
  | _ => key_error "results"
  end.

(** [sum(r['rating'] for r in reviews)]: [None] when a rating is missing or
    is not a number. *)
Fixpoint sum_ratings (reviews : list doc) : option Z :=
  match reviews with
  | [] => Some 0%Z
  | r :: rest =>
      match r !! "rating", sum_ratings rest with
      | Some (JNum n), Some total => Some (n + total)%Z
      | _, _ => None
      end
  end.

Definition _handle_game_info (e : env) (request : doc) : outcome :=
  match request !! "game_name" with
  | Some game_name =>
      if negb (truthy game_name)
      then Reply (failure "Game name required")
      else
        match (_db_request (link e 0) (dbe e 0) (db e)
                 (find_one_req "Game" (active_game_by_name game_name))).2 with
        | DbError _ => Reply (failure "Game not found")
        | DbResult game =>
            match game !! "_id" with
            | None => key_error "_id"
            | Some gid =>
                let reviews :=
                  match (_db_request (link e 1) (dbe e 1) (db e)
                           (find_req "Review" (<["game_id" := gid]> ∅))).2 with
                  | DbResults rs => rs
                  | _ => []
                  end in
                match sum_ratings reviews with
                | None => Raise "TypeError: sum of ratings"
                | Some total =>
                    Reply [("success", RBool true);
                           ("game", RDoc game);
                           ("reviews", RDocs (take 10 reviews));
                           ("avg_rating", RAvg total (length reviews));
                           ("review_count", RNum (Z.of_nat (length reviews)))]
                end
            end
        | _ => key_error "result"
        end
  | None => Reply (failure "Game name required")
  end.

(** What the Lobby puts on a connection besides replies. *)
Inductive out_frame :=
| OutMessage (m : response)
| OutFile (content : string).

Definition file_frames (d : dir) : list out_frame :=
  d ≫= (fun f =>
          [OutMessage [("path", RStr f.1);
                       ("size", RNum (Z.of_nat (String.length f.2)))];
           OutFile f.2]).

Definition _handle_download_game (cfg : config) (e : env) (request : doc)
    : list out_frame * outcome :=
  match request !! "game_name" with
  | Some game_name =>
      if negb (truthy game_name)
      then ([], Reply (failure "Game name required"))
      else
        match (_db_request (link e 0) (dbe e 0) (db e)
                 (find_one_req "Game" (active_game_by_name game_name))).2 with
        | DbError _ => ([], Reply (failure "Game not found"))
        | DbResult game =>
            match game !! "latest_version", game !! "_id" with
            | Some version, Some gid =>
                match (_db_request (link e 1) (dbe e 1) (db e)
                         (find_one_req "Version"
                            (<["game_id" := gid]> (<["version" := version]> ∅)))).2 with
                | DbError _ => ([], Reply (failure "Version not found"))
                | DbResult version_info =>
                    match version_info !! "file_path" with
                    | Some (JStr file_path) =>
                        let game_dir := path_join (upload_dir cfg) file_path in
                        match fs e !! game_dir with
                        | None => ([], Reply (failure "Game files not found"))
                        | Some d =>
                            let files := get_game_files (fs e) game_dir in
                            (OutMessage
                               [("success", RBool true);
                                ("version", RVal version);
                                ("message",
                                 RStr ("Sending " +:+ pretty (length files)
                                       +:+ " files..."))]
                             :: OutMessage
                                  [("file_count", RNum (Z.of_nat (length files)))]
                             :: file_frames d,
                             NoReply)
                        end
                    | Some _ => ([], Raise "TypeError: join")
                    | None => ([], key_error "file_path")
                    end
                | _ => ([], key_error "result")
                end
            | None, _ => ([], key_error "latest_version")
            | _, None => ([], key_error "_id")
            end
        | _ => ([], key_error "result")
        end
  | None => ([], Reply (failure "Game name required"))
  end.

Definition room_summary (kr : string * room) : doc :=
  <["room_id" := JStr kr.1]> (
  <["game_name" := game_name kr.2]> (
  <["version" := version kr.2]> (
  <["host" := host_name kr.2]> (
  <["players" := JNum (Z.of_nat (length (players kr.2)))]> (
  <["max_players" := max_players kr.2]> (
  <["status" := JStr (status_name (status kr.2))]> ∅)))))).

Definition _handle_list_rooms (L : lobby) : outcome :=
  Reply [("success", RBool true); ("rooms", RDocs (room_summary <$> rooms L))].

Definition review_record (gid : jval) (s : session) (rating comment : jval) : doc :=
  <["game_id" := gid]> (
  <["player_id" := user_id s]> (
  <["player_name" := username s]> (
  <["rating" := rating]> (
  <["comment" := comment]> ∅)))).

Definition _handle_submit_review (e : env) (s : session) (request : doc)
    : catalog * outcome :=
  let game_name := request !! "game_name" in
  let rating := default JNull (request !! "rating") in
  let comment := default (JStr EmptyString) (request !! "comment") in
  if falsy_opt game_name || bool_decide (rating = JNull)
  then (db e, Reply (failure "Game name and rating required"))
  else
    match rating with
    | JNum n =>
        if negb ((1 <=? n)%Z && (n <=? 5)%Z)
        then (db e, Reply (failure "Rating must be 1-5"))
        else
          (* get the game: by name alone *)
          match (_db_request (link e 0) (dbe e 0) (db e)
                   (find_one_req "Game"
                      (<["name" := default JNull game_name]> ∅))).2 with
          | DbError _ => (db e, Reply (failure "Game not found"))
          | DbResult game =>
              match game !! "_id" with
              | None => (db e, key_error "_id")
              | Some gid =>
                  (* save the review *)
                  let '(db1, result) :=
                    _db_request (link e 1) (dbe e 1) (db e)
                      (insert_req "Review" (review_record gid s rating comment)) in
                  if success result
                  then (db1, Reply (ok_message "Review submitted"))
                  else (db1, Reply (failure "Failed to submit review"))
              end
          | _ => (db e, key_error "result")
          end
    | _ => (db e, Raise "TypeError: <= not supported")
    end.

Definition player_by_name (username : string) : doc :=
  <["username" := JStr username]> (<["account_type" := JStr "player"]> ∅).

Definition _handle_register (cfg : config) (e : env) (request : doc)
    : catalog * outcome :=
  match get_stripped request "username", get_stripped request "password" with
  | Some username, Some password =>
      if bool_decide (username = EmptyString) || bool_decide (password = EmptyString)
      then (db e, Reply (failure "Username and password required"))
      else
        let check :=
          (_db_request (link e 0) (dbe e 0) (db e)
             (find_one_req "User" (player_by_name username))).2 in
        if success check
        then (db e, Reply (failure "Username already exists"))
        else
          let '(db1, result) :=
            _db_request (link e 1) (dbe e 1) (db e)
              (insert_req "User"
                 (<["username" := JStr username]> (
                  <["password_hash" := JStr (hash_password cfg password)]> (
                  <["account_type" := JStr "player"]> ∅)))) in
          if success result
          then (db1, Reply (ok_message "Player account created"))
          else (db1, Reply (failure "Registration failed"))
  | _, _ => (db e, Raise "AttributeError: strip")
  end.

Definition _handle_login (cfg : config) (e : env) (conn : nat) (s : session)
    (request : doc) (L : lobby) : lobby * session * outcome :=
  match get_stripped request "username", get_stripped request "password" with
  | Some username, Some password =>
      if bool_decide (username = EmptyString) || bool_decide (password = EmptyString)
      then (L, s, Reply (failure "Username and password required"))
      else
        (* find the user *)
        match (_db_request (link e 0) (dbe e 0) (db e)
                 (find_one_req "User" (player_by_name username))).2 with
        | DbError _ => (L, s, Reply (failure "Invalid username or password"))
        | DbResult user =>
            match user !! "password_hash" with
            | None => (L, s, key_error "password_hash")
            | Some h =>
                if bool_decide (h ≠ JStr (hash_password cfg password))
                then (L, s, Reply (failure "Invalid username or password"))
                else
                  match user !! "_id" with
                  | None => (L, s, key_error "_id")
                  | Some uid =>
                      (* check if already logged in *)
                      if bool_decide (is_Some (sessions L !! uid))
                      then (L, s, Reply (failure "Account already logged in"))
                      else
                        match user !! "username" with
                        | None =>
                            (L,
                             {| logged_in := true; user_id := uid;
                                username := Server.username s |},
                             key_error "username")
                        | Some name =>
                            (set_sessions
                               (<[uid := {| entry_username := username;
                                            protocol := conn |}]> (sessions L))
                               L,
                             {| logged_in := true; user_id := uid;
                                username := name |},
                             Reply (ok_message ("Welcome " +:+ username +:+ "!")))
                        end
                  end
            end
        | _ => (L, s, key_error "result")
        end
  | _, _ => (L, s, Raise "AttributeError: strip")
  end.

(** What handling one request leaves behind. *)
Record handled := {
  lobby_after : lobby;
  session_after : session;
  db_after : catalog;
  sent : list out_frame;
  reply : outcome
}.

Definition on_lobby (e : env) (s : session) (r : lobby * outcome) : handled :=
  {| lobby_after := r.1; session_after := s; db_after := db e; sent := [];
     reply := r.2 |}.

Definition on_catalog (s : session) (L : lobby) (r : catalog * outcome) : handled :=
  {| lobby_after := L; session_after := s; db_after := r.1; sent := [];
     reply := r.2 |}.

Definition _process_request (cfg : config) (e : env) (conn : nat) (s : session)
    (request : doc) (L : lobby) : handled :=
  let action := request !! "action" in
  (* auth actions *)
  if bool_decide (action = Some (JStr "register"))
  then on_catalog s L (_handle_register cfg e request)
  else if bool_decide (action = Some (JStr "login"))
  then
    let '(L1, s1, r) := _handle_login cfg e conn s request L in
    {| lobby_after := L1; session_after := s1; db_after := db e; sent := [];
       reply := r |}
  (* protected actions *)
  else if negb (logged_in s)
  then on_lobby e s (L, Reply (failure "Not logged in"))
  else if bool_decide (action = Some (JStr "list_games"))
  then on_lobby e s (L, _handle_list_games e)
  else if bool_decide (action = Some (JStr "game_info"))
  then on_lobby e s (L, _handle_game_info e request)
  else if bool_decide (action = Some (JStr "download_game"))
  then
    let '(out, r) := _handle_download_game cfg e request in
    {| lobby_after := L; session_after := s; db_after := db e; sent := out;
       reply := r |}
  else if bool_decide (action = Some (JStr "list_rooms"))
  then on_lobby e s (L, _handle_list_rooms L)
  else if bool_decide (action = Some (JStr "create_room"))
  then on_lobby e s (_handle_create_room e s request L)
  else if bool_decide (action = Some (JStr "join_room"))
  then on_lobby e s (_handle_join_room s request L)
  else if bool_decide (action = Some (JStr "leave_room"))
  then on_lobby e s (_handle_leave_room e s L)
  else if bool_decide (action = Some (JStr "start_game"))
  then on_lobby e s (_handle_start_game cfg e s L)
  else if bool_decide (action = Some (JStr "check_game_status"))
  then on_lobby e s (_handle_check_game_status cfg e s L)
  else if bool_decide (action = Some (JStr "end_game"))
  then on_lobby e s (_handle_end_game e s L)
  else if bool_decide (action = Some (JStr "submit_review"))
  then on_catalog s L (_handle_submit_review e s request)
  else if bool_decide (action = Some (JStr "logout"))
  then
    {| lobby_after := _cleanup_session s L;
       session_after := {| logged_in := false; user_id := user_id s;
                           username := username s |};
       db_after := db e; sent := [];
       reply := Reply [("success", RBool true)] |}
  else on_lobby e s (L, Reply (failure "Unknown action")).

(** *** The client loops *)

(** The Lobby and the sessions of the connections being served. *)
Record world := {
  the_lobby : lobby;
  conns : gmap nat session
}.

Definition start : world := {| the_lobby := init; conns := ∅ |}.

(** What happens to the Lobby: a client connects, a message of a client
    arrives (the empty object ends the loop like the end of the
    connection), a connection ends. *)
Inductive event :=
| Connect (conn : nat)
| Request (conn : nat) (request : doc) (e : env)
| Disconnect (conn : nat).

(** The [finally] of [_handle_client]. *)
Definition finish (conn : nat) (s : session) (L : lobby) (cs : gmap nat session)
    : world :=
  {| the_lobby := if logged_in s then _cleanup_session s L else L;
     conns := delete conn cs |}.

Definition _handle_client (cfg : config) (w : world) (ev : event) : world :=
  match ev with
  | Connect conn =>
      match conns w !! conn with
      | Some _ => w
      | None => {| the_lobby := the_lobby w;
                   conns := <[conn := new_session]> (conns w) |}
      end
  | Request conn request e =>
      match conns w !! conn with
      | None => w
      | Some s =>
          if bool_decide (request = ∅)
          then
            (* [if not message: break] *)
            finish conn s (the_lobby w) (conns w)
          else
            let h := _process_request cfg e conn s request (the_lobby w) in
            match reply h with
            | Raise _ => finish conn (session_after h) (lobby_after h) (conns w)
            | _ => {| the_lobby := lobby_after h;
                      conns := <[conn := session_after h]> (conns w) |}
            end
      end
  | Disconnect conn =>
      match conns w !! conn with
      | None => w
      | Some s => finish conn s (the_lobby w) (conns w)
      end
  end.

(** The states of the Lobby that a run of events reaches when every
    message is handled to its end before the next event; [Threads.run]
    has the schedules on which the lock sections of two handlers
    interleave. *)
Definition run (cfg : config) (evs : list event) : world :=
  foldl (_handle_client cfg) start evs.

End Lobby.
(** ** A sample deployment

    Concrete data on which the handlers are run: two players, the game
    [chat] in two versions and its packages. *)

Module Sample.
Import Catalog Package Server.

Definition chat_server : program :=
  {| entry_point := Some "game_server.py";
     start_command := Some "python3";
     arguments := Some ["--port"; "{PORT}"; "--players"; "{NUM_PLAYERS}"] |}.

Definition chat_client : program :=
  {| entry_point := Some "game_client.py";
     start_command := Some "python3";
     arguments := Some ["--host"; "{HOST}"; "--port"; "{PORT}"] |}.

Definition chat_manifest (version : string) (max_players : Z) : manifest :=
  {| fields :=
       <["name" := JStr "chat"]> (
       <["version" := JStr version]> (
       <["description" := JStr "A chat room"]> (
       <["min_players" := JNum 2]> (
       <["max_players" := JNum max_players]> ∅))));
     server := Some chat_server;
     client := Some chat_client |}.

(** The texts of three manifests, and a decoder that knows them. *)
Definition chat_1_0_text : string := "chat 1.0 manifest".
Definition chat_1_1_text : string := "chat 1.1 manifest".
Definition solo_text : string := "solo manifest".

Definition decode (text : string) : parsed :=
  if bool_decide (text = chat_1_0_text) then Parsed (chat_manifest "1.0" 2)
  else if bool_decide (text = chat_1_1_text) then Parsed (chat_manifest "1.1" 4)
  else if bool_decide (text = solo_text) then Parsed (chat_manifest "1.0" 0)
  else ParseError "Expecting value: line 1 column 1 (char 0)".

Definition cfg : config :=
  {| upload_dir := "uploaded_games";
     logs_dir := "game_server_logs";
     advertise_host := "linux4.cs.nycu.edu.tw";
     hash_password := fun password => "sha256:" +:+ password;
     json_load := decode |}.

Definition chat_package (text : string) : dir :=
  [("game_info.json", text);
   ("game_server.py", "import socket");
   ("game_client.py", "import sys")].

Definition uploads : filesystem :=
  <["uploaded_games/chat_1.0" := chat_package chat_1_0_text]> (
  <["uploaded_games/chat_1.1" := chat_package chat_1_1_text]> ∅).

Definition player (id name password : string) : jval * doc :=
  (JStr id,
   <["_id" := JStr id]> (
   <["username" := JStr name]> (
   <["password_hash" := JStr (hash_password cfg password)]> (
   <["account_type" := JStr "player"]> (
   <["created_at" := JStr "2025-12-01T09:00:00"]> ∅))))).

Definition game (latest status : string) (max_players : Z) : jval * doc :=
  (JStr "g-chat",
   <["_id" := JStr "g-chat"]> (
   <["name" := JStr "chat"]> (
   <["developer_id" := JStr "u-alice"]> (
   <["developer_name" := JStr "alice"]> (
   <["latest_version" := JStr latest]> (
   <["description" := JStr "A chat room"]> (
   <["min_players" := JNum 2]> (
   <["max_players" := JNum max_players]> (
   <["status" := JStr status]> (
   <["created_at" := JStr "2025-12-01T10:00:00"]> ∅)))))))))).

Definition release (id version : string) : jval * doc :=
  (JStr id,
   <["_id" := JStr id]> (
   <["game_id" := JStr "g-chat"]> (
   <["version" := JStr version]> (
   <["file_path" := JStr ("chat_" +:+ version)]> (
   <["created_at" := JStr "2025-12-01T10:00:00"]> ∅))))).

(** The Catalog with the game as given and both releases on file. *)
Definition catalog_with (g : jval * doc) : catalog :=
  let s :=
    {| c_User := [player "u-bob" "bob" "hunter2"; player "u-carol" "carol" "s3cret"];
       c_Game := [g];
       c_Version := [release "v-1" "1.0"; release "v-2" "1.1"];
       c_Room := [];
       c_Review := [] |} in
  {| collections := s; files := s |}.

(** What the Catalog draws on the k-th round trip of a request: a uuid
    that differs from one round trip to the next, and the time. *)
Definition clock (k : nat) : db_env :=
  {| fresh_id := "7f3c2a10-9d0e-4c55-8a41-0d6e5b1c2f3" +:+ pretty k;
     now := "2025-12-17T18:30:00";
     disk_ok := true;
     cut_short := false |}.

(** A request served while the Catalog holds [c]: every round trip gets
    through, every port can be bound, the child to launch behaves as [l]
    and the running children poll as [p]. *)
Definition serving (c : catalog) (id : string) (l : Lobby.launch)
    (p : nat → nat → option Z) : Lobby.env :=
  {| Lobby.db := c;
     Lobby.link := fun _ => LinkUp;
     Lobby.dbe := clock;
     Lobby.uuid4 := id;
     Lobby.fs := uploads;
     Lobby.poll := p;
     Lobby.can_bind := fun _ => true;
     Lobby.launched := l |}.

Definition still_running : nat → nat → option Z := fun _ _ => None.
Definition exited : nat → nat → option Z := fun _ _ => Some 0%Z.

Definition chat_1_0 : catalog := catalog_with (game "1.0" "active" 2).
Definition chat_1_1 : catalog := catalog_with (game "1.1" "active" 4).
Definition chat_removed : catalog := catalog_with (game "1.1" "removed" 4).
Definition chat_solo : catalog := catalog_with (game "1.0" "active" 0).

Definition act (action : string) : doc := <["action" := JStr action]> ∅.

Definition login (name password : string) : doc :=
  <["username" := JStr name]> (<["password" := JStr password]> (act "login")).

Definition create_room (game_name : string) : doc :=
  <["game_name" := JStr game_name]> (act "create_room").

Definition join_room (rid : string) : doc :=
  <["room_id" := JStr rid]> (act "join_room").

Definition quiet (c : catalog) : Lobby.env :=
  serving c "00000000-0000-4000-8000-000000000000" Lobby.Runs still_running.

(** Bob logs in and creates a room for [chat] while the Catalog holds [c]. *)
Definition bob_creates (c : catalog) : list Lobby.event :=
  [Lobby.Connect 1;
   Lobby.Request 1 (login "bob" "hunter2") (quiet c);
   Lobby.Request 1 (create_room "chat")
     (serving c "3fa85f64-5717-4562-b3fc-2c963f66afa6" Lobby.Runs still_running)].

(** Bob creates a room and starts the game, whose server keeps running. *)
Definition bob_plays : list Lobby.event :=
  bob_creates chat_1_0 ++ [Lobby.Request 1 (act "start_game") (quiet chat_1_0)].

(** Alice's session at the Gateway and her upload of [chat] 1.0: the file
    count, then each file's header and frame. *)
Definition alice : session :=
  {| logged_in := true; user_id := JStr "u-alice"; username := JStr "alice" |}.

Definition header (path : string) : Gateway.frame :=
  Gateway.Message (<["path" := JStr path]> ∅).

Definition chat_frames (files : dir) : list Gateway.frame :=
  Gateway.Message (<["file_count" := JNum (Z.of_nat (length files))]> ∅)
  :: (files ≫= fun f => [header f.1; Gateway.File f.2]).

(** An upload during which the Catalog answers the name check, and the
    insert of the Game goes as [l]. *)
Definition uploading (l : link) (frames : list Gateway.frame) : Gateway.env :=
  {| Gateway.link := fun k => match k with 1%nat => l | _ => LinkUp end;
     Gateway.dbe := clock;
     Gateway.uuid4 := "9b2e4d1c-6a7f-4e0b-b1c3-5d8f0a2e7c94";
     Gateway.incoming := frames |}.

Definition nothing_uploaded : Gateway.state :=
  {| Gateway.fs := ∅; Gateway.db := Catalog.init |}.

Definition upload_chat : doc := <["game_name" := JStr "chat"]> (act "upload_game").

(** A package whose manifest names a server entry point that is not among
    the files. *)
Definition chat_without_server : dir :=
  [("game_info.json", chat_1_0_text); ("game_client.py", "import sys")].

Definition bob : session :=
  {| logged_in := true; user_id := JStr "u-bob"; username := JStr "bob" |}.

(** The Catalog with the two players and no game, and the Catalog after
    Alice has uploaded a package whose manifest declares [max_players] 0. *)
Definition players_only : catalog :=
  let s :=
    {| c_User := [player "u-bob" "bob" "hunter2"; player "u-carol" "carol" "s3cret"];
       c_Game := []; c_Version := []; c_Room := []; c_Review := [] |} in
  {| collections := s; files := s |}.

Definition solo_uploaded : catalog :=
  Gateway.db
    (Gateway.after
       (Gateway._handle_upload_game cfg
          (uploading LinkUp (chat_frames (chat_package solo_text)))
          {| Gateway.fs := ∅; Gateway.db := players_only |} alice upload_chat)).

(** The Game record that this upload inserts. *)
Definition game_as_uploaded (max_players : Z) : jval * doc :=
  (JStr (fresh_id (clock 1)),
   <["_id" := JStr (fresh_id (clock 1))]> (
   <["created_at" := JStr (now (clock 1))]> (
   Gateway.game_record alice "chat" (JStr "1.0") (chat_manifest "1.0" max_players)))).

End Sample.
(** ** The vocabulary of the statements *)

Module CatalogSpec.
Import Catalog.

(** No document of the collection matches the query. *)
Definition no_match (cl : coll) (q : doc) : Prop :=
  ∀ kd, kd ∈ cl → _match_query kd.2 q = false.

(** A request that names a collection of the store. *)
Definition lookup_request (a : string) (c : coll_name) (d : db_data) : db_request :=
  {| action := Some a; collection := Some (name_of_coll c); data := Some d |}.

(** The collection a request names is none of the five. *)
Definition absent_collection (request : db_request) : Prop :=
  match collection request with
  | Some cn => coll_of_name cn = None
  | None => True
  end.

(** Every document id in the store is truthy. *)
Definition ids_truthy (st : catalog) : Prop :=
  ∀ c, Forall (fun kd : jval * doc => truthy kd.1 = true)
         (get_coll c (collections st)).

Definition sample_env : db_env :=
  {| fresh_id := "7f3c2a10-0000-4000-8000-000000000001";
     now := "2025-12-17T18:30:00"; disk_ok := true;
     cut_short := false |}.

Definition review_v1 : doc :=
  <["_id" := JStr "r1"]> (<["rating" := JNum 2]> (<["created_at" := JStr "2025-01-01T00:00:00"]> ∅)).

Definition review_v2 : db_data :=
  {| body := <["_id" := JStr "r1"]> (<["rating" := JNum 5]> ∅);
     query := None; update := None |}.

Definition one_review : catalog :=
  with_coll Review [(JStr "r1", review_v1)] init.

End CatalogSpec.

Module LobbySpec.
Import Catalog Package Server Lobby.

(** Allocations back to back: the k-th call meets the ports that [binds]
    says can be bound at that moment. *)
Fixpoint allocate_all (binds : list (Z → bool)) (L : lobby)
    : list (option Z) * lobby :=
  match binds with
  | [] => ([], L)
  | b :: binds' =>
      let '(p, L1) := _find_available_port b L in
      let '(ps, L2) := allocate_all binds' L1 in
      (p :: ps, L2)
  end.

(** The room [r] of position [i] has been started from the package in
    [game_dir] whose manifest is [game_info]: a new child runs the
    manifest's server entry point under that directory, with the port and
    the number of players filled in, the room records the child, and [x] is
    the reply that advertises it. *)
Definition launched_from (cfg : config) (L L' : lobby) (i : nat) (rid : string)
    (r : room) (game_dir : string) (game_info : manifest) (x : response) : Prop :=
  ∃ pid port log server_config entry,
    server game_info = Some server_config
    ∧ entry_point server_config = Some entry
    ∧ rooms L' !! i = Some (rid, set_running pid port log r)
    ∧ children L'
      = children L
        ++ [(pid, server_command game_dir entry server_config port
                    (length (players r)))]
    ∧ x = started cfg port (set_running pid port log r).

(** The package directory [game_dir] of the upload directory holds a
    manifest that decodes to [game_info]. *)
Definition package_at (cfg : config) (e : env) (game_dir : string)
    (game_info : manifest) : Prop :=
  ∃ text,
    read_file (fs e) game_dir "game_info.json" = Some text
    ∧ json_load cfg text = Parsed game_info.

(** In the Catalog [c] the active game [gid] is at version [latest], and
    the Version record of that game and version names the directory
    [file_path]. *)
Definition current_release (c : catalog) (gid latest : jval)
    (file_path : string) : Prop :=
  ∃ game release,
    (∃ k, (k, game) ∈ c_Game (collections c))
    ∧ game !! "_id" = Some gid
    ∧ game !! "status" = Some (JStr "active")
    ∧ game !! "latest_version" = Some latest
    ∧ (∃ k, (k, release) ∈ c_Version (collections c))
    ∧ release !! "game_id" = Some gid
    ∧ release !! "version" = Some latest
    ∧ release !! "file_path" = Some (JStr file_path).

(** The Catalog [c] holds the game named [name] with id [gid], removed,
    and no other game of that name. *)
Definition removed_game (c : catalog) (name gid : jval) : Prop :=
  ∃ k g,
    (k, g) ∈ c_Game (collections c)
    ∧ g !! "name" = Some name
    ∧ g !! "_id" = Some gid
    ∧ g !! "status" = Some (JStr "removed")
    ∧ ∀ k' g', (k', g') ∈ c_Game (collections c) →
               g' !! "name" = Some name → g' = g.

(** The request [request] sent with the action [a]. *)
Definition with_action (a : string) (request : doc) : doc :=
  <["action" := JStr a]> request.

(** *** Rooms *)

(** The most players a room can come to hold, for the values that
    [max_players] takes here: with an integer, the creator is always in
    and a join is let in only below it; with [None] or a string the
    comparison of [join_room] raises [TypeError], and the creator stays
    alone. *)
Definition capacity (r : room) : Z :=
  match max_players r with
  | JNum m => Z.max 1 m
  | JNull | JStr _ => 1
  end.

(** The host is one of the players, who are at least one, listed once
    each, and no more than the room can hold. *)
Definition room_ok (r : room) : Prop :=
  host_id r ∈ players r
  ∧ players r ≠ []
  ∧ NoDup (players r)
  ∧ (Z.of_nat (length (players r)) ≤ capacity r)%Z.

(** The number of rooms whose player list holds the user. *)
Definition occupancy (uid : jval) (rs : list (string * room)) : nat :=
  length (filter (fun kr => uid ∈ players kr.2) rs).

(** Every room is well formed and every user is in at most one room. *)
Definition rooms_ok (rs : list (string * room)) : Prop :=
  Forall (fun kr => room_ok kr.2) rs ∧ ∀ uid, (occupancy uid rs ≤ 1)%nat.

(** The bound on the players as the specification words it. *)
Definition within_max_players (r : room) : Prop :=
  ∃ m, max_players r = JNum m ∧ (Z.of_nat (length (players r)) ≤ m)%Z.

(** The operations of the Lobby on its rooms. *)
Inductive operation :=
| CreateRoom (request : doc)
| JoinRoom (request : doc)
| LeaveRoom
| StartGame
| CheckGameStatus
| EndGame
| Cleanup.

(** The Lobby after an operation of the session [s]. *)
Definition perform (cfg : config) (e : env) (s : session) (o : operation)
    (L : lobby) : lobby :=
  match o with
  | CreateRoom request => (_handle_create_room e s request L).1
  | JoinRoom request => (_handle_join_room s request L).1
  | LeaveRoom => (_handle_leave_room e s L).1
  | StartGame => (_handle_start_game cfg e s L).1
  | CheckGameStatus => (_handle_check_game_status cfg e s L).1
  | EndGame => (_handle_end_game e s L).1
  | Cleanup => _cleanup_session s L
  end.

(** What of a room the invariants read. *)
Definition members (r : room) : jval * list jval * jval :=
  (host_id r, players r, max_players r).

Definition profile (rs : list (string * room)) : list (jval * list jval * jval) :=
  (fun kr => members kr.2) <$> rs.

(** *** Sessions *)

(** The connections that are logged in are logged in as users with an
    entry in [self.sessions], and no two of them as the same user. *)
Definition one_session_each (w : world) : Prop :=
  ∀ c s, conns w !! c = Some s → logged_in s = true →
    is_Some (sessions (the_lobby w) !! user_id s)
    ∧ ∀ c' s', conns w !! c' = Some s' → logged_in s' = true →
               user_id s' = user_id s → c' = c.

(** The login [out] of [request] on the connection [conn] went through:
    the Catalog returned the player's record [user] for the name, its
    hash is the hash of the password, its id [uid] had no session in [L],
    and the outcome is [L] with a session for [uid], the connection's
    session logged in as [uid], and the welcome. *)
Definition logged_in_as (cfg : config) (e : env) (conn : nat) (request : doc)
    (L : lobby) (out : lobby * session * outcome) : Prop :=
  ∃ name pw user uid uname,
    get_stripped request "username" = Some name
    ∧ get_stripped request "password" = Some pw
    ∧ (_db_request (link e 0) (dbe e 0) (db e)
         (find_one_req "User" (player_by_name name))).2 = DbResult user
    ∧ user !! "password_hash" = Some (JStr (hash_password cfg pw))
    ∧ user !! "_id" = Some uid
    ∧ sessions L !! uid = None
    ∧ out.1.1
      = set_sessions
          (<[uid := {| entry_username := name; protocol := conn |}]> (sessions L)) L
    ∧ out.1.2 = {| logged_in := true; user_id := uid; username := uname |}
    ∧ out.2 = Reply (ok_message ("Welcome " +:+ name +:+ "!")).

(** The user is in no room. *)
Definition in_no_room (uid : jval) (rs : list (string * room)) : Prop :=
  ∀ kr, kr ∈ rs → uid ∉ players kr.2.

End LobbySpec.

(** ** More of the Catalog: what its statements speak of, and the restart *)

Module CatalogWords.
Import Catalog.

(** The documents of a collection that match a query, in insertion order. *)
Definition matching (cl : coll) (q : doc) : list (jval * doc) :=
  filter (fun kd => _match_query kd.2 q = true) cl.

(** The documents a reply carries. *)
Definition results_of (r : db_response) : list doc :=
  match r with
  | DbResults ds => ds
  | DbResult d => [d]
  | _ => []
  end.

(** The reply of [find_one] that goes with a list of matches. *)
Definition first_of (ds : list doc) : db_response :=
  match ds with
  | d :: _ => DbResult d
  | [] => DbError "Not found"
  end.

(** A matching document as [update] leaves it. *)
Definition updated (e : db_env) (u d : doc) : doc :=
  <["updated_at" := JStr (now e)]> (u ∪ d).

(** Every collection's file holds what the collection holds in memory. *)
Definition in_sync (st : catalog) : Prop := files st = collections st.

(** No id occurs twice in a collection, as in any [dict]. *)
Definition ids_unique (st : catalog) : Prop :=
  ∀ c, NoDup (get_coll c (collections st)).*1.

(** The key under which [json.dump] writes an id: always a string. *)
Definition json_key (k : jval) : jval :=
  match k with
  | JNull => JStr "null"
  | JNum n => JStr (pretty n)
  | JStr s => JStr s
  end.

(** A collection as [json.load] reads it back from its file: the ids are
    strings, and of two documents written under the same string the
    second replaces the first in its place. *)
Definition reload (cl : coll) : coll :=
  foldl (fun acc kd => dict_set (json_key kd.1) kd.2 acc) [] cl.

(** [_load_data], in a server that starts: every collection is read from
    its file. *)
Definition _load_data (st : catalog) : catalog :=
  {| collections :=
       {| c_User := reload (c_User (files st));
          c_Game := reload (c_Game (files st));
          c_Version := reload (c_Version (files st));
          c_Room := reload (c_Room (files st));
          c_Review := reload (c_Review (files st)) |};
     files := files st |}.

(** The ids of a collection are strings. *)
Definition string_ids (cl : coll) : Prop :=
  Forall (fun kd : jval * doc => ∃ s, kd.1 = JStr s) cl.

(** A server whose files are up to date with the given collections. *)
Definition saved (s : store) : catalog := {| collections := s; files := s |}.

(** Two games on file, for the examples. *)
Definition chess : doc :=
  <["_id" := JStr "g1"]> (<["name" := JStr "chess"]> (<["status" := JStr "active"]> ∅)).

Definition go : doc :=
  <["_id" := JStr "g2"]> (<["name" := JStr "go"]> (<["status" := JStr "active"]> ∅)).

Definition two_games : catalog :=
  saved (set_coll Game [(JStr "g1", chess); (JStr "g2", go)] empty_store).

Definition by_name (name : string) : db_data :=
  {| body := ∅; query := Some {["name" := JStr name]}; update := None |}.

Definition new_game (name : string) : db_data :=
  {| body := <["name" := JStr name]> ∅; query := None; update := None |}.

(** The disk is full: the file is opened, and the write fails.  The
    directory is read-only: the file cannot be opened. *)
Definition full_disk : db_env :=
  {| fresh_id := "7f3c2a10-0000-4000-8000-000000000002";
     now := "2025-12-17T18:31:00"; disk_ok := false; cut_short := true |}.

Definition read_only : db_env :=
  {| fresh_id := "7f3c2a10-0000-4000-8000-000000000002";
     now := "2025-12-17T18:31:00"; disk_ok := false; cut_short := false |}.

End CatalogWords.


(** ** The wire protocol ([common/protocol.py]) *)

Module Wire.

Abbreviation bytes := (list Byte.byte).

Definition byte_of_Z (z : Z) : Byte.byte :=
  default Byte.x00 (Byte.of_N (Z.to_N (z mod 256))).

Definition Z_of_byte (b : Byte.byte) : Z := Z.of_N (Byte.to_N b).

(** [struct.pack('!I', n)] and [struct.pack('!Q', n)]: [w] bytes, the most
    significant first; [None] is [struct.error], for a number that does
    not fit. *)
Fixpoint big_endian (w : nat) (n : Z) : bytes :=
  match w with
  | O => []
  | S w' => byte_of_Z (n / 256 ^ Z.of_nat w') :: big_endian w' n
  end.

Definition pack (w : nat) (n : Z) : option bytes :=
  if decide (0 ≤ n < 256 ^ Z.of_nat w)%Z then Some (big_endian w n) else None.

(** [struct.unpack('!I', b)[0]] and [struct.unpack('!Q', b)[0]] *)
Definition unpack (b : bytes) : Z :=
  foldl (fun acc x => (acc * 256 + Z_of_byte x)%Z) 0%Z b.

(** A connected socket, from one end: the bytes the peer has sent and
    this end has not read yet, after which the peer sends no more; how
    many bytes at most each coming [recv] hands over beyond the first
    (TCP keeps no boundaries: a [recv] returns between one byte and what
    it was asked for); the bytes this end has sent; and whether sending
    fails because the connection is broken. *)
Record socket := {
  incoming : bytes;
  cuts : list nat;
  outgoing : bytes;
  broken : bool
}.

(** [sock.recv(n)]: [b''] at the end of the stream. *)
Definition recv (n : nat) (s : socket) : bytes * socket :=
  let k := n `min` S (hd n (cuts s)) in
  (take k (incoming s),
   {| incoming := drop k (incoming s); cuts := tl (cuts s);
      outgoing := outgoing s; broken := broken s |}).

(** [sock.sendall(data)]: [None] when it raises. *)
Definition sendall (data : bytes) (s : socket) : option socket :=
  if broken s then None
  else Some {| incoming := incoming s; cuts := cuts s;
               outgoing := outgoing s ++ data; broken := broken s |}.

(** The loop of [_recv_exact], with [data] read so far.  Every turn reads
    at least one byte or returns, so that [n] turns are enough: the
    counter [turns] never runs out before the loop ends
    ([WireLaws.recv_exact_turns]). *)
Fixpoint recv_exact_loop (turns n : nat) (data : bytes) (s : socket)
    : option bytes * socket :=
  if decide (length data < n)%nat
  then
    match turns with
    | O => (None, s)
    | S turns' =>
        match recv (n - length data) s with
        | ([], s') => (None, s')
        | (chunk, s') => recv_exact_loop turns' n (data ++ chunk) s'
        end
    end
  else (Some data, s).

Definition _recv_exact (n : nat) (s : socket) : option bytes * socket :=
  recv_exact_loop n n [] s.

(** The [Protocol] object. *)
Record protocol := {
  sock : socket;
  closed : bool
}.

Definition on_sock (s : socket) (p : protocol) : protocol :=
  {| sock := s; closed := closed p |}.

Definition close_on (s : socket) : protocol := {| sock := s; closed := true |}.

Section Json.
(** [json.dumps(message).encode('utf-8')], and
    [json.loads(data.decode('utf-8'))]: [None] is its exception and
    [Some None] the JSON text [null], which it returns as Python's
    [None]. *)
Context {message : Type}.
Variable dumps : message → bytes.
Variable loads : bytes → option (option message).

Definition send_message (m : message) (p : protocol) : bool * protocol :=
  let data := dumps m in
  match pack 4 (Z.of_nat (length data)) with
  | None => (false, close_on (sock p))
  | Some len =>
      match sendall (len ++ data) (sock p) with
      | None => (false, close_on (sock p))
      | Some s => (true, on_sock s p)
      end
  end.

Definition receive_message (p : protocol) : option message * protocol :=
  (* read the 4-byte length header *)
  match _recv_exact 4 (sock p) with
  | (None, s1) => (None, close_on s1)
  | (Some length_data, s1) =>
      (* read the message body *)
      match _recv_exact (Z.to_nat (unpack length_data)) s1 with
      | (None, s2) | (Some [], s2) => (None, close_on s2)
      | (Some message_data, s2) =>
          match loads message_data with
          | Some m => (m, on_sock s2 p)
          | None => (None, close_on s2)
          end
      end
  end.

End Json.

(** [range(0, file_size, chunk_size)] *)
Definition offsets (file_size chunk_size : nat) : list nat :=
  (fun k => k * chunk_size)%nat <$> seq 0 ((file_size + chunk_size - 1) / chunk_size).

Definition chunk_size : nat := Z.to_nat 8192.

(** [send_file], given what reading the file gives ([None]: it cannot be
    read). *)
Definition send_file (content : option bytes) (p : protocol) : bool * protocol :=
  match content with
  | None => (false, p)
  | Some file_data =>
      (* send the file size first *)
      match pack 8 (Z.of_nat (length file_data)) ≫= (fun b => sendall b (sock p)) with
      | None => (false, p)
      | Some s =>
          (* send the file data in chunks *)
          match foldl (fun s' i => s' ≫= sendall (take chunk_size (drop i file_data)))
                      (Some s) (offsets (length file_data) chunk_size) with
          | None => (false, p)
          | Some s' => (true, on_sock s' p)
          end
      end
  end.

(** The loop of [receive_file], with the bytes written to the file so
    far; a turn writes at least one byte or returns. *)
Fixpoint receive_file_loop (turns file_size : nat) (written : bytes) (s : socket)
    : bool * bytes * socket :=
  if decide (length written < file_size)%nat
  then
    match turns with
    | O => (false, written, s)
    | S turns' =>
        match recv (chunk_size `min` (file_size - length written)) s with
        | ([], s') => (false, written, s')
        | (chunk, s') => receive_file_loop turns' file_size (written ++ chunk) s'
        end
    end
  else (true, written, s).

(** [receive_file]: whether it succeeded and the content of the file at
    [save_path] when it returns ([None]: the file was not opened). *)
Definition receive_file (p : protocol) : bool * option bytes * protocol :=
  match _recv_exact 8 (sock p) with
  | (None, s1) => (false, None, on_sock s1 p)
  | (Some size_data, s1) =>
      let file_size := Z.to_nat (unpack size_data) in
      let '(ok, written, s2) := receive_file_loop file_size file_size [] s1 in
      (ok, Some written, on_sock s2 p)
  end.

(** What a call has done to a socket that read [k] bytes. *)
Definition has_read (k : nat) (s s' : socket) : Prop :=
  incoming s' = drop k (incoming s)
  ∧ outgoing s' = outgoing s ∧ broken s' = broken s.

(** The other end of a connection on which [wire] has been sent, followed
    by [rest]. *)
Definition receiving (wire rest : bytes) (schedule : list nat) : protocol :=
  {| sock := {| incoming := wire ++ rest; cuts := schedule; outgoing := [];
                broken := false |};
     closed := false |}.

(** A connection nothing has been sent on. *)
Definition fresh : protocol :=
  {| sock := {| incoming := []; cuts := []; outgoing := []; broken := false |};
     closed := false |}.

(** The empty JSON object and its two bytes, the four bytes of [null],
    and a file of two bytes, for the examples. *)
Definition dumps_empty (m : unit) : bytes := [Byte.x7b; Byte.x7d].

Definition null : bytes := [Byte.x6e; Byte.x75; Byte.x6c; Byte.x6c].

Definition loads_empty (b : bytes) : option (option unit) :=
  match b with
  | [Byte.x7b; Byte.x7d] => Some (Some tt)
  | [Byte.x6e; Byte.x75; Byte.x6c; Byte.x6c] => Some None
  | _ => None
  end.

Definition hi : bytes := [Byte.x68; Byte.x69].

End Wire.

(** ** More of the Lobby: the games of the rooms *)

Module LobbyWords.
Import Catalog Package Server Lobby.

(** What a room records of its game: its status, the child, the port and
    the handle of the log. *)
Abbreviation game := (room_status * option nat * option Z * option nat)%type.

Definition game_of (r : room) : game :=
  (status r, game_process r, game_port r, game_log_file r).

Definition idle : game := (waiting, None, None, None).

Definition process_of (g : game) : option nat := g.1.1.2.
Definition log_of (g : game) : option nat := g.2.

(** The games of the rooms, in the order of [self.rooms]. *)
Definition games (L : lobby) : list game := (fun kr => game_of kr.2) <$> rooms L.

(** A room either waits, with no child, no port and no log, or is in a
    game, with a child that the Lobby has spawned, a port from 5000 to
    5099 and a log that the Lobby has opened and not closed. *)
Definition game_ok (L : lobby) (g : game) : Prop :=
  g = idle
  ∨ ∃ pid port log,
      g = (in_game, Some pid, Some port, Some log)
      ∧ (pid < length (children L))%nat
      ∧ (5000 ≤ port ≤ 5099)%Z
      ∧ (log < next_file L)%nat
      ∧ log ∈ open_files L.

(** Every room is in one of the two conditions, no two rooms have the
    same child or the same log, and the next port to try is from 5000 to
    5100. *)
Definition games_ok (L : lobby) : Prop :=
  Forall (game_ok L) (games L)
  ∧ NoDup (omap process_of (games L))
  ∧ NoDup (omap log_of (games L))
  ∧ (5000 ≤ next_game_port L ≤ 5100)%Z.

(** The reply says [success: True]. *)
Definition succeeded (o : outcome) : Prop :=
  ∃ x, o = Reply x ∧ member "success" x = Some (RBool true).

(** Bob, in his room for [chat], asks for a room that does not exist. *)
Definition bob_in_room : lobby := the_lobby (run Sample.cfg (Sample.bob_creates Sample.chat_1_0)).


(** The staging directory of an upload. *)
Definition temp_dir_of (cfg : config) (e : Gateway.env) : string :=
  path_join (upload_dir cfg) ("temp_" +:+ take_str 8 (Gateway.uuid4 e)).

(** Alice's upload of [chat] 1.0 to an empty store, and a request that
    the Lobby serves from what the upload has left. *)
Definition alice_uploads : Gateway.env :=
  Sample.uploading LinkUp (Sample.chat_frames (Sample.chat_package Sample.chat_1_0_text)).

Definition once_uploaded : Lobby.env :=
  let r := Gateway._handle_upload_game Sample.cfg alice_uploads
             Sample.nothing_uploaded Sample.alice Sample.upload_chat in
  {| Lobby.db := Gateway.db (Gateway.after r);
     Lobby.link := fun _ => LinkUp;
     Lobby.dbe := Sample.clock;
     Lobby.uuid4 := "00000000-0000-4000-8000-000000000000";
     Lobby.fs := Gateway.fs (Gateway.after r);
     Lobby.poll := Sample.still_running;
     Lobby.can_bind := fun _ => true;
     Lobby.launched := Lobby.Runs |}.

Definition download_chat : doc :=
  <["game_name" := JStr "chat"]> (Sample.act "download_game").

(** A member of a reply, when there is a reply. *)
Definition told (k : string) (o : outcome) : option rval :=
  match o with
  | Reply x => member k x
  | _ => None
  end.

(** Every game of the Catalog that bears the name is active. *)
Definition only_active (c : catalog) (name : jval) : Prop :=
  ∀ k g, (k, g) ∈ c_Game (collections c) →
         g !! "name" = Some name → g !! "status" = Some (JStr "active").

(** Bob's review of [chat]. *)
Definition bob_reviews : doc :=
  <["game_name" := JStr "chat"]> (<["rating" := JNum 4]> (
  <["comment" := JStr "fun"]> (Sample.act "submit_review"))).

(** Dave's credentials, as he sends them to register and to log in. *)
Definition dave : doc :=
  <["username" := JStr "dave"]> (<["password" := JStr "correct horse"]> (Sample.act "register")).

End LobbyWords.

(** ** The rest of the Developer Gateway ([server/developer_server.py]) *)

Module Developer.
Import Catalog Package Server Gateway.

Definition developer_by_name (username : string) : doc :=
  <["username" := JStr username]> (<["account_type" := JStr "developer"]> ∅).

Definition _handle_register (cfg : config) (e : env) (c : catalog) (request : doc)
    : catalog * outcome :=
  match get_stripped request "username", get_stripped request "password" with
  | Some username, Some password =>
      if bool_decide (username = EmptyString) || bool_decide (password = EmptyString)
      then (c, Reply (failure "Username and password required"))
      else
        (* check if the username exists *)
        let check :=
          (_db_request (link e 0) (dbe e 0) c
             (find_one_req "User" (developer_by_name username))).2 in
        if success check
        then (c, Reply (failure "Username already exists"))
        else
          let '(c1, result) :=
            _db_request (link e 1) (dbe e 1) c
              (insert_req "User"
                 (<["username" := JStr username]> (
                  <["password_hash" := JStr (hash_password cfg password)]> (
                  <["account_type" := JStr "developer"]> ∅)))) in
          if success result
          then (c1, Reply [("success", RBool true);
                           ("message", RStr "Developer account created")])
          else (c1, Reply (failure "Registration failed"))
  | _, _ => (c, Raise "AttributeError: strip")
  end.

(** The Gateway keeps no registry of sessions: a login only fills the
    session of the connection. *)
Definition _handle_login (cfg : config) (e : env) (c : catalog) (s : session)
    (request : doc) : session * outcome :=
  match get_stripped request "username", get_stripped request "password" with
  | Some username, Some password =>
      if bool_decide (username = EmptyString) || bool_decide (password = EmptyString)
      then (s, Reply (failure "Username and password required"))
      else
        (* find the user *)
        match (_db_request (link e 0) (dbe e 0) c
                 (find_one_req "User" (developer_by_name username))).2 with
        | DbError _ => (s, Reply (failure "Invalid username or password"))
        | DbResult user =>
            match user !! "password_hash" with
            | None => (s, key_error "password_hash")
            | Some h =>
                if bool_decide (h ≠ JStr (hash_password cfg password))
                then (s, Reply (failure "Invalid username or password"))
                else
                  (* set the session *)
                  match user !! "_id", user !! "username" with
                  | Some uid, Some name =>
                      ({| logged_in := true; user_id := uid; username := name |},
                       Reply [("success", RBool true);
                              ("message", RStr ("Welcome " +:+ username +:+ "!"))])
                  | None, _ =>
                      ({| logged_in := true; user_id := user_id s;
                          username := Server.username s |},
                       key_error "_id")
                  | Some uid, None =>
                      ({| logged_in := true; user_id := uid;
                          username := Server.username s |},
                       key_error "username")
                  end
            end
        | _ => (s, key_error "result")
        end
  | _, _ => (s, Raise "AttributeError: strip")
  end.

Definition _handle_my_games (e : env) (c : catalog) (s : session) : outcome :=
  match (_db_request (link e 0) (dbe e 0) c
           (find_req "Game" (<["developer_id" := user_id s]> ∅))).2 with
  | DbError _ => Reply (failure "Failed to fetch games")
  | DbResults games => Reply [("success", RBool true); ("games", RDocs games)]
  | _ => key_error "results"
  end.

(** The query of the two handlers that check the ownership of a game. *)
Definition owned_by (s : session) (game_name : string) : doc :=
  <["name" := JStr game_name]> (<["developer_id" := user_id s]> ∅).

(** The members that [update_game] writes into the Game. *)
Definition game_update (version : jval) (game_info : manifest) : doc :=
  <["latest_version" := version]> (
  <["min_players" := default (JNum 2) (fields game_info !! "min_players")]> (
  <["max_players" := default (JNum 10) (fields game_info !! "max_players")]> (
  <["description" := default (JStr EmptyString) (fields game_info !! "description")]> ∅))).

(** The body of the [try] block of [_handle_update_game]. *)
Definition update_attempt (cfg : config) (e : env) (st : state) (game : doc)
    (game_name : string) (file_count : jval) (temp_dir : string)
    (inc : list frame) : state * list frame * (string + string) :=
  match file_count with
  | JNum n =>
      let '(fs1, inc1, failed) :=
        receive_files (Z.to_nat n) temp_dir (fs st) inc in
      match failed with
      | Some msg => ({| fs := fs1; db := db st |}, inc1, inl msg)
      | None =>
          let '(ok, error, game_info) :=
            validate_game_package (json_load cfg) fs1 temp_dir in
          match ok, game_info with
          | true, Some game_info =>
              match fields game_info !! "version", fs1 !! temp_dir with
              | Some version, Some staged =>
                  let final_dir_name := game_name +:+ "_" +:+ py_str version in
                  let final_dir := path_join (upload_dir cfg) final_dir_name in
                  (* move to the final location *)
                  let fs2 :=
                    <[final_dir := staged]>
                      (delete temp_dir (rmtree_if_exists fs1 final_dir)) in
                  match game !! "_id" with
                  | None => ({| fs := fs2; db := db st |}, inc1, inl "'_id'")
                  | Some game_id =>
                      (* update the game record *)
                      let '(db1, _) :=
                        _db_request (link e 1) (dbe e 1) (db st)
                          (update_req "Game" (<["_id" := game_id]> ∅)
                             (game_update version game_info)) in
                      (* add the version record *)
                      let '(db2, _) :=
                        _db_request (link e 2) (dbe e 2) db1
                          (insert_req "Version"
                             (version_record game_id version final_dir_name)) in
                      ({| fs := fs2; db := db2 |}, inc1,
                       inr ("Game " +:+ quote +:+ game_name +:+ quote
                            +:+ " updated to v" +:+ py_str version))
                  end
              | None, _ => ({| fs := fs1; db := db st |}, inc1, inl "'version'")
              | _, None =>
                  ({| fs := fs1; db := db st |}, inc1,
                   inl "No such file or directory")
              end
          | _, _ =>
              ({| fs := fs1; db := db st |}, inc1,
               inl ("Invalid game package: " +:+ default "None" error))
          end
      end
  | _ =>
      (st, inc, inl "object cannot be interpreted as an integer")
  end.

Definition _handle_update_game (cfg : config) (e : env) (st : state)
    (s : session) (request : doc) : result :=
  match get_stripped request "game_name" with
  | None =>
      {| after := st; sent := []; unread := incoming e;
         reply := Raise "AttributeError: strip" |}
  | Some game_name =>
      if bool_decide (game_name = EmptyString)
      then {| after := st; sent := []; unread := incoming e;
              reply := Reply (failure "Game name required") |}
      else
        (* check that the game exists and belongs to the developer *)
        match (_db_request (link e 0) (dbe e 0) (db st)
                 (find_one_req "Game" (owned_by s game_name))).2 with
        | DbError _ =>
            {| after := st; sent := []; unread := incoming e;
               reply := Reply (failure "Game not found or you do not own it") |}
        | DbResult game =>
            (* ready signal, then the file count *)
            let '(file_msg, inc1) := receive_message (incoming e) in
            if no_message file_msg
            then {| after := st; sent := [ready]; unread := inc1; reply := NoReply |}
            else
              let file_count :=
                default (JNum 0) (default ∅ file_msg !! "file_count") in
              let temp_dir :=
                path_join (upload_dir cfg) ("temp_" +:+ take_str 8 (uuid4 e)) in
              let st1 := {| fs := makedirs (fs st) temp_dir; db := db st |} in
              let '(st2, inc2, ended) :=
                update_attempt cfg e st1 game game_name file_count temp_dir inc1 in
              match ended with
              | inr msg =>
                  {| after := st2; sent := [ready]; unread := inc2;
                     reply := Reply [("success", RBool true); ("message", RStr msg)] |}
              | inl msg =>
                  {| after := {| fs := rmtree_if_exists (fs st2) temp_dir;
                                 db := db st2 |};
                     sent := [ready]; unread := inc2;
                     reply := Reply (failure msg) |}
              end
        | _ =>
            {| after := st; sent := []; unread := incoming e;
               reply := key_error "result" |}
        end
  end.

(** [remove_game] marks the game as removed; the result of the update is
    not looked at. *)
Definition _handle_remove_game (e : env) (c : catalog) (s : session)
    (request : doc) : catalog * outcome :=
  match get_stripped request "game_name" with
  | None => (c, Raise "AttributeError: strip")
  | Some game_name =>
      if bool_decide (game_name = EmptyString)
      then (c, Reply (failure "Game name required"))
      else
        (* check the ownership *)
        let game_result :=
          (_db_request (link e 0) (dbe e 0) c
             (find_one_req "Game" (owned_by s game_name))).2 in
        if negb (success game_result)
        then (c, Reply (failure "Game not found or you do not own it"))
        else
          (* mark as removed *)
          let '(c1, _) :=
            _db_request (link e 1) (dbe e 1) c
              (update_req "Game" (owned_by s game_name)
                 (<["status" := JStr "removed"]> ∅)) in
          (c1, Reply [("success", RBool true);
                      ("message", RStr ("Game " +:+ quote +:+ game_name +:+ quote
                                        +:+ " removed from store"))])
  end.

Definition only_reply (st : state) (s : session) (e : env) (o : outcome) : result * session :=
  ({| after := st; sent := []; unread := incoming e; reply := o |}, s).

Definition _process_request (cfg : config) (e : env) (st : state) (s : session)
    (request : doc) : result * session :=
  let action := request !! "action" in
  (* auth actions *)
  if bool_decide (action = Some (JStr "register"))
  then
    let '(c1, o) := _handle_register cfg e (db st) request in
    only_reply {| fs := fs st; db := c1 |} s e o
  else if bool_decide (action = Some (JStr "login"))
  then
    let '(s1, o) := _handle_login cfg e (db st) s request in
    only_reply st s1 e o
  (* protected actions *)
  else if negb (logged_in s)
  then only_reply st s e (Reply (failure "Not logged in"))
  else if bool_decide (action = Some (JStr "my_games"))
  then only_reply st s e (_handle_my_games e (db st) s)
  else if bool_decide (action = Some (JStr "upload_game"))
  then (_handle_upload_game cfg e st s request, s)
  else if bool_decide (action = Some (JStr "update_game"))
  then (_handle_update_game cfg e st s request, s)
  else if bool_decide (action = Some (JStr "remove_game"))
  then
    let '(c1, o) := _handle_remove_game e (db st) s request in
    only_reply {| fs := fs st; db := c1 |} s e o
  else if bool_decide (action = Some (JStr "logout"))
  then
    only_reply st {| logged_in := false; user_id := user_id s;
                     username := username s |}
      e (Reply [("success", RBool true)])
  else only_reply st s e (Reply (failure "Unknown action")).

(** Alice asks to remove [chat], and Carol, who does not own it, too. *)
Definition remove_chat : doc := <["game_name" := JStr "chat"]> (Sample.act "remove_game").

Definition carol : session :=
  {| logged_in := true; user_id := JStr "u-carol"; username := JStr "carol" |}.

(** No developer of the Catalog has the name. *)
Definition no_developer (c : catalog) (name : string) : Prop :=
  ∀ k u, (k, u) ∈ c_User (collections c) →
         u !! "username" = Some (JStr name) →
         u !! "account_type" ≠ Some (JStr "developer").

(** The games of the Catalog that bear the name and are the user's. *)
Definition owned (c : catalog) (s : session) (game_name : string) : list (jval * doc) :=
  filter (fun kd => _match_query kd.2 (owned_by s game_name) = true)
         (c_Game (collections c)).

End Developer.
(** ** The threads of the Lobby

    [start] gives every connection a thread of its own, and a handler
    holds [self.lock] only inside its [with self.lock] blocks: between
    two blocks of one handler the other threads may run.
    [_handle_login] has two blocks, the check of [self.sessions] and the
    entry into it; [_handle_create_room] has two, the removal from the
    rooms and the entry of the new room; every other handler has one,
    and the [finally] of [_handle_client] runs [_cleanup_session] in a
    block of its own.  Here a handler runs block by block. *)

Module Threads.
Import Catalog Package Server Lobby.

(** What a thread still has to do for the message it is handling: nothing
    (it waits for a message), the second block of [_handle_login], the
    second block of [_handle_create_room], or the [finally] of the client
    loop after an exception. *)
Inductive pending :=
| Idle
| LoginInsert (uid : jval) (username : string)
| CreateInsert (rid : string) (r : room)
| Closing.

Record thread := {
  sess : session;
  todo : pending
}.

(** The Lobby, the threads of the connections being served, and what the
    handlers have returned so far, by connection. *)
Record pool := {
  lobby_of : lobby;
  threads : gmap nat thread;
  answered : list (nat * outcome)
}.

Definition start : pool := {| lobby_of := init; threads := ∅; answered := [] |}.

Definition idle (s : session) : thread := {| sess := s; todo := Idle |}.

(** [_handle_login] up to the end of its first block and the assignments
    to the session that follow it: the session, and either how the
    handler ends there or the id and the name that the second block will
    enter in [self.sessions]. *)
Definition login_check (cfg : config) (e : env) (s : session) (request : doc)
    (L : lobby) : session * (outcome + jval * string) :=
  match get_stripped request "username", get_stripped request "password" with
  | Some username, Some password =>
      if bool_decide (username = EmptyString) || bool_decide (password = EmptyString)
      then (s, inl (Reply (failure "Username and password required")))
      else
        (* find the user *)
        match (_db_request (link e 0) (dbe e 0) (db e)
                 (find_one_req "User" (player_by_name username))).2 with
        | DbError _ => (s, inl (Reply (failure "Invalid username or password")))
        | DbResult user =>
            match user !! "password_hash" with
            | None => (s, inl (key_error "password_hash"))
            | Some h =>
                if bool_decide (h ≠ JStr (hash_password cfg password))
                then (s, inl (Reply (failure "Invalid username or password")))
                else
                  match user !! "_id" with
                  | None => (s, inl (key_error "_id"))
                  | Some uid =>
                      (* first block: check if already logged in *)
                      if bool_decide (is_Some (sessions L !! uid))
                      then (s, inl (Reply (failure "Account already logged in")))
                      else
                        (* outside the lock: set the session *)
                        match user !! "username" with
                        | None =>
                            ({| logged_in := true; user_id := uid;
                                username := Server.username s |},
                             inl (key_error "username"))
                        | Some name =>
                            ({| logged_in := true; user_id := uid;
                                username := name |},
                             inr (uid, username))
                        end
                  end
            end
        | _ => (s, inl (key_error "result"))
        end
  | _, _ => (s, inl (Raise "AttributeError: strip"))
  end.

(** The second block of [_handle_login], and the reply after it. *)
Definition login_insert (conn : nat) (uid : jval) (username : string)
    (L : lobby) : lobby :=
  set_sessions
    (<[uid := {| entry_username := username; protocol := conn |}]> (sessions L)) L.

Definition welcome (username : string) : outcome :=
  Reply (ok_message ("Welcome " +:+ username +:+ "!")).

(** [_handle_create_room] up to its second block: the Lobby after the
    first block, and either how the handler ends there or the room that
    the second block will enter in [self.rooms]. *)
Definition create_first (e : env) (s : session) (request : doc) (L : lobby)
    : lobby * (outcome + string * room) :=
  match request !! "game_name" with
  | Some game_name =>
      if negb (truthy game_name)
      then (L, inl (Reply (failure "Game name required")))
      else
        (* first block: remove from any existing rooms *)
        let L1 := _remove_user_from_all_rooms (user_id s) L in
        (* outside the lock: get the game *)
        let game_result :=
          (_db_request (link e 0) (dbe e 0) (db e)
             (find_one_req "Game" (active_game_by_name game_name))).2 in
        match game_result with
        | DbError _ => (L1, inl (Reply (failure "Game not found")))
        | DbResult game =>
            let rid := take_str 8 (uuid4 e) in
            match game !! "_id", game !! "latest_version", game !! "max_players" with
            | Some gid, Some latest, Some maxp =>
                (L1, inr (rid, new_room rid game_name gid latest maxp s))
            | None, _, _ => (L1, inl (key_error "_id"))
            | _, None, _ => (L1, inl (key_error "latest_version"))
            | _, _, None => (L1, inl (key_error "max_players"))
            end
        | _ => (L1, inl (key_error "result"))
        end
  | None => (L, inl (Reply (failure "Game name required")))
  end.

(** The second block of [_handle_create_room], and the reply after it. *)
Definition create_insert (rid : string) (r : room) (L : lobby) : lobby :=
  set_rooms (dict_set rid r (rooms L)) L.

Definition created (rid : string) (r : room) : outcome :=
  Reply [("success", RBool true);
         ("room_id", RStr rid);
         ("message", RStr ("Room created for " +:+ py_str (game_name r)));
         ("is_host", RBool true)].

(** The thread after its handler has returned or raised. *)
Definition after_handler (s : session) (o : outcome) : thread :=
  match o with
  | Raise _ => {| sess := s; todo := Closing |}
  | _ => idle s
  end.

(** A thread takes up a message: it runs the handler to the end of its
    first block.  What the handler has returned is [None] while a second
    block is still to come. *)
Definition receive (cfg : config) (e : env) (conn : nat) (s : session)
    (request : doc) (L : lobby) : lobby * thread * option outcome :=
  let action := request !! "action" in
  if bool_decide (action = Some (JStr "login"))
  then
    match login_check cfg e s request L with
    | (s1, inl o) => (L, after_handler s1 o, Some o)
    | (s1, inr (uid, username)) =>
        (L, {| sess := s1; todo := LoginInsert uid username |}, None)
    end
  else if logged_in s && bool_decide (action = Some (JStr "create_room"))
  then
    match create_first e s request L with
    | (L1, inl o) => (L1, after_handler s o, Some o)
    | (L1, inr (rid, r)) => (L1, {| sess := s; todo := CreateInsert rid r |}, None)
    end
  else
    let h := _process_request cfg e conn s request L in
    (lobby_after h, after_handler (session_after h) (reply h), Some (reply h)).

(** The [finally] of [_handle_client]. *)
Definition finish (conn : nat) (s : session) (w : pool) : pool :=
  {| lobby_of := if logged_in s then _cleanup_session s (lobby_of w) else lobby_of w;
     threads := delete conn (threads w);
     answered := answered w |}.

(** What the scheduler lets happen next: a client connects; an idle
    thread receives a message and runs its handler to the end of the
    first block; a thread that is between two blocks, or on its way to
    the [finally], takes the lock for the next block; an idle thread
    finds its connection ended. *)
Inductive tick :=
| Accept (conn : nat)
| Receive (conn : nat) (request : doc) (e : env)
| Resume (conn : nat)
| Hangup (conn : nat).

Definition step (cfg : config) (w : pool) (t : tick) : pool :=
  match t with
  | Accept conn =>
      match threads w !! conn with
      | Some _ => w
      | None => {| lobby_of := lobby_of w;
                   threads := <[conn := idle new_session]> (threads w);
                   answered := answered w |}
      end
  | Receive conn request e =>
      match threads w !! conn with
      | None => w
      | Some th =>
          match todo th with
          | Idle =>
              if bool_decide (request = ∅)
              then
                (* [if not message: break] *)
                finish conn (sess th) w
              else
                let '(L1, th1, o) :=
                  receive cfg e conn (sess th) request (lobby_of w) in
                {| lobby_of := L1;
                   threads := <[conn := th1]> (threads w);
                   answered := answered w ++ option_list (pair conn <$> o) |}
          | _ => w
          end
      end
  | Resume conn =>
      match threads w !! conn with
      | None => w
      | Some th =>
          match todo th with
          | Idle => w
          | LoginInsert uid username =>
              {| lobby_of := login_insert conn uid username (lobby_of w);
                 threads := <[conn := idle (sess th)]> (threads w);
                 answered := answered w ++ [(conn, welcome username)] |}
          | CreateInsert rid r =>
              {| lobby_of := create_insert rid r (lobby_of w);
                 threads := <[conn := idle (sess th)]> (threads w);
                 answered := answered w ++ [(conn, created rid r)] |}
          | Closing => finish conn (sess th) w
          end
      end
  | Hangup conn =>
      match threads w !! conn with
      | None => w
      | Some th =>
          match todo th with
          | Idle => finish conn (sess th) w
          | _ => w
          end
      end
  end.

(** The states that the threads reach, under a schedule. *)
Definition run (cfg : config) (ticks : list tick) : pool :=
  foldl (step cfg) start ticks.

(** The schedule on which no thread runs between two blocks of another:
    every message is handled to the end before anything else happens. *)
Definition ticks_of (ev : event) : list tick :=
  match ev with
  | Connect conn => [Accept conn]
  | Request conn request e => [Receive conn request e; Resume conn]
  | Disconnect conn => [Hangup conn]
  end.

Definition one_at_a_time (evs : list event) : list tick := evs ≫= ticks_of.

(** The Lobby and the sessions of the connections, as [Lobby.world] has
    them. *)
Definition world_of (w : pool) : world :=
  {| the_lobby := lobby_of w; conns := sess <$> threads w |}.

(** The threads of a world in which every message has been handled to
    the end. *)
Definition pool_of (w : world) (log : list (nat * outcome)) : pool :=
  {| lobby_of := the_lobby w; threads := idle <$> conns w; answered := log |}.

(** Every thread waits for a message. *)
Definition all_idle (w : pool) : Prop :=
  ∀ conn th, threads w !! conn = Some th → todo th = Idle.

(** Every room is well formed. *)
Definition rooms_fine (rs : list (string * room)) : Prop :=
  Forall (fun kr : string * room => LobbySpec.room_ok kr.2) rs.

(** What the threads keep: the rooms are well formed, and so is every
    room that a thread is about to enter. *)
Definition pool_fine (w : pool) : Prop :=
  rooms_fine (rooms (lobby_of w))
  ∧ ∀ conn th rid r,
      threads w !! conn = Some th → todo th = CreateInsert rid r →
      LobbySpec.room_ok r.

(** Two connections are logged in as the same user. *)
Definition shared_login (w : pool) : Prop :=
  ∃ c1 c2 t1 t2,
    c1 ≠ c2
    ∧ threads w !! c1 = Some t1 ∧ threads w !! c2 = Some t2
    ∧ logged_in (sess t1) = true ∧ logged_in (sess t2) = true
    ∧ user_id (sess t1) = user_id (sess t2).

(** The connection of a tick. *)
Definition conn_of (t : tick) : nat :=
  match t with
  | Accept conn | Receive conn _ _ | Resume conn | Hangup conn => conn
  end.

(** Along the schedule, no two connections are ever logged in as the same
    user. *)
Definition never_shared (cfg : config) (ticks : list tick) : Prop :=
  ∀ k, ¬ shared_login (run cfg (take k ticks)).

(** What the threads keep while no two connections are logged in as the
    same user: the rooms are well formed, every user is in at most one,
    and a thread that is about to enter a room is logged in, enters a
    well formed room that holds its user alone, and its user is in no
    room. *)
Definition pool_ok (w : pool) : Prop :=
  LobbySpec.rooms_ok (rooms (lobby_of w))
  ∧ ∀ conn th rid r,
      threads w !! conn = Some th → todo th = CreateInsert rid r →
      LobbySpec.room_ok r ∧ players r = [user_id (sess th)]
      ∧ logged_in (sess th) = true
      ∧ LobbySpec.in_no_room (user_id (sess th)) (rooms (lobby_of w)).

(** Bob logs in from two connections at once: each thread passes the
    check before the other enters the session. *)
Definition bob_twice : list tick :=
  [Accept 1; Accept 2;
   Receive 1 (Sample.login "bob" "hunter2") (Sample.quiet Sample.chat_1_0);
   Receive 2 (Sample.login "bob" "hunter2") (Sample.quiet Sample.chat_1_0);
   Resume 1; Resume 2].

(** Both connections then create a room, each removing Bob from the rooms
    before the other enters its room. *)
Definition bob_two_rooms : list tick :=
  bob_twice
  ++ [Receive 1 (Sample.create_room "chat")
        (Sample.serving Sample.chat_1_0 "3fa85f64-5717-4562-b3fc-2c963f66afa6"
           Runs Sample.still_running);
      Receive 2 (Sample.create_room "chat")
        (Sample.serving Sample.chat_1_0 "9c1d7e20-41aa-4f0e-9d5b-7a2f3c8e6b10"
           Runs Sample.still_running);
      Resume 1; Resume 2].

End Threads.

(** ** Paths and listings

    The upload directory is kept as a map from the path of a directory to
    its files by relative path.  This is what the file system holds when
    the relative paths are plain, and the order in which [os.walk] lists
    a directory is not the order in which its files were written: what
    is stated of an upload and a later listing is stated of plain paths
    and of a listing in any order. *)

Module Paths.
Import Package.

(** [path.split('/')] *)
Fixpoint split_path (part path : string) : list string :=
  match path with
  | EmptyString => [part]
  | String c rest =>
      if bool_decide (c = "/"%char)
      then part :: split_path EmptyString rest
      else split_path (part +:+ String c EmptyString) rest
  end.

Definition components (path : string) : list string := split_path EmptyString path.

(** A name that an entry of a directory can bear: not empty, neither [.]
    nor [..], and without the NUL character. *)
Definition entry_name (c : string) : bool :=
  negb (bool_decide (c = EmptyString))
  && negb (bool_decide (c = "."))
  && negb (bool_decide (c = ".."))
  && forallb (fun a => negb (bool_decide (a = Ascii.zero))) (list_ascii_of_string c).

(** A relative path that, joined to a directory, names an entry below it
    and no other: every part is the name of an entry (so the path is not
    empty, does not start or end with a slash, and does not step out of
    the directory). *)
Definition plain (path : string) : bool := forallb entry_name (components path).

Fixpoint starts_with (a b : list string) : bool :=
  match a, b with
  | [], _ => true
  | x :: a', y :: b' => bool_decide (x = y) && starts_with a' b'
  | _ :: _, [] => false
  end.

(** No path names as a file what another needs as a directory. *)
Definition no_clash (paths : list string) : bool :=
  forallb (fun p =>
     forallb (fun q => bool_decide (p = q)
                       || negb (starts_with (components p) (components q)))
       paths)
    paths.

(** The same directories with the same files, each listed in some order. *)
Definition same_files (a b : filesystem) : Prop :=
  ∀ d, match a !! d, b !! d with
       | Some x, Some y => x ≡ₚ y
       | None, None => True
       | _, _ => False
       end.

End Paths.
(** * Properties *)

(** ** Dictionaries *)

Section DictFacts.
Context {K V : Type} `{EqDecision K}.
Implicit Types (k : K) (v : V) (d : list (K * V)).

Lemma dict_get_set_eq k v d : dict_get k (dict_set k v d) = Some v.
Proof.
  induction d as [|[k' v'] d IH]; simpl.
  - by rewrite decide_True.
  - destruct (decide (k = k')) as [->|Hne]; simpl.
    + by rewrite decide_True.
    + by rewrite decide_False.
Qed.

Lemma dict_get_set_ne k k' v d :
  k' ≠ k → dict_get k' (dict_set k v d) = dict_get k' d.
Proof.
  intros Hne. induction d as [|[k0 v0] d IH]; simpl.
  - by rewrite decide_False.
  - destruct (decide (k = k0)) as [->|Hk]; simpl.
    + by rewrite !decide_False.
    + destruct (decide (k' = k0)); [done | apply IH].
Qed.

Lemma dict_set_keys_present k v d old :
  dict_get k d = Some old → (dict_set k v d).*1 = d.*1.
Proof.
  induction d as [|[k0 v0] d IH]; simpl; [done |].
  destruct (decide (k = k0)) as [->|Hk]; [done |].
  intros Hget. rewrite fmap_cons. f_equal. by apply IH.
Qed.

Lemma dict_set_elem k v d x :
  x ∈ dict_set k v d → x ∈ d ∨ x.2 = v.
Proof.
  induction d as [|[k0 v0] d IH]; simpl.
  - intros ->%list_elem_of_singleton. by right.
  - destruct (decide (k = k0)) as [->|Hk].
    + intros [->|Hin]%elem_of_cons; [by right |].
      left. by apply elem_of_cons; right.
    + intros [->|Hin]%elem_of_cons.
      * left. by apply elem_of_cons; left.
      * destruct (IH Hin) as [?|?]; [left; by apply elem_of_cons; right | by right].
Qed.

Lemma dict_set_keys (P : K → Prop) k v d :
  P k → Forall (fun kv : K * V => P kv.1) d →
  Forall (fun kv : K * V => P kv.1) (dict_set k v d).
Proof.
  intros Hk. induction 1 as [|[k0 v0] d Hk0 Hd IH]; simpl.
  - by repeat constructor.
  - destruct (decide (k = k0)); constructor; done.
Qed.

Lemma dict_del_keys (P : K → Prop) k d :
  Forall (fun kv : K * V => P kv.1) d →
  Forall (fun kv : K * V => P kv.1) (dict_del k d).
Proof.
  induction 1 as [|[k0 v0] d Hk0 Hd IH]; simpl; [constructor |].
  destruct (decide (k = k0)); [done | by constructor].
Qed.

End DictFacts.

(** ** The Catalog store *)

Module CatalogFacts.
Import Catalog CatalogSpec.

Lemma coll_of_name_of_coll c : coll_of_name (name_of_coll c) = Some c.
Proof. by destruct c. Qed.

Lemma get_set_coll c x s : get_coll c (set_coll c x s) = x.
Proof. by destruct c. Qed.

Lemma get_set_coll_ne c c' x s :
  c ≠ c' → get_coll c' (set_coll c x s) = get_coll c' s.
Proof. by destruct c, c'. Qed.

Lemma collections_save e c st :
  collections (_save_collection e c st) = collections st.
Proof. unfold _save_collection. by destruct (disk_ok e), (cut_short e). Qed.

Lemma list_find_no_match (cl : coll) q :
  no_match cl q →
  list_find (fun kd : jval * doc => _match_query kd.2 q = true) cl = None.
Proof.
  intros Hno. apply list_find_None, Forall_forall.
  intros kd Hin Hm. rewrite (Hno kd Hin) in Hm. discriminate.
Qed.

Lemma filter_no_match (cl : coll) q :
  no_match cl q →
  filter (fun kd : jval * doc => _match_query kd.2 q = true) cl = [].
Proof.
  intros Hno. induction cl as [|kd cl IH]; [done |].
  rewrite filter_cons. destruct (decide _) as [Hm|_].
  - rewrite (Hno kd) in Hm; [discriminate | by left].
  - apply IH. intros kd' Hin. apply Hno. by right.
Qed.

(** C3 (as amended): in a collection of the store, a [find_one] whose query
    matches no document answers [{success: False, error: 'Not found'}],
    whereas a [find] whose query matches no document answers
    [{success: True, results: []}]; neither changes the store.  A request
    that names a collection outside User, Game, Version, Room and Review,
    or none, answers [{success: False, error: 'Invalid request'}] whatever
    its action and data. *)
Theorem lookup_without_match e st c d :
  no_match (get_coll c (collections st)) (query_of d) →
  _process_request e st (lookup_request "find_one" c d)
    = (st, DbError "Not found")
  ∧ _process_request e st (lookup_request "find" c d) = (st, DbResults [])
  ∧ ∀ request, absent_collection request →
      _process_request e st request = (st, DbError "Invalid request").
Proof.
  intros Hno. unfold _process_request, lookup_request. simpl.
  rewrite coll_of_name_of_coll. simpl. split; [|split].
  - unfold _handle_find_one. by rewrite (list_find_no_match _ _ Hno).
  - unfold _handle_find. by rewrite (filter_no_match _ _ Hno).
  - intros [a cn dd] Habs. unfold absent_collection in Habs. simpl in *.
    destruct a as [a|], cn as [cn|]; try done.
    rewrite Habs. by destruct (bool_decide (a = EmptyString)).
Qed.

Lemma lookup_without_match_witness :
  _process_request sample_env init (lookup_request "find_one" Game no_data)
    = (init, DbError "Not found")
  ∧ _process_request sample_env init (lookup_request "find" Game no_data)
    = (init, DbResults [])
  ∧ ∀ request, absent_collection request →
      _process_request sample_env init request = (init, DbError "Invalid request").
Proof.
  apply (lookup_without_match sample_env init Game no_data).
  intros kd Hin. simpl in Hin. by apply elem_of_nil in Hin.
Defined.

(** C3 as the specification words it fails for [find]: on the empty Game
    collection no document matches, and the reply is a success carrying the
    empty list, not the error 'Not found'. *)
Lemma find_without_match_succeeds :
  no_match (get_coll Game (collections init)) ∅
  ∧ (_process_request sample_env init (find_req "Game" ∅)).2 = DbResults []
  ∧ success (_process_request sample_env init (find_req "Game" ∅)).2 = true
  ∧ (_process_request sample_env init (find_req "Game" ∅)).2 ≠ DbError "Not found".
Proof.
  split; [|split; [|split]]; try reflexivity.
  - intros kd Hin. simpl in Hin. by apply elem_of_nil in Hin.
  - discriminate.
Qed.

Lemma ids_truthy_save e c st : ids_truthy (_save_collection e c st) ↔ ids_truthy st.
Proof. unfold ids_truthy. by rewrite CatalogFacts.collections_save. Qed.

Lemma ids_truthy_with_coll c x st :
  ids_truthy st → Forall (fun kd : jval * doc => truthy kd.1 = true) x →
  ids_truthy (with_coll c x st).
Proof.
  intros Hst Hx c'. unfold with_coll. cbn [collections].
  destruct (decide (c = c')) as [<-|Hne].
  - by rewrite CatalogFacts.get_set_coll.
  - rewrite CatalogFacts.get_set_coll_ne by done. apply Hst.
Qed.

(** Every id in the store is truthy, and stays so: an insert files the
    document under a truthy [_id] or under a fresh uuid, and no other
    action adds an id. *)
Lemma process_request_ids_truthy e st request :
  fresh_id e ≠ EmptyString →
  ids_truthy st → ids_truthy (_process_request e st request).1.
Proof.
  intros Hfresh Hst. unfold _process_request, invalid_request.
  destruct (action request) as [a|]; [| done].
  destruct (collection request) as [cn|]; [| done].
  destruct (bool_decide (a = EmptyString)); [done |].
  destruct (coll_of_name cn) as [c|]; [| done].
  repeat match goal with
         | |- context [if bool_decide ?P then _ else _] =>
             destruct (bool_decide P)
         end; try done.
  - unfold _handle_insert. cbn [fst]. apply ids_truthy_save.
    apply ids_truthy_with_coll; [done |].
    apply (dict_set_keys (fun k => truthy k = true)); [| apply Hst].
    destruct (body _ !! "_id") as [v|]; [destruct (truthy v) eqn:Hv; [done |] |];
      simpl; by rewrite bool_decide_eq_false_2.
  - unfold _handle_find_one. by destruct (list_find _ _) as [[? [? ?]]|].
  - unfold _handle_update. cbv zeta. cbn [fst].
    assert (ids_truthy
              (with_coll c
                 ((fun kd : jval * doc =>
                     if _match_query kd.2 (query_of (default no_data (data request)))
                     then (kd.1, <["updated_at" := JStr (now e)]>
                                   (update_of (default no_data (data request)) ∪ kd.2))
                     else kd) <$> get_coll c (collections st)) st)) as Hnew.
    { apply ids_truthy_with_coll; [done |]. apply Forall_fmap.
      eapply Forall_impl; [apply Hst |]. intros [k d] Hk. simpl.
      by destruct (_match_query _ _). }
    case_decide; [apply ids_truthy_save |]; exact Hnew.
  - unfold _handle_delete. cbv zeta. cbn [fst].
    set (to_delete := (filter _ _).*1).
    assert (ids_truthy
              (with_coll c
                 (foldl (fun d k => dict_del k d) (get_coll c (collections st))
                    to_delete) st)) as Hnew.
    { apply ids_truthy_with_coll; [done |]. generalize (Hst c).
      generalize (get_coll c (collections st)).
      induction to_delete as [|k ks IH]; intros cl Hcl; simpl; [done |].
      by apply IH, (dict_del_keys (fun k => truthy k = true)). }
    destruct to_delete; [| apply ids_truthy_save]; exact Hnew.
Qed.

(** C9: an [insert] whose data carries the id of a document already in the
    collection puts the new data, stamped with the current time, under that
    id in place of the old document, adds no document, leaves the others
    alone and answers [{success: True, id}] with the caller's id. *)
Theorem insert_existing_id_replaces e st c d k old :
  body d !! "_id" = Some k →
  truthy k = true →
  dict_get k (get_coll c (collections st)) = Some old →
  let r := _process_request e st (lookup_request "insert" c d) in
  r.2 = DbId k
  ∧ dict_get k (get_coll c (collections r.1))
      = Some (<["created_at" := JStr (now e)]> (body d))
  ∧ (get_coll c (collections r.1)).*1 = (get_coll c (collections st)).*1
  ∧ (∀ k', k' ≠ k →
       dict_get k' (get_coll c (collections r.1))
         = dict_get k' (get_coll c (collections st)))
  ∧ ∀ c', c' ≠ c → get_coll c' (collections r.1) = get_coll c' (collections st).
Proof.
  intros Hid Htr Hold. unfold _process_request, lookup_request. simpl.
  rewrite coll_of_name_of_coll. simpl.
  unfold _handle_insert. rewrite Hid, Htr. simpl.
  rewrite collections_save. simpl. rewrite get_set_coll.
  rewrite (insert_id (body d) "_id" k Hid).
  split; [done |]. split; [apply dict_get_set_eq |].
  split; [by eapply dict_set_keys_present |].
  split.
  - intros k' Hne. by apply dict_get_set_ne.
  - intros c' Hne. apply get_set_coll_ne. congruence.
Qed.

Lemma insert_existing_id_replaces_witness :
  let r := _process_request sample_env one_review (lookup_request "insert" Review review_v2) in
  r.2 = DbId (JStr "r1")
  ∧ dict_get (JStr "r1") (get_coll Review (collections r.1))
      = Some (<["created_at" := JStr "2025-12-17T18:30:00"]> (body review_v2))
  ∧ (get_coll Review (collections r.1)).*1 = [JStr "r1"].
Proof.
  pose proof (insert_existing_id_replaces sample_env one_review Review review_v2
                (JStr "r1") review_v1 eq_refl eq_refl eq_refl) as (H1 & H2 & H3 & _).
  exact (conj H1 (conj H2 H3)).
Defined.

End CatalogFacts.

(** ** The Lobby's port allocator *)

Module PortFacts.
Import Catalog Package Server Lobby LobbySpec.

Lemma find_available_port_result b L :
  match _find_available_port b L with
  | (Some p, L') =>
      (next_game_port L ≤ p ≤ 5099)%Z ∧ b p = true
      ∧ (∀ q, (next_game_port L ≤ q < p)%Z → b q = false)
      ∧ L' = set_next_game_port (p + 1) L
  | (None, L') =>
      (∀ q, (next_game_port L ≤ q ≤ 5099)%Z → b q = false)
      ∧ L' = set_next_game_port 5000 L
  end.
Proof.
  unfold _find_available_port, range.
  destruct (list_find _ _) as [[i p]|] eqn:Hfind.
  - apply list_find_Some in Hfind as (Hi & Hp & Hbefore).
    apply lookup_seqZ in Hi as [-> Hlt].
    repeat split; try lia; [done |].
    intros q Hq. apply not_true_is_false. intros Hbq.
    apply (Hbefore (Z.to_nat (q - next_game_port L)) q); [| lia | done].
    apply lookup_seqZ. lia.
  - split; [| done]. intros q Hq. apply not_true_is_false. intros Hbq.
    apply list_find_None in Hfind.
    rewrite Forall_forall in Hfind. apply (Hfind q); [| done].
    apply elem_of_seqZ. lia.
Qed.

Lemma strictly_increasing_NoDup (l : list Z) : StronglySorted Z.lt l → NoDup l.
Proof.
  induction 1 as [|x l Hs IH Hall]; constructor; [| done].
  intros Hin. rewrite Forall_forall in Hall. specialize (Hall x Hin). lia.
Qed.

(** A run of successful allocations climbs from the cursor and cannot be
    longer than what is left of the range. *)
Lemma successes_climb binds : ∀ L ports L',
  allocate_all binds L = (Some <$> ports, L') →
  Forall (fun p => (next_game_port L ≤ p ≤ 5099)%Z) ports
  ∧ StronglySorted Z.lt ports
  ∧ (length ports ≤ Z.to_nat (5100 - next_game_port L))%nat.
Proof.
  induction binds as [|b binds IH]; intros L ports L' Hrun; simpl in Hrun.
  - destruct ports; [| discriminate]. repeat constructor. simpl. lia.
  - pose proof (find_available_port_result b L) as Hone.
    destruct (_find_available_port b L) as [p L1].
    destruct (allocate_all binds L1) as [ps L2] eqn:Hrest.
    destruct ports as [|p0 ports]; [discriminate |].
    rewrite fmap_cons in Hrun. injection Hrun as -> -> ->.
    destruct Hone as (Hp & _ & _ & ->).
    destruct (IH _ _ _ Hrest) as (Hall & Hsorted & Hlen). simpl in *.
    split; [| split].
    + constructor; [lia |]. eapply Forall_impl; [exact Hall |]. simpl. lia.
    + constructor; [done |]. eapply Forall_impl; [exact Hall |]. simpl. lia.
    + lia.
Qed.

(** C4: a call scans the ports from the cursor up to 5099; it returns the
    first that can be bound and moves the cursor just past it, or, when
    none can, resets the cursor to 5000 and fails.  So allocations that
    succeed back to back return strictly increasing, pairwise distinct
    ports of 5000..5099, and after a hundred of them the next one fails. *)
Theorem port_allocation L :
  (5000 ≤ next_game_port L)%Z →
  (∀ b,
     match _find_available_port b L with
     | (Some p, L') =>
         (5000 ≤ p ≤ 5099)%Z ∧ (next_game_port L ≤ p)%Z ∧ b p = true
         ∧ (∀ q, (next_game_port L ≤ q < p)%Z → b q = false)
         ∧ next_game_port L' = (p + 1)%Z
     | (None, L') =>
         (∀ q, (next_game_port L ≤ q ≤ 5099)%Z → b q = false)
         ∧ next_game_port L' = 5000%Z
     end)
  ∧ (∀ binds ports L',
       allocate_all binds L = (Some <$> ports, L') →
       StronglySorted Z.lt ports ∧ NoDup ports
       ∧ Forall (fun p => (5000 ≤ p ≤ 5099)%Z) ports)
  ∧ (∀ binds ports last,
       length ports = 100%nat →
       (allocate_all binds L).1 = (Some <$> ports) ++ [last] →
       last = None).
Proof.
  intros Hcursor. split; [| split].
  - intros b. pose proof (find_available_port_result b L) as Hone.
    destruct (_find_available_port b L) as [[p|] L'].
    + destruct Hone as (Hp & Hb & Hq & ->). repeat split; try done; lia.
    + destruct Hone as (Hq & ->). done.
  - intros binds ports L' Hrun.
    destruct (successes_climb _ _ _ _ Hrun) as (Hall & Hsorted & _).
    split; [done |]. split; [by apply strictly_increasing_NoDup |].
    eapply Forall_impl; [exact Hall |]. simpl. lia.
  - intros binds ports [p|] Hlen Hrun; [| done]. exfalso.
    destruct (allocate_all binds L) as [rs L'] eqn:Hall. simpl in Hrun.
    assert (rs = Some <$> (ports ++ [p])) as -> by (by rewrite fmap_app).
    destruct (successes_climb _ _ _ _ Hall) as (_ & _ & Hbound).
    rewrite length_app in Hbound. simpl in Hbound. lia.
Qed.

Lemma port_allocation_witness :
  (5000 ≤ next_game_port init)%Z
  ∧ (∀ ports L',
       allocate_all [fun _ => true; fun p => bool_decide (p ≠ 5001%Z)] init
         = (Some <$> ports, L') →
       StronglySorted Z.lt ports ∧ NoDup ports
       ∧ Forall (fun p => (5000 ≤ p ≤ 5099)%Z) ports)
  ∧ (allocate_all [fun _ => true; fun p => bool_decide (p ≠ 5001%Z)] init).1
      = [Some 5000%Z; Some 5002%Z].
Proof.
  assert (5000 ≤ next_game_port init)%Z as Hinit by (simpl; lia).
  destruct (port_allocation init Hinit) as (_ & Hruns & _).
  split; [exact Hinit |]. split; [apply Hruns | reflexivity].
Defined.

End PortFacts.

(** ** The Lobby's replies to [check_game_status] *)

Module StatusFacts.
Import Catalog Package Server Lobby Sample.

(** C2 fails in one branch: for a member of a room that is [in_game] and
    whose game process has exited, [check_game_status] resets the room and
    replies [{success: True, game_started: False}], without [is_host]. *)
Theorem check_game_status_reset_lacks_is_host cfg e s L i rid r :
  room_of (user_id s) (rooms L) = Some (i, (rid, r)) →
  status r = in_game →
  process_ended e r = true →
  (_handle_check_game_status cfg e s L).2
    = Reply [("success", RBool true); ("game_started", RBool false)]
  ∧ member "is_host" [("success", RBool true); ("game_started", RBool false)]
    = None
  ∧ (_handle_check_game_status cfg e s L).1
    = set_room i rid (reset_room r) (close_log r L).
Proof.
  intros Hroom Hstatus Hended. unfold _handle_check_game_status.
  rewrite Hroom, Hstatus, Hended. done.
Qed.

(** In the other branches the reply of a room member carries [is_host],
    computed from the room's current host. *)
Lemma check_game_status_is_host cfg e s L i rid r :
  room_of (user_id s) (rooms L) = Some (i, (rid, r)) →
  status r = waiting ∨ process_ended e r = false →
  ∃ x, (_handle_check_game_status cfg e s L).2 = Reply x
       ∧ member "is_host" x = Some (RBool (bool_decide (user_id s = host_id r))).
Proof.
  intros Hroom Hcase. unfold _handle_check_game_status. rewrite Hroom.
  destruct (status r) eqn:Hstatus.
  - eexists. split; [done |]. done.
  - destruct Hcase as [|Hrun]; [done |]. rewrite Hrun.
    eexists. split; [done |]. done.
Qed.

Lemma check_game_status_reset_lacks_is_host_witness :
  let L := the_lobby (run cfg bob_plays) in
  let e := serving chat_1_0 "5c1e" Runs exited in
  let s := {| logged_in := true; user_id := JStr "u-bob"; username := JStr "bob" |} in
  (_handle_check_game_status cfg e s L).2
    = Reply [("success", RBool true); ("game_started", RBool false)].
Proof.
  intros L e s.
  destruct (room_of (user_id s) (rooms L)) as [[i [rid r]]|] eqn:Hroom;
    [| vm_compute in Hroom; discriminate].
  assert (status r = in_game ∧ process_ended e r = true) as [H1 H2].
  { vm_compute in Hroom. injection Hroom as <- <- <-. by split. }
  exact (proj1 (check_game_status_reset_lacks_is_host cfg e s L i rid r Hroom H1 H2)).
Defined.

End StatusFacts.

(** ** Game logs *)

Module LogFacts.
Import Catalog Package Server Lobby Sample.

Lemma open_files_terminated killed : ∀ L,
  open_files (foldl (fun L' pid => terminate pid L') L killed) = open_files L.
Proof.
  induction killed as [|pid killed IH]; intros L; simpl; [done |].
  by rewrite IH.
Qed.

(** [_remove_user_from_all_rooms], and with it the cleanup of a session,
    closes no file, whatever rooms it deletes. *)
Lemma cleanup_closes_nothing s L :
  open_files (_cleanup_session s L) = open_files L.
Proof.
  unfold _cleanup_session, _remove_user_from_all_rooms.
  destruct (remove_user_from_rooms _ _ _) as [rs killed]. simpl.
  by rewrite open_files_terminated.
Qed.

(** C6 fails on disconnect: Bob is alone in a room whose game is running
    and logged to handle 0.  When his connection ends the room is
    destroyed and the child terminated, yet the handle stays open; had he
    sent [leave_room], the handle would have been closed. *)
Theorem disconnect_leaves_log_open :
  let before := the_lobby (run cfg bob_plays) in
  let after := the_lobby (run cfg (bob_plays ++ [Disconnect 1])) in
  let left :=
    the_lobby (run cfg (bob_plays ++ [Request 1 (act "leave_room") (quiet chat_1_0)])) in
  (status <$> (rooms before).*2) = [in_game]
  ∧ (game_log_file <$> (rooms before).*2) = [Some 0%nat]
  ∧ open_files before = [0%nat]
  ∧ rooms after = [] ∧ terminated after = [0%nat]
  ∧ open_files after = [0%nat]
  ∧ rooms left = [] ∧ open_files left = [].
Proof. vm_compute. repeat split. Qed.

(** The other paths out of [in_game] do close the log: with the game
    process exited, [check_game_status] and [end_game] leave no handle
    open, and a new [start_game] closes handle 0 before it opens handle 1. *)
Example resets_close_log :
  let L := the_lobby (run cfg bob_plays) in
  let over := serving chat_1_0 "5c1e" Runs exited in
  open_files (_handle_check_game_status cfg over bob L).1 = []
  ∧ open_files (_handle_end_game over bob L).1 = []
  ∧ open_files (_handle_start_game cfg over bob L).1 = [1%nat].
Proof. vm_compute. repeat split. Qed.

End LogFacts.

(** ** Uploads *)

Module UploadFacts.
Import Catalog Package Server Gateway Sample.

(** C5 fails when the insert of the Game fails: the package has already
    been moved to [uploaded_games/chat_1.0], the cleanup finds no
    temporary directory to purge, and the promoted directory stays while
    the reply is an error and the Catalog holds no Game. *)
Theorem failed_insert_leaves_promoted_directory :
  let r :=
    _handle_upload_game cfg
      (uploading (LinkDown "[Errno 111] Connection refused")
         (chat_frames (chat_package chat_1_0_text)))
      nothing_uploaded alice upload_chat in
  reply r = Reply (failure "Failed to save game to database")
  ∧ fs (after r) !! "uploaded_games/chat_1.0" = Some (chat_package chat_1_0_text)
  ∧ fs (after r) !! "uploaded_games/temp_9b2e4d1c" = None
  ∧ c_Game (collections (db (after r))) = [].
Proof. vm_compute. repeat split. Qed.

(** When the package is invalid the staging directory is purged and
    nothing is promoted. *)
Lemma invalid_package_leaves_nothing :
  let r :=
    _handle_upload_game cfg (uploading LinkUp (chat_frames chat_without_server))
      nothing_uploaded alice upload_chat in
  reply r = Reply (failure
    "Invalid game package: Server entry point not found: game_server.py")
  ∧ fs (after r) = ∅.
Proof. vm_compute. repeat split. Qed.

(** So it is when a file frame is cut short. *)
Lemma truncated_upload_leaves_nothing :
  let r :=
    _handle_upload_game cfg
      (uploading LinkUp
         [Message (<["file_count" := JNum 3]> ∅);
          header "game_info.json"; File chat_1_0_text;
          header "game_server.py"; FilePart "import so"])
      nothing_uploaded alice upload_chat in
  reply r = Reply (failure "Failed to receive file: game_server.py")
  ∧ fs (after r) = ∅.
Proof. vm_compute. repeat split. Qed.

(** And on full success the package is promoted and both records are
    inserted. *)
Lemma upload_promotes_and_records :
  let r :=
    _handle_upload_game cfg
      (uploading LinkUp (chat_frames (chat_package chat_1_0_text)))
      nothing_uploaded alice upload_chat in
  member "success" (match reply r with Reply x => x | _ => [] end)
    = Some (RBool true)
  ∧ fs (after r) !! "uploaded_games/chat_1.0" = Some (chat_package chat_1_0_text)
  ∧ fs (after r) !! "uploaded_games/temp_9b2e4d1c" = None
  ∧ length (c_Game (collections (db (after r)))) = 1%nat
  ∧ length (c_Version (collections (db (after r)))) = 1%nat.
Proof. vm_compute. repeat split. Qed.

End UploadFacts.
(** ** Requests to the Catalog *)

Module RequestFacts.
Import Catalog CatalogSpec Package Server.

Lemma match_query_lookup (d q : doc) key v :
  _match_query d q = true → q !! key = Some v → d !! key = Some v.
Proof.
  unfold _match_query. intros Hall Hq.
  assert (In (key, v) (map_to_list q)) as Hin.
  { apply list_elem_of_In. by apply elem_of_map_to_list. }
  apply (proj1 (List.forallb_forall _ _) Hall) in Hin. simpl in Hin.
  by apply bool_decide_eq_true in Hin.
Qed.

(** What a successful [find_one] through [_db_request] tells: the Catalog
    answered, and the document is in the collection and matches. *)
Lemma find_one_result l e st cn c q d :
  coll_of_name cn = Some c →
  (_db_request l e st (find_one_req cn q)).2 = DbResult d →
  l = LinkUp
  ∧ (∃ k, (k, d) ∈ get_coll c (collections st))
  ∧ ∀ key v, q !! key = Some v → d !! key = Some v.
Proof.
  intros Hc. destruct l as [|msg]; [| discriminate].
  unfold _db_request, Catalog._process_request, find_one_req.
  cbn [action collection data]. rewrite Hc. simpl.
  unfold _handle_find_one, query_of. simpl.
  destruct (list_find _ _) as [[i [k d']]|] eqn:Hfind; simpl; [| discriminate].
  intros [= ->]. apply list_find_Some in Hfind as (Hi & Hm & _).
  split; [done |]. split.
  - exists k. by eapply list_elem_of_lookup_2.
  - intros key v. by apply match_query_lookup.
Qed.

Lemma not_success msg : member "success" (failure msg) ≠ Some (RBool true).
Proof. discriminate. Qed.

Lemma match_query_intro (d q : doc) :
  (∀ key v, q !! key = Some v → d !! key = Some v) → _match_query d q = true.
Proof.
  intros Hq. unfold _match_query. apply List.forallb_forall.
  intros [key v] Hin. apply bool_decide_eq_true_2, Hq.
  by apply elem_of_map_to_list, list_elem_of_In.
Qed.

Lemma find_one_not_found e st cn c q :
  coll_of_name cn = Some c →
  no_match (get_coll c (collections st)) q →
  (_db_request LinkUp e st (find_one_req cn q)).2 = DbError "Not found".
Proof.
  intros Hc Hno. unfold _db_request, Catalog._process_request, find_one_req.
  cbn [action collection data]. rewrite Hc. simpl.
  unfold _handle_find_one, query_of. simpl.
  by rewrite (CatalogFacts.list_find_no_match _ _ Hno).
Qed.

Lemma find_one_found e st cn c q k d :
  coll_of_name cn = Some c →
  (k, d) ∈ get_coll c (collections st) →
  _match_query d q = true →
  ∃ k' d', (k', d') ∈ get_coll c (collections st)
           ∧ _match_query d' q = true
           ∧ (_db_request LinkUp e st (find_one_req cn q)).2 = DbResult d'.
Proof.
  intros Hc Hin Hm. unfold _db_request, Catalog._process_request, find_one_req.
  cbn [action collection data]. rewrite Hc. simpl.
  unfold _handle_find_one, query_of. simpl.
  destruct (list_find_elem_of
              (fun kd : jval * doc => _match_query kd.2 q = true)
              (get_coll c (collections st)) (k, d) Hin Hm) as [[i [k' d']] Hfind].
  rewrite Hfind. apply list_find_Some in Hfind as (Hi & Hm' & _).
  exists k', d'. split; [by eapply list_elem_of_lookup_2 | done].
Qed.

End RequestFacts.

(** ** Starting a game *)

Module StartFacts.
Import Catalog Package Server Lobby LobbySpec Sample RequestFacts.

Lemma launch_game_success cfg e i rid r game_dir game_info L L' x :
  (i < length (rooms L))%nat →
  launch_game cfg e i rid r game_dir game_info L = (L', Reply x) →
  member "success" x = Some (RBool true) →
  launched_from cfg L L' i rid r game_dir game_info x.
Proof.
  intros Hi. unfold launch_game.
  pose proof (PortFacts.find_available_port_result (can_bind e) L) as Hport.
  destruct (_find_available_port (can_bind e) L) as [[port|] L1].
  2:{ intros [= <- <-] Hs. by apply not_success in Hs. }
  destruct Hport as (_ & _ & _ & ->).
  destruct (server game_info) as [server_config|] eqn:Hserver; [| discriminate].
  destruct (entry_point server_config) as [entry|] eqn:Hentry; [| discriminate].
  destruct (launched e); simpl.
  - intros [= <- <-] Hs. by apply not_success in Hs.
  - intros [= <- <-] Hs. by apply not_success in Hs.
  - intros [= <- <-] Hs. by apply not_success in Hs.
  - intros [= <- <-] _. eexists _, _, _, server_config, entry.
    split; [exact Hserver |]. split; [exact Hentry |]. split; [| split].
    + simpl. by apply list_lookup_insert_eq.
    + simpl. reflexivity.
    + reflexivity.
Qed.

Lemma fetch_and_launch_success cfg e i rid r L L' x :
  (i < length (rooms L))%nat →
  fetch_and_launch cfg e i rid r L = (L', Reply x) →
  member "success" x = Some (RBool true) →
  ∃ latest file_path game_info,
    current_release (db e) (game_id r) latest file_path
    ∧ package_at cfg e (path_join (upload_dir cfg) file_path) game_info
    ∧ launched_from cfg L L' i rid (set_version latest r)
        (path_join (upload_dir cfg) file_path) game_info x.
Proof.
  intros Hi. unfold fetch_and_launch.
  destruct (_db_request (link e 0) _ _ _).2 as [| |game| |msg] eqn:Hgame;
    try discriminate.
  2:{ intros [= <- <-] Hs. by apply not_success in Hs. }
  apply (find_one_result _ _ _ _ Game) in Hgame as (_ & Hin & Hq); [| done].
  destruct (game !! "latest_version") as [latest|] eqn:Hlatest; [| discriminate].
  destruct (_db_request (link e 1) _ _ _).2 as [| |release| |msg] eqn:Hrel;
    try discriminate.
  2:{ intros [= <- <-] Hs. by apply not_success in Hs. }
  apply (find_one_result _ _ _ _ Version) in Hrel as (_ & Hin' & Hq'); [| done].
  destruct (release !! "file_path") as [[| |file_path]|] eqn:Hpath; try discriminate.
  destruct (read_file _ _ _) as [text|] eqn:Htext; [| discriminate].
  destruct (json_load cfg text) as [game_info|] eqn:Hjson; [| discriminate].
  intros Hlaunch Hs.
  apply launch_game_success in Hlaunch;
    [| unfold set_room, set_rooms; cbn [rooms]; by rewrite length_insert | done].
  exists latest, file_path, game_info. split; [| split].
  - exists game, release. repeat split; try done.
    + apply Hq. by simplify_map_eq.
    + apply Hq. by simplify_map_eq.
    + apply Hq'. by simplify_map_eq.
    + apply Hq'. by simplify_map_eq.
  - by exists text.
  - destruct Hlaunch as (pid & port & log & sc & entry & H0 & H1 & H2 & H3 & H4).
    by exists pid, port, log, sc, entry.
Qed.

(** C7: when [start_game] succeeds, the Lobby has fetched the room's Game
    again from the Catalog and read its current [latest_version]; the
    Version record it read is the one of that game and version; the room
    now carries that version; the one child it has spawned has the
    command line [start_command] (or [python]), the server entry point
    of the manifest found in the directory that this Version record
    names, joined to that directory, and the manifest's arguments with
    the port and the number of players filled in; and the reply's
    [version] is that version. *)
Theorem start_game_floats_version cfg e s L x :
  (_handle_start_game cfg e s L).2 = Reply x →
  member "success" x = Some (RBool true) →
  ∃ i rid r latest file_path game_info server_config entry r' pid port,
    room_of (user_id s) (rooms L) = Some (i, (rid, r))
    ∧ current_release (db e) (game_id r) latest file_path
    ∧ package_at cfg e (path_join (upload_dir cfg) file_path) game_info
    ∧ server game_info = Some server_config
    ∧ entry_point server_config = Some entry
    ∧ rooms (_handle_start_game cfg e s L).1 !! i = Some (rid, r')
    ∧ version r' = latest ∧ status r' = in_game ∧ game_process r' = Some pid
    ∧ game_port r' = Some port
    ∧ players r' = players r
    ∧ children (_handle_start_game cfg e s L).1
      = children L
        ++ [(pid,
             default "python" (start_command server_config)
             :: path_join (path_join (upload_dir cfg) file_path) entry
             :: ((fun arg =>
                    replace "{NUM_PLAYERS}" (pretty (length (players r)))
                      (replace "{PORT}" (pretty port) arg))
                   <$> default [] (arguments server_config)))]
    ∧ member "version" x = Some (RVal latest).
Proof.
  unfold _handle_start_game.
  destruct (room_of (user_id s) (rooms L)) as [[i [rid r]]|] eqn:Hroom.
  2:{ intros [= <-] Hs. by apply not_success in Hs. }
  assert (i < length (rooms L))%nat as Hi.
  { apply list_find_Some in Hroom as (Hi & _). by eapply lookup_lt_Some. }
  destruct (bool_decide (host_id r ≠ user_id s)).
  { intros [= <-] Hs. by apply not_success in Hs. }
  assert (∀ r0 L0 L',
    (i < length (rooms L0))%nat → game_id r0 = game_id r →
    players r0 = players r → children L0 = children L →
    fetch_and_launch cfg e i rid r0 L0 = (L', Reply x) →
    member "success" x = Some (RBool true) →
    ∃ latest file_path game_info server_config entry r' pid port,
      current_release (db e) (game_id r) latest file_path
      ∧ package_at cfg e (path_join (upload_dir cfg) file_path) game_info
      ∧ server game_info = Some server_config
      ∧ entry_point server_config = Some entry
      ∧ rooms L' !! i = Some (rid, r')
      ∧ version r' = latest ∧ status r' = in_game ∧ game_process r' = Some pid
      ∧ game_port r' = Some port
      ∧ players r' = players r
      ∧ children L'
        = children L
          ++ [(pid,
               default "python" (start_command server_config)
               :: path_join (path_join (upload_dir cfg) file_path) entry
               :: ((fun arg =>
                      replace "{NUM_PLAYERS}" (pretty (length (players r)))
                        (replace "{PORT}" (pretty port) arg))
                     <$> default [] (arguments server_config)))]
      ∧ member "version" x = Some (RVal latest)) as Hfrom.
  { intros r0 L0 L' Hi0 Hgid Hplayers Hch Hrun Hs.
    destruct (fetch_and_launch_success _ _ _ _ _ _ _ _ Hi0 Hrun Hs)
      as (latest & file_path & game_info & Hrel & Hpkg
          & pid & port & log & sc & entry & H0 & H1 & H2 & H3 & ->).
    rewrite Hgid in Hrel. rewrite Hch in H3. cbn [set_version players] in H3.
    rewrite Hplayers in H3.
    exists latest, file_path, game_info, sc, entry,
      (set_running pid port log (set_version latest r0)), pid, port.
    repeat split; try done. }
  destruct (status r).
  - destruct (fetch_and_launch cfg e i rid r L) as [L' o] eqn:Hrun. simpl.
    intros -> Hs.
    destruct (Hfrom r L L' Hi eq_refl eq_refl eq_refl Hrun Hs)
      as (latest & file_path & gi & sc & entry & r' & pid & port & H).
    by exists i, rid, r, latest, file_path, gi, sc, entry, r', pid, port.
  - destruct (process_ended_retry e r).
    2:{ intros [= <-] Hs. by apply not_success in Hs. }
    destruct (fetch_and_launch cfg e i rid (reset_room r) _) as [L' o] eqn:Hrun.
    simpl. intros -> Hs.
    destruct (Hfrom (reset_room r)
                (set_room i rid (reset_room r) (close_log r L)) L') as
      (latest & file_path & gi & sc & entry & r' & pid & port & H); try done.
    + unfold set_room, set_rooms; cbn [rooms]. rewrite length_insert.
      unfold close_log. by destruct (game_log_file r).
    + unfold close_log. by destruct (game_log_file r).
    + by exists i, rid, r, latest, file_path, gi, sc, entry, r', pid, port.
Qed.

(** Bob's room was created for version 1.0; the game is at 1.1 when he
    starts it. *)
Lemma start_game_floats_version_witness :
  let L := the_lobby (run cfg (bob_creates chat_1_0)) in
  let x := started cfg 5000
             (set_running 0 5000 0
                (new_room "3fa85f64" (JStr "chat") (JStr "g-chat") (JStr "1.1")
                   (JNum 2) bob)) in
  (_handle_start_game cfg (quiet chat_1_1) bob L).2 = Reply x
  ∧ member "success" x = Some (RBool true)
  ∧ ∃ i rid r latest file_path game_info server_config entry r' pid port,
      room_of (user_id bob) (rooms L) = Some (i, (rid, r))
      ∧ current_release (db (quiet chat_1_1)) (game_id r) latest file_path
      ∧ package_at cfg (quiet chat_1_1) (path_join (upload_dir cfg) file_path)
          game_info
      ∧ server game_info = Some server_config
      ∧ entry_point server_config = Some entry
      ∧ rooms (_handle_start_game cfg (quiet chat_1_1) bob L).1 !! i
        = Some (rid, r')
      ∧ version r' = latest ∧ status r' = in_game ∧ game_process r' = Some pid
      ∧ game_port r' = Some port
      ∧ players r' = players r
      ∧ children (_handle_start_game cfg (quiet chat_1_1) bob L).1
        = children L
          ++ [(pid,
               default "python" (start_command server_config)
               :: path_join (path_join (upload_dir cfg) file_path) entry
               :: ((fun arg =>
                      replace "{NUM_PLAYERS}" (pretty (length (players r)))
                        (replace "{PORT}" (pretty port) arg))
                     <$> default [] (arguments server_config)))]
      ∧ member "version" x = Some (RVal latest).
Proof.
  intros L x.
  assert ((_handle_start_game cfg (quiet chat_1_1) bob L).2 = Reply x) as Hrun
    by (vm_compute; reflexivity).
  assert (member "success" x = Some (RBool true)) as Hs
    by (vm_compute; reflexivity).
  split; [exact Hrun |]. split; [exact Hs |].
  exact (start_game_floats_version cfg (quiet chat_1_1) bob L x Hrun Hs).
Defined.

(** The same run, evaluated: the room passes from 1.0 to 1.1, the child is
    the server of the 1.1 package and the reply says 1.1. *)
Example version_float :
  let L := the_lobby (run cfg (bob_creates chat_1_0)) in
  let L' := (_handle_start_game cfg (quiet chat_1_1) bob L).1 in
  (version <$> (rooms L).*2) = [JStr "1.0"]
  ∧ (version <$> (rooms L').*2) = [JStr "1.1"]
  ∧ children L' = [(0%nat, ["python3"; "uploaded_games/chat_1.1/game_server.py";
                            "--port"; "5000"; "--players"; "1"])].
Proof. vm_compute. repeat split. Qed.

End StartFacts.
(** ** Reviews of removed games *)

Module ReviewFacts.
Import Catalog CatalogSpec Package Server Lobby LobbySpec Sample RequestFacts.

Lemma active_query_name name : active_game_by_name name !! "name" = Some name.
Proof. apply lookup_insert_eq. Qed.

Lemma active_query_status name :
  active_game_by_name name !! "status" = Some (JStr "active").
Proof.
  unfold active_game_by_name. rewrite lookup_insert_ne by done.
  apply lookup_insert_eq.
Qed.

Section Removed.
Context (cfg : config) (e : env) (name gid : jval).
Hypothesis Hup : ∀ k, link e k = LinkUp.
Hypothesis Hgame : removed_game (db e) name gid.

Lemma no_active_game :
  no_match (get_coll Game (collections (db e))) (active_game_by_name name).
Proof.
  destruct Hgame as (k & g & Hin & Hname & Hid & Hstatus & Huniq).
  intros [k' g'] Hin'. apply not_true_is_false. intros Hm. cbn [snd] in Hm.
  assert (g' = g) as ->.
  { apply (Huniq k'); [done |].
    apply (match_query_lookup _ _ _ _ Hm), active_query_name. }
  assert (g !! "status" = Some (JStr "active")) as Hact.
  { apply (match_query_lookup _ _ _ _ Hm), active_query_status. }
  congruence.
Qed.

Lemma active_lookup_fails :
  (_db_request (link e 0) (dbe e 0) (db e)
     (find_one_req "Game" (active_game_by_name name))).2 = DbError "Not found".
Proof. rewrite Hup. by apply (find_one_not_found _ _ _ Game), no_active_game. Qed.

Lemma name_lookup_finds :
  ∃ g, g !! "_id" = Some gid
       ∧ (_db_request (link e 0) (dbe e 0) (db e)
            (find_one_req "Game" (<["name" := name]> ∅))).2 = DbResult g.
Proof.
  destruct Hgame as (k & g & Hin & Hname & Hid & Hstatus & Huniq).
  destruct (find_one_found (dbe e 0) (db e) "Game" Game (<["name" := name]> ∅) k g)
    as (k' & g' & Hin' & Hm' & Hres); [done | done | |].
  { apply match_query_intro. intros key v Hq.
    apply lookup_insert_Some in Hq as [[<- <-]|[_ Hq]]; [done |].
    by rewrite lookup_empty in Hq. }
  assert (g' = g) as ->.
  { apply (Huniq k'); [done |]. apply (match_query_lookup _ _ _ _ Hm').
    apply lookup_insert_eq. }
  exists g. split; [exact Hid |]. rewrite Hup. exact Hres.
Qed.

Lemma submit_review_removed s request n :
  request !! "game_name" = Some name →
  truthy name = true →
  request !! "rating" = Some (JNum n) →
  (1 ≤ n ≤ 5)%Z →
  let r := _handle_submit_review e s request in
  r.2 = Reply (ok_message "Review submitted")
  ∧ dict_get (JStr (fresh_id (dbe e 1))) (c_Review (collections r.1))
    = Some (<["created_at" := JStr (now (dbe e 1))]> (
            <["_id" := JStr (fresh_id (dbe e 1))]> (
            review_record gid s (JNum n)
              (default (JStr EmptyString) (request !! "comment"))))).
Proof.
  intros Hname Htruthy Hrating Hn. unfold _handle_submit_review.
  rewrite Hname, Hrating. simpl. rewrite Htruthy. simpl.
  assert ((1 <=? n)%Z && (n <=? 5)%Z = true) as ->.
  { apply andb_true_intro. split; apply Z.leb_le; lia. }
  simpl. destruct name_lookup_finds as (g & Hid & ->). rewrite Hid.
  rewrite Hup. unfold _db_request, Catalog._process_request, insert_req.
  cbn [action collection data]. simpl. unfold _handle_insert. simpl.
  assert (review_record gid s (JNum n)
            (default (JStr EmptyString) (request !! "comment")) !! "_id" = None)
    as Hnoid.
  { unfold review_record. rewrite !lookup_insert_ne by done. apply lookup_empty. }
  rewrite Hnoid. simpl. split; [done |].
  rewrite CatalogFacts.collections_save. simpl. apply dict_get_set_eq.
Qed.

Lemma list_games_omits_removed :
  ∃ games,
    _handle_list_games e
      = Reply [("success", RBool true); ("games", RDocs games)]
    ∧ ∀ g, g ∈ games → g !! "name" ≠ Some name.
Proof.
  destruct Hgame as (k & g0 & Hin & Hname & Hid & Hstatus & Huniq).
  unfold _handle_list_games. rewrite Hup.
  unfold _db_request, Catalog._process_request, find_req.
  cbn [action collection data]. simpl. unfold _handle_find, query_of. simpl.
  eexists. split; [done |].
  intros g [[k' g'] [-> Hin']]%list_elem_of_fmap Hname'. simpl in Hname'.
  apply list_elem_of_filter in Hin' as [Hm Hin']. cbn [snd] in Hm.
  assert (g' = g0) as -> by by apply (Huniq k').
  assert (g0 !! "status" = Some (JStr "active")) as Hact.
  { apply (match_query_lookup _ _ _ _ Hm), lookup_insert_eq. }
  congruence.
Qed.

Lemma game_info_removed request :
  request !! "game_name" = Some name → truthy name = true →
  _handle_game_info e request = Reply (failure "Game not found").
Proof.
  intros Hname Htruthy. unfold _handle_game_info.
  rewrite Hname, Htruthy. cbn [negb]. by rewrite active_lookup_fails.
Qed.

Lemma download_game_removed request :
  request !! "game_name" = Some name → truthy name = true →
  _handle_download_game cfg e request = ([], Reply (failure "Game not found")).
Proof.
  intros Hname Htruthy. unfold _handle_download_game.
  rewrite Hname, Htruthy. cbn [negb]. by rewrite active_lookup_fails.
Qed.

Lemma create_room_removed s request L :
  request !! "game_name" = Some name → truthy name = true →
  (_handle_create_room e s request L).2 = Reply (failure "Game not found").
Proof.
  intros Hname Htruthy. unfold _handle_create_room.
  rewrite Hname, Htruthy. cbn [negb]. by rewrite active_lookup_fails.
Qed.

End Removed.

(** How [_process_request] routes the requests of a logged-in player. *)
Lemma routed cfg e conn s request L a :
  logged_in s = true →
  let h := _process_request cfg e conn s (with_action a request) L in
  (a = "submit_review" →
     h = on_catalog s L (_handle_submit_review e s (with_action a request)))
  ∧ (a = "game_info" →
     h = on_lobby e s (L, _handle_game_info e (with_action a request)))
  ∧ (a = "download_game" →
     reply h = (_handle_download_game cfg e (with_action a request)).2)
  ∧ (a = "create_room" →
     h = on_lobby e s (_handle_create_room e s (with_action a request) L))
  ∧ (a = "list_games" → h = on_lobby e s (L, _handle_list_games e)).
Proof.
  intros Hlogged h. subst h. unfold _process_request, with_action.
  rewrite lookup_insert_eq, Hlogged. cbn [negb].
  repeat split; intros ->;
    repeat (rewrite bool_decide_eq_false_2 by discriminate);
    rewrite bool_decide_eq_true_2 by reflexivity; try reflexivity.
  by destruct (_handle_download_game _ _ _).
Qed.

(** C10: while a game is removed, a logged-in player's [submit_review] for
    it with a rating from 1 to 5 succeeds and the Catalog then holds the
    review, although [game_info], [download_game] and [create_room] answer
    'Game not found' for that game and [list_games] does not list it. *)
Theorem removed_game_can_be_reviewed cfg e conn s request L name gid n :
  (∀ k, link e k = LinkUp) →
  removed_game (db e) name gid →
  truthy name = true →
  logged_in s = true →
  request !! "game_name" = Some name →
  request !! "rating" = Some (JNum n) →
  (1 ≤ n ≤ 5)%Z →
  let ask a := _process_request cfg e conn s (with_action a request) L in
  reply (ask "submit_review") = Reply (ok_message "Review submitted")
  ∧ (∃ review,
       dict_get (JStr (fresh_id (dbe e 1)))
         (c_Review (collections (db_after (ask "submit_review")))) = Some review
       ∧ review !! "game_id" = Some gid
       ∧ review !! "player_id" = Some (user_id s)
       ∧ review !! "rating" = Some (JNum n))
  ∧ reply (ask "game_info") = Reply (failure "Game not found")
  ∧ reply (ask "download_game") = Reply (failure "Game not found")
  ∧ reply (ask "create_room") = Reply (failure "Game not found")
  ∧ ∃ games,
      reply (ask "list_games")
        = Reply [("success", RBool true); ("games", RDocs games)]
      ∧ ∀ g, g ∈ games → g !! "name" ≠ Some name.
Proof.
  intros Hup Hgame Htruthy Hlogged Hname Hrating Hn ask.
  assert (∀ a, with_action a request !! "game_name" = Some name) as Hname'.
  { intros a. unfold with_action. by rewrite lookup_insert_ne. }
  assert (∀ a, with_action a request !! "rating" = Some (JNum n)) as Hrating'.
  { intros a. unfold with_action. by rewrite lookup_insert_ne. }
  pose proof (fun a => routed cfg e conn s request L a Hlogged) as Hroute.
  cbn zeta in Hroute. subst ask. cbn beta.
  destruct (Hroute "submit_review") as (H1 & _). rewrite (H1 eq_refl).
  destruct (Hroute "game_info") as (_ & H2 & _). rewrite (H2 eq_refl).
  destruct (Hroute "download_game") as (_ & _ & H3 & _). rewrite (H3 eq_refl).
  destruct (Hroute "create_room") as (_ & _ & _ & H4 & _). rewrite (H4 eq_refl).
  destruct (Hroute "list_games") as (_ & _ & _ & _ & H5). rewrite (H5 eq_refl).
  clear Hroute H1 H2 H3 H4 H5.
  unfold on_catalog, on_lobby. cbn [reply db_after fst snd].
  destruct (submit_review_removed e name gid Hup Hgame s
              (with_action "submit_review" request) n
              (Hname' _) Htruthy (Hrating' _) Hn) as [Hreply Hreview].
  split; [exact Hreply |]. split.
  { eexists. split; [exact Hreview |].
    unfold review_record.
    rewrite !lookup_insert_ne by done. rewrite lookup_insert_eq.
    split; [done |].
    rewrite !lookup_insert_ne by done. rewrite lookup_insert_eq.
    split; [done |].
    rewrite !lookup_insert_ne by done. by rewrite lookup_insert_eq. }
  split; [by apply (game_info_removed e name gid) |].
  split; [by rewrite (download_game_removed cfg e name gid Hup Hgame _ (Hname' _)) |].
  split; [by apply (create_room_removed e name gid) |].
  by apply (list_games_omits_removed e name gid).
Qed.

Lemma removed_game_can_be_reviewed_witness :
  let e := quiet chat_removed in
  let s := {| logged_in := true; user_id := JStr "u-bob"; username := JStr "bob" |} in
  let request := <["game_name" := JStr "chat"]> (<["rating" := JNum 5]> ∅) in
  let ask a := _process_request cfg e 1 s (with_action a request) init in
  reply (ask "submit_review") = Reply (ok_message "Review submitted")
  ∧ reply (ask "game_info") = Reply (failure "Game not found")
  ∧ reply (ask "download_game") = Reply (failure "Game not found")
  ∧ reply (ask "create_room") = Reply (failure "Game not found").
Proof.
  intros e s request ask.
  assert (removed_game (db e) (JStr "chat") (JStr "g-chat")) as Hgame.
  { exists (game "1.1" "removed" 4).1, (game "1.1" "removed" 4).2.
    split; [apply list_elem_of_singleton; reflexivity |].
    split; [reflexivity |]. split; [reflexivity |]. split; [reflexivity |].
    intros k' g' Hin _. apply list_elem_of_singleton in Hin. by injection Hin. }
  destruct (removed_game_can_be_reviewed cfg e 1 s request init
              (JStr "chat") (JStr "g-chat") 5 (fun _ => eq_refl) Hgame eq_refl
              eq_refl eq_refl eq_refl ltac:(lia))
    as (H1 & _ & H2 & H3 & H4 & _).
  exact (conj H1 (conj H2 (conj H3 H4))).
Defined.

End ReviewFacts.
(** ** The rooms of the Lobby *)

Module RoomFacts.
Import Catalog Package Server Lobby LobbySpec Sample.

(** *** [list.remove] *)

Lemma remove_first_subset x u l : u ∈ remove_first x l → u ∈ l.
Proof.
  induction l as [|y l IH]; simpl; [done |].
  destruct (decide (x = y)); intros Hin.
  - by right.
  - apply elem_of_cons in Hin as [->|Hin]; [by left | right; auto].
Qed.

Lemma remove_first_other x u l : u ≠ x → u ∈ l → u ∈ remove_first x l.
Proof.
  intros Hne. induction l as [|y l IH]; simpl; [done |].
  intros [->|Hin]%elem_of_cons.
  - rewrite decide_False by done. by left.
  - destruct (decide (x = y)); [done | right; auto].
Qed.

Lemma remove_first_NoDup x l :
  NoDup l → NoDup (remove_first x l) ∧ x ∉ remove_first x l.
Proof.
  induction 1 as [|y l Hy Hl IH]; simpl.
  - split; [constructor | apply not_elem_of_nil].
  - destruct (decide (x = y)) as [->|Hne]; [done |].
    destruct IH as [IH1 IH2]. split.
    + constructor; [| done]. intros Hin. by apply Hy, (remove_first_subset x).
    + intros [->|Hin]%elem_of_cons; done.
Qed.

Lemma remove_first_length x l : (length (remove_first x l) ≤ length l)%nat.
Proof.
  induction l as [|y l IH]; simpl; [done |].
  destruct (decide (x = y)); simpl; lia.
Qed.

(** *** What the invariants read of the rooms *)

Lemma room_ok_members r r' : members r' = members r → room_ok r → room_ok r'.
Proof.
  unfold members, room_ok, capacity. intros [= Hh Hp Hm]. by rewrite Hh, Hp, Hm.
Qed.

Lemma occupancy_cons uid kr rs :
  occupancy uid (kr :: rs)
  = ((if decide (uid ∈ players kr.2) then 1 else 0) + occupancy uid rs)%nat.
Proof.
  unfold occupancy. rewrite filter_cons. by destruct (decide _).
Qed.

Lemma occupancy_profile uid rs : ∀ rs',
  profile rs' = profile rs → occupancy uid rs' = occupancy uid rs.
Proof.
  induction rs as [|kr rs IH]; intros [|kr' rs']; try done.
  unfold profile. rewrite !fmap_cons. intros [= Hh Hp Hm Hrest].
  rewrite !occupancy_cons, Hp. f_equal. by apply IH.
Qed.

Lemma rooms_ok_profile rs rs' : profile rs' = profile rs → rooms_ok rs → rooms_ok rs'.
Proof.
  intros Hprof [Hall Hocc]. split.
  - clear Hocc. revert rs' Hprof.
    induction Hall as [|kr rs Hkr Hall IH]; intros [|kr' rs']; try done.
    unfold profile. rewrite !fmap_cons. intros [= Hh Hp Hm Hrest].
    constructor; [| by apply IH].
    apply (room_ok_members kr.2); [| done]. unfold members. by rewrite Hh, Hp, Hm.
  - intros uid. by rewrite (occupancy_profile uid rs rs').
Qed.

Lemma profile_insert rs i rid r :
  profile rs !! i = Some (members r) → profile (<[i := (rid, r)]> rs) = profile rs.
Proof.
  intros Hi. unfold profile in *. rewrite list_fmap_insert.
  by apply list_insert_id.
Qed.

Lemma profile_set_room i rid r L :
  profile (rooms L) !! i = Some (members r) →
  profile (rooms (set_room i rid r L)) = profile (rooms L).
Proof. apply profile_insert. Qed.

Lemma profile_lookup rs i rid r :
  rs !! i = Some (rid, r) → profile rs !! i = Some (members r).
Proof. intros Hi. unfold profile. by rewrite list_lookup_fmap, Hi. Qed.

Lemma room_of_lookup uid rs i rid r :
  room_of uid rs = Some (i, (rid, r)) → rs !! i = Some (rid, r) ∧ uid ∈ players r.
Proof. intros (Hi & Hin & _)%list_find_Some. done. Qed.

(** *** Operating-system steps leave the rooms alone *)

Lemma rooms_close_log r L : rooms (close_log r L) = rooms L.
Proof. unfold close_log. by destruct (game_log_file r). Qed.

Lemma rooms_terminate_game r L : rooms (terminate_game r L) = rooms L.
Proof. unfold terminate_game. by destruct (game_process r). Qed.

Lemma rooms_terminated killed : ∀ L,
  rooms (foldl (fun L' pid => terminate pid L') L killed) = rooms L.
Proof.
  induction killed as [|pid killed IH]; intros L; simpl; [done |].
  by rewrite IH.
Qed.

Lemma rooms_find_available_port b L :
  rooms (_find_available_port b L).2 = rooms L.
Proof.
  unfold _find_available_port. by destruct (list_find _ _) as [[? ?]|].
Qed.

(** *** Handlers that change no membership *)

Lemma profile_launch_game cfg e i rid r game_dir game_info L :
  profile (rooms L) !! i = Some (members r) →
  profile (rooms (launch_game cfg e i rid r game_dir game_info L).1)
  = profile (rooms L).
Proof.
  intros Hi. unfold launch_game.
  pose proof (rooms_find_available_port (can_bind e) L) as Hport.
  destruct (_find_available_port (can_bind e) L) as [[port|] L1];
    cbn [snd] in Hport; [| cbn [fst]; by rewrite Hport].
  destruct (server game_info) as [server_config|]; [| cbn [fst]; by rewrite Hport].
  destruct (entry_point server_config) as [entry|]; [| cbn [fst]; by rewrite Hport].
  destruct (launched e); simpl; try by rewrite Hport.
  - rewrite profile_insert; by rewrite Hport.
  - rewrite profile_insert; by rewrite Hport.
Qed.

Lemma profile_fetch_and_launch cfg e i rid r L :
  profile (rooms L) !! i = Some (members r) →
  profile (rooms (fetch_and_launch cfg e i rid r L).1) = profile (rooms L).
Proof.
  intros Hi. unfold fetch_and_launch.
  destruct (_db_request (link e 0) _ _ _).2 as [| |game| |msg]; try reflexivity.
  destruct (game !! "latest_version") as [latest|]; [| reflexivity].
  assert (profile (rooms (set_room i rid (set_version latest r) L))
          = profile (rooms L)) as Hset by by apply profile_set_room.
  destruct (_db_request (link e 1) _ _ _).2 as [| |release| |msg]; try exact Hset.
  destruct (release !! "file_path") as [[| |file_path]|]; try exact Hset.
  destruct (read_file _ _ _) as [text|]; [| exact Hset].
  destruct (json_load cfg text) as [game_info|]; [| exact Hset].
  rewrite profile_launch_game; [exact Hset |]. by rewrite Hset.
Qed.

Lemma profile_start_game cfg e s L :
  profile (rooms (_handle_start_game cfg e s L).1) = profile (rooms L).
Proof.
  unfold _handle_start_game.
  destruct (room_of (user_id s) (rooms L)) as [[i [rid r]]|] eqn:Hroom;
    [| reflexivity].
  apply room_of_lookup in Hroom as [Hi _]. apply profile_lookup in Hi.
  destruct (bool_decide (host_id r ≠ user_id s)); [reflexivity |].
  destruct (status r).
  - by apply profile_fetch_and_launch.
  - destruct (process_ended_retry e r); [| reflexivity].
    assert (profile (rooms (set_room i rid (reset_room r) (close_log r L)))
            = profile (rooms L)) as Hset.
    { rewrite profile_set_room; by rewrite rooms_close_log. }
    rewrite profile_fetch_and_launch; [exact Hset |]. by rewrite Hset.
Qed.

Lemma profile_check_game_status cfg e s L :
  profile (rooms (_handle_check_game_status cfg e s L).1) = profile (rooms L).
Proof.
  unfold _handle_check_game_status.
  destruct (room_of (user_id s) (rooms L)) as [[i [rid r]]|] eqn:Hroom;
    [| reflexivity].
  apply room_of_lookup in Hroom as [Hi _]. apply profile_lookup in Hi.
  destruct (status r); [reflexivity |].
  destruct (process_ended e r); [| reflexivity]. cbn [fst].
  rewrite profile_set_room; by rewrite rooms_close_log.
Qed.

Lemma profile_end_game e s L :
  profile (rooms (_handle_end_game e s L).1) = profile (rooms L).
Proof.
  unfold _handle_end_game.
  destruct (room_of (user_id s) (rooms L)) as [[i [rid r]]|] eqn:Hroom;
    [| reflexivity].
  apply room_of_lookup in Hroom as [Hi _]. apply profile_lookup in Hi.
  destruct (status r); [reflexivity |]. cbn [fst].
  assert (∀ L1, rooms L1 = rooms L →
          profile (rooms (set_room i rid (reset_room r) (close_log r L1)))
          = profile (rooms L)) as Hset.
  { intros L1 HL1. rewrite profile_set_room; by rewrite rooms_close_log, HL1. }
  destruct (game_process r) as [pid|]; [| by apply Hset].
  destruct (poll e pid 0); by apply Hset.
Qed.

(** *** Counting the rooms of a user *)

Lemma occupancy_insert uid rs : ∀ i rid0 r0 rid r,
  rs !! i = Some (rid0, r0) →
  (uid ∈ players r → uid ∈ players r0) →
  (occupancy uid (<[i := (rid, r)]> rs) ≤ occupancy uid rs)%nat.
Proof.
  induction rs as [|kr rs IH]; intros [|i] rid0 r0 rid r Hi Hsub; try done.
  - injection Hi as ->. cbn [list_insert insert]. rewrite !occupancy_cons.
    cbn [snd]. repeat destruct (decide _); try lia. tauto.
  - change (<[S i := (rid, r)]> (kr :: rs)) with (kr :: <[i := (rid, r)]> rs).
    rewrite !occupancy_cons. specialize (IH i rid0 r0 rid r Hi Hsub). lia.
Qed.

Lemma occupancy_delete uid rs : ∀ i,
  (occupancy uid (delete i rs) ≤ occupancy uid rs)%nat.
Proof.
  induction rs as [|kr rs IH]; intros [|i]; try done.
  - change (delete 0%nat (kr :: rs)) with rs. rewrite occupancy_cons. lia.
  - change (delete (S i) (kr :: rs)) with (kr :: delete i rs).
    rewrite !occupancy_cons. specialize (IH i). lia.
Qed.

Lemma occupancy_dict_set uid k r rs :
  (occupancy uid (dict_set k r rs)
   ≤ occupancy uid rs + (if decide (uid ∈ players r) then 1 else 0))%nat.
Proof.
  induction rs as [|[k0 r0] rs IH]; simpl.
  - rewrite occupancy_cons. cbn [snd]. unfold occupancy. simpl. lia.
  - destruct (decide (k = k0)); rewrite !occupancy_cons; cbn [snd]; lia.
Qed.

Lemma occupancy_dict_set_present uid k r r0 rs :
  dict_get k rs = Some r0 →
  (uid ∈ players r → uid ∈ players r0) →
  (occupancy uid (dict_set k r rs) ≤ occupancy uid rs)%nat.
Proof.
  intros Hget Hsub. induction rs as [|[k1 r1] rs IH]; simpl in *; [done |].
  destruct (decide (k = k1)); rewrite !occupancy_cons; cbn [snd].
  - injection Hget as ->. repeat destruct (decide _); try lia. tauto.
  - specialize (IH Hget). lia.
Qed.

Lemma occupancy_zero uid rs : occupancy uid rs = 0%nat ↔ in_no_room uid rs.
Proof.
  unfold in_no_room. induction rs as [|kr rs IH].
  - split; [| done]. intros _ kr Hin. by apply elem_of_nil in Hin.
  - rewrite occupancy_cons. split.
    + intros Hz kr' [->|Hin]%elem_of_cons.
      * destruct (decide (uid ∈ players kr.2)); [lia | done].
      * apply IH; [lia | done].
    + intros Hno. rewrite decide_False by (apply Hno; by left).
      apply IH. intros kr' Hin. apply Hno. by right.
Qed.

Lemma dict_get_elem {V} (k : string) (rs : list (string * V)) r :
  dict_get k rs = Some r → (k, r) ∈ rs.
Proof.
  induction rs as [|[k0 r0] rs IH]; simpl; [done |].
  destruct (decide (k = k0)) as [->|].
  - intros [= ->]. by left.
  - intros Hget. right. auto.
Qed.

Lemma Forall_dict_set (P : room → Prop) k r rs :
  Forall (fun kr : string * room => P kr.2) rs → P r →
  Forall (fun kr : string * room => P kr.2) (dict_set k r rs).
Proof.
  intros Hall Hr. apply Forall_forall. intros kr Hin.
  destruct (dict_set_elem _ _ _ _ Hin) as [Hold| ->]; [| done].
  rewrite Forall_forall in Hall. by apply Hall.
Qed.

(** *** Leaving a room *)

(** The room [r] after [uid] has been taken off its players, the host
    passing to the first who remains when [uid] was the host. *)
Lemma room_ok_after_leaving uid r r' :
  room_ok r →
  players r' = remove_first uid (players r) →
  players r' ≠ [] →
  max_players r' = max_players r →
  (uid ≠ host_id r ∧ host_id r' = host_id r)
  ∨ (∃ p0 ps, players r' = p0 :: ps ∧ host_id r' = p0) →
  room_ok r'.
Proof.
  intros (Hhost & Hne & Hnodup & Hcap) Hp Hne' Hm Hh.
  unfold room_ok, capacity. rewrite Hm, Hp. split; [| split; [| split]].
  - destruct Hh as [[Hu ->]|(p0 & ps & Hps & ->)].
    + apply remove_first_other; [by apply not_eq_sym | done].
    + rewrite <- Hp, Hps. by left.
  - by rewrite <- Hp.
  - by apply remove_first_NoDup.
  - pose proof (remove_first_length uid (players r)). unfold capacity in Hcap. lia.
Qed.

Lemma remove_user_from_room_some ss uid r r' killed :
  room_ok r →
  remove_user_from_room ss uid r = (Some r', killed) →
  room_ok r' ∧ uid ∉ players r'.
Proof.
  intros Hok. unfold remove_user_from_room.
  destruct (bool_decide (uid ∈ players r)) eqn:Hin.
  2:{ intros [= <- _]. split; [done |]. by apply bool_decide_eq_false in Hin. }
  destruct (remove_first uid (players r)) as [|p0 ps] eqn:Hps; [discriminate |].
  assert (uid ∉ p0 :: ps) as Hgone.
  { rewrite <- Hps. apply remove_first_NoDup. apply Hok. }
  destruct (bool_decide (uid = host_id r)) eqn:Hhost.
  - destruct (ss !! p0); intros [= <- _]; (split; [| done]);
      apply (room_ok_after_leaving uid r); try done; right; by exists p0, ps.
  - intros [= <- _]. split; [| done].
    apply (room_ok_after_leaving uid r); try done. left.
    split; [by apply bool_decide_eq_false in Hhost | done].
Qed.

Lemma remove_user_from_room_subset ss uid r r' killed u :
  remove_user_from_room ss uid r = (Some r', killed) →
  u ∈ players r' → u ∈ players r.
Proof.
  unfold remove_user_from_room.
  destruct (bool_decide (uid ∈ players r)); [| by intros [= <- _]].
  destruct (remove_first uid (players r)) as [|p0 ps] eqn:Hps; [discriminate |].
  assert (u ∈ p0 :: ps → u ∈ players r) as Hsub.
  { rewrite <- Hps. apply remove_first_subset. }
  destruct (bool_decide (uid = host_id r)); [destruct (ss !! p0) |];
    by intros [= <- _].
Qed.

Lemma remove_user_from_rooms_ok ss uid rs :
  Forall (fun kr : string * room => room_ok kr.2) rs →
  Forall (fun kr : string * room => room_ok kr.2)
    (remove_user_from_rooms ss uid rs).1
  ∧ in_no_room uid (remove_user_from_rooms ss uid rs).1.
Proof.
  induction 1 as [|[rid r] rs Hr Hall [IH1 IH2]]; simpl.
  - split; [constructor |]. intros kr Hin. by apply elem_of_nil in Hin.
  - destruct (remove_user_from_room ss uid r) as [[r'|] killed] eqn:Hone;
      destruct (remove_user_from_rooms ss uid rs) as [rest killed']; simpl in *;
      [| done].
    destruct (remove_user_from_room_some _ _ _ _ _ Hr Hone) as [Hok Hgone].
    split; [by constructor |].
    intros kr [->|Hin]%elem_of_cons; [done | by apply IH2].
Qed.

Lemma remove_user_from_rooms_occupancy ss uid u rs :
  (occupancy u (remove_user_from_rooms ss uid rs).1 ≤ occupancy u rs)%nat.
Proof.
  induction rs as [|[rid r] rs IH]; simpl; [done |].
  destruct (remove_user_from_room ss uid r) as [[r'|] killed] eqn:Hone;
    destruct (remove_user_from_rooms ss uid rs) as [rest killed']; simpl in *;
    rewrite !occupancy_cons; cbn [snd]; [| lia].
  pose proof (remove_user_from_room_subset _ _ _ _ _ u Hone) as Hsub.
  repeat destruct (decide _); try lia. tauto.
Qed.

Lemma rooms_remove_user uid L :
  rooms (_remove_user_from_all_rooms uid L)
  = (remove_user_from_rooms (sessions L) uid (rooms L)).1.
Proof.
  unfold _remove_user_from_all_rooms.
  destruct (remove_user_from_rooms _ _ _) as [rs killed].
  by rewrite rooms_terminated.
Qed.

Lemma remove_user_rooms_ok uid L :
  rooms_ok (rooms L) →
  rooms_ok (rooms (_remove_user_from_all_rooms uid L))
  ∧ in_no_room uid (rooms (_remove_user_from_all_rooms uid L)).
Proof.
  intros [Hall Hocc]. rewrite rooms_remove_user.
  destruct (remove_user_from_rooms_ok (sessions L) uid (rooms L) Hall) as [H1 H2].
  split; [split |]; try done.
  intros u. etrans; [apply remove_user_from_rooms_occupancy | apply Hocc].
Qed.

Lemma cleanup_session_ok s L :
  rooms_ok (rooms L) →
  rooms_ok (rooms (_cleanup_session s L))
  ∧ in_no_room (user_id s) (rooms (_cleanup_session s L)).
Proof. intros Hok. unfold _cleanup_session. by apply remove_user_rooms_ok. Qed.

(** *** The operations on rooms *)

Lemma create_room_ok e s request L :
  rooms_ok (rooms L) → rooms_ok (rooms (_handle_create_room e s request L).1).
Proof.
  intros Hok. unfold _handle_create_room.
  destruct (request !! "game_name") as [game_name|]; [| exact Hok].
  destruct (negb (truthy game_name)); [exact Hok |].
  destruct (remove_user_rooms_ok (user_id s) L Hok) as [[Hall Hocc] Hgone].
  set (L1 := _remove_user_from_all_rooms (user_id s) L) in *.
  destruct (_db_request (link e 0) _ _ _).2 as [| |game| |msg]; try by split.
  destruct (game !! "_id") as [gid|]; [| by split].
  destruct (game !! "latest_version") as [latest|]; [| by split].
  destruct (game !! "max_players") as [maxp|]; [| by split].
  cbn [fst rooms set_rooms]. split.
  - apply Forall_dict_set; [exact Hall |].
    unfold room_ok, capacity. cbn [new_room host_id players max_players].
    split; [by left |]. split; [done |]. split; [apply NoDup_singleton |].
    simpl. destruct maxp; lia.
  - intros u. etrans; [apply occupancy_dict_set |].
    cbn [new_room players]. destruct (decide (u ∈ [user_id s])) as [Hu|Hu].
    + apply list_elem_of_singleton in Hu as ->.
      apply occupancy_zero in Hgone. lia.
    + specialize (Hocc u). lia.
Qed.

Lemma join_room_ok s request L :
  rooms_ok (rooms L) → rooms_ok (rooms (_handle_join_room s request L).1).
Proof.
  intros Hok. unfold _handle_join_room.
  destruct (request !! "room_id") as [room_id|]; [| exact Hok].
  destruct (negb (truthy room_id)); [exact Hok |].
  destruct (remove_user_rooms_ok (user_id s) L Hok) as [[Hall Hocc] Hgone].
  set (L1 := _remove_user_from_all_rooms (user_id s) L) in *.
  destruct (lookup_room room_id (rooms L1)) as [[rid r]|] eqn:Hroom; [| by split].
  destruct (bool_decide (status r ≠ waiting)); [by split |].
  destruct (max_players r) as [|m|] eqn:Hmax; try by split.
  destruct (m <=? Z.of_nat (length (players r)))%Z eqn:Hfull; [by split |].
  destruct (bool_decide (user_id s ∈ players r)) eqn:Hin; [by split |].
  apply Z.leb_gt in Hfull. apply bool_decide_eq_false in Hin.
  assert (dict_get rid (rooms L1) = Some r) as Hget.
  { unfold lookup_room in Hroom. destruct room_id as [| |k]; try discriminate.
    destruct (dict_get k (rooms L1)) as [r0|] eqn:Hk; [| discriminate].
    simpl in Hroom. by injection Hroom as <- <-. }
  assert (room_ok r) as (Hhost & Hne & Hnodup & Hcap).
  { rewrite Forall_forall in Hall. by apply (Hall (rid, r)), dict_get_elem. }
  cbn [fst rooms set_rooms]. split.
  - apply Forall_dict_set; [exact Hall |].
    unfold room_ok, capacity. cbn [set_players host_id players max_players].
    rewrite Hmax. split; [apply elem_of_app; by left |].
    split; [by destruct (players r) |].
    split.
    + apply NoDup_app. split; [done |]. split; [| apply NoDup_singleton].
      intros u Hu ->%list_elem_of_singleton. done.
    + rewrite length_app. simpl. lia.
  - intros u. destruct (decide (u = user_id s)) as [->|Hu].
    + etrans; [apply occupancy_dict_set |]. apply occupancy_zero in Hgone.
      destruct (decide _); lia.
    + etrans; [apply (occupancy_dict_set_present u rid _ r) |]; [done | | done].
      cbn [set_players players]. intros [?|?%list_elem_of_singleton]%elem_of_app; done.
Qed.

Lemma leave_room_ok e s L :
  rooms_ok (rooms L) → rooms_ok (rooms (_handle_leave_room e s L).1).
Proof.
  intros Hok. unfold _handle_leave_room.
  destruct (room_of (user_id s) (rooms L)) as [[i [rid r]]|] eqn:Hroom;
    [| exact Hok].
  apply room_of_lookup in Hroom as [Hi Hin]. destruct Hok as [Hall Hocc].
  assert (room_ok r) as Hr.
  { rewrite Forall_forall in Hall. apply (Hall (rid, r)).
    by eapply list_elem_of_lookup_2. }
  destruct (remove_first (user_id s) (players r)) as [|p0 ps] eqn:Hps.
  { cbn [fst]. unfold del_room. cbn [rooms set_rooms].
    rewrite rooms_close_log, rooms_terminate_game. split.
    - by apply Forall_delete.
    - intros u. etrans; [apply occupancy_delete | apply Hocc]. }
  assert (∀ r' L', rooms L' = rooms L →
            players r' = p0 :: ps → max_players r' = max_players r →
            (user_id s ≠ host_id r ∧ host_id r' = host_id r) ∨ host_id r' = p0 →
            rooms_ok (rooms (set_room i rid r' L'))) as Hset.
  { intros r' L' HL' Hp Hm Hh. unfold set_room. cbn [rooms set_rooms].
    rewrite HL'. split.
    - apply Forall_insert; [done |]. cbn [snd].
      apply (room_ok_after_leaving (user_id s) r); try done.
      + by rewrite Hp, Hps.
      + by rewrite Hp.
      + destruct Hh as [?|?]; [by left | right; by exists p0, ps].
    - intros u. etrans; [eapply (occupancy_insert u _ i rid r) | apply Hocc];
        [done |].
      rewrite Hp, <- Hps. apply remove_first_subset. }
  destruct (bool_decide (user_id s = host_id r)) eqn:Hhost.
  - destruct (sessions L !! p0) as [se|]; cbn [fst].
    + destruct (_ && _); cbn [fst].
      * apply Hset; try done; [apply rooms_close_log | by right].
      * apply Hset; try done. by right.
    + apply Hset; try done. by right.
  - cbn [fst]. apply Hset; try done. left.
    split; [by apply bool_decide_eq_false in Hhost | done].
Qed.

Lemma perform_ok cfg e s o L :
  rooms_ok (rooms L) → rooms_ok (rooms (perform cfg e s o L)).
Proof.
  intros Hok. destruct o; cbn [perform].
  - by apply create_room_ok.
  - by apply join_room_ok.
  - by apply leave_room_ok.
  - apply (rooms_ok_profile (rooms L)); [apply profile_start_game | done].
  - apply (rooms_ok_profile (rooms L)); [apply profile_check_game_status | done].
  - apply (rooms_ok_profile (rooms L)); [apply profile_end_game | done].
  - by apply cleanup_session_ok.
Qed.

(** *** Every request, every event *)

Lemma login_rooms cfg e conn s request L :
  rooms (_handle_login cfg e conn s request L).1.1 = rooms L.
Proof.
  unfold _handle_login.
  destruct (get_stripped request "username") as [name|]; [| reflexivity].
  destruct (get_stripped request "password") as [pw|]; [| reflexivity].
  destruct (_ || _); [reflexivity |].
  destruct (_db_request (link e 0) _ _ _).2 as [| |user| |msg]; try reflexivity.
  destruct (user !! "password_hash") as [h|]; [| reflexivity].
  destruct (bool_decide (h ≠ _)); [reflexivity |].
  destruct (user !! "_id") as [uid|]; [| reflexivity].
  destruct (bool_decide (is_Some _)); [reflexivity |].
  destruct (user !! "username"); reflexivity.
Qed.

Lemma process_request_rooms_ok cfg e conn s request L :
  rooms_ok (rooms L) →
  rooms_ok (rooms (lobby_after (_process_request cfg e conn s request L))).
Proof.
  intros Hok. unfold _process_request.
  repeat match goal with
         | |- context [if bool_decide ?P then _ else _] =>
             destruct (bool_decide P)
         | |- context [if negb ?b then _ else _] => destruct (negb b)
         end;
    try exact Hok.
  - pose proof (login_rooms cfg e conn s request L) as Hlogin.
    destruct (_handle_login cfg e conn s request L) as [[L1 s1] r].
    cbn [lobby_after]. cbn [fst] in Hlogin. by rewrite Hlogin.
  - by destruct (_handle_download_game cfg e request).
  - by apply create_room_ok.
  - by apply join_room_ok.
  - by apply leave_room_ok.
  - apply (perform_ok cfg e s StartGame L Hok).
  - apply (perform_ok cfg e s CheckGameStatus L Hok).
  - apply (perform_ok cfg e s EndGame L Hok).
  - by apply cleanup_session_ok.
Qed.

Lemma finish_rooms_ok conn s L cs :
  rooms_ok (rooms L) → rooms_ok (rooms (the_lobby (finish conn s L cs))).
Proof.
  intros Hok. unfold finish. cbn [the_lobby].
  destruct (logged_in s); [by apply cleanup_session_ok | done].
Qed.

Lemma handle_client_rooms_ok cfg w ev :
  rooms_ok (rooms (the_lobby w)) →
  rooms_ok (rooms (the_lobby (_handle_client cfg w ev))).
Proof.
  intros Hok. destruct ev as [conn|conn request e|conn]; cbn [_handle_client].
  - by destruct (conns w !! conn).
  - destruct (conns w !! conn) as [s|]; [| done].
    destruct (bool_decide (request = ∅)); [by apply finish_rooms_ok |].
    pose proof (process_request_rooms_ok cfg e conn s request _ Hok) as Hafter.
    destruct (reply _); try done. by apply finish_rooms_ok.
  - destruct (conns w !! conn) as [s|]; [| done]. by apply finish_rooms_ok.
Qed.

Lemma run_snoc cfg evs ev :
  run cfg (evs ++ [ev]) = _handle_client cfg (run cfg evs) ev.
Proof. unfold run. by rewrite foldl_app. Qed.

Lemma rooms_ok_nil : rooms_ok [].
Proof. split; [constructor | intros uid; unfold occupancy; simpl; lia]. Qed.

Lemma run_rooms_ok cfg evs : rooms_ok (rooms (the_lobby (run cfg evs))).
Proof.
  induction evs as [|ev evs IH] using rev_ind.
  - apply rooms_ok_nil.
  - rewrite run_snoc. by apply handle_client_rooms_ok.
Qed.

(** When every message is handled in one step: in every state that the
    Lobby reaches, every room has its host among its players, at least
    one player, no player twice, and no more players than it can hold,
    and every user is in at most one room; [create_room], [join_room],
    [leave_room], [start_game], [check_game_status], [end_game] and the
    cleanup of a session each preserve this. *)
Theorem rooms_invariant cfg :
  (∀ e s o L, rooms_ok (rooms L) → rooms_ok (rooms (perform cfg e s o L)))
  ∧ ∀ evs, rooms_ok (rooms (the_lobby (run cfg evs))).
Proof. split; [apply perform_ok | apply run_rooms_ok]. Qed.

Lemma rooms_invariant_witness :
  rooms_ok (rooms init)
  ∧ rooms_ok (rooms (perform cfg (quiet chat_1_0) bob
                       (CreateRoom (create_room "chat")) init))
  ∧ rooms_ok (rooms (the_lobby (run cfg bob_plays))).
Proof.
  destruct (rooms_invariant cfg) as [Hstep Hrun].
  split; [apply rooms_ok_nil |]. split; [| apply Hrun].
  apply Hstep, rooms_ok_nil.
Defined.

(** C1 as the specification words it fails on the bound: the game that
    Alice uploaded declares [max_players] 0, and the room that Bob creates
    for it holds Bob. *)
Lemma creator_exceeds_max_players :
  c_Game (collections solo_uploaded)
    = c_Game (collections (catalog_with (game_as_uploaded 0)))
  ∧ ∃ r, (rooms (the_lobby (run cfg (bob_creates solo_uploaded)))).*2 = [r]
         ∧ max_players r = JNum 0
         ∧ players r = [JStr "u-bob"]
         ∧ ¬ within_max_players r.
Proof.
  split; [vm_compute; reflexivity |].
  eexists. split; [vm_compute; reflexivity |].
  split; [reflexivity |]. split; [reflexivity |].
  intros (m & Hm & Hlen). simpl in Hm, Hlen. injection Hm as <-. lia.
Qed.

End RoomFacts.
(** ** The sessions of the Lobby *)

Module SessionFacts.
Import Catalog Package Server Lobby LobbySpec Sample RoomFacts.

(** *** What touches [self.sessions] *)

Lemma sessions_terminated killed : ∀ L,
  sessions (foldl (fun L' pid => terminate pid L') L killed) = sessions L.
Proof.
  induction killed as [|pid killed IH]; intros L; simpl; [done |].
  by rewrite IH.
Qed.

Lemma sessions_remove_user uid L :
  sessions (_remove_user_from_all_rooms uid L) = sessions L.
Proof.
  unfold _remove_user_from_all_rooms.
  destruct (remove_user_from_rooms _ _ _) as [rs killed].
  by rewrite sessions_terminated.
Qed.

Lemma sessions_cleanup s L :
  sessions (_cleanup_session s L) = delete (user_id s) (sessions L).
Proof. unfold _cleanup_session. by rewrite sessions_remove_user. Qed.

Lemma sessions_close_log r L : sessions (close_log r L) = sessions L.
Proof. unfold close_log. by destruct (game_log_file r). Qed.

Lemma sessions_terminate_game r L : sessions (terminate_game r L) = sessions L.
Proof. unfold terminate_game. by destruct (game_process r). Qed.

Lemma sessions_find_available_port b L :
  sessions (_find_available_port b L).2 = sessions L.
Proof.
  unfold _find_available_port. by destruct (list_find _ _) as [[? ?]|].
Qed.

Lemma sessions_create_room e s request L :
  sessions (_handle_create_room e s request L).1 = sessions L.
Proof.
  unfold _handle_create_room.
  destruct (request !! "game_name") as [game_name|]; [| reflexivity].
  destruct (negb (truthy game_name)); [reflexivity |].
  destruct (_db_request (link e 0) _ _ _).2 as [| |game| |msg];
    try apply sessions_remove_user.
  destruct (game !! "_id"), (game !! "latest_version"), (game !! "max_players");
    apply sessions_remove_user.
Qed.

Lemma sessions_join_room s request L :
  sessions (_handle_join_room s request L).1 = sessions L.
Proof.
  unfold _handle_join_room.
  destruct (request !! "room_id") as [room_id|]; [| reflexivity].
  destruct (negb (truthy room_id)); [reflexivity |].
  destruct (lookup_room _ _) as [[rid r]|]; [| apply sessions_remove_user].
  destruct (bool_decide (status r ≠ waiting)); [apply sessions_remove_user |].
  destruct (max_players r); try apply sessions_remove_user.
  destruct (_ <=? _)%Z; [apply sessions_remove_user |].
  destruct (bool_decide _); apply sessions_remove_user.
Qed.

Lemma sessions_leave_room e s L :
  sessions (_handle_leave_room e s L).1 = sessions L.
Proof.
  unfold _handle_leave_room.
  destruct (room_of _ _) as [[i [rid r]]|]; [| reflexivity].
  destruct (remove_first _ _) as [|p0 ps]; cbn [fst].
  { unfold del_room. cbn [sessions set_rooms].
    by rewrite sessions_close_log, sessions_terminate_game. }
  destruct (bool_decide _); [| reflexivity].
  destruct (sessions L !! p0); [| reflexivity].
  destruct (_ && _); [| reflexivity].
  cbn [fst]. unfold set_room. cbn [sessions set_rooms]. apply sessions_close_log.
Qed.

Lemma sessions_launch_game cfg e i rid r game_dir game_info L :
  sessions (launch_game cfg e i rid r game_dir game_info L).1 = sessions L.
Proof.
  unfold launch_game.
  pose proof (sessions_find_available_port (can_bind e) L) as Hport.
  destruct (_find_available_port (can_bind e) L) as [[port|] L1];
    cbn [snd] in Hport; [| exact Hport].
  destruct (server game_info) as [server_config|]; [| exact Hport].
  destruct (entry_point server_config) as [entry|]; [| exact Hport].
  destruct (launched e); exact Hport.
Qed.

Lemma sessions_fetch_and_launch cfg e i rid r L :
  sessions (fetch_and_launch cfg e i rid r L).1 = sessions L.
Proof.
  unfold fetch_and_launch.
  destruct (_db_request (link e 0) _ _ _).2 as [| |game| |msg]; try reflexivity.
  destruct (game !! "latest_version") as [latest|]; [| reflexivity].
  destruct (_db_request (link e 1) _ _ _).2 as [| |release| |msg]; try reflexivity.
  destruct (release !! "file_path") as [[| |file_path]|]; try reflexivity.
  destruct (read_file _ _ _) as [text|]; [| reflexivity].
  destruct (json_load cfg text) as [game_info|]; [| reflexivity].
  by rewrite sessions_launch_game.
Qed.

Lemma sessions_start_game cfg e s L :
  sessions (_handle_start_game cfg e s L).1 = sessions L.
Proof.
  unfold _handle_start_game.
  destruct (room_of _ _) as [[i [rid r]]|]; [| reflexivity].
  destruct (bool_decide _); [reflexivity |].
  destruct (status r); [apply sessions_fetch_and_launch |].
  destruct (process_ended_retry e r); [| reflexivity].
  rewrite sessions_fetch_and_launch. unfold set_room. cbn [sessions set_rooms].
  apply sessions_close_log.
Qed.

Lemma sessions_check_game_status cfg e s L :
  sessions (_handle_check_game_status cfg e s L).1 = sessions L.
Proof.
  unfold _handle_check_game_status.
  destruct (room_of _ _) as [[i [rid r]]|]; [| reflexivity].
  destruct (status r); [reflexivity |].
  destruct (process_ended e r); [| reflexivity].
  cbn [fst]. unfold set_room. cbn [sessions set_rooms]. apply sessions_close_log.
Qed.

Lemma sessions_end_game e s L :
  sessions (_handle_end_game e s L).1 = sessions L.
Proof.
  unfold _handle_end_game.
  destruct (room_of _ _) as [[i [rid r]]|]; [| reflexivity].
  destruct (status r); [reflexivity |].
  cbn [fst]. unfold set_room. cbn [sessions set_rooms].
  rewrite sessions_close_log.
  destruct (game_process r) as [pid|]; [| reflexivity].
  by destruct (poll e pid 0).
Qed.

(** *** Login *)

(** The three ways a login ends: nothing changes and the reply is an error
    or an exception; the user document lacks [username], the exception
    leaves the connection marked as logged in and nothing inserted; or the
    credentials were right, the user had no session, and one is inserted. *)
Lemma login_cases cfg e conn s request L :
  let out := _handle_login cfg e conn s request L in
  (out.1 = (L, s)
   ∧ ((∃ msg, out.2 = Reply (failure msg)) ∨ ∃ msg, out.2 = Raise msg))
  ∨ (out.1.1 = L ∧ (∃ msg, out.2 = Raise msg)
     ∧ logged_in out.1.2 = true ∧ sessions L !! user_id out.1.2 = None)
  ∨ logged_in_as cfg e conn request L out.
Proof.
  cbn zeta. unfold logged_in_as, _handle_login.
  destruct (get_stripped request "username") as [name|];
    [| left; split; [done | right; by eexists]].
  destruct (get_stripped request "password") as [pw|];
    [| left; split; [done | right; by eexists]].
  destruct (_ || _); [left; split; [done | left; by eexists] |].
  destruct (_db_request (link e 0) _ _ _).2 as [| |user| |msg] eqn:Hfind;
    try (left; split; [done | right; by eexists]).
  2:{ left; split; [done | left; by eexists]. }
  destruct (user !! "password_hash") as [h|] eqn:Hhash;
    [| left; split; [done | right; by eexists]].
  case_bool_decide as Hpw; [left; split; [done | left; by eexists] |].
  subst h.
  destruct (user !! "_id") as [uid|] eqn:Hid;
    [| left; split; [done | right; by eexists]].
  case_bool_decide as Hsession; [left; split; [done | left; by eexists] |].
  apply eq_None_not_Some in Hsession.
  destruct (user !! "username") as [uname|] eqn:Huname.
  - right; right. exists name, pw, user, uid, uname. repeat split; try done.
  - right; left. repeat split; try done. by eexists.
Qed.

Lemma login_refused cfg e conn s request L name pw user uid :
  get_stripped request "username" = Some name →
  get_stripped request "password" = Some pw →
  name ≠ EmptyString → pw ≠ EmptyString →
  (_db_request (link e 0) (dbe e 0) (db e)
     (find_one_req "User" (player_by_name name))).2 = DbResult user →
  user !! "password_hash" = Some (JStr (hash_password cfg pw)) →
  user !! "_id" = Some uid →
  is_Some (sessions L !! uid) →
  _handle_login cfg e conn s request L
  = (L, s, Reply (failure "Account already logged in")).
Proof.
  intros Hname Hpw Hn Hp Hfind Hhash Hid Hsession. unfold _handle_login.
  rewrite Hname, Hpw, !bool_decide_eq_false_2 by done. cbn [orb].
  rewrite Hfind, Hhash.
  rewrite (bool_decide_eq_false_2 (JStr _ ≠ JStr _)) by (intros Hne; by apply Hne).
  rewrite Hid. by rewrite bool_decide_eq_true_2.
Qed.

Lemma login_success cfg e conn s request L x :
  (_handle_login cfg e conn s request L).2 = Reply x →
  member "success" x = Some (RBool true) →
  logged_in_as cfg e conn request L (_handle_login cfg e conn s request L).
Proof.
  intros Hreply Hs.
  destruct (login_cases cfg e conn s request L)
    as [[_ [[msg Hr]|[msg Hr]]]|[(_ & [msg Hr] & _)|Hin]]; try done;
    rewrite Hr in Hreply; try discriminate.
  injection Hreply as <-. discriminate.
Qed.

Lemma login_inserts_only_then cfg e conn s request L :
  sessions (_handle_login cfg e conn s request L).1.1 = sessions L
  ∨ logged_in_as cfg e conn request L (_handle_login cfg e conn s request L).
Proof.
  destruct (login_cases cfg e conn s request L)
    as [[Hsame _]|[(Hsame & _)|Hin]]; [left | left | by right].
  - by rewrite Hsame.
  - by rewrite Hsame.
Qed.

(** *** Every request *)

(** What a request does to [self.sessions] and to the session of its
    connection: nothing; nothing but an exception with the connection left
    marked for a user without session; a session inserted for a user who
    had none, the connection now his; or, on logout, the session of the
    connection's user deleted. *)
Lemma process_request_sessions cfg e conn s request L :
  let h := _process_request cfg e conn s request L in
  (sessions (lobby_after h) = sessions L ∧ session_after h = s)
  ∨ (sessions (lobby_after h) = sessions L ∧ (∃ msg, reply h = Raise msg)
     ∧ sessions L !! user_id (session_after h) = None)
  ∨ (∃ entry, sessions L !! user_id (session_after h) = None
       ∧ sessions (lobby_after h)
         = <[user_id (session_after h) := entry]> (sessions L)
       ∧ logged_in (session_after h) = true ∧ ∃ x, reply h = Reply x)
  ∨ (logged_in s = true
     ∧ sessions (lobby_after h) = delete (user_id s) (sessions L)
     ∧ logged_in (session_after h) = false ∧ ∃ x, reply h = Reply x).
Proof.
  cbn zeta. unfold _process_request.
  destruct (bool_decide (_ = Some (JStr "register"))); [by left |].
  destruct (bool_decide (_ = Some (JStr "login"))).
  { pose proof (login_cases cfg e conn s request L) as Hcases. cbn zeta in Hcases.
    destruct (_handle_login cfg e conn s request L) as [[L1 s1] r].
    cbn [fst snd lobby_after session_after reply] in *.
    destruct Hcases as [[[= -> ->] _]|[(-> & Hr & _ & Hnone)|Hin]].
    - by left.
    - right; left. done.
    - right; right; left.
      destruct Hin as (name & pw & user & uid & uname & _ & _ & _ & _ & _
                       & Hnone & HL1 & Hs1 & Hr).
      cbn [fst snd] in HL1, Hs1, Hr. subst L1 s1 r. cbn [user_id logged_in].
      eexists. repeat split; try done. by eexists. }
  destruct (logged_in s) eqn:Hlogged; cbn [negb]; [| by left].
  repeat match goal with
         | |- context [if bool_decide ?P then _ else _] =>
             destruct (bool_decide P)
         end;
    try (left; split; [| reflexivity]; cbn [lobby_after on_lobby on_catalog fst];
         first [ reflexivity
               | apply sessions_create_room | apply sessions_join_room
               | apply sessions_leave_room | apply sessions_start_game
               | apply sessions_check_game_status | apply sessions_end_game ]).
  - left. by destruct (_handle_download_game cfg e request).
  - right; right; right. cbn [lobby_after session_after reply logged_in].
    split; [done |]. split; [apply sessions_cleanup |]. split; [done | by eexists].
Qed.

(** *** Every event *)

Lemma finish_one_session w conn s' L' :
  one_session_each w →
  sessions L' = sessions (the_lobby w) →
  (logged_in s' = true → ∀ c2 s2, c2 ≠ conn → conns w !! c2 = Some s2 →
     logged_in s2 = true → user_id s2 ≠ user_id s') →
  one_session_each (finish conn s' L' (conns w)).
Proof.
  intros Hinv HL' Hothers c s Hc Hlog. unfold finish in *. cbn [the_lobby conns] in *.
  apply lookup_delete_Some in Hc as [Hne Hc].
  destruct (Hinv c s Hc Hlog) as [Hsome Huniq]. split.
  - destruct (logged_in s') eqn:Hlog'; [| by rewrite HL'].
    rewrite sessions_cleanup, HL', lookup_delete_ne; [done |].
    apply not_eq_sym, (Hothers eq_refl c s); done.
  - intros c' s0 [_ Hc']%lookup_delete_Some. by apply Huniq.
Qed.

Lemma update_one_session w conn s' L' :
  one_session_each w →
  (∀ c2 s2, c2 ≠ conn → conns w !! c2 = Some s2 → logged_in s2 = true →
     is_Some (sessions L' !! user_id s2)) →
  (logged_in s' = true →
     is_Some (sessions L' !! user_id s')
     ∧ ∀ c2 s2, c2 ≠ conn → conns w !! c2 = Some s2 → logged_in s2 = true →
                user_id s2 ≠ user_id s') →
  one_session_each {| the_lobby := L'; conns := <[conn := s']> (conns w) |}.
Proof.
  intros Hinv Hothers Hown c s Hc Hlog. cbn [the_lobby conns] in *.
  apply lookup_insert_Some in Hc as [[<- <-]|[Hne Hc]].
  - destruct (Hown Hlog) as [Hsome Hdiff]. split; [done |].
    intros c' s0 Hc' Hlog' Heq. destruct (decide (c' = conn)) as [|Hne]; [done |].
    rewrite lookup_insert_ne in Hc' by done. by destruct (Hdiff c' s0).
  - split; [by apply (Hothers c s) |].
    intros c' s0 Hc' Hlog' Heq.
    apply lookup_insert_Some in Hc' as [[<- <-]|[Hne' Hc']].
    + destruct (Hown Hlog') as [_ Hdiff]. by destruct (Hdiff c s).
    + destruct (Hinv c s Hc Hlog) as [_ Huniq]. by apply (Huniq c' s0).
Qed.

Lemma others_differ w conn s c2 s2 :
  one_session_each w → conns w !! conn = Some s → logged_in s = true →
  c2 ≠ conn → conns w !! c2 = Some s2 → logged_in s2 = true →
  user_id s2 ≠ user_id s.
Proof.
  intros Hinv Hc Hlog Hne Hc2 Hlog2 Heq.
  destruct (Hinv conn s Hc Hlog) as [_ Huniq]. by apply Hne, (Huniq c2 s2).
Qed.

Lemma handle_client_one_session cfg w ev :
  one_session_each w → one_session_each (_handle_client cfg w ev).
Proof.
  intros Hinv. destruct ev as [conn|conn request e|conn]; cbn [_handle_client].
  - destruct (conns w !! conn) as [s|] eqn:Hconn; [done |].
    apply update_one_session; [done | |].
    + intros c2 s2 _ Hc2 Hlog2. by apply (Hinv c2 s2).
    + discriminate.
  - destruct (conns w !! conn) as [s|] eqn:Hconn; [| done].
    destruct (bool_decide (request = ∅)).
    { apply finish_one_session; [done | done |].
      intros Hlog c2 s2. by apply others_differ. }
    pose proof (process_request_sessions cfg e conn s request (the_lobby w))
      as Heffect. cbn zeta in Heffect.
    set (h := _process_request cfg e conn s request (the_lobby w)) in *.
    assert (∀ c2 s2, c2 ≠ conn → conns w !! c2 = Some s2 → logged_in s2 = true →
              is_Some (sessions (the_lobby w) !! user_id s2)) as Hsome.
    { intros c2 s2 _ Hc2 Hlog2. by apply (Hinv c2 s2). }
    destruct Heffect as [[HL Hs]|[(HL & [msg Hr] & Hnone)|[(entry & Hnone & HL & Hlog & [x Hr])
                        |(Hlog & HL & Hout & [x Hr])]]].
    + rewrite Hs.
      destruct (reply h).
      * apply update_one_session; [done | by rewrite HL |].
        intros Hlog. rewrite HL. split; [by apply (Hinv conn s) |].
        intros c2 s2. by apply others_differ.
      * apply update_one_session; [done | by rewrite HL |].
        intros Hlog. rewrite HL. split; [by apply (Hinv conn s) |].
        intros c2 s2. by apply others_differ.
      * apply finish_one_session; [done | done |].
        intros Hlog c2 s2. by apply others_differ.
    + rewrite Hr. apply finish_one_session; [done | done |].
      intros _ c2 s2 Hne Hc2 Hlog2 Heq.
      destruct (Hsome c2 s2 Hne Hc2 Hlog2) as [se Hse]. congruence.
    + rewrite Hr. apply update_one_session; [done | |].
      * intros c2 s2 Hne Hc2 Hlog2. rewrite HL.
        apply lookup_insert_is_Some'. right. by apply (Hsome c2 s2).
      * intros _. rewrite HL. split; [rewrite lookup_insert_eq; by eexists |].
        intros c2 s2 Hne Hc2 Hlog2 Heq.
        destruct (Hsome c2 s2 Hne Hc2 Hlog2) as [se Hse]. congruence.
    + rewrite Hr. apply update_one_session; [done | | congruence].
      intros c2 s2 Hne Hc2 Hlog2. rewrite HL, lookup_delete_ne.
      * by apply (Hsome c2 s2).
      * apply not_eq_sym. by apply (others_differ w conn s c2 s2).
  - destruct (conns w !! conn) as [s|] eqn:Hconn; [| done].
    apply finish_one_session; [done | done |].
    intros Hlog c2 s2. by apply others_differ.
Qed.

Lemma run_one_session cfg evs : one_session_each (run cfg evs).
Proof.
  induction evs as [|ev evs IH] using rev_ind.
  - intros c s Hc. unfold run, start in Hc. cbn [foldl conns] in Hc.
    by rewrite lookup_empty in Hc.
  - rewrite run_snoc. by apply handle_client_one_session.
Qed.

(** *** Logout and disconnect *)

Lemma disconnect_removes cfg evs conn s :
  conns (run cfg evs) !! conn = Some s →
  logged_in s = true →
  let w' := _handle_client cfg (run cfg evs) (Disconnect conn) in
  conns w' !! conn = None
  ∧ sessions (the_lobby w') !! user_id s = None
  ∧ in_no_room (user_id s) (rooms (the_lobby w')).
Proof.
  intros Hconn Hlog. cbn zeta. cbn [_handle_client]. rewrite Hconn.
  unfold finish. rewrite Hlog. cbn [the_lobby conns].
  split; [apply lookup_delete_eq |].
  split; [rewrite sessions_cleanup; apply lookup_delete_eq |].
  apply cleanup_session_ok, run_rooms_ok.
Qed.

Lemma logout_removes cfg evs conn s request e :
  conns (run cfg evs) !! conn = Some s →
  logged_in s = true →
  request !! "action" = Some (JStr "logout") →
  let w' := _handle_client cfg (run cfg evs) (Request conn request e) in
  (∃ s', conns w' !! conn = Some s' ∧ logged_in s' = false)
  ∧ sessions (the_lobby w') !! user_id s = None
  ∧ in_no_room (user_id s) (rooms (the_lobby w')).
Proof.
  intros Hconn Hlog Haction. cbn zeta. cbn [_handle_client]. rewrite Hconn.
  rewrite (bool_decide_eq_false_2 (request = ∅))
    by (intros ->; by rewrite lookup_empty in Haction).
  unfold _process_request. rewrite Haction, Hlog. cbn [negb].
  repeat (rewrite bool_decide_eq_false_2 by discriminate).
  rewrite bool_decide_eq_true_2 by reflexivity.
  cbn [reply lobby_after session_after the_lobby conns].
  split; [eexists; split; [apply lookup_insert_eq | reflexivity] |].
  split; [rewrite sessions_cleanup; apply lookup_delete_eq |].
  apply cleanup_session_ok, run_rooms_ok.
Qed.

(** When every message is handled in one step: in every state the Lobby
    reaches no two logged-in connections are the same user, and each is a
    user with a session.  A login for a user
    who has a session is refused and changes nothing; a login that
    succeeds has found the player's record, matched the password hash and
    found no session for the user before it inserts one, and a login
    inserts no session otherwise.  When a logged-in connection ends or
    logs out, its user's session is gone and the user is in no room. *)
Theorem one_session_per_user cfg :
  (∀ evs, one_session_each (run cfg evs))
  ∧ (∀ e conn s request L name pw user uid,
       get_stripped request "username" = Some name →
       get_stripped request "password" = Some pw →
       name ≠ EmptyString → pw ≠ EmptyString →
       (_db_request (link e 0) (dbe e 0) (db e)
          (find_one_req "User" (player_by_name name))).2 = DbResult user →
       user !! "password_hash" = Some (JStr (hash_password cfg pw)) →
       user !! "_id" = Some uid →
       is_Some (sessions L !! uid) →
       _handle_login cfg e conn s request L
       = (L, s, Reply (failure "Account already logged in")))
  ∧ (∀ e conn s request L,
       (∀ x, (_handle_login cfg e conn s request L).2 = Reply x →
             member "success" x = Some (RBool true) →
             logged_in_as cfg e conn request L (_handle_login cfg e conn s request L))
       ∧ (sessions (_handle_login cfg e conn s request L).1.1 = sessions L
          ∨ logged_in_as cfg e conn request L (_handle_login cfg e conn s request L)))
  ∧ (∀ evs conn s,
       conns (run cfg evs) !! conn = Some s → logged_in s = true →
       (let w' := _handle_client cfg (run cfg evs) (Disconnect conn) in
        conns w' !! conn = None
        ∧ sessions (the_lobby w') !! user_id s = None
        ∧ in_no_room (user_id s) (rooms (the_lobby w')))
       ∧ ∀ request e,
           request !! "action" = Some (JStr "logout") →
           let w' := _handle_client cfg (run cfg evs) (Request conn request e) in
           (∃ s', conns w' !! conn = Some s' ∧ logged_in s' = false)
           ∧ sessions (the_lobby w') !! user_id s = None
           ∧ in_no_room (user_id s) (rooms (the_lobby w'))).
Proof.
  split; [apply run_one_session |].
  split; [intros *; apply login_refused |].
  split.
  - intros e conn s request L. split.
    + apply login_success.
    + apply login_inserts_only_then.
  - intros evs conn s Hconn Hlog. split.
    + by apply disconnect_removes.
    + intros request e Haction. by apply logout_removes.
Qed.

(** Bob is logged in on connection 1 when Carol's client, on connection 2,
    tries his credentials: refused, and nothing changes.  Then Bob's
    connection ends. *)
Lemma one_session_per_user_witness :
  let w := run cfg (bob_creates chat_1_0 ++ [Connect 2]) in
  _handle_login cfg (quiet chat_1_0) 2 new_session (login "bob" "hunter2")
    (the_lobby w)
  = (the_lobby w, new_session, Reply (failure "Account already logged in"))
  ∧ conns (_handle_client cfg w (Disconnect 1)) !! 1%nat = None
  ∧ sessions (the_lobby (_handle_client cfg w (Disconnect 1))) !! JStr "u-bob" = None
  ∧ in_no_room (JStr "u-bob") (rooms (the_lobby (_handle_client cfg w (Disconnect 1))))
  ∧ one_session_each w.
Proof.
  intros w.
  destruct (one_session_per_user cfg) as (Hinv & Hrefused & _ & Hends).
  split.
  { apply (Hrefused (quiet chat_1_0) 2%nat new_session (login "bob" "hunter2")
             (the_lobby w) "bob" "hunter2" (player "u-bob" "bob" "hunter2").2
             (JStr "u-bob")); try (vm_compute; reflexivity); try discriminate.
    vm_compute. by eexists. }
  destruct (Hends (bob_creates chat_1_0 ++ [Connect 2]) 1%nat bob) as [Hd _];
    [vm_compute; reflexivity | reflexivity |].
  destruct Hd as (H1 & H2 & H3).
  exact (conj H1 (conj H2 (conj H3 (Hinv _)))).
Defined.

End SessionFacts.
(** * Further properties *)

(** ** The Catalog's five actions *)

Module CatalogLaws.
Import Catalog CatalogSpec CatalogWords CatalogFacts RequestFacts.

Lemma request_routed e st a c d :
  a ≠ EmptyString →
  _process_request e st (lookup_request a c d)
  = (if bool_decide (a = "insert") then _handle_insert e st c d
     else if bool_decide (a = "find") then _handle_find st c d
     else if bool_decide (a = "find_one") then _handle_find_one st c d
     else if bool_decide (a = "update") then _handle_update e st c d
     else if bool_decide (a = "delete") then _handle_delete e st c d
     else (st, DbError "Unknown action")).
Proof.
  intros Ha. unfold _process_request, lookup_request. cbn [action collection data].
  rewrite coll_of_name_of_coll. by rewrite bool_decide_eq_false_2.
Qed.

Lemma list_find_head {A} (P : A → Prop) `{∀ x, Decision (P x)} (l : list A) :
  snd <$> list_find P l = head (filter P l).
Proof.
  induction l as [|x l IH]; [done |].
  rewrite filter_cons. cbn [list_find]. destruct (decide (P x)); [done |].
  rewrite <- IH. by destruct (list_find P l) as [[? ?]|].
Qed.

(** X1: [find_one] answers with the first of the documents that [find]
    returns for the same query, and with 'Not found' exactly when [find]
    returns none. *)
Theorem find_one_is_first_of_find e st c d :
  (_process_request e st (lookup_request "find_one" c d)).2
  = first_of (results_of (_process_request e st (lookup_request "find" c d)).2).
Proof.
  rewrite !request_routed by done. cbn [bool_decide decide]. simpl.
  unfold _handle_find_one, _handle_find. cbn [snd results_of].
  pose proof (list_find_head
    (fun kd : jval * doc => _match_query kd.2 (query_of d) = true)
    (get_coll c (collections st))) as Hhead.
  destruct (list_find _ _) as [[i [k x]]|]; simpl in Hhead.
  - destruct (filter _ _) as [|[k' x'] rest]; [done |].
    injection Hhead as <- <-. done.
  - destruct (filter _ _) as [|[k' x'] rest]; [done | done].
Qed.

(** X2: a document matches a query when it holds every key of the query
    with an equal value: the empty query matches every document, and a
    document that lacks a key of the query, or differs on it, does not
    match. *)
Theorem match_query_iff (d q : doc) :
  (_match_query d q = true ↔ ∀ key v, q !! key = Some v → d !! key = Some v)
  ∧ _match_query d ∅ = true
  ∧ ∀ key v, q !! key = Some v → d !! key ≠ Some v → _match_query d q = false.
Proof.
  split; [| split].
  - split; [intros Hm key v; by apply match_query_lookup | apply match_query_intro].
  - apply match_query_intro. intros key v Hq. by rewrite lookup_empty in Hq.
  - intros key v Hq Hd. apply not_true_is_false. intros Hm.
    by apply Hd, (match_query_lookup d q).
Qed.

(** *** Update *)

Lemma set_coll_get c s : set_coll c (get_coll c s) s = s.
Proof. by destruct c, s. Qed.

Lemma set_coll_twice c x y s : set_coll c x (set_coll c y s) = set_coll c x s.
Proof. by destruct c. Qed.

Lemma with_coll_same c st : with_coll c (get_coll c (collections st)) st = st.
Proof. unfold with_coll. rewrite set_coll_get. by destruct st. Qed.

Lemma update_unmatched (cl : coll) q (f : jval * doc → jval * doc) :
  matching cl q = [] →
  (fun kd => if _match_query kd.2 q then f kd else kd) <$> cl = cl.
Proof.
  unfold matching. induction cl as [|kd cl IH]; [done |].
  rewrite filter_cons, fmap_cons. destruct (decide _) as [|Hno]; [done |].
  intros Hnil. apply not_true_is_false in Hno. rewrite Hno. f_equal. by apply IH.
Qed.

Lemma dict_get_fmap_values {V} (f : jval * V → V) (cl : list (jval * V)) k :
  dict_get k ((fun kd => (kd.1, f kd)) <$> cl)
  = (fun v => f (k, v)) <$> dict_get k cl.
Proof.
  induction cl as [|[k0 v0] cl IH]; [done |].
  rewrite fmap_cons. cbn [dict_get fst]. destruct (decide (k = k0)) as [->|]; done.
Qed.

(** X3: [update] changes the documents that match the query and no other:
    it answers with their number, gives each of them the members of the
    update and the time as [updated_at], keeps every id in its place,
    leaves the other documents and the other collections as they were,
    and when no document matches it changes nothing, files included. *)
Theorem update_effect e st c d :
  let r := _process_request e st (lookup_request "update" c d) in
  let old := get_coll c (collections st) in
  let new := get_coll c (collections r.1) in
  r.2 = DbCount (length (matching old (query_of d)))
  ∧ new.*1 = old.*1
  ∧ (∀ k, dict_get k new
          = (fun x => if _match_query x (query_of d)
                      then updated e (update_of d) x else x) <$> dict_get k old)
  ∧ (∀ c', c' ≠ c → get_coll c' (collections r.1) = get_coll c' (collections st))
  ∧ (matching old (query_of d) = [] → r.1 = st).
Proof.
  cbn zeta. rewrite request_routed by done. simpl.
  unfold _handle_update. cbv zeta. cbn [fst snd].
  set (q := query_of d). set (old := get_coll c (collections st)).
  set (new := (fun kd : jval * doc =>
                 if _match_query kd.2 q
                 then (kd.1, <["updated_at" := JStr (now e)]> (update_of d ∪ kd.2))
                 else kd) <$> old).
  assert (collections
            (if decide (0 < length (filter (fun kd : jval * doc =>
                                              _match_query kd.2 q = true) old))%nat
             then _save_collection e c (with_coll c new st)
             else with_coll c new st)
          = set_coll c new (collections st)) as Hcoll.
  { case_decide; [apply collections_save | done]. }
  rewrite Hcoll, get_set_coll. split; [done |]. split; [| split; [| split]].
  - subst new. rewrite <- list_fmap_compose. apply list_fmap_ext.
    intros i [k x] _. simpl. by destruct (_match_query x q).
  - intros k.
    replace new with ((fun kd : jval * doc =>
                         (kd.1, if _match_query kd.2 q
                                then updated e (update_of d) kd.2 else kd.2)) <$> old).
    + by rewrite (dict_get_fmap_values
                    (fun kd => if _match_query kd.2 q
                               then updated e (update_of d) kd.2 else kd.2)).
    + subst new. apply list_fmap_ext. intros i [k0 x] _. simpl.
      by destruct (_match_query x q).
  - intros c' Hne. apply get_set_coll_ne. congruence.
  - intros Hnone. unfold matching in Hnone. fold q old in Hnone.
    rewrite Hnone. simpl.
    assert (new = old) as -> by (subst new; by apply update_unmatched).
    apply with_coll_same.
Qed.

(** *** Delete *)

Lemma filter_ext_elem {A} (P1 P2 : A → Prop)
    `{!∀ x, Decision (P1 x), !∀ x, Decision (P2 x)} (l : list A) :
  (∀ x, x ∈ l → P1 x ↔ P2 x) → filter P1 l = filter P2 l.
Proof.
  induction l as [|a l IH]; [done |]. intros Hiff.
  assert (filter P1 l = filter P2 l) as Hrest.
  { apply IH. intros x Hx. apply Hiff. by right. }
  rewrite !filter_cons, Hrest.
  destruct (decide (P1 a)) as [Ha|Ha]; destruct (decide (P2 a)) as [Hb|Hb];
    try done; exfalso; [apply Hb | apply Ha]; by apply (Hiff a); [left |].
Qed.

Lemma filter_all {A} (P : A → Prop) `{!∀ x, Decision (P x)} (l : list A) :
  (∀ x, x ∈ l → P x) → filter P l = l.
Proof.
  induction l as [|a l IH]; [done |]. intros Hall.
  rewrite filter_cons, decide_True by (apply Hall; left).
  f_equal. apply IH. intros x Hx. apply Hall. by right.
Qed.

Lemma filter_none {A} (P : A → Prop) `{!∀ x, Decision (P x)} (l : list A) :
  (∀ x, x ∈ l → ¬ P x) → filter P l = [].
Proof.
  induction l as [|a l IH]; [done |]. intros Hnone.
  rewrite filter_cons, decide_False by (apply Hnone; left).
  apply IH. intros x Hx. apply Hnone. by right.
Qed.

Lemma dict_del_filter {V} (cl : list (jval * V)) k :
  NoDup cl.*1 → dict_del k cl = filter (fun kd => kd.1 ≠ k) cl.
Proof.
  induction cl as [|[k0 v0] cl IH]; [done |].
  rewrite fmap_cons, NoDup_cons. cbn [fst]. intros [Hk0 Hnd].
  cbn [dict_del]. rewrite filter_cons. cbn [fst].
  destruct (decide (k = k0)) as [->|Hne].
  - rewrite decide_False by (by intros []). symmetry.
    apply filter_all. intros [k1 v1] Hin. cbn [fst].
    intros ->. apply Hk0, list_elem_of_fmap. by exists (k0, v1).
  - rewrite decide_True by congruence. f_equal. by apply IH.
Qed.

Lemma NoDup_filter_keys {V} (P : jval * V → Prop) `{!∀ x, Decision (P x)}
    (cl : list (jval * V)) :
  NoDup cl.*1 → NoDup (filter P cl).*1.
Proof.
  induction cl as [|[k0 v0] cl IH]; [done |].
  rewrite fmap_cons, NoDup_cons. intros [Hk0 Hnd]. rewrite filter_cons.
  destruct (decide _); [| by apply IH].
  rewrite fmap_cons. apply NoDup_cons. split; [| by apply IH].
  intros Hin. apply Hk0. apply list_elem_of_fmap in Hin as (kd & -> & Hkd).
  apply list_elem_of_filter in Hkd as [_ Hkd].
  apply list_elem_of_fmap. by exists kd.
Qed.

Lemma delete_all {V} (ks : list jval) : ∀ cl : list (jval * V),
  NoDup cl.*1 →
  foldl (fun d k => dict_del k d) cl ks = filter (fun kd => kd.1 ∉ ks) cl.
Proof.
  induction ks as [|k ks IH]; intros cl Hnd.
  - cbn [foldl]. symmetry. apply filter_all.
    intros kd _. apply not_elem_of_nil.
  - cbn [foldl]. rewrite dict_del_filter by done.
    rewrite IH by (by apply NoDup_filter_keys).
    rewrite list_filter_filter. apply list_filter_iff. intros kd.
    rewrite not_elem_of_cons. tauto.
Qed.

Lemma delete_matching (cl : coll) q :
  NoDup cl.*1 →
  foldl (fun d k => dict_del k d) cl (matching cl q).*1
  = filter (fun kd => _match_query kd.2 q ≠ true) cl.
Proof.
  intros Hnd. rewrite delete_all by done. apply filter_ext_elem.
  intros [k x] Hin. cbn [fst snd]. unfold matching. split.
  - intros Hno Hm. apply Hno, list_elem_of_fmap. exists (k, x).
    split; [done |]. by apply list_elem_of_filter.
  - intros Hno Hk. apply list_elem_of_fmap in Hk as ([k' x'] & Hkk & Hin').
    cbn [fst] in Hkk. subst k'.
    apply list_elem_of_filter in Hin' as [Hm Hin']. cbn [snd] in Hm.
    assert (x' = x) as ->; [| done].
    clear Hm Hno. induction cl as [|[k0 x0] cl IH]; [by apply elem_of_nil in Hin |].
    rewrite fmap_cons, NoDup_cons in Hnd. destruct Hnd as [Hk0 Hnd].
    cbn [fst] in Hk0.
    apply elem_of_cons in Hin as [Hin|Hin]; apply elem_of_cons in Hin' as [Hin'|Hin'].
    + congruence.
    + injection Hin as -> ->. exfalso. apply Hk0, list_elem_of_fmap. by exists (k0, x').
    + injection Hin' as -> ->. exfalso. apply Hk0, list_elem_of_fmap. by exists (k0, x).
    + by apply IH.
Qed.

(** X4: in a collection whose ids are distinct, [delete] removes the
    documents that match the query and no other: it answers with their
    number, the documents that do not match stay, in their order, the
    other collections are untouched, and a [find] with the same query
    then returns nothing. *)
Theorem delete_effect e st c d :
  NoDup (get_coll c (collections st)).*1 →
  let r := _process_request e st (lookup_request "delete" c d) in
  let old := get_coll c (collections st) in
  r.2 = DbCount (length (matching old (query_of d)))
  ∧ get_coll c (collections r.1)
    = filter (fun kd => _match_query kd.2 (query_of d) ≠ true) old
  ∧ (∀ c', c' ≠ c → get_coll c' (collections r.1) = get_coll c' (collections st))
  ∧ (_process_request e r.1 (lookup_request "find" c d)).2 = DbResults [].
Proof.
  intros Hnd. cbn zeta. rewrite !request_routed by done. simpl.
  unfold _handle_delete. cbv zeta. cbn [fst snd].
  set (q := query_of d). set (old := get_coll c (collections st)).
  fold (matching old q).
  set (st' := with_coll c (foldl (fun d0 k => dict_del k d0) old (matching old q).*1) st).
  assert (collections
            match (matching old q).*1 with
            | [] => st'
            | _ :: _ => _save_collection e c st'
            end
          = set_coll c (filter (fun kd => _match_query kd.2 q ≠ true) old)
              (collections st)) as Hcoll.
  { pose proof (delete_matching old q Hnd) as Hdel. subst st'. rewrite Hdel.
    by destruct ((matching old q).*1); [| rewrite collections_save]. }
  unfold _handle_find. cbn [snd]. fold q.
  rewrite Hcoll, get_set_coll. split; [by rewrite length_fmap |].
  split; [done |]. split.
  - intros c' Hne. apply get_set_coll_ne. congruence.
  - rewrite list_filter_filter.
    rewrite filter_none; [done |]. by intros kd _ [Hm Hno].
Qed.

Lemma delete_effect_witness :
  let r := _process_request sample_env two_games
             (lookup_request "delete" Game (by_name "chess")) in
  r.2 = DbCount 1 ∧ get_coll Game (collections r.1) = [(JStr "g2", go)].
Proof.
  assert (NoDup (get_coll Game (collections two_games)).*1) as Hnd.
  { apply (bool_decide_unpack _). vm_compute. reflexivity. }
  destruct (delete_effect sample_env two_games Game (by_name "chess") Hnd)
    as (H1 & H2 & _).
  exact (conj H1 H2).
Defined.

(** *** The files *)

Lemma matching_length_0 (cl : coll) q :
  ¬ (0 < length (matching cl q))%nat → matching cl q = [].
Proof. destruct (matching cl q); [done | simpl; lia]. Qed.

Lemma in_sync_saved e c x st :
  disk_ok e = true → in_sync st → in_sync (_save_collection e c (with_coll c x st)).
Proof.
  unfold in_sync, _save_collection, with_coll. intros -> Hsync.
  cbn [collections files]. by rewrite get_set_coll, Hsync.
Qed.

(** X5: as long as the files can be written, every request leaves each
    collection's file equal to the collection in memory: the three
    handlers that change a collection save it, and an [update] or a
    [delete] that skips the save has changed nothing. *)
Theorem files_follow_memory e st request :
  disk_ok e = true → in_sync st → in_sync (_process_request e st request).1.
Proof.
  intros Hdisk Hsync. unfold _process_request, invalid_request.
  destruct (action request) as [a|]; [| done].
  destruct (collection request) as [cn|]; [| done].
  destruct (bool_decide (a = EmptyString)); [done |].
  destruct (coll_of_name cn) as [c|]; [| done].
  repeat match goal with
         | |- context [if bool_decide ?P then _ else _] =>
             destruct (bool_decide P)
         end; try done.
  - unfold _handle_insert. cbn [fst]. by apply in_sync_saved.
  - unfold _handle_find_one. by destruct (list_find _ _) as [[? [? ?]]|].
  - unfold _handle_update. cbv zeta. cbn [fst].
    set (q := query_of (default no_data (data request))).
    fold (matching (get_coll c (collections st)) q).
    case_decide as Hcount; [by apply in_sync_saved |].
    apply matching_length_0 in Hcount.
    rewrite (update_unmatched _ q
               (fun kd => (kd.1, <["updated_at" := JStr (now e)]>
                                   (update_of (default no_data (data request)) ∪ kd.2))))
      by done.
    by rewrite with_coll_same.
  - unfold _handle_delete. cbv zeta. cbn [fst].
    destruct ((filter _ _).*1) as [|k ks]; [| by apply in_sync_saved].
    cbn [foldl]. by rewrite with_coll_same.
Qed.

Lemma files_follow_memory_witness :
  in_sync (_process_request sample_env two_games
             (lookup_request "insert" Game (new_game "hex"))).1.
Proof.
  exact (files_follow_memory sample_env two_games
           (lookup_request "insert" Game (new_game "hex")) eq_refl eq_refl).
Defined.

Lemma files_save_failed e c st :
  disk_ok e = false →
  files (_save_collection e c st)
  = if cut_short e then set_coll c [] (files st) else files st.
Proof. unfold _save_collection. intros ->. by destruct (cut_short e). Qed.

Lemma load_coll c st :
  get_coll c (collections (_load_data st)) = reload (get_coll c (files st)).
Proof. by destruct c. Qed.

(** X6: when the writing of the collection's file fails, [insert] still
    answers success with the id and the document is in memory.  If the
    file could not be opened, the files are as before, and a server that
    then starts again loads what it would have loaded without the
    insert.  If the file had been opened, it no longer holds a JSON
    document: a server that then starts again finds the whole collection
    empty, and the other collections as they were. *)
Theorem failed_write_is_silent e st c d :
  disk_ok e = false →
  let r := _process_request e st (lookup_request "insert" c d) in
  ∃ id, r.2 = DbId id
        ∧ is_Some (dict_get id (get_coll c (collections r.1)))
        ∧ files r.1 = (if cut_short e then set_coll c [] (files st) else files st)
        ∧ get_coll c (collections (_load_data r.1))
          = (if cut_short e then []
             else get_coll c (collections (_load_data st)))
        ∧ ∀ c', c' ≠ c →
            get_coll c' (collections (_load_data r.1))
            = get_coll c' (collections (_load_data st)).
Proof.
  intros Hdisk. cbn zeta. rewrite request_routed by done.
  rewrite bool_decide_eq_true_2 by reflexivity.
  unfold _handle_insert. cbv zeta. cbn [fst snd].
  eexists. split; [done |]. split; [| split; [| split]].
  - rewrite collections_save. unfold with_coll. cbn [collections].
    rewrite get_set_coll, dict_get_set_eq. by eexists.
  - by rewrite files_save_failed.
  - rewrite (load_coll c st), load_coll, files_save_failed by done.
    unfold with_coll. cbn [files].
    destruct (cut_short e); [by rewrite get_set_coll | done].
  - intros c' Hne. rewrite (load_coll c' st), load_coll, files_save_failed by done.
    unfold with_coll. cbn [files].
    destruct (cut_short e); [by rewrite get_set_coll_ne | done].
Qed.

Lemma failed_write_is_silent_witness :
  let r := _process_request full_disk two_games
             (lookup_request "insert" Game (new_game "hex")) in
  ∃ id, r.2 = DbId id
        ∧ is_Some (dict_get id (get_coll Game (collections r.1)))
        ∧ files r.1 = set_coll Game [] (files two_games)
        ∧ get_coll Game (collections (_load_data r.1)) = []
        ∧ ∀ c', c' ≠ Game →
            get_coll c' (collections (_load_data r.1))
            = get_coll c' (collections (_load_data two_games)).
Proof.
  exact (failed_write_is_silent full_disk two_games Game (new_game "hex") eq_refl).
Defined.

(** *** Insert *)

Lemma dict_set_absent {V} k (v : V) (cl : list (jval * V)) :
  dict_get k cl = None → dict_set k v cl = cl ++ [(k, v)].
Proof.
  induction cl as [|[k0 v0] cl IH]; [done |]. cbn [dict_get dict_set].
  destruct (decide (k = k0)); [done |]. intros Hget. cbn [app]. f_equal. by apply IH.
Qed.

Lemma dict_set_in {V} k (v : V) (cl : list (jval * V)) : (k, v) ∈ dict_set k v cl.
Proof.
  induction cl as [|[k0 v0] cl IH]; cbn [dict_set]; [by left |].
  destruct (decide (k = k0)) as [->|]; [left | by right].
Qed.

(** X7: an [insert] whose data has no [_id], or a null, zero or empty
    one, files the document under a fresh uuid: when that uuid is not an
    id of the collection, the document, with the uuid as [_id] and the
    time as [created_at], is added after all the others, which stay as
    they were, and the answer is the uuid. *)
Theorem insert_without_id e st c d :
  falsy_opt (body d !! "_id") = true →
  dict_get (JStr (fresh_id e)) (get_coll c (collections st)) = None →
  let r := _process_request e st (lookup_request "insert" c d) in
  r.2 = DbId (JStr (fresh_id e))
  ∧ get_coll c (collections r.1)
    = get_coll c (collections st)
      ++ [(JStr (fresh_id e),
           <["created_at" := JStr (now e)]>
             (<["_id" := JStr (fresh_id e)]> (body d)))]
  ∧ ∀ c', c' ≠ c → get_coll c' (collections r.1) = get_coll c' (collections st).
Proof.
  intros Hfalsy Hfresh. cbn zeta. rewrite request_routed by done. simpl.
  unfold _handle_insert. cbv zeta. cbn [fst snd].
  assert (match body d !! "_id" with
          | Some v => if truthy v then v else JStr (fresh_id e)
          | None => JStr (fresh_id e)
          end = JStr (fresh_id e)) as ->.
  { unfold falsy_opt in Hfalsy. destruct (body d !! "_id") as [v|]; [| done].
    by destruct (truthy v). }
  rewrite collections_save. unfold with_coll. cbn [collections].
  rewrite get_set_coll, dict_set_absent by done.
  split; [done |]. split; [done |].
  intros c' Hne. apply get_set_coll_ne. congruence.
Qed.

Lemma insert_without_id_witness :
  let r := _process_request sample_env two_games
             (lookup_request "insert" Game (new_game "hex")) in
  r.2 = DbId (JStr (fresh_id sample_env))
  ∧ (get_coll Game (collections r.1)).*1
    = [JStr "g1"; JStr "g2"; JStr (fresh_id sample_env)].
Proof.
  destruct (insert_without_id sample_env two_games Game (new_game "hex")
              eq_refl eq_refl) as (H1 & H2 & _).
  split; [exact H1 |]. exact (f_equal (fmap fst) H2).
Defined.

(** X8: what [insert] files can be found again: the document is stored
    under the id of the answer, with that id as [_id] and the time as
    [created_at], and a [find] returns it for every query it satisfies,
    among them the query for its [_id]. *)
Theorem insert_then_find e e' st c d :
  let r := _process_request e st (lookup_request "insert" c d) in
  ∃ id, r.2 = DbId id ∧
    let x := <["created_at" := JStr (now e)]> (<["_id" := id]> (body d)) in
    dict_get id (get_coll c (collections r.1)) = Some x
    ∧ (∀ q, _match_query x (query_of q) = true →
         x ∈ results_of (_process_request e' r.1 (lookup_request "find" c q)).2)
    ∧ x ∈ results_of (_process_request e' r.1
                         (find_req (name_of_coll c) {["_id" := id]})).2.
Proof.
  cbn zeta. rewrite request_routed by done. simpl.
  unfold _handle_insert. cbv zeta. cbn [fst snd].
  set (id := match body d !! "_id" with
             | Some v => if truthy v then v else JStr (fresh_id e)
             | None => JStr (fresh_id e)
             end).
  set (x := <["created_at" := JStr (now e)]> (<["_id" := id]> (body d))).
  exists id. split; [done |].
  rewrite collections_save. unfold with_coll. cbn [collections].
  rewrite get_set_coll.
  assert (∀ q, _match_query x (query_of q) = true →
            x ∈ results_of (_process_request e'
                   (_save_collection e c
                      {| collections := set_coll c (dict_set id x (get_coll c (collections st)))
                                          (collections st);
                         files := files st |})
                   (lookup_request "find" c q)).2) as Hfind.
  { intros q Hq. rewrite request_routed by done. simpl.
    unfold _handle_find. cbn [snd results_of].
    rewrite collections_save. cbn [collections]. rewrite get_set_coll.
    apply list_elem_of_fmap. exists (id, x). split; [done |].
    apply list_elem_of_filter. split; [done | apply dict_set_in]. }
  split; [apply dict_get_set_eq |]. split; [exact Hfind |].
  apply (Hfind {| body := ∅; query := Some {["_id" := id]}; update := None |}).
  apply match_query_intro. intros key v. unfold query_of, default.
  cbn [query from_option]. unfold Datatypes.id.
  intros [<- <-]%lookup_singleton_Some. subst x.
  rewrite lookup_insert_ne by done. apply lookup_insert_eq.
Qed.

(** *** The restart *)

Lemma dict_get_absent {V} k (cl : list (jval * V)) :
  k ∉ cl.*1 → dict_get k cl = None.
Proof.
  induction cl as [|[k0 v0] cl IH]; [done |].
  rewrite fmap_cons, not_elem_of_cons. cbn [fst dict_get]. intros [Hne Hin].
  rewrite decide_False by done. by apply IH.
Qed.

Lemma reload_from (cl : coll) : ∀ acc : coll,
  string_ids cl → NoDup (acc ++ cl).*1 →
  foldl (fun a kd => dict_set (json_key kd.1) kd.2 a) acc cl = acc ++ cl.
Proof.
  induction cl as [|[k x] cl IH]; intros acc Hstr Hnd.
  - by rewrite app_nil_r.
  - apply Forall_cons in Hstr as [[s Hk] Hstr]. cbn [fst] in Hk. subst k.
    cbn [foldl fst snd json_key].
    assert (JStr s ∉ acc.*1) as Hfresh.
    { rewrite fmap_app, fmap_cons in Hnd. apply NoDup_app in Hnd as (_ & Hdis & _).
      intros Hin. apply (Hdis _ Hin). left. }
    rewrite dict_set_absent by (by apply dict_get_absent).
    rewrite IH; [by rewrite <- app_assoc | done |].
    by rewrite <- app_assoc.
Qed.

Lemma reload_same (cl : coll) : string_ids cl → NoDup cl.*1 → reload cl = cl.
Proof. intros Hstr Hnd. unfold reload. by rewrite reload_from. Qed.

(** X9: a server that starts again on files that are up to date finds
    its collections as they were, documents, ids and order: this holds
    when the ids are strings, as the uuids and the ids the other servers
    send are, because JSON writes every key as a string. *)
Theorem restart_restores st :
  in_sync st → ids_unique st →
  (∀ c, string_ids (get_coll c (collections st))) →
  _load_data st = st.
Proof.
  intros Hsync Hnd Hstr. unfold _load_data. rewrite Hsync.
  pose proof (reload_same _ (Hstr User) (Hnd User)) as HU.
  pose proof (reload_same _ (Hstr Game) (Hnd Game)) as HG.
  pose proof (reload_same _ (Hstr Version) (Hnd Version)) as HV.
  pose proof (reload_same _ (Hstr Room) (Hnd Room)) as HR.
  pose proof (reload_same _ (Hstr Review) (Hnd Review)) as HW.
  cbn [get_coll] in HU, HG, HV, HR, HW. rewrite HU, HG, HV, HR, HW.
  destruct st as [[] ?]. unfold in_sync in Hsync. cbn in *. by subst.
Qed.

Lemma restart_restores_witness : _load_data two_games = two_games.
Proof.
  apply restart_restores.
  - reflexivity.
  - intros c. apply (bool_decide_unpack _). by destruct c; vm_compute.
  - intros c. destruct c; repeat constructor; by eexists.
Defined.

End CatalogLaws.
(** ** The package check *)

Module PackageLaws.
Import Package.

(** A package that [validate_game_package] accepts has a manifest that can
    be read and decoded, and it is the manifest returned. *)
Lemma validate_read json_load fs game_dir error m :
  validate_game_package json_load fs game_dir = (true, error, Some m) →
  ∃ text, read_file fs game_dir "game_info.json" = Some text
          ∧ json_load text = Parsed m.
Proof.
  unfold validate_game_package.
  destruct (read_file fs game_dir "game_info.json") as [text|] eqn:Hread; [| done].
  destruct (json_load text) as [game_info|msg] eqn:Hload; [| done].
  destruct (list_find _ required_fields) as [[i field]|]; [done |].
  destruct (server game_info) as [sp|]; [| done].
  destruct (entry_point sp) as [se|]; [| done].
  destruct (exists_in fs game_dir se); [| done]. cbn [negb].
  destruct (client game_info) as [cp|]; [| done].
  destruct (entry_point cp) as [ce|]; [| done].
  destruct (exists_in fs game_dir ce); [| done]. cbn [negb].
  intros [= _ <-]. by exists text.
Qed.

End PackageLaws.
(** ** The wire protocol *)

Module WireLaws.
Import Wire.

Lemma Z_of_byte_of_Z z : Z_of_byte (byte_of_Z z) = (z mod 256)%Z.
Proof.
  unfold Z_of_byte, byte_of_Z.
  assert (0 ≤ z mod 256 < 256)%Z as Hr by (apply Z.mod_pos_bound; lia).
  destruct (Byte.of_N (Z.to_N (z mod 256))) as [b|] eqn:Hb.
  - apply Byte.to_of_N in Hb. cbn [default from_option]. unfold Datatypes.id. rewrite Hb. lia.
  - apply Byte.of_N_None_iff in Hb. lia.
Qed.

Lemma unpack_from w : ∀ n acc,
  foldl (fun a x => (a * 256 + Z_of_byte x)%Z) acc (big_endian w n)
  = (acc * 256 ^ Z.of_nat w + n mod 256 ^ Z.of_nat w)%Z.
Proof.
  induction w as [|w IH]; intros n acc.
  - cbn [big_endian foldl]. change (256 ^ Z.of_nat 0)%Z with 1%Z.
    rewrite Z.mod_1_r. lia.
  - cbn [big_endian foldl]. rewrite IH, Z_of_byte_of_Z.
    rewrite Nat2Z.inj_succ, Z.pow_succ_r by lia.
    rewrite (Z.mul_comm 256 (256 ^ Z.of_nat w)).
    rewrite (Z.rem_mul_r n (256 ^ Z.of_nat w) 256) by lia. lia.
Qed.

Lemma unpack_pack w n b : pack w n = Some b → unpack b = n ∧ length b = w.
Proof.
  unfold pack. case_decide as Hn; [| done]. intros [= <-]. split.
  - unfold unpack. rewrite unpack_from. rewrite Z.mod_small by done. lia.
  - clear Hn. induction w as [|w IH]; [done |]. cbn [big_endian length]. by rewrite IH.
Qed.

Lemma byte_of_Z_of_byte b : byte_of_Z (Z_of_byte b) = b.
Proof.
  unfold byte_of_Z, Z_of_byte.
  pose proof (Byte.to_N_bounded b) as Hb.
  rewrite Z.mod_small by lia. by rewrite N2Z.id, Byte.of_to_N.
Qed.

Lemma Z_of_byte_range b : (0 ≤ Z_of_byte b < 256)%Z.
Proof. unfold Z_of_byte. pose proof (Byte.to_N_bounded b). lia. Qed.

Lemma byte_of_Z_mod a z : byte_of_Z (a * 256 + z) = byte_of_Z z.
Proof. unfold byte_of_Z. by rewrite Z.add_comm, Z.mod_add. Qed.

Lemma unpack_acc b : ∀ acc,
  foldl (fun a x => (a * 256 + Z_of_byte x)%Z) acc b
  = (acc * 256 ^ Z.of_nat (length b) + unpack b)%Z.
Proof.
  unfold unpack. induction b as [|y b IH]; intros acc.
  - cbn [foldl length]. change (256 ^ Z.of_nat 0)%Z with 1%Z. lia.
  - cbn [foldl length]. rewrite Nat2Z.inj_succ, Z.pow_succ_r by lia.
    rewrite (IH (acc * 256 + Z_of_byte y)%Z), (IH (0 * 256 + Z_of_byte y)%Z). lia.
Qed.

Lemma unpack_cons x b :
  unpack (x :: b) = (Z_of_byte x * 256 ^ Z.of_nat (length b) + unpack b)%Z.
Proof. unfold unpack at 1. cbn [foldl]. rewrite unpack_acc. lia. Qed.

Lemma unpack_range b : (0 ≤ unpack b < 256 ^ Z.of_nat (length b))%Z.
Proof.
  induction b as [|x b IH].
  - cbn. lia.
  - rewrite unpack_cons. cbn [length]. rewrite Nat2Z.inj_succ, Z.pow_succ_r by lia.
    pose proof (Z_of_byte_range x). nia.
Qed.

Lemma big_endian_mod w : ∀ a n,
  big_endian w (a * 256 ^ Z.of_nat w + n) = big_endian w n.
Proof.
  induction w as [|w IH]; intros a n; [done |].
  cbn [big_endian]. rewrite Nat2Z.inj_succ, Z.pow_succ_r by lia. f_equal.
  - replace (a * (256 * 256 ^ Z.of_nat w) + n)%Z
      with (n + (a * 256) * 256 ^ Z.of_nat w)%Z by lia.
    rewrite Z.div_add by lia. rewrite Z.add_comm. apply byte_of_Z_mod.
  - replace (a * (256 * 256 ^ Z.of_nat w) + n)%Z
      with ((a * 256) * 256 ^ Z.of_nat w + n)%Z by lia.
    apply IH.
Qed.

Lemma big_endian_unpack b : big_endian (length b) (unpack b) = b.
Proof.
  induction b as [|x b IH]; [done |].
  cbn [length big_endian]. rewrite unpack_cons, big_endian_mod, IH. f_equal.
  pose proof (unpack_range b).
  rewrite Z.add_comm, Z.div_add by lia. rewrite Z.div_small by done.
  apply byte_of_Z_of_byte.
Qed.

Lemma pack_unpack b : pack (length b) (unpack b) = Some b.
Proof.
  unfold pack. rewrite decide_True by apply unpack_range. by rewrite big_endian_unpack.
Qed.

(** *** Reading exactly [n] bytes *)

Lemma take_split {A} k m (l : list A) :
  (k ≤ m)%nat → take m l = take k l ++ take (m - k) (drop k l).
Proof.
  intros Hk. rewrite <- (take_drop k (take m l)) at 1.
  rewrite take_take, skipn_firstn_comm. by rewrite Nat.min_l.
Qed.

Lemma recv_chunk n s :
  (0 < n)%nat →
  ∃ k, (0 < k ≤ n)%nat
       ∧ (recv n s).1 = take k (incoming s)
       ∧ has_read k s (recv n s).2.
Proof.
  intros Hn. exists (n `min` S (hd n (cuts s))). split; [lia |]. done.
Qed.

Lemma has_read_trans j k s1 s2 s3 :
  has_read j s1 s2 → has_read k s2 s3 → has_read (j + k) s1 s3.
Proof.
  intros (H1 & H2 & H3) (H4 & H5 & H6). split; [| split]; [| congruence | congruence].
  by rewrite H4, H1, drop_drop.
Qed.

Lemma has_read_all j k s s' :
  has_read j s s' → (length (incoming s) ≤ j)%nat → (length (incoming s) ≤ k)%nat →
  has_read k s s'.
Proof.
  intros (H1 & H2 & H3) Hj Hk. split; [| done].
  by rewrite H1, !drop_ge.
Qed.

Lemma recv_exact_loop_enough turns : ∀ n data s,
  (n - length data ≤ turns)%nat →
  (n - length data ≤ length (incoming s))%nat →
  (recv_exact_loop turns n data s).1
    = Some (data ++ take (n - length data) (incoming s))
  ∧ has_read (n - length data) s (recv_exact_loop turns n data s).2.
Proof.
  induction turns as [|turns IH]; intros n data s Hturns Hin.
  - cbn [recv_exact_loop]. rewrite decide_False by lia.
    replace (n - length data)%nat with 0%nat by lia.
    cbn [take fst snd]. by rewrite app_nil_r.
  - cbn [recv_exact_loop]. case_decide as Hlt.
    + destruct (recv_chunk (n - length data) s) as (k & Hk & Hchunk & Hread); [lia |].
      destruct (recv (n - length data) s) as [chunk s'] eqn:Hrecv.
      cbn [fst snd] in Hchunk, Hread.
      assert (length chunk = k) as Hlen by (subst chunk; rewrite length_take; lia).
      destruct chunk as [|c chunk]; [cbn in Hlen; lia |].
      destruct (IH n (data ++ c :: chunk) s') as [Hres Hread'].
      * rewrite length_app. lia.
      * destruct Hread as (-> & _). rewrite length_app, length_drop. lia.
      * split.
        -- rewrite Hres. f_equal. rewrite <- app_assoc. f_equal.
           destruct Hread as (-> & _). rewrite length_app, Hlen, Hchunk.
           rewrite (take_split k (n - length data)) by lia.
           do 2 f_equal. lia.
        -- replace (n - length data)%nat
             with (k + (n - length (data ++ c :: chunk)))%nat
             by (rewrite length_app; lia).
           by eapply has_read_trans.
    + replace (n - length data)%nat with 0%nat by lia.
      cbn [take fst snd]. by rewrite app_nil_r.
Qed.

Lemma recv_exact_loop_short turns : ∀ n data s,
  (n - length data ≤ turns)%nat →
  (length (incoming s) < n - length data)%nat →
  (recv_exact_loop turns n data s).1 = None
  ∧ has_read (length (incoming s)) s (recv_exact_loop turns n data s).2.
Proof.
  induction turns as [|turns IH]; intros n data s Hturns Hin; [lia |].
  cbn [recv_exact_loop]. rewrite decide_True by lia.
  destruct (recv_chunk (n - length data) s) as (k & Hk & Hchunk & Hread); [lia |].
  destruct (recv (n - length data) s) as [chunk s'] eqn:Hrecv.
  cbn [fst snd] in Hchunk, Hread.
  assert (length chunk = k `min` length (incoming s)) as Hlen
    by (subst chunk; by rewrite length_take).
  destruct chunk as [|c chunk].
  - split; [done |]. cbn [snd]. cbn [length] in Hlen.
    eapply has_read_all; [exact Hread | lia | lia].
  - destruct (IH n (data ++ c :: chunk) s') as [Hres Hread'].
    + rewrite length_app. cbn [length] in *. lia.
    + destruct Hread as (-> & _). rewrite length_app, length_drop. lia.
    + split; [done |].
      pose proof (has_read_trans _ _ _ _ _ Hread Hread') as Hall.
      eapply has_read_all; [exact Hall | | lia].
      destruct Hread as (-> & _). rewrite length_drop. lia.
Qed.

(** The counter of the loop is of no consequence: any number of turns
    from [n] on gives the result of [_recv_exact]. *)
Lemma recv_exact_turns turns n s :
  (n ≤ turns)%nat →
  (recv_exact_loop turns n [] s).1 = (_recv_exact n s).1
  ∧ incoming (recv_exact_loop turns n [] s).2 = incoming (_recv_exact n s).2.
Proof.
  intros Hturns. unfold _recv_exact.
  destruct (decide (n ≤ length (incoming s))%nat) as [Hin|Hin].
  - destruct (recv_exact_loop_enough turns n [] s) as (-> & -> & _); [cbn; lia.. |].
    destruct (recv_exact_loop_enough n n [] s) as (-> & -> & _); [cbn; lia.. |]. done.
  - destruct (recv_exact_loop_short turns n [] s) as (-> & -> & _); [cbn; lia.. |].
    destruct (recv_exact_loop_short n n [] s) as (-> & -> & _); [cbn; lia.. |]. done.
Qed.

(** X11: however the network cuts the stream into pieces, [_recv_exact]
    returns the next [n] bytes and leaves the stream just behind them
    when at least [n] bytes are still to come, and returns [None], with
    the stream used up, when it ends before that. *)
Theorem recv_exact_result n s :
  let r := _recv_exact n s in
  ((n ≤ length (incoming s))%nat →
     r.1 = Some (take n (incoming s)) ∧ has_read n s r.2)
  ∧ ((length (incoming s) < n)%nat →
     r.1 = None ∧ incoming r.2 = [] ∧ outgoing r.2 = outgoing s).
Proof.
  cbn zeta. unfold _recv_exact. split; intros Hin.
  - destruct (recv_exact_loop_enough n n [] s) as [Hres Hread]; [cbn; lia.. |].
    cbn [length] in Hres, Hread. rewrite Nat.sub_0_r in Hres, Hread. done.
  - destruct (recv_exact_loop_short n n [] s) as [Hres (Hread & Hout & _)]; [cbn; lia.. |].
    split; [done |]. split; [| done]. by rewrite Hread, drop_all.
Qed.

Lemma recv_exact_result_witness :
  (_recv_exact 4 (sock (receiving (big_endian 4 2) hi [0%nat; 1%nat]))).1
  = Some (big_endian 4 2).
Proof.
  destruct (recv_exact_result 4 (sock (receiving (big_endian 4 2) hi [0%nat; 1%nat])))
    as [Henough _].
  assert (4 ≤ length (incoming (sock (receiving (big_endian 4 2) hi [0%nat; 1%nat]))))%nat
    as Hlen by (vm_compute; lia).
  destruct (Henough Hlen) as [Hres _]. exact Hres.
Defined.

Lemma recv_exact_next n data rest s :
  incoming s = data ++ rest → length data = n →
  (_recv_exact n s).1 = Some data
  ∧ incoming (_recv_exact n s).2 = rest
  ∧ outgoing (_recv_exact n s).2 = outgoing s
  ∧ broken (_recv_exact n s).2 = broken s.
Proof.
  intros Hin Hlen.
  destruct (recv_exact_result n s) as [Henough _].
  destruct Henough as (-> & -> & -> & ->).
  { rewrite Hin, length_app. lia. }
  rewrite Hin, <- Hlen. by rewrite take_app_length, drop_app_length.
Qed.

(** *** Messages *)

Section Messages.
Context {message : Type}.
Variable dumps : message → bytes.
Variable loads : bytes → option (option message).

Lemma receive_frame len data m rest q :
  pack 4 (Z.of_nat (length data)) = Some len →
  data ≠ [] → loads data = Some m →
  incoming (sock q) = (len ++ data) ++ rest →
  receive_message loads q
  = (m, on_sock (receive_message loads q).2.(sock) q)
  ∧ incoming (sock (receive_message loads q).2) = rest
  ∧ outgoing (sock (receive_message loads q).2) = outgoing (sock q).
Proof.
  intros Hpack Hdata Hloads Hin. apply unpack_pack in Hpack as [Hlen H4].
  unfold receive_message.
  destruct (recv_exact_next 4 len (data ++ rest) (sock q)) as (H1 & H2 & H3 & _);
    [by rewrite Hin, <- app_assoc | done |].
  destruct (_recv_exact 4 (sock q)) as [got s1]. cbn [fst snd] in H1, H2, H3. subst got.
  rewrite Hlen, Nat2Z.id.
  destruct (recv_exact_next (length data) data rest s1) as (H5 & H6 & H7 & _);
    [done | done |].
  destruct (_recv_exact (length data) s1) as [got s2]. cbn [fst snd] in H5, H6, H7.
  subst got. destruct data as [|b data]; [done |]. rewrite Hloads.
  cbn [snd sock on_sock]. split; [done |]. split; [done | congruence].
Qed.

(** X12: a message sent with [send_message] is received whole by
    [receive_message] at the other end, however the network cuts the
    stream into pieces, and what follows it in the stream is left for
    the next call: this holds when the connection is not broken, the
    encoded message is shorter than 2^32 bytes and decodes to the
    message. *)
Theorem message_round_trip m p :
  broken (sock p) = false →
  (Z.of_nat (length (dumps m)) < 2 ^ 32)%Z →
  dumps m ≠ [] → loads (dumps m) = Some (Some m) →
  let sent := send_message dumps m p in
  sent.1 = true ∧ closed sent.2 = closed p
  ∧ ∃ wire, outgoing (sock sent.2) = outgoing (sock p) ++ wire
      ∧ ∀ rest q, incoming (sock q) = wire ++ rest →
          let got := receive_message loads q in
          got.1 = Some m ∧ incoming (sock got.2) = rest
          ∧ closed got.2 = closed q.
Proof.
  intros Hup Hsize Hdata Hloads. cbn zeta. unfold send_message, sendall.
  destruct (pack 4 (Z.of_nat (length (dumps m)))) as [len|] eqn:Hpack.
  - rewrite Hup. cbn [fst snd on_sock sock closed outgoing].
    split; [done |]. split; [done |]. exists (len ++ dumps m). split; [done |].
    intros rest q Hin.
    destruct (receive_frame len (dumps m) (Some m) rest q Hpack Hdata Hloads Hin)
      as (Hgot & Hrest & _).
    rewrite Hgot at 1 3. by rewrite Hrest.
  - unfold pack in Hpack. case_decide as Hrange; [done |].
    change (256 ^ Z.of_nat 4)%Z with (2 ^ 32)%Z in Hrange. lia.
Qed.

(** Either the call has marked the connection closed and returns [None],
    or it has read one frame and returns what its body decodes to. *)
Lemma receive_message_cases q :
  let got := receive_message loads q in
  (got.1 = None ∧ closed got.2 = true)
  ∨ ∃ len data, pack 4 (Z.of_nat (length data)) = Some len
      ∧ data ≠ [] ∧ loads data = Some got.1
      ∧ incoming (sock q) = len ++ data ++ incoming (sock got.2)
      ∧ closed got.2 = closed q.
Proof.
  cbn zeta. unfold receive_message.
  pose proof (recv_exact_result 4 (sock q)) as [H4 H4'].
  destruct (_recv_exact 4 (sock q)) as [[length_data|] s1] eqn:Hhead;
    [| left; done].
  cbn [fst snd] in H4, H4'.
  destruct (decide (4 ≤ length (incoming (sock q)))%nat) as [Hlong|Hshort];
    [| destruct H4' as [? _]; [lia | done]].
  destruct (H4 Hlong) as ([= ->] & Hin1 & _). clear H4 H4'.
  set (n := Z.to_nat (unpack (take 4 (incoming (sock q))))).
  pose proof (recv_exact_result n s1) as [Hn Hn'].
  destruct (_recv_exact n s1) as [[message_data|] s2] eqn:Hbody; [| left; done].
  cbn [fst snd] in Hn, Hn'.
  destruct (decide (n ≤ length (incoming s1))%nat) as [Hlong'|Hshort'];
    [| destruct Hn' as [? _]; [lia | done]].
  destruct (Hn Hlong') as ([= ->] & Hin2 & _). clear Hn Hn'.
  destruct (take n (incoming s1)) as [|b body] eqn:Hdata; [left; done |].
  destruct (loads (b :: body)) as [m'|] eqn:Hloads; [| left; done].
  right. cbn [fst snd sock closed on_sock].
  exists (take 4 (incoming (sock q))), (b :: body).
  assert (length (b :: body) = n) as Hlen.
  { rewrite <- Hdata, length_take. lia. }
  split; [| split; [done | split; [done | split; [| done]]]].
  - assert (length (take 4 (incoming (sock q))) = 4%nat) as H4
      by (rewrite length_take; lia).
    pose proof (unpack_range (take 4 (incoming (sock q)))) as Hrange.
    rewrite Hlen. subst n. rewrite Z2Nat.id by lia.
    rewrite <- H4 at 1. apply pack_unpack.
  - rewrite Hin2, <- Hdata, take_drop, Hin1. by rewrite take_drop.
Qed.

(** X13: what [receive_message] returns was sent as a frame: the stream
    began with the four bytes of the length of a body that is not empty
    and decodes to the message, and the call has read just that.  When
    it returns [None] it has marked the connection closed, with one
    exception: a frame whose body is the JSON text [null] is read like
    any other, and the call returns [None] for it while the connection
    stays open.  A frame of length zero gives [None] with the connection
    marked closed, though the stream goes on. *)
Theorem receive_message_result q :
  let got := receive_message loads q in
  (∀ m, got.1 = Some m →
     ∃ len data, pack 4 (Z.of_nat (length data)) = Some len
       ∧ data ≠ [] ∧ loads data = Some (Some m)
       ∧ incoming (sock q) = len ++ data ++ incoming (sock got.2)
       ∧ closed got.2 = closed q)
  ∧ (got.1 = None →
     closed got.2 = true
     ∨ ∃ len data, pack 4 (Z.of_nat (length data)) = Some len
         ∧ data ≠ [] ∧ loads data = Some None
         ∧ incoming (sock q) = len ++ data ++ incoming (sock got.2)
         ∧ closed got.2 = closed q)
  ∧ (∀ len data rest, pack 4 (Z.of_nat (length data)) = Some len →
       data ≠ [] → loads data = Some None →
       incoming (sock q) = len ++ data ++ rest →
       got.1 = None ∧ closed got.2 = closed q ∧ incoming (sock got.2) = rest)
  ∧ (∀ rest, incoming (sock q) = big_endian 4 0 ++ rest →
       got.1 = None ∧ closed got.2 = true ∧ incoming (sock got.2) = rest).
Proof.
  cbn zeta. split; [| split; [| split]].
  - intros m Hgot.
    destruct (receive_message_cases q) as [[Hnone _]|(len & data & H)].
    + cbn zeta in Hnone. rewrite Hnone in Hgot. discriminate Hgot.
    + cbn zeta in H. rewrite Hgot in H. by exists len, data.
  - intros Hgot.
    destruct (receive_message_cases q) as [[_ Hclosed]|(len & data & H)].
    + by left.
    + right. cbn zeta in H. rewrite Hgot in H. by exists len, data.
  - intros len data rest Hpack Hdata Hloads Hin.
    destruct (receive_frame len data None rest q Hpack Hdata Hloads)
      as (Hgot & Hrest & _); [by rewrite <- app_assoc |].
    rewrite Hgot at 1 2. by rewrite Hrest.
  - intros rest Hin. unfold receive_message.
    destruct (recv_exact_next 4 (big_endian 4 0) rest (sock q)) as (H1 & H2 & _);
      [done | done |].
    destruct (_recv_exact 4 (sock q)) as [got s1]. cbn [fst snd] in H1, H2. subst got.
    change (Z.to_nat (unpack (big_endian 4 0))) with 0%nat.
    unfold _recv_exact. cbn [recv_exact_loop length]. done.
Qed.

End Messages.

Lemma message_round_trip_witness :
  let sent := send_message dumps_empty tt fresh in
  sent.1 = true ∧ closed sent.2 = closed fresh
  ∧ ∃ wire, outgoing (sock sent.2) = outgoing (sock fresh) ++ wire
      ∧ ∀ rest q, incoming (sock q) = wire ++ rest →
          let got := receive_message loads_empty q in
          got.1 = Some tt ∧ incoming (sock got.2) = rest
          ∧ closed got.2 = closed q.
Proof.
  assert (dumps_empty tt ≠ []) as Hdata by discriminate.
  exact (message_round_trip dumps_empty loads_empty tt fresh
           eq_refl eq_refl Hdata eq_refl).
Defined.

(** A frame that carries [null], followed by two more bytes: the call
    returns [None], the connection is not marked closed and the two bytes
    are still to be read. *)
Example null_frame_leaves_open :
  let got := receive_message loads_empty (receiving (big_endian 4 4 ++ null) hi []) in
  got.1 = None ∧ closed got.2 = false ∧ incoming (sock got.2) = hi.
Proof. vm_compute. done. Qed.

(** *** Files *)

Lemma chunks_concat c : (0 < c)%nat → ∀ n (data : bytes),
  (length data ≤ n * c)%nat →
  concat ((fun i => take c (drop i data)) <$> ((fun k => k * c)%nat <$> seq 0 n)) = data.
Proof.
  intros Hc. induction n as [|n IH]; intros data Hlen.
  - destruct data; [done | cbn in Hlen; lia].
  - cbn [seq]. rewrite !fmap_cons. cbn [concat]. rewrite Nat.mul_0_l, drop_0.
    transitivity (take c data ++ drop c data); [| apply take_drop]. f_equal.
    pose proof (IH (drop c data)) as Hrest. rewrite length_drop in Hrest.
    etransitivity; [| apply Hrest; lia].
    rewrite <- fmap_S_seq, <- !list_fmap_compose. f_equal. apply list_fmap_ext.
    intros i k _. cbn. rewrite drop_drop. do 2 f_equal; lia.
Qed.

Lemma sendall_chunks (chunks : list bytes) : ∀ s,
  broken s = false →
  ∃ s', foldl (fun s' chunk => s' ≫= sendall chunk) (Some s) chunks = Some s'
        ∧ outgoing s' = outgoing s ++ concat chunks
        ∧ incoming s' = incoming s ∧ cuts s' = cuts s ∧ broken s' = false.
Proof.
  induction chunks as [|chunk chunks IH]; intros s Hup.
  - exists s. by rewrite app_nil_r.
  - cbn [foldl mbind option_bind].
    assert (sendall chunk s
            = Some {| incoming := incoming s; cuts := cuts s;
                      outgoing := outgoing s ++ chunk; broken := broken s |}) as ->
      by (unfold sendall; by rewrite Hup).
    destruct (IH {| incoming := incoming s; cuts := cuts s;
                    outgoing := outgoing s ++ chunk; broken := broken s |})
      as (s' & Hs' & Hout & Hin & Hcuts & Hbr); [done |].
    exists s'. split; [done |]. cbn [concat]. rewrite Hout. cbn [outgoing].
    by rewrite <- app_assoc.
Qed.

Lemma offsets_cover n c :
  (0 < c)%nat → (n ≤ ((n + c - 1) / c) * c)%nat.
Proof.
  intros Hc. pose proof (Nat.div_mod_eq (n + c - 1) c) as Hdiv.
  pose proof (Nat.mod_upper_bound (n + c - 1) c). lia.
Qed.

Lemma send_file_wire file_data p :
  broken (sock p) = false →
  (Z.of_nat (length file_data) < 2 ^ 64)%Z →
  ∃ size, pack 8 (Z.of_nat (length file_data)) = Some size
    ∧ (send_file (Some file_data) p).1 = true
    ∧ outgoing (sock (send_file (Some file_data) p).2)
      = outgoing (sock p) ++ size ++ file_data
    ∧ closed (send_file (Some file_data) p).2 = closed p.
Proof.
  intros Hup Hsize. unfold send_file.
  destruct (pack 8 (Z.of_nat (length file_data))) as [size|] eqn:Hpack.
  - exists size. split; [done |]. cbn [mbind option_bind].
    set (s := {| incoming := incoming (sock p); cuts := cuts (sock p);
                 outgoing := outgoing (sock p) ++ size; broken := false |}).
    assert (sendall size (sock p) = Some s) as ->
      by (unfold sendall; by rewrite Hup).
    destruct (sendall_chunks ((fun i => take chunk_size (drop i file_data))
                                <$> offsets (length file_data) chunk_size) s)
      as (s' & Hs' & Hout & _); [done |].
    rewrite foldl_fmap in Hs'. rewrite Hs'. cbn [fst snd sock on_sock closed].
    split; [done |]. split; [| done]. rewrite Hout. unfold offsets.
    rewrite chunks_concat.
    + subst s. cbn [outgoing]. by rewrite <- app_assoc.
    + unfold chunk_size. lia.
    + apply offsets_cover. unfold chunk_size. lia.
  - unfold pack in Hpack. case_decide as Hrange; [done |].
    change (256 ^ Z.of_nat 8)%Z with (2 ^ 64)%Z in Hrange. lia.
Qed.

Lemma receive_file_loop_enough turns : ∀ file_size written s,
  (file_size - length written ≤ turns)%nat →
  (file_size - length written ≤ length (incoming s))%nat →
  let r := receive_file_loop turns file_size written s in
  r.1 = (true, written ++ take (file_size - length written) (incoming s))
  ∧ has_read (file_size - length written) s r.2.
Proof.
  induction turns as [|turns IH]; intros n data s Hturns Hin; cbn zeta.
  - cbn [receive_file_loop]. rewrite decide_False by lia.
    replace (n - length data)%nat with 0%nat by lia.
    cbn [take fst snd]. by rewrite app_nil_r.
  - cbn [receive_file_loop]. case_decide as Hlt.
    + destruct (recv_chunk (chunk_size `min` (n - length data)) s)
        as (k & Hk & Hchunk & Hread); [unfold chunk_size; lia |].
      destruct (recv _ s) as [chunk s'] eqn:Hrecv.
      cbn [fst snd] in Hchunk, Hread.
      assert (length chunk = k) as Hlen by (subst chunk; rewrite length_take; lia).
      destruct chunk as [|c chunk]; [cbn in Hlen; lia |].
      destruct (IH n (data ++ c :: chunk) s') as [Hres Hread'].
      * rewrite length_app. lia.
      * destruct Hread as (-> & _). rewrite length_app, length_drop. lia.
      * split.
        -- rewrite Hres. f_equal. rewrite <- app_assoc. f_equal.
           destruct Hread as (-> & _). rewrite length_app, Hlen, Hchunk.
           rewrite (take_split k (n - length data)) by lia.
           do 2 f_equal. lia.
        -- replace (n - length data)%nat
             with (k + (n - length (data ++ c :: chunk)))%nat
             by (rewrite length_app; lia).
           by eapply has_read_trans.
    + replace (n - length data)%nat with 0%nat by lia.
      cbn [take fst snd]. by rewrite app_nil_r.
Qed.

Lemma receive_file_loop_short turns : ∀ file_size written s,
  (file_size - length written ≤ turns)%nat →
  (length (incoming s) < file_size - length written)%nat →
  let r := receive_file_loop turns file_size written s in
  r.1 = (false, written ++ incoming s) ∧ incoming r.2 = [].
Proof.
  induction turns as [|turns IH]; intros n data s Hturns Hin; cbn zeta; [lia |].
  cbn [receive_file_loop]. rewrite decide_True by lia.
  destruct (recv_chunk (chunk_size `min` (n - length data)) s)
    as (k & Hk & Hchunk & Hread); [unfold chunk_size; lia |].
  destruct (recv _ s) as [chunk s'] eqn:Hrecv.
  cbn [fst snd] in Hchunk, Hread.
  assert (length chunk = k `min` length (incoming s)) as Hlen
    by (subst chunk; by rewrite length_take).
  destruct Hread as (Hin' & _).
  destruct chunk as [|c chunk].
  - cbn [length] in Hlen. assert (incoming s = []) as Hnil.
    { destruct (incoming s); [done | cbn in Hlen; lia]. }
    cbn [fst snd]. rewrite Hin', Hnil. by rewrite app_nil_r, drop_nil.
  - destruct (IH n (data ++ c :: chunk) s') as [Hres Hrest].
    + rewrite length_app. cbn [length] in *. lia.
    + rewrite Hin', length_app, length_drop. lia.
    + split; [| done]. rewrite Hres, Hin', Hchunk, <- app_assoc.
      by rewrite take_drop.
Qed.

(** X14: a file sent with [send_file] arrives whole: [receive_file] at
    the other end answers [True], the file it has written holds the
    bytes of the file sent, whatever their number and however the
    network cuts the stream, and what follows in the stream is left
    unread. *)
Theorem file_round_trip file_data p :
  broken (sock p) = false →
  (Z.of_nat (length file_data) < 2 ^ 64)%Z →
  let sent := send_file (Some file_data) p in
  sent.1 = true
  ∧ ∃ wire, outgoing (sock sent.2) = outgoing (sock p) ++ wire
      ∧ ∀ rest q, incoming (sock q) = wire ++ rest →
          let got := receive_file q in
          got.1 = (true, Some file_data) ∧ incoming (sock got.2) = rest.
Proof.
  intros Hup Hsize. cbn zeta.
  destruct (send_file_wire file_data p Hup Hsize) as (size & Hpack & Hok & Hout & _).
  split; [done |]. exists (size ++ file_data). split; [done |].
  intros rest q Hin. apply unpack_pack in Hpack as [Hlen H8].
  unfold receive_file.
  destruct (recv_exact_next 8 size (file_data ++ rest) (sock q)) as (H1 & H2 & _);
    [by rewrite Hin, <- app_assoc | done |].
  destruct (_recv_exact 8 (sock q)) as [got s1]. cbn [fst snd] in H1, H2. subst got.
  rewrite Hlen, Nat2Z.id.
  destruct (receive_file_loop_enough (length file_data) (length file_data) [] s1)
    as [Hres (Hrest & _)]; [cbn; lia | rewrite H2, length_app; cbn; lia |].
  destruct (receive_file_loop _ _ [] s1) as [[ok written] s2].
  cbn [fst snd length] in Hres, Hrest. rewrite Nat.sub_0_r in Hres, Hrest.
  injection Hres as -> ->. cbn [fst snd sock on_sock].
  rewrite Hrest, H2. by rewrite take_app_length, drop_app_length.
Qed.

Lemma file_round_trip_witness :
  let sent := send_file (Some hi) fresh in
  sent.1 = true
  ∧ ∃ wire, outgoing (sock sent.2) = outgoing (sock fresh) ++ wire
      ∧ ∀ rest q, incoming (sock q) = wire ++ rest →
          let got := receive_file q in
          got.1 = (true, Some hi) ∧ incoming (sock got.2) = rest.
Proof. exact (file_round_trip hi fresh eq_refl eq_refl). Defined.

(** X15: when the stream ends before the whole file has come,
    [receive_file] answers [False]; if the eight bytes of the size had
    come, it leaves behind a file that holds the part received, and
    otherwise it has not opened the file. *)
Theorem receive_file_truncated size file_data j q :
  pack 8 (Z.of_nat (length file_data)) = Some size →
  (j < length (size ++ file_data))%nat →
  incoming (sock q) = take j (size ++ file_data) →
  let got := receive_file q in
  got.1 = (false, if decide (j < 8)%nat then None
                  else Some (take (j - 8) file_data))
  ∧ incoming (sock got.2) = [].
Proof.
  intros Hpack Hj Hin. cbn zeta. apply unpack_pack in Hpack as [Hlen H8].
  rewrite length_app, H8 in Hj. unfold receive_file.
  pose proof (recv_exact_result 8 (sock q)) as [Hlong Hshort].
  case_decide as Hj8.
  - destruct Hshort as (H1 & H2 & _).
    { rewrite Hin, length_take, length_app. lia. }
    destruct (_recv_exact 8 (sock q)) as [got s1]. cbn [fst snd] in H1, H2. by subst got.
  - destruct Hlong as (H1 & H2 & _).
    { rewrite Hin, length_take, length_app. lia. }
    destruct (_recv_exact 8 (sock q)) as [got s1]. cbn [fst snd] in H1, H2. subst got.
    assert (take j (size ++ file_data) = size ++ take (j - 8) file_data) as Hsplit.
    { rewrite take_app, H8. rewrite take_ge by lia. done. }
    rewrite Hin, Hsplit in H2 |- *.
    rewrite (take_app_length' size) by done.
    rewrite (drop_app_length' size) in H2 by done.
    rewrite Hlen, Nat2Z.id.
    destruct (receive_file_loop_short (length file_data) (length file_data) [] s1)
      as [Hres Hrest]; [cbn; lia | rewrite H2, length_take; cbn; lia |].
    destruct (receive_file_loop _ _ [] s1) as [[ok written] s2].
    cbn [fst snd app] in Hres, Hrest. injection Hres as -> ->.
    cbn [fst snd sock on_sock]. by rewrite H2.
Qed.

Lemma receive_file_truncated_witness :
  (receive_file (receiving (take 9 (big_endian 8 2 ++ hi)) [] [0%nat])).1
  = (false, Some (take 1 hi)).
Proof.
  assert (pack 8 (Z.of_nat (length hi)) = Some (big_endian 8 2)) as Hpack
    by (vm_compute; reflexivity).
  assert (9 < length (big_endian 8 2 ++ hi))%nat as Hj by (vm_compute; lia).
  assert (incoming (sock (receiving (take 9 (big_endian 8 2 ++ hi)) [] [0%nat]))
          = take 9 (big_endian 8 2 ++ hi)) as Hin by (vm_compute; reflexivity).
  destruct (receive_file_truncated (big_endian 8 2) hi 9
              (receiving (take 9 (big_endian 8 2 ++ hi)) [] [0%nat]) Hpack Hj Hin)
    as [Hres _].
  exact Hres.
Defined.

End WireLaws.
(** ** The games of the rooms *)

Module GameFacts.
Import Catalog Package Server Lobby LobbySpec LobbyWords PortFacts RoomFacts.

(** *** Lists *)

Section Lists.
Context {A B : Type} (f : A → option B).
Implicit Types (l : list A) (x : A).

Lemma omap_sublist l' l : l' `sublist_of` l → omap f l' `sublist_of` omap f l.
Proof.
  induction 1 as [|x l1 l2 _ IH|x l1 l2 _ IH]; cbn [omap list_omap]; [done | |].
  - destruct (f x); [by apply sublist_skip | done].
  - destruct (f x); [by apply sublist_cons | done].
Qed.

Lemma omap_insert_none l i x :
  f x = None → omap f (<[i:=x]> l) `sublist_of` omap f l.
Proof.
  intros Hx. revert i. induction l as [|a l IH]; intros [|i]; cbn; try done.
  - rewrite Hx. destruct (f a); [by apply sublist_cons | done].
  - destruct (f a); [apply sublist_skip |]; apply IH.
Qed.

Lemma omap_snoc_none l x : f x = None → omap f (l ++ [x]) = omap f l.
Proof. intros Hx. rewrite omap_app. cbn. rewrite Hx. apply app_nil_r. Qed.

Lemma elem_of_insert l i x y :
  y ∈ <[i:=x]> l → y = x ∨ ∃ j, j ≠ i ∧ l !! j = Some y.
Proof.
  intros [j Hj]%list_elem_of_lookup. destruct (decide (i = j)) as [->|Hne].
  - left. destruct (decide (j < length l)%nat).
    + rewrite list_lookup_insert_eq in Hj by done. congruence.
    + rewrite list_insert_ge in Hj by lia. apply lookup_lt_Some in Hj. lia.
  - right. rewrite list_lookup_insert_ne in Hj by done. exists j. split; [congruence | done].
Qed.

Lemma elem_of_delete l i y :
  y ∈ delete i l → ∃ j, j ≠ i ∧ l !! j = Some y.
Proof.
  intros [j Hj]%list_elem_of_lookup. destruct (decide (j < i)%nat).
  - rewrite list_lookup_delete_lt in Hj by done. exists j. split; [lia | done].
  - rewrite list_lookup_delete_ge in Hj by lia. exists (S j). split; [lia | done].
Qed.

Lemma omap_lookup_unique l i j x y b :
  NoDup (omap f l) → l !! i = Some x → l !! j = Some y →
  f x = Some b → f y = Some b → i = j.
Proof.
  revert i j. induction l as [|a l IH]; intros i j Hnd Hi Hj Hx Hy; [done |].
  assert (∀ k z, l !! k = Some z → f z = Some b → b ∈ omap f l) as Hin.
  { intros k z Hk Hz. apply list_elem_of_omap. exists z. split; [| done].
    by eapply list_elem_of_lookup_2. }
  cbn [omap list_omap] in Hnd. destruct i as [|i], j as [|j]; cbn in Hi, Hj.
  - done.
  - injection Hi as ->. rewrite Hx in Hnd. apply NoDup_cons in Hnd as [Hb _].
    destruct Hb. by eapply Hin.
  - injection Hj as ->. rewrite Hy in Hnd. apply NoDup_cons in Hnd as [Hb _].
    destruct Hb. by eapply Hin.
  - f_equal. apply IH; try done.
    destruct (f a); [by apply NoDup_cons in Hnd as [_ ?] | done].
Qed.

Lemma omap_insert_some l i x b :
  f x = Some b → b ∉ omap f l → NoDup (omap f l) → NoDup (omap f (<[i:=x]> l)).
Proof.
  intros Hx. revert i. induction l as [|a l IH]; intros [|i] Hb Hnd; cbn; try done.
  - rewrite Hx. cbn [omap list_omap] in Hb, Hnd. destruct (f a) as [c|].
    + apply NoDup_cons in Hnd as [_ Hnd]. apply not_elem_of_cons in Hb as [_ Hb].
      by apply NoDup_cons.
    + by apply NoDup_cons.
  - cbn [omap list_omap] in Hb, Hnd. destruct (f a) as [c|]; [| by apply IH].
    apply NoDup_cons in Hnd as [Hc Hnd]. apply not_elem_of_cons in Hb as [Hbc Hb].
    apply NoDup_cons. split; [| by apply IH].
    intros (z & Hz & Hfz)%list_elem_of_omap.
    apply elem_of_insert in Hz as [->|(j & _ & Hj)]; [congruence |].
    apply Hc, list_elem_of_omap. exists z. split; [| done].
    by eapply list_elem_of_lookup_2.
Qed.

End Lists.

(** *** What keeps the games in order *)

Lemma games_set_room i rid r L :
  games (set_room i rid r L) = <[i := game_of r]> (games L).
Proof. unfold games, set_room. cbn [rooms set_rooms]. by rewrite list_fmap_insert. Qed.

Lemma games_del_room i L : games (del_room i L) = delete i (games L).
Proof. unfold games, del_room. cbn [rooms set_rooms]. by rewrite list_fmap_delete. Qed.

Lemma games_lookup L i rid r :
  rooms L !! i = Some (rid, r) → games L !! i = Some (game_of r).
Proof. intros Hi. unfold games. by rewrite list_lookup_fmap, Hi. Qed.

(** The games that are left are games of before or idle, and those in a
    game have kept their child and their log. *)
Lemma games_ok_kept L L' :
  games_ok L →
  Forall (fun g => g = idle ∨ g ∈ games L) (games L') →
  omap process_of (games L') `sublist_of` omap process_of (games L) →
  omap log_of (games L') `sublist_of` omap log_of (games L) →
  (length (children L) ≤ length (children L'))%nat →
  (next_file L ≤ next_file L')%nat →
  (∀ g h, g ∈ games L' → log_of g = Some h → h ∈ open_files L → h ∈ open_files L') →
  (5000 ≤ next_game_port L' ≤ 5100)%Z →
  games_ok L'.
Proof.
  intros (Hall & Hpids & Hlogs & _) Hfrom Hsubp Hsubl Hch Hnf Hopen Hport.
  split; [| split; [| split]];
    [| exact (sublist_NoDup _ _ Hpids Hsubp) | exact (sublist_NoDup _ _ Hlogs Hsubl)
     | done].
  rewrite Forall_forall in Hall, Hfrom. apply Forall_forall. intros g Hg.
  destruct (Hfrom g Hg) as [->|Hold]; [by left |].
  destruct (Hall g Hold) as [->|(pid & port & log & -> & Hpid & Hp & Hlog & Hin)];
    [by left |].
  right. exists pid, port, log. split; [done |]. split; [lia |]. split; [done |].
  split; [lia |]. by apply (Hopen _ log Hg).
Qed.

(** The room at a position gets a new child, a port and a new log. *)
Lemma games_ok_started L L' i port :
  games_ok L →
  games L' = <[i := (in_game, Some (length (children L)), Some port, Some (next_file L))]>
               (games L) →
  length (children L') = S (length (children L)) →
  next_file L' = S (next_file L) →
  open_files L' = open_files L ++ [next_file L] →
  (5000 ≤ port ≤ 5099)%Z →
  (5000 ≤ next_game_port L' ≤ 5100)%Z →
  games_ok L'.
Proof.
  intros (Hall & Hpids & Hlogs & _) Hgames Hch Hnf Hopen Hp Hport.
  rewrite Forall_forall in Hall.
  assert (∀ g pid, g ∈ games L → process_of g = Some pid →
            (pid < length (children L))%nat) as Hold_pid.
  { intros g pid Hg Hpid.
    destruct (Hall g Hg) as [->|(pid' & ? & ? & -> & ? & _)]; [done |].
    cbn in Hpid. congruence. }
  assert (∀ g h, g ∈ games L → log_of g = Some h →
            (h < next_file L)%nat) as Hold_log.
  { intros g h Hg Hh.
    destruct (Hall g Hg) as [->|(? & ? & h' & -> & ? & ? & ? & _)]; [done |].
    cbn in Hh. congruence. }
  split; [| split; [| split]]; [| | | done].
  - rewrite Hgames. apply Forall_forall. intros g Hg.
    apply elem_of_insert in Hg as [->|(j & _ & Hj)].
    + right. eexists _, _, _. split; [done |]. rewrite Hch, Hnf, Hopen.
      split; [lia |]. split; [done |]. split; [lia |].
      apply elem_of_app. right. by left.
    + apply list_elem_of_lookup_2 in Hj.
      destruct (Hall g Hj) as [->|(pid & p & log & -> & ? & ? & ? & ?)]; [by left |].
      right. exists pid, p, log. rewrite Hch, Hnf, Hopen.
      split; [done |]. split; [lia |]. split; [done |]. split; [lia |].
      apply elem_of_app. by left.
  - rewrite Hgames. eapply omap_insert_some; [done | | done].
    intros (g & Hg & Hpid)%list_elem_of_omap. specialize (Hold_pid g _ Hg Hpid). lia.
  - rewrite Hgames. eapply omap_insert_some; [done | | done].
    intros (g & Hg & Hh)%list_elem_of_omap. specialize (Hold_log g _ Hg Hh). lia.
Qed.

Lemma Forall_kept_same (gs : list game) : Forall (fun g => g = idle ∨ g ∈ gs) gs.
Proof. apply Forall_forall. intros g Hg. by right. Qed.

Lemma Forall_kept_sublist (gs' gs : list game) :
  gs' `sublist_of` gs → Forall (fun g => g = idle ∨ g ∈ gs) gs'.
Proof. intros Hsub. apply Forall_forall. intros g Hg. right. by eapply elem_of_sublist. Qed.

Lemma Forall_kept_insert (gs : list game) i :
  Forall (fun g => g = idle ∨ g ∈ gs) (<[i := idle]> gs).
Proof.
  apply Forall_forall. intros g [->|(j & _ & Hj)]%elem_of_insert; [by left |].
  right. by eapply list_elem_of_lookup_2.
Qed.

(** Nothing but the Lobby's other fields has changed. *)
Lemma games_ok_same L L' :
  games_ok L →
  games L' = games L →
  length (children L') = length (children L) →
  next_file L' = next_file L →
  open_files L' = open_files L →
  next_game_port L' = next_game_port L →
  games_ok L'.
Proof.
  intros Hok Hg Hch Hnf Hopen Hport.
  apply (games_ok_kept L L' Hok); rewrite ?Hg, ?Hch, ?Hnf, ?Hopen, ?Hport;
    try done; [apply Forall_kept_same | apply Hok].
Qed.

(** Some rooms have gone. *)
Lemma games_ok_fewer L L' :
  games_ok L →
  games L' `sublist_of` games L →
  length (children L') = length (children L) →
  next_file L' = next_file L →
  open_files L' = open_files L →
  next_game_port L' = next_game_port L →
  games_ok L'.
Proof.
  intros Hok Hg Hch Hnf Hopen Hport.
  apply (games_ok_kept L L' Hok); rewrite ?Hch, ?Hnf, ?Hopen, ?Hport; try done.
  - by apply Forall_kept_sublist.
  - by apply omap_sublist.
  - by apply omap_sublist.
  - apply Hok.
Qed.

(** The log that a room is about to give up is the log of no other room. *)
Lemma closing_keeps_others L i g g' h h' :
  NoDup (omap log_of (games L)) →
  games L !! i = Some g → log_of g = Some h →
  (∃ j, j ≠ i ∧ games L !! j = Some g') → log_of g' = Some h' →
  h' ≠ h.
Proof.
  intros Hnd Hi Hh (j & Hne & Hj) Hh' ->.
  apply Hne. by eapply (omap_lookup_unique log_of (games L) j i g' g h).
Qed.

(** The room at a position goes back to waiting and its log is closed. *)
Lemma games_ok_reset L L' i rid r :
  games_ok L →
  rooms L !! i = Some (rid, r) →
  games L' = <[i := idle]> (games L) →
  length (children L') = length (children L) →
  next_file L' = next_file L →
  open_files L' = open_files (close_log r L) →
  next_game_port L' = next_game_port L →
  games_ok L'.
Proof.
  intros Hok Hi Hg Hch Hnf Hopen Hport. apply games_lookup in Hi.
  apply (games_ok_kept L L' Hok); rewrite ?Hg, ?Hch, ?Hnf, ?Hport; try done.
  - apply Forall_kept_insert.
  - by apply omap_insert_none.
  - by apply omap_insert_none.
  - intros g h Hin Hh Hopen_h. rewrite Hopen. unfold close_log.
    destruct (game_log_file r) as [h0|] eqn:Hr; [| done].
    cbn [open_files close_file]. apply list_elem_of_filter. split; [| done].
    apply elem_of_insert in Hin as [->|Hother]; [done |].
    eapply (closing_keeps_others L i (game_of r) g h0 h); try done. apply Hok.
  - apply Hok.
Qed.

(** The room at a position is deleted and its log is closed. *)
Lemma games_ok_deleted L L' i rid r :
  games_ok L →
  rooms L !! i = Some (rid, r) →
  games L' = delete i (games L) →
  length (children L') = length (children L) →
  next_file L' = next_file L →
  open_files L' = open_files (close_log r L) →
  next_game_port L' = next_game_port L →
  games_ok L'.
Proof.
  intros Hok Hi Hg Hch Hnf Hopen Hport. apply games_lookup in Hi.
  apply (games_ok_kept L L' Hok); rewrite ?Hg, ?Hch, ?Hnf, ?Hport; try done.
  - apply Forall_kept_sublist, sublist_delete.
  - apply omap_sublist, sublist_delete.
  - apply omap_sublist, sublist_delete.
  - intros g h Hin Hh Hopen_h. rewrite Hopen. unfold close_log.
    destruct (game_log_file r) as [h0|] eqn:Hr; [| done].
    cbn [open_files close_file]. apply list_elem_of_filter. split; [| done].
    apply elem_of_delete in Hin.
    eapply (closing_keeps_others L i (game_of r) g h0 h); try done. apply Hok.
  - apply Hok.
Qed.

(** *** The handlers *)

Lemma terminated_frame killed : ∀ L,
  let L' := foldl (fun L' pid => terminate pid L') L killed in
  rooms L' = rooms L ∧ children L' = children L ∧ next_file L' = next_file L
  ∧ open_files L' = open_files L ∧ next_game_port L' = next_game_port L.
Proof.
  induction killed as [|pid killed IH]; intros L; cbn zeta; cbn [foldl]; [done |].
  destruct (IH (terminate pid L)) as (-> & -> & -> & -> & ->). done.
Qed.

Lemma remove_user_games ss uid rs :
  (fun kr : string * room => game_of kr.2) <$> (remove_user_from_rooms ss uid rs).1
  `sublist_of` (fun kr : string * room => game_of kr.2) <$> rs.
Proof.
  induction rs as [|[rid r] rs IH]; [done |]. cbn [remove_user_from_rooms].
  destruct (remove_user_from_rooms ss uid rs) as [rest killed'].
  cbn [fst] in IH.
  assert (∀ r1 k, remove_user_from_room ss uid r = (Some r1, k) →
            game_of r1 = game_of r) as Hsame.
  { unfold remove_user_from_room. intros r1 k.
    destruct (bool_decide (uid ∈ players r)); [| by intros [= <- _]].
    destruct (remove_first uid (players r)) as [|p0 ps]; [done |].
    destruct (bool_decide (uid = host_id r)); [| by intros [= <- _]].
    destruct (ss !! p0); by intros [= <- _]. }
  destruct (remove_user_from_room ss uid r) as [[r1|] killed] eqn:Hr; cbn [fst].
  - rewrite !fmap_cons. cbn [snd]. rewrite (Hsame r1 killed eq_refl).
    by apply sublist_skip.
  - rewrite fmap_cons. by apply sublist_cons.
Qed.

Lemma remove_user_games_ok uid L :
  games_ok L → games_ok (_remove_user_from_all_rooms uid L).
Proof.
  intros Hok. unfold _remove_user_from_all_rooms.
  pose proof (remove_user_games (sessions L) uid (rooms L)) as Hsub.
  destruct (remove_user_from_rooms (sessions L) uid (rooms L)) as [rs killed].
  cbn [fst] in Hsub.
  destruct (terminated_frame killed (set_rooms rs L)) as (Hr & Hc & Hn & Ho & Hp).
  apply (games_ok_fewer L); try done.
  - unfold games. by rewrite Hr.
  - by rewrite Hc.
Qed.

Lemma cleanup_session_games_ok s L :
  games_ok L → games_ok (_cleanup_session s L).
Proof.
  intros Hok. unfold _cleanup_session. apply remove_user_games_ok.
  by apply (games_ok_same L).
Qed.

Lemma close_log_frame r L :
  rooms (close_log r L) = rooms L ∧ children (close_log r L) = children L
  ∧ next_file (close_log r L) = next_file L
  ∧ next_game_port (close_log r L) = next_game_port L.
Proof. unfold close_log. by destruct (game_log_file r). Qed.

Lemma terminate_game_frame r L :
  rooms (terminate_game r L) = rooms L ∧ children (terminate_game r L) = children L
  ∧ next_file (terminate_game r L) = next_file L
  ∧ open_files (terminate_game r L) = open_files L
  ∧ next_game_port (terminate_game r L) = next_game_port L.
Proof. unfold terminate_game. by destruct (game_process r). Qed.

Lemma open_files_close_log r L L1 :
  open_files L1 = open_files L → open_files (close_log r L1) = open_files (close_log r L).
Proof. intros Ho. unfold close_log. destruct (game_log_file r); [| done]. cbn. by rewrite Ho. Qed.

(** A room changes in place and keeps its game. *)
Lemma games_ok_set_same i rid r r' L :
  games_ok L → rooms L !! i = Some (rid, r) → game_of r' = game_of r →
  games_ok (set_room i rid r' L).
Proof.
  intros Hok Hi Hg. apply (games_ok_same L); try done.
  rewrite games_set_room, Hg. apply list_insert_id. by eapply games_lookup.
Qed.

(** The room at a position is reset after its log has been closed, by a
    Lobby that differs in the children it has terminated. *)
Lemma games_ok_reset_room i rid r r0 r' L L1 :
  games_ok L → rooms L !! i = Some (rid, r) →
  game_log_file r0 = game_log_file r → game_of r' = idle →
  rooms L1 = rooms L → children L1 = children L → next_file L1 = next_file L →
  open_files L1 = open_files L → next_game_port L1 = next_game_port L →
  games_ok (set_room i rid r' (close_log r0 L1)).
Proof.
  intros Hok Hi Hlog Hg Hr Hc Hn Ho Hp.
  assert (close_log r0 L1 = close_log r L1) as -> by (unfold close_log; by rewrite Hlog).
  destruct (close_log_frame r L1) as (Hr' & Hc' & Hn' & Hp').
  apply (games_ok_reset L _ i rid r); try done.
  - rewrite games_set_room, Hg. unfold games. by rewrite Hr', Hr.
  - cbn. by rewrite Hc', Hc.
  - cbn. by rewrite Hn'.
  - cbn. by apply open_files_close_log.
  - cbn. by rewrite Hp'.
Qed.

Lemma leave_room_games_ok e s L :
  games_ok L → games_ok (_handle_leave_room e s L).1.
Proof.
  intros Hok. unfold _handle_leave_room.
  destruct (room_of (user_id s) (rooms L)) as [[i [rid r]]|] eqn:Hroom; [| done].
  apply room_of_lookup in Hroom as [Hi _].
  destruct (remove_first (user_id s) (players r)) as [|p0 ps].
  - cbn [fst].
    destruct (terminate_game_frame r L) as (Hr & Hc & Hn & Ho & Hp).
    destruct (close_log_frame r (terminate_game r L)) as (Hr' & Hc' & Hn' & Hp').
    apply (games_ok_deleted L _ i rid r); try done.
    + rewrite games_del_room. unfold games. by rewrite Hr', Hr.
    + cbn. by rewrite Hc', Hc.
    + cbn. by rewrite Hn'.
    + cbn. by apply open_files_close_log.
    + cbn. by rewrite Hp'.
  - destruct (bool_decide (user_id s = host_id r)).
    + destruct (sessions L !! p0) as [se|]; cbn [fst].
      * destruct (_ && _); cbn [fst].
        -- by apply (games_ok_reset_room i rid r _ _ L L).
        -- by apply (games_ok_set_same i rid r).
      * by apply (games_ok_set_same i rid r).
    + cbn [fst]. by apply (games_ok_set_same i rid r).
Qed.

Lemma check_game_status_games_ok cfg e s L :
  games_ok L → games_ok (_handle_check_game_status cfg e s L).1.
Proof.
  intros Hok. unfold _handle_check_game_status.
  destruct (room_of (user_id s) (rooms L)) as [[i [rid r]]|] eqn:Hroom; [| done].
  apply room_of_lookup in Hroom as [Hi _].
  destruct (status r); [done |].
  destruct (process_ended e r); [| done]. cbn [fst].
  by apply (games_ok_reset_room i rid r r _ L L).
Qed.

Lemma end_game_games_ok e s L :
  games_ok L → games_ok (_handle_end_game e s L).1.
Proof.
  intros Hok. unfold _handle_end_game.
  destruct (room_of (user_id s) (rooms L)) as [[i [rid r]]|] eqn:Hroom; [| done].
  apply room_of_lookup in Hroom as [Hi _].
  destruct (status r); [done |]. cbn [fst].
  destruct (game_process r) as [pid|];
    [destruct (poll e pid 0) |]; by apply (games_ok_reset_room i rid r r _ L).
Qed.

Lemma dict_set_place {V} (k : string) (v : V) (rs : list (string * V)) :
  dict_set k v rs = rs ++ [(k, v)] ∨ ∃ i, dict_set k v rs = <[i := (k, v)]> rs.
Proof.
  induction rs as [|[k0 v0] rs IH]; [by left |]. cbn [dict_set].
  destruct (decide (k = k0)) as [->|Hne].
  - right. by exists 0%nat.
  - destruct IH as [->|[i ->]]; [by left |]. right. by exists (S i).
Qed.

Lemma dict_set_present {V} (k : string) (v v' : V) (rs : list (string * V)) :
  dict_get k rs = Some v →
  ∃ i, rs !! i = Some (k, v) ∧ dict_set k v' rs = <[i := (k, v')]> rs.
Proof.
  induction rs as [|[k0 v0] rs IH]; [done |]. cbn [dict_get dict_set].
  destruct (decide (k = k0)) as [->|Hne].
  - intros [= ->]. by exists 0%nat.
  - intros Hget. destruct (IH Hget) as (i & Hi & ->). by exists (S i).
Qed.

(** A room that waits is put in, in the place of the room of that id or
    after the others. *)
Lemma games_ok_new_room rid r L :
  games_ok L → game_of r = idle → games_ok (set_rooms (dict_set rid r (rooms L)) L).
Proof.
  intros Hok Hg.
  apply (games_ok_kept L _ Hok); cbn [children next_file open_files next_game_port set_rooms];
    try done; try apply Hok; unfold games; cbn [rooms set_rooms];
    destruct (dict_set_place rid r (rooms L)) as [->|[i ->]].
  - rewrite fmap_app. apply Forall_app. split; [apply Forall_kept_same |].
    cbn. rewrite Hg. repeat constructor.
  - rewrite list_fmap_insert. cbn [snd]. rewrite Hg. apply Forall_kept_insert.
  - rewrite fmap_app. cbn. by rewrite omap_snoc_none by by rewrite Hg.
  - rewrite list_fmap_insert. cbn [snd]. apply omap_insert_none. by rewrite Hg.
  - rewrite fmap_app. cbn. by rewrite omap_snoc_none by by rewrite Hg.
  - rewrite list_fmap_insert. cbn [snd]. apply omap_insert_none. by rewrite Hg.
Qed.

Lemma create_room_games_ok e s request L :
  games_ok L → games_ok (_handle_create_room e s request L).1.
Proof.
  intros Hok. unfold _handle_create_room.
  destruct (request !! "game_name") as [game_name|]; [| done].
  destruct (negb (truthy game_name)); [done |].
  pose proof (remove_user_games_ok (user_id s) L Hok) as Hok1.
  destruct (_db_request _ _ _ _).2 as [| |game| |msg]; try exact Hok1.
  destruct (game !! "_id") as [gid|]; [| exact Hok1].
  destruct (game !! "latest_version") as [latest|]; [| exact Hok1].
  destruct (game !! "max_players") as [maxp|]; [| exact Hok1].
  cbn [fst]. by apply games_ok_new_room.
Qed.

Lemma join_room_games_ok s request L :
  games_ok L → games_ok (_handle_join_room s request L).1.
Proof.
  intros Hok. unfold _handle_join_room.
  destruct (request !! "room_id") as [room_id|]; [| done].
  destruct (negb (truthy room_id)); [done |].
  pose proof (remove_user_games_ok (user_id s) L Hok) as Hok1.
  set (L1 := _remove_user_from_all_rooms (user_id s) L) in *.
  destruct (lookup_room room_id (rooms L1)) as [[rid r]|] eqn:Hlook; [| exact Hok1].
  destruct (bool_decide (status r ≠ waiting)); [exact Hok1 |].
  destruct (max_players r) as [|m|]; try exact Hok1.
  destruct (m <=? _)%Z; [exact Hok1 |].
  destruct (bool_decide (user_id s ∈ players r)); [exact Hok1 |]. cbn [fst].
  unfold lookup_room in Hlook. destruct room_id as [| |rid']; try done.
  destruct (dict_get rid' (rooms L1)) as [r'|] eqn:Hget; [| done].
  injection Hlook as <- <-.
  destruct (dict_set_present rid' r' (set_players (players r' ++ [user_id s]) r')
              (rooms L1) Hget) as (i & Hi & ->).
  by apply (games_ok_set_same i rid' r').
Qed.

Lemma games_ok_port L L' :
  games_ok L →
  games L' = games L →
  length (children L') = length (children L) →
  next_file L' = next_file L →
  open_files L' = open_files L →
  (5000 ≤ next_game_port L' ≤ 5100)%Z →
  games_ok L'.
Proof.
  intros Hok Hg Hch Hnf Hopen Hport.
  apply (games_ok_kept L L' Hok); rewrite ?Hg, ?Hch, ?Hnf, ?Hopen;
    try done; apply Forall_kept_same.
Qed.

Lemma games_log_bound L g h :
  games_ok L → g ∈ games L → log_of g = Some h → (h < next_file L)%nat.
Proof.
  intros (Hall & _) Hg Hh. rewrite Forall_forall in Hall.
  destruct (Hall g Hg) as [->|(? & ? & h' & -> & ? & ? & ? & _)]; [done |].
  cbn in Hh. congruence.
Qed.

Lemma launch_game_games_ok cfg e i rid r game_dir game_info L :
  games_ok L → rooms L !! i = Some (rid, r) → game_of r = idle →
  games_ok (launch_game cfg e i rid r game_dir game_info L).1.
Proof.
  intros Hok Hi Hidle. unfold launch_game.
  pose proof (find_available_port_result (can_bind e) L) as Hfind.
  assert (5000 ≤ next_game_port L ≤ 5100)%Z as Hcur by apply Hok.
  destruct (_find_available_port (can_bind e) L) as [[port|] L1].
  - destruct Hfind as (Hport & _ & _ & ->).
    assert (games_ok (set_next_game_port (port + 1) L)) as Hok1.
    { apply (games_ok_port L); try done. cbn. lia. }
    destruct (server game_info) as [server_config|]; [| exact Hok1].
    destruct (entry_point server_config) as [entry|]; [| exact Hok1].
    destruct (launched e) as [msg|msg|exit_code|]; cbn [fst open_log popen].
    + exact Hok1.
    + apply (games_ok_kept L _ Hok); try done; try (cbn; lia).
      * apply Forall_kept_same.
      * intros g h _ _ Hin. cbn. apply elem_of_app. by left.
    + match goal with |- games_ok ?X => set (L' := X) end.
      assert (game_of (reset_crashed r) = idle) as Hcrashed.
      { unfold game_of in *. cbn. by injection Hidle as _ _ _ ->. }
      assert (games L' = <[i := idle]> (games L)) as Hg
        by (unfold L'; rewrite games_set_room, Hcrashed; reflexivity).
      assert (length (children L') = S (length (children L))) as Hch
        by (cbn; rewrite length_app; cbn; lia).
      assert (next_file L' = S (next_file L)) as Hnf by reflexivity.
      assert (open_files L'
              = filter (fun h => h ≠ next_file L) (open_files L ++ [next_file L]))
        as Hopen by reflexivity.
      assert (next_game_port L' = (port + 1)%Z) as Hp by reflexivity.
      clearbody L'.
      apply (games_ok_kept L _ Hok); rewrite ?Hg, ?Hch, ?Hnf, ?Hp; try lia.
      * apply Forall_kept_insert.
      * by apply omap_insert_none.
      * by apply omap_insert_none.
      * intros g h Hin Hh Hold. rewrite Hopen. apply list_elem_of_filter. split.
        -- apply elem_of_insert in Hin as [->|(j & _ & Hj)]; [done |].
           apply list_elem_of_lookup_2 in Hj.
           pose proof (games_log_bound L g h Hok Hj Hh). lia.
        -- apply elem_of_app. by left.
    + apply (games_ok_started L _ i port Hok); try done; try (cbn; lia).
      * by rewrite games_set_room.
      * cbn. rewrite length_app. cbn. lia.
  - destruct Hfind as (_ & ->). cbn [fst]. by apply (games_ok_port L).
Qed.

Lemma fetch_and_launch_games_ok cfg e i rid r L :
  games_ok L → rooms L !! i = Some (rid, r) → game_of r = idle →
  games_ok (fetch_and_launch cfg e i rid r L).1.
Proof.
  intros Hok Hi Hidle. unfold fetch_and_launch.
  destruct (_db_request (link e 0) _ _ _).2 as [| |game| |msg]; try exact Hok.
  destruct (game !! "latest_version") as [latest|]; [| exact Hok].
  assert (games_ok (set_room i rid (set_version latest r) L)) as Hset
    by by apply (games_ok_set_same i rid r).
  destruct (_db_request (link e 1) _ _ _).2 as [| |release| |msg]; try exact Hset.
  destruct (release !! "file_path") as [[| |file_path]|]; try exact Hset.
  destruct (read_file _ _ _) as [text|]; [| exact Hset].
  destruct (json_load cfg text) as [game_info|]; [| exact Hset].
  apply launch_game_games_ok; [exact Hset | | done].
  cbn [rooms set_room set_rooms]. apply list_lookup_insert_eq.
  by eapply lookup_lt_Some.
Qed.

Lemma waiting_is_idle L i rid r :
  games_ok L → rooms L !! i = Some (rid, r) → status r = waiting → game_of r = idle.
Proof.
  intros (Hall & _) Hi Hst. rewrite Forall_forall in Hall.
  apply games_lookup, list_elem_of_lookup_2 in Hi.
  destruct (Hall _ Hi) as [Hidle|(? & ? & ? & Hg & _)]; [done |].
  unfold game_of in Hg. congruence.
Qed.

Lemma start_game_games_ok cfg e s L :
  games_ok L → games_ok (_handle_start_game cfg e s L).1.
Proof.
  intros Hok. unfold _handle_start_game.
  destruct (room_of (user_id s) (rooms L)) as [[i [rid r]]|] eqn:Hroom; [| done].
  apply room_of_lookup in Hroom as [Hi _].
  destruct (bool_decide (host_id r ≠ user_id s)); [done |].
  destruct (status r) eqn:Hst.
  - apply fetch_and_launch_games_ok; [done | done |]. by eapply waiting_is_idle.
  - destruct (process_ended_retry e r); [| done].
    apply fetch_and_launch_games_ok; [| | done].
    + by apply (games_ok_reset_room i rid r r _ L L).
    + cbn [rooms set_room set_rooms]. apply list_lookup_insert_eq.
      destruct (close_log_frame r L) as (-> & _). by eapply lookup_lt_Some.
Qed.

Lemma perform_games_ok cfg e s o L :
  games_ok L → games_ok (perform cfg e s o L).
Proof.
  intros Hok. destruct o; cbn [perform].
  - by apply create_room_games_ok.
  - by apply join_room_games_ok.
  - by apply leave_room_games_ok.
  - by apply start_game_games_ok.
  - by apply check_game_status_games_ok.
  - by apply end_game_games_ok.
  - by apply cleanup_session_games_ok.
Qed.

Lemma login_games_ok cfg e conn s request L :
  games_ok L → games_ok (_handle_login cfg e conn s request L).1.1.
Proof.
  intros Hok. unfold _handle_login.
  destruct (get_stripped request "username") as [name|]; [| done].
  destruct (get_stripped request "password") as [pw|]; [| done].
  destruct (_ || _); [done |].
  destruct (_db_request (link e 0) _ _ _).2 as [| |user| |msg]; try done.
  destruct (user !! "password_hash") as [h|]; [| done].
  destruct (bool_decide (h ≠ _)); [done |].
  destruct (user !! "_id") as [uid|]; [| done].
  destruct (bool_decide (is_Some _)); [done |].
  destruct (user !! "username"); [| done]. cbn [fst].
  by apply (games_ok_same L).
Qed.

Lemma process_request_games_ok cfg e conn s request L :
  games_ok L → games_ok (lobby_after (_process_request cfg e conn s request L)).
Proof.
  intros Hok. unfold _process_request.
  repeat match goal with
         | |- context [if bool_decide ?P then _ else _] =>
             destruct (bool_decide P)
         | |- context [if negb ?b then _ else _] => destruct (negb b)
         end;
    try exact Hok.
  - pose proof (login_games_ok cfg e conn s request L Hok) as Hlogin.
    by destruct (_handle_login cfg e conn s request L) as [[L1 s1] r].
  - by destruct (_handle_download_game cfg e request).
  - by apply create_room_games_ok.
  - by apply join_room_games_ok.
  - by apply leave_room_games_ok.
  - by apply start_game_games_ok.
  - by apply check_game_status_games_ok.
  - by apply end_game_games_ok.
  - by apply cleanup_session_games_ok.
Qed.

Lemma finish_games_ok conn s L cs :
  games_ok L → games_ok (the_lobby (finish conn s L cs)).
Proof.
  intros Hok. unfold finish. cbn [the_lobby].
  destruct (logged_in s); [by apply cleanup_session_games_ok | done].
Qed.

Lemma handle_client_games_ok cfg w ev :
  games_ok (the_lobby w) → games_ok (the_lobby (_handle_client cfg w ev)).
Proof.
  intros Hok. destruct ev as [conn|conn request e|conn]; cbn [_handle_client].
  - by destruct (conns w !! conn).
  - destruct (conns w !! conn) as [s|]; [| done].
    destruct (bool_decide (request = ∅)); [by apply finish_games_ok |].
    pose proof (process_request_games_ok cfg e conn s request _ Hok) as Hafter.
    destruct (reply _); try done. by apply finish_games_ok.
  - destruct (conns w !! conn) as [s|]; [| done]. by apply finish_games_ok.
Qed.

Lemma init_games_ok : games_ok init.
Proof. split; [constructor | split; [constructor | split; [constructor | done]]]. Qed.

(** X16: in every state that the Lobby reaches, a room either waits,
    with no game process, no port and no log file, or is in a game, with
    a process that the Lobby has spawned, a port from 5000 to 5099 and a
    log file that is still open; no two rooms have the same process or
    the same log file, and the next port to try is from 5000 to 5100.
    Each operation on the rooms preserves this. *)
Theorem games_invariant cfg :
  (∀ e s o L, games_ok L → games_ok (perform cfg e s o L))
  ∧ ∀ evs, games_ok (the_lobby (run cfg evs)).
Proof.
  split; [apply perform_games_ok |].
  induction evs as [|ev evs IH] using rev_ind.
  - apply init_games_ok.
  - rewrite run_snoc. by apply handle_client_games_ok.
Qed.

End GameFacts.
(** ** Moving between rooms *)

Module SeatFacts.
Import Catalog Package Server Lobby LobbySpec LobbyWords RoomFacts.

(** X17: [join_room] and [create_room] take the user out of the room
    they are in before they look at the room or the game asked for: a
    request that names a room or a game and does not succeed (room not
    found, full or in a game, game not found, Catalog out of reach)
    leaves the user in no room at all. *)
Theorem refused_move_costs_the_seat e s request L target :
  rooms_ok (rooms L) →
  truthy target = true →
  (request !! "room_id" = Some target →
   ¬ succeeded (_handle_join_room s request L).2 →
   in_no_room (user_id s) (rooms (_handle_join_room s request L).1))
  ∧ (request !! "game_name" = Some target →
     ¬ succeeded (_handle_create_room e s request L).2 →
     in_no_room (user_id s) (rooms (_handle_create_room e s request L).1)).
Proof.
  intros Hok Htruthy.
  destruct (remove_user_rooms_ok (user_id s) L Hok) as [_ Hgone].
  split; intros Hreq.
  - unfold _handle_join_room. rewrite Hreq, Htruthy. cbn [negb].
    set (L1 := _remove_user_from_all_rooms (user_id s) L) in *.
    destruct (lookup_room target (rooms L1)) as [[rid r]|]; [| done].
    destruct (bool_decide (status r ≠ waiting)); [done |].
    destruct (max_players r) as [|m|]; try done.
    destruct (m <=? _)%Z; [done |].
    destruct (bool_decide (user_id s ∈ players r)); [done |].
    cbn [fst snd]. intros Hfail. destruct Hfail. by eexists.
  - unfold _handle_create_room. rewrite Hreq, Htruthy. cbn [negb].
    set (L1 := _remove_user_from_all_rooms (user_id s) L) in *.
    destruct (_db_request _ _ _ _).2 as [| |game| |msg]; try done.
    destruct (game !! "_id") as [gid|]; [| done].
    destruct (game !! "latest_version") as [latest|]; [| done].
    destruct (game !! "max_players") as [maxp|]; [| done].
    cbn [fst snd]. intros Hfail. destruct Hfail. by eexists.
Qed.

Lemma refused_move_costs_the_seat_witness :
  ¬ in_no_room (JStr "u-bob") (rooms bob_in_room)
  ∧ in_no_room (JStr "u-bob")
      (rooms (_handle_join_room Sample.bob (Sample.join_room "no-such-room")
                bob_in_room).1).
Proof.
  split.
  - intros Hno. apply (Hno ("3fa85f64", new_room "3fa85f64" (JStr "chat")
                              (JStr "g-chat") (JStr "1.0") (JNum 2) Sample.bob)).
    + vm_compute. left.
    + left.
  - assert (rooms_ok (rooms bob_in_room)) as Hok by apply run_rooms_ok.
    destruct (refused_move_costs_the_seat (Sample.quiet Sample.chat_1_0) Sample.bob
                (Sample.join_room "no-such-room") bob_in_room (JStr "no-such-room")
                Hok eq_refl) as [Hjoin _].
    apply Hjoin.
    + vm_compute. reflexivity.
    + intros (x & Hx & Hs). vm_compute in Hx. injection Hx as <-. vm_compute in Hs.
      discriminate.
Defined.

End SeatFacts.
(** ** Accounts *)

Module AccountFacts.
Import Catalog CatalogSpec Package Server Lobby LobbySpec LobbyWords RequestFacts CatalogFacts.

Lemma find_one_fails e st c q :
  success (Catalog._process_request e st (find_one_req (name_of_coll c) q)).2 = false →
  list_find (fun kd : jval * doc => _match_query kd.2 q = true)
            (get_coll c (collections st)) = None.
Proof.
  unfold Catalog._process_request, find_one_req. cbn [action collection data].
  rewrite coll_of_name_of_coll. simpl. unfold _handle_find_one, query_of. simpl.
  by destruct (list_find _ _) as [[i [k d]]|].
Qed.

Lemma list_find_dict_set (P : jval * doc → Prop) `{!∀ x, Decision (P x)} k x
    (cl : list (jval * doc)) :
  list_find P cl = None → P (k, x) →
  ∃ i, list_find P (dict_set k x cl) = Some (i, (k, x)).
Proof.
  intros Hnone Hx. induction cl as [|[k0 x0] cl IH].
  - exists 0%nat. cbn. by rewrite decide_True.
  - cbn [list_find] in Hnone. destruct (decide (P (k0, x0))); [done |].
    cbn [dict_set]. destruct (decide (k = k0)) as [->|Hne].
    + exists 0%nat. cbn [list_find]. by rewrite decide_True.
    + destruct IH as [i Hi]; [by destruct (list_find P cl) |].
      exists (S i). cbn [list_find]. rewrite decide_False by done.
      by rewrite Hi.
Qed.

Lemma find_one_finds e st c q i k d :
  list_find (fun kd : jval * doc => _match_query kd.2 q = true)
            (get_coll c (collections st)) = Some (i, (k, d)) →
  Catalog._process_request e st (find_one_req (name_of_coll c) q) = (st, DbResult d).
Proof.
  intros Hfind. unfold Catalog._process_request, find_one_req.
  cbn [action collection data]. rewrite coll_of_name_of_coll. simpl.
  unfold _handle_find_one, query_of. simpl. by rewrite Hfind.
Qed.

(** The record that [register] inserts for a player. *)
Lemma registered_matches name h id t :
  _match_query
    (<["created_at" := t]> (<["_id" := id]> (
       <["username" := JStr name]> (
       <["password_hash" := h]> (
       <["account_type" := JStr "player"]> ∅)))))
    (player_by_name name) = true.
Proof.
  apply match_query_intro. intros key v Hq. unfold player_by_name in Hq.
  rewrite !lookup_insert_Some, lookup_empty in Hq.
  destruct Hq as [[<- <-]|[? [[<- <-]|[? ?]]]]; [| | done].
  - rewrite !lookup_insert_ne by done. apply lookup_insert_eq.
  - rewrite !lookup_insert_ne by done. apply lookup_insert_eq.
Qed.

(** X18: an account that [register] has created can be used at once:
    when the Catalog answered the check of the name and the registration
    succeeded, a login with the same name and password against that
    Catalog succeeds and opens the session of the new user, and a second
    registration of the name is refused and changes nothing. *)
Theorem register_then_login cfg e e' conn s request L name pw :
  get_stripped request "username" = Some name →
  get_stripped request "password" = Some pw →
  link e 0 = LinkUp →
  succeeded (_handle_register cfg e request).2 →
  db e' = (_handle_register cfg e request).1 →
  link e' 0 = LinkUp →
  sessions L !! JStr (fresh_id (dbe e 1)) = None →
  let uid := JStr (fresh_id (dbe e 1)) in
  _handle_login cfg e' conn s request L
  = (set_sessions (<[uid := {| entry_username := name; protocol := conn |}]>
                     (sessions L)) L,
     {| logged_in := true; user_id := uid; username := JStr name |},
     Reply (ok_message ("Welcome " +:+ name +:+ "!")))
  ∧ _handle_register cfg e' request
    = (db e', Reply (failure "Username already exists")).
Proof.
  intros Hname Hpw Hlink Hsucc Hdb Hlink' Hfree. cbn zeta.
  unfold _handle_register in Hsucc, Hdb. rewrite Hname, Hpw in Hsucc, Hdb.
  destruct (bool_decide (name = EmptyString) || bool_decide (pw = EmptyString))
    eqn:Hempty.
  { destruct Hsucc as (x & [= <-] & Hx). discriminate. }
  rewrite Hlink in Hsucc, Hdb. unfold _db_request at 1 in Hsucc.
  unfold _db_request at 1 in Hdb.
  destruct (success (Catalog._process_request (dbe e 0) (db e)
              (find_one_req "User" (player_by_name name))).2) eqn:Hcheck.
  { destruct Hsucc as (x & [= <-] & Hx). discriminate. }
  apply (find_one_fails (dbe e 0) (db e) User) in Hcheck.
  destruct (link e 1) as [|msg] eqn:Hlink1.
  2:{ cbn in Hsucc. destruct Hsucc as (x & [= <-] & Hx). discriminate. }
  clear Hsucc. unfold _db_request in Hdb.
  unfold Catalog._process_request, insert_req in Hdb.
  cbn [action collection data] in Hdb.
  change (coll_of_name "User") with (Some User) in Hdb.
  cbn [bool_decide decide_rel default from_option body] in Hdb.
  revert Hdb.
  set (body := <["username" := JStr name]> (
               <["password_hash" := JStr (hash_password cfg pw)]> (
               <["account_type" := JStr "player"]> ∅))).
  assert (body !! "_id" = None) as Hnoid.
  { subst body. by rewrite !lookup_insert_ne, lookup_empty by done. }
  simpl. unfold _handle_insert. rewrite Hnoid. cbv zeta. cbn [fst snd success].
  set (uid := JStr (fresh_id (dbe e 1))).
  set (x := <["created_at" := JStr (now (dbe e 1))]> (<["_id" := uid]> body)).
  intros Hdb.
  assert (∃ i, list_find (fun kd : jval * doc =>
                            _match_query kd.2 (player_by_name name) = true)
                 (get_coll User (collections (db e'))) = Some (i, (uid, x)))
    as [i Hfound].
  { rewrite Hdb, collections_save. cbn [collections with_coll].
    rewrite get_set_coll. apply list_find_dict_set; [exact Hcheck |].
    apply registered_matches. }
  pose proof (find_one_finds (dbe e' 0) (db e') User _ _ _ _ Hfound) as Hfind.
  cbn [name_of_coll] in Hfind.
  split.
  - unfold _handle_login. rewrite Hname, Hpw, Hempty, Hlink'.
    unfold _db_request. rewrite Hfind. cbn [snd].
    assert (x !! "password_hash" = Some (JStr (hash_password cfg pw))) as ->.
    { subst x body. rewrite !lookup_insert_ne by done. apply lookup_insert_eq. }
    rewrite bool_decide_eq_false_2 by (intros Hne; by apply Hne).
    assert (x !! "_id" = Some uid) as ->.
    { subst x. rewrite lookup_insert_ne by done. apply lookup_insert_eq. }
    change (sessions L !! uid = None) in Hfree. rewrite Hfree.
    rewrite bool_decide_eq_false_2 by (by intros [? ?]).
    assert (x !! "username" = Some (JStr name)) as ->.
    { subst x body. rewrite !lookup_insert_ne by done. apply lookup_insert_eq. }
    done.
  - unfold _handle_register. rewrite Hname, Hpw, Hempty, Hlink'.
    unfold _db_request. by rewrite Hfind.
Qed.

Lemma register_then_login_witness :
  let e := Sample.quiet Sample.players_only in
  let e' := Sample.quiet (_handle_register Sample.cfg e dave).1 in
  (_handle_login Sample.cfg e' 7 new_session dave init).2
  = Reply (ok_message "Welcome dave!").
Proof.
  cbn zeta.
  set (e := Sample.quiet Sample.players_only).
  set (e' := Sample.quiet (_handle_register Sample.cfg e dave).1).
  assert (get_stripped dave "username" = Some "dave") as Hname
    by (vm_compute; reflexivity).
  assert (get_stripped dave "password" = Some "correct horse") as Hpw
    by (vm_compute; reflexivity).
  assert (succeeded (_handle_register Sample.cfg e dave).2) as Hsucc.
  { eexists. split; vm_compute; reflexivity. }
  assert (sessions init !! JStr (fresh_id (dbe e 1)) = None) as Hfree
    by apply lookup_empty.
  destruct (register_then_login Sample.cfg e e' 7 new_session dave init
              "dave" "correct horse" Hname Hpw eq_refl Hsucc eq_refl eq_refl Hfree)
    as [Hlogin _].
  rewrite Hlogin. reflexivity.
Defined.

End AccountFacts.
(** ** The children of the Lobby *)

Module ChildFacts.
Import Catalog Package Server Lobby LobbySpec LobbyWords RoomFacts GameFacts.

Lemma children_remove_user uid L :
  children (_remove_user_from_all_rooms uid L) = children L.
Proof.
  unfold _remove_user_from_all_rooms.
  destruct (remove_user_from_rooms (sessions L) uid (rooms L)) as [rs killed].
  by destruct (terminated_frame killed (set_rooms rs L)) as (_ & -> & _).
Qed.

Lemma children_close_log r L : children (close_log r L) = children L.
Proof. by destruct (close_log_frame r L) as (_ & -> & _). Qed.

Lemma children_terminate_game r L : children (terminate_game r L) = children L.
Proof. by destruct (terminate_game_frame r L) as (_ & -> & _). Qed.

Lemma children_create_room e s request L :
  children (_handle_create_room e s request L).1 = children L.
Proof.
  unfold _handle_create_room.
  destruct (request !! "game_name") as [game_name|]; [| done].
  destruct (negb (truthy game_name)); [done |].
  pose proof (children_remove_user (user_id s) L) as Hsame.
  destruct (_db_request _ _ _ _).2 as [| |game| |msg]; try exact Hsame.
  destruct (game !! "_id") as [gid|]; [| exact Hsame].
  destruct (game !! "latest_version") as [latest|]; [| exact Hsame].
  destruct (game !! "max_players") as [maxp|]; exact Hsame.
Qed.

Lemma children_join_room s request L :
  children (_handle_join_room s request L).1 = children L.
Proof.
  unfold _handle_join_room.
  destruct (request !! "room_id") as [room_id|]; [| done].
  destruct (negb (truthy room_id)); [done |].
  pose proof (children_remove_user (user_id s) L) as Hsame.
  destruct (lookup_room room_id _) as [[rid r]|]; [| exact Hsame].
  destruct (bool_decide (status r ≠ waiting)); [exact Hsame |].
  destruct (max_players r) as [|m|]; try exact Hsame.
  destruct (m <=? _)%Z; [exact Hsame |].
  destruct (bool_decide (user_id s ∈ players r)); exact Hsame.
Qed.

Lemma children_leave_room e s L :
  children (_handle_leave_room e s L).1 = children L.
Proof.
  unfold _handle_leave_room.
  destruct (room_of (user_id s) (rooms L)) as [[i [rid r]]|]; [| done].
  destruct (remove_first (user_id s) (players r)) as [|p0 ps].
  - cbn. by rewrite children_close_log, children_terminate_game.
  - destruct (bool_decide (user_id s = host_id r)); [| done].
    destruct (sessions L !! p0) as [se|]; [| done].
    destruct (_ && _); [| done]. cbn. by rewrite children_close_log.
Qed.

Lemma children_check_game_status cfg e s L :
  children (_handle_check_game_status cfg e s L).1 = children L.
Proof.
  unfold _handle_check_game_status.
  destruct (room_of (user_id s) (rooms L)) as [[i [rid r]]|]; [| done].
  destruct (status r); [done |].
  destruct (process_ended e r); [| done]. cbn. by rewrite children_close_log.
Qed.

Lemma children_end_game e s L :
  children (_handle_end_game e s L).1 = children L.
Proof.
  unfold _handle_end_game.
  destruct (room_of (user_id s) (rooms L)) as [[i [rid r]]|]; [| done].
  destruct (status r); [done |]. cbn. rewrite children_close_log.
  destruct (game_process r) as [pid|]; [| done]. by destruct (poll e pid 0).
Qed.

Lemma children_login cfg e conn s request L :
  children (_handle_login cfg e conn s request L).1.1 = children L.
Proof.
  unfold _handle_login.
  destruct (get_stripped request "username") as [name|]; [| done].
  destruct (get_stripped request "password") as [pw|]; [| done].
  destruct (_ || _); [done |].
  destruct (_db_request (link e 0) _ _ _).2 as [| |user| |msg]; try done.
  destruct (user !! "password_hash") as [h|]; [| done].
  destruct (bool_decide (h ≠ _)); [done |].
  destruct (user !! "_id") as [uid|]; [| done].
  destruct (bool_decide (is_Some _)); [done |].
  by destruct (user !! "username").
Qed.

Lemma children_find_available_port b L :
  children (_find_available_port b L).2 = children L.
Proof. unfold _find_available_port. by destruct (list_find _ _) as [[? ?]|]. Qed.

Lemma children_launch_game cfg e i rid r game_dir game_info L :
  children (launch_game cfg e i rid r game_dir game_info L).1 = children L
  ∨ ∃ command,
      children (launch_game cfg e i rid r game_dir game_info L).1
      = children L ++ [(length (children L), command)].
Proof.
  unfold launch_game.
  pose proof (children_find_available_port (can_bind e) L) as Hport.
  destruct (_find_available_port (can_bind e) L) as [[port|] L1];
    cbn [snd] in Hport; [| by left].
  destruct (server game_info) as [server_config|]; [| by left].
  destruct (entry_point server_config) as [entry|]; [| by left].
  destruct (launched e); cbn; rewrite ?Hport; eauto.
Qed.

Lemma children_fetch_and_launch cfg e i rid r L :
  children (fetch_and_launch cfg e i rid r L).1 = children L
  ∨ ∃ command,
      children (fetch_and_launch cfg e i rid r L).1
      = children L ++ [(length (children L), command)].
Proof.
  unfold fetch_and_launch.
  destruct (_db_request (link e 0) _ _ _).2 as [| |game| |msg]; try by left.
  destruct (game !! "latest_version") as [latest|]; [| by left].
  destruct (_db_request (link e 1) _ _ _).2 as [| |release| |msg]; try by left.
  destruct (release !! "file_path") as [[| |file_path]|]; try by left.
  destruct (read_file _ _ _) as [text|]; [| by left].
  destruct (json_load cfg text) as [game_info|]; [| by left].
  apply (children_launch_game cfg e i rid (set_version latest r) _ game_info
           (set_room i rid (set_version latest r) L)).
Qed.

(** [start_game] spawns at most one child, and only for the host of the
    room. *)
Lemma children_start_game cfg e s L :
  children (_handle_start_game cfg e s L).1 = children L
  ∨ (∃ i rid r, room_of (user_id s) (rooms L) = Some (i, (rid, r))
                ∧ host_id r = user_id s)
    ∧ ∃ command,
        children (_handle_start_game cfg e s L).1
        = children L ++ [(length (children L), command)].
Proof.
  unfold _handle_start_game.
  destruct (room_of (user_id s) (rooms L)) as [[i [rid r]]|] eqn:Hroom; [| by left].
  case_bool_decide as Hhost; [by left |].
  assert (host_id r = user_id s) as Hh.
  { destruct (decide (host_id r = user_id s)); [done | by destruct Hhost]. }
  destruct (status r).
  - destruct (children_fetch_and_launch cfg e i rid r L) as [?|?]; [by left | right].
    split; [by exists i, rid, r | done].
  - destruct (process_ended_retry e r); [| by left].
    destruct (children_fetch_and_launch cfg e i rid (reset_room r)
                (set_room i rid (reset_room r) (close_log r L))) as [Hsame|Hnew];
      cbn [children set_room set_rooms] in *; rewrite children_close_log in *;
      [by left | right].
    split; [by exists i, rid, r | done].
Qed.

(** X19: a request spawns a game server only when it is the
    [start_game] of a logged-in user who is the host of their room, and
    then it spawns one; no other request, and no [start_game] of another
    player, adds a child. *)
Theorem spawns_only_for_host cfg e conn s request L :
  let h := _process_request cfg e conn s request L in
  children (lobby_after h) ≠ children L →
  request !! "action" = Some (JStr "start_game")
  ∧ logged_in s = true
  ∧ (∃ i rid r, room_of (user_id s) (rooms L) = Some (i, (rid, r))
                ∧ host_id r = user_id s)
  ∧ ∃ command,
      children (lobby_after h) = children L ++ [(length (children L), command)].
Proof.
  cbn zeta. unfold _process_request.
  repeat match goal with
         | |- context [if bool_decide ?P then _ else _] =>
             let H := fresh "Hact" in destruct (bool_decide P) eqn:H
         | |- context [if negb ?b then _ else _] =>
             let H := fresh "Hin" in destruct b eqn:H; cbn [negb]
         end;
    try (intros Hne; by destruct Hne).
  - pose proof (children_login cfg e conn s request L) as Hsame.
    destruct (_handle_login cfg e conn s request L) as [[L1 s1] r].
    intros Hne. by destruct Hne.
  - destruct (_handle_download_game cfg e request). intros Hne. by destruct Hne.
  - intros Hne. destruct Hne. apply children_create_room.
  - intros Hne. destruct Hne. apply children_join_room.
  - intros Hne. destruct Hne. apply children_leave_room.
  - cbn [lobby_after on_lobby fst]. intros Hne.
    destruct (children_start_game cfg e s L) as [Hsame|[Hhost Hnew]]; [done |].
    match goal with
    | H : bool_decide (_ = Some (JStr "start_game")) = true |- _ =>
        apply bool_decide_eq_true in H
    end.
    done.
  - intros Hne. destruct Hne. apply children_check_game_status.
  - intros Hne. destruct Hne. apply children_end_game.
  - intros Hne. destruct Hne. cbn [lobby_after]. unfold _cleanup_session.
    by rewrite children_remove_user.
Qed.

Lemma spawns_only_for_host_witness :
  let h := _process_request Sample.cfg (Sample.quiet Sample.chat_1_0) 1 Sample.bob
             (Sample.act "start_game") bob_in_room in
  ∃ command, children (lobby_after h) = children bob_in_room ++ [(0%nat, command)].
Proof.
  cbn zeta.
  assert (children (lobby_after
            (_process_request Sample.cfg (Sample.quiet Sample.chat_1_0) 1 Sample.bob
               (Sample.act "start_game") bob_in_room))
          ≠ children bob_in_room) as Hne.
  { vm_compute. discriminate. }
  destruct (spawns_only_for_host Sample.cfg (Sample.quiet Sample.chat_1_0) 1 Sample.bob
              (Sample.act "start_game") bob_in_room Hne) as (_ & _ & _ & command & Hnew).
  exists command. exact Hnew.
Defined.

End ChildFacts.
(** ** Ending a game *)

Module EndFacts.
Import Catalog Package Server Lobby LobbySpec LobbyWords RoomFacts.

Lemma room_of_set_room uid i rid r r' L L' :
  room_of uid (rooms L) = Some (i, (rid, r)) →
  rooms L' = rooms L → players r' = players r →
  room_of uid (rooms (set_room i rid r' L')) = Some (i, (rid, r')).
Proof.
  intros Hroom HL Hp. unfold room_of in *. cbn [rooms set_room set_rooms].
  rewrite HL. apply list_find_Some in Hroom as (Hi & Hin & Hbefore).
  apply list_find_Some. split; [| split].
  - apply list_lookup_insert_eq. by eapply lookup_lt_Some.
  - cbn [snd]. by rewrite Hp.
  - intros j kr Hj Hlt. rewrite list_lookup_insert_ne in Hj by lia.
    by eapply Hbefore.
Qed.

Lemma end_game_waiting e s L :
  (∀ i rid r, room_of (user_id s) (rooms L) = Some (i, (rid, r)) → status r = waiting) →
  (_handle_end_game e s L).1 = L.
Proof.
  intros Hwait. unfold _handle_end_game.
  destruct (room_of (user_id s) (rooms L)) as [[i [rid r]]|] eqn:Hroom; [| done].
  by rewrite (Hwait i rid r eq_refl).
Qed.

Lemma end_game_resets e s L i rid r :
  room_of (user_id s) (rooms (_handle_end_game e s L).1) = Some (i, (rid, r)) →
  status r = waiting.
Proof.
  unfold _handle_end_game.
  destruct (room_of (user_id s) (rooms L)) as [[i0 [rid0 r0]]|] eqn:Hroom;
    [| cbn [fst]; by rewrite Hroom].
  destruct (status r0) eqn:Hst.
  { cbn [fst]. rewrite Hroom. by intros [= <- <- <-]. }
  cbn [fst].
  set (L1 := match game_process r0 with
             | Some pid => match poll e pid 0 with
                           | Some _ => L
                           | None => terminate pid L
                           end
             | None => L
             end).
  assert (rooms (close_log r0 L1) = rooms L) as HL.
  { rewrite rooms_close_log. subst L1.
    destruct (game_process r0) as [pid|]; [| done]. by destruct (poll e pid 0). }
  rewrite (room_of_set_room (user_id s) i0 rid0 r0 (reset_room r0) L (close_log r0 L1)
             Hroom HL eq_refl).
  by intros [= <- <- <-].
Qed.

Lemma end_game_succeeds e s L : succeeded (_handle_end_game e s L).2.
Proof.
  unfold _handle_end_game.
  destruct (room_of (user_id s) (rooms L)) as [[i [rid r]]|]; [| by eexists].
  destruct (status r); by eexists.
Qed.

(** X20: [end_game] needs no second try and does no harm when
    repeated: whoever of the room sends it, host or not, it is answered
    with success and the room is waiting afterwards, and sending it
    again, whatever the game process does in between, changes nothing. *)
Theorem end_game_twice e e' s L :
  let once := _handle_end_game e s L in
  let twice := _handle_end_game e' s once.1 in
  twice.1 = once.1
  ∧ succeeded once.2 ∧ succeeded twice.2
  ∧ ∀ i rid r, room_of (user_id s) (rooms once.1) = Some (i, (rid, r)) →
               status r = waiting.
Proof.
  cbn zeta. split; [| split; [| split]].
  - apply end_game_waiting. intros i rid r. apply end_game_resets.
  - apply end_game_succeeds.
  - apply end_game_succeeds.
  - intros i rid r. apply end_game_resets.
Qed.

End EndFacts.
(** ** Reviews *)

Module RatingFacts.
Import Catalog CatalogSpec CatalogWords Package Server Lobby LobbySpec LobbyWords
  RequestFacts CatalogFacts CatalogLaws AccountFacts.

Lemma sum_ratings_snoc rs x total n :
  sum_ratings rs = Some total → x !! "rating" = Some (JNum n) →
  sum_ratings (rs ++ [x]) = Some (total + n)%Z.
Proof.
  intros Hsum Hx. revert total Hsum. induction rs as [|r rs IH]; intros total.
  - intros [= <-]. cbn. rewrite Hx. f_equal. lia.
  - cbn [sum_ratings app]. destruct (r !! "rating") as [[|m|]|]; try done.
    destruct (sum_ratings rs) as [t|]; [| done]. intros [= <-].
    rewrite (IH t eq_refl). f_equal. lia.
Qed.

Lemma list_find_stronger {A} (P Q : A → Prop) `{!∀ x, Decision (P x)}
    `{!∀ x, Decision (Q x)} (l : list A) i x :
  (∀ y, Q y → P y) → list_find P l = Some (i, x) → Q x →
  list_find Q l = Some (i, x).
Proof.
  intros Himp (Hi & _ & Hbefore)%list_find_Some Hx. apply list_find_Some.
  split; [done |]. split; [done |]. intros j y Hj Hlt HQ.
  by apply (Hbefore j y Hj Hlt), Himp.
Qed.

Lemma find_one_inv e st c q d :
  (Catalog._process_request e st (find_one_req (name_of_coll c) q)).2 = DbResult d →
  ∃ i k, list_find (fun kd : jval * doc => _match_query kd.2 q = true)
           (get_coll c (collections st)) = Some (i, (k, d)).
Proof.
  unfold Catalog._process_request, find_one_req. cbn [action collection data].
  rewrite coll_of_name_of_coll. simpl. unfold _handle_find_one, query_of. simpl.
  destruct (list_find _ _) as [[i [k d']]|]; [| done]. intros [= ->]. by eexists _, _.
Qed.

Lemma find_reviews e st q :
  (Catalog._process_request e st (find_req "Review" q)).2
  = DbResults (matching (c_Review (collections st)) q).*2.
Proof. done. Qed.

Lemma active_matches_name (g : doc) name :
  _match_query g (active_game_by_name name) = true →
  _match_query g (<["name" := name]> ∅) = true.
Proof.
  intros Hm. apply match_query_intro. intros key v Hq.
  apply lookup_insert_Some in Hq as [[<- <-]|[_ Hq]]; [| by rewrite lookup_empty in Hq].
  apply (match_query_lookup g (active_game_by_name name)); [done |].
  unfold active_game_by_name. apply lookup_insert_eq.
Qed.

Lemma name_matches_active (g : doc) name :
  _match_query g (<["name" := name]> ∅) = true →
  g !! "status" = Some (JStr "active") →
  _match_query g (active_game_by_name name) = true.
Proof.
  intros Hm Hst. apply match_query_intro. intros key v Hq.
  unfold active_game_by_name in Hq.
  apply lookup_insert_Some in Hq as [[<- <-]|[_ Hq]].
  - apply (match_query_lookup g (<["name" := name]> ∅)); [done |]. apply lookup_insert_eq.
  - apply lookup_insert_Some in Hq as [[<- <-]|[_ Hq]]; [done |].
    by rewrite lookup_empty in Hq.
Qed.

Lemma game_info_members (g : doc) (rs : list doc) (avg count : rval) :
  let x := [("success", RBool true); ("game", RDoc g); ("reviews", RDocs rs);
            ("avg_rating", avg); ("review_count", count)] in
  member "avg_rating" x = Some avg ∧ member "review_count" x = Some count.
Proof. split; reflexivity. Qed.

(** X21: a review that [submit_review] has accepted counts at once:
    when every game of that name is active, the Catalog answers and the
    uuid of the review is new, [game_info] for the game reports one
    review more than before and an average over a total that has grown
    by the rating. *)
Theorem review_is_counted e e0 e' s request name n total count :
  request !! "game_name" = Some name →
  request !! "rating" = Some (JNum n) →
  only_active (db e) name →
  succeeded (_handle_submit_review e s request).2 →
  dict_get (JStr (fresh_id (dbe e 1))) (c_Review (collections (db e))) = None →
  db e0 = db e → link e0 0 = LinkUp → link e0 1 = LinkUp →
  db e' = (_handle_submit_review e s request).1 →
  link e' 0 = LinkUp → link e' 1 = LinkUp →
  told "avg_rating" (_handle_game_info e0 request) = Some (RAvg total count) →
  told "avg_rating" (_handle_game_info e' request)
    = Some (RAvg (total + n) (S count))
  ∧ told "review_count" (_handle_game_info e' request)
    = Some (RNum (Z.of_nat (S count))).
Proof.
  intros Hname Hrating Hactive Hsucc Hfresh Hdb0 Hl00 Hl01 Hdb' Hl0 Hl1 Hbefore.
  unfold _handle_submit_review in Hsucc, Hdb'. cbv zeta in Hsucc, Hdb'.
  rewrite Hname, Hrating in Hsucc, Hdb'.
  cbn [default from_option] in Hsucc, Hdb'. unfold Datatypes.id in Hsucc, Hdb'.
  destruct (falsy_opt (Some name) || bool_decide (JNum n = JNull)) eqn:Hgiven.
  { destruct Hsucc as (x & [= <-] & Hx). discriminate. }
  apply orb_false_elim in Hgiven as [Htruthy _]. cbn [falsy_opt] in Htruthy.
  apply negb_false_iff in Htruthy.
  destruct (negb ((1 <=? n)%Z && (n <=? 5)%Z)).
  { destruct Hsucc as (x & [= <-] & Hx). discriminate. }
  destruct (link e 0) as [|msg0] eqn:Hlink0.
  2:{ cbn in Hsucc. destruct Hsucc as (x & [= <-] & Hx). discriminate. }
  unfold _db_request at 1 in Hsucc. unfold _db_request at 1 in Hdb'.
  destruct (Catalog._process_request (dbe e 0) (db e)
              (find_one_req "Game" (<["name" := name]> ∅))).2
    as [| |g| |msg] eqn:Hgame;
    try (destruct Hsucc as (x & [= <-] & Hx); discriminate);
    try (by destruct Hsucc as (x & [=] & _)).
  destruct (g !! "_id") as [gid|] eqn:Hgid;
    [| by destruct Hsucc as (x & [=] & _)].
  destruct (link e 1) as [|msg1] eqn:Hlink1.
  2:{ cbn in Hsucc. destruct Hsucc as (x & [= <-] & Hx). discriminate. }
  clear Hsucc.
  (* the Catalog after the insert of the review *)
  set (comment := default (JStr EmptyString) (request !! "comment")) in *.
  set (body := review_record gid s (JNum n) comment) in *.
  assert (body !! "_id" = None) as Hnoid.
  { subst body. unfold review_record. by rewrite !lookup_insert_ne, lookup_empty by done. }
  assert (body !! "game_id" = Some gid) as Hbody_gid.
  { subst body. unfold review_record. apply lookup_insert_eq. }
  assert (body !! "rating" = Some (JNum n)) as Hbody_rating.
  { subst body. unfold review_record. rewrite !lookup_insert_ne by done.
    apply lookup_insert_eq. }
  set (x := <["created_at" := JStr (now (dbe e 1))]>
              (<["_id" := JStr (fresh_id (dbe e 1))]> body)).
  assert (db e' = _save_collection (dbe e 1) Review
                    (with_coll Review
                       (c_Review (collections (db e))
                        ++ [(JStr (fresh_id (dbe e 1)), x)]) (db e))) as Hdb1.
  { rewrite Hdb'. unfold _db_request, Catalog._process_request, insert_req.
    cbn [action collection data].
    change (coll_of_name "Review") with (Some Review). simpl.
    change (review_record gid s (JNum n) _) with body. rewrite Hnoid.
    fold x. by rewrite dict_set_absent by done. }
  clear Hdb'.
  (* the game that both handlers find *)
  destruct (find_one_inv (dbe e 0) (db e) Game _ g Hgame) as (i & k & Hfound).
  assert (list_find (fun kd : jval * doc =>
                       _match_query kd.2 (active_game_by_name name) = true)
            (get_coll Game (collections (db e))) = Some (i, (k, g))) as Hactive_found.
  { apply (list_find_stronger _ _ _ _ _ (fun kd => active_matches_name kd.2 name) Hfound).
    apply list_find_Some in Hfound as (Hi & Hm & _). cbn [snd] in *.
    apply name_matches_active; [done |].
    apply (Hactive k g); [by eapply list_elem_of_lookup_2 |].
    apply (match_query_lookup g (<["name" := name]> ∅)); [done |]. apply lookup_insert_eq. }
  assert (get_coll Game (collections (db e')) = get_coll Game (collections (db e)))
    as Hgames.
  { rewrite Hdb1, collections_save. cbn [collections with_coll]. by apply get_set_coll_ne. }
  assert (c_Review (collections (db e'))
          = c_Review (collections (db e)) ++ [(JStr (fresh_id (dbe e 1)), x)]) as Hreviews.
  { rewrite Hdb1, collections_save. cbn [collections with_coll].
    apply (get_set_coll Review). }
  (* game_info before *)
  revert Hbefore. unfold _handle_game_info. rewrite Hname, Htruthy. cbn [negb].
  rewrite Hl00, Hl01, Hl0, Hl1. unfold _db_request.
  assert (Catalog._process_request (dbe e0 0) (db e0)
            (find_one_req "Game" (active_game_by_name name)) = (db e0, DbResult g))
    as -> by (apply (find_one_finds _ _ Game _ i k); by rewrite Hdb0).
  assert (Catalog._process_request (dbe e' 0) (db e')
            (find_one_req "Game" (active_game_by_name name)) = (db e', DbResult g))
    as -> by (apply (find_one_finds _ _ Game _ i k); by rewrite Hgames).
  cbn [snd]. rewrite Hgid, !find_reviews, Hdb0, Hreviews.
  set (q := <["game_id" := gid]> ∅).
  assert (_match_query x q = true) as Hx.
  { apply match_query_intro. intros key v Hq. subst q.
    apply lookup_insert_Some in Hq as [[<- <-]|[_ Hq]]; [| by rewrite lookup_empty in Hq].
    subst x. by rewrite !lookup_insert_ne by done. }
  assert (matching (c_Review (collections (db e))
                    ++ [(JStr (fresh_id (dbe e 1)), x)]) q
          = matching (c_Review (collections (db e))) q
            ++ [(JStr (fresh_id (dbe e 1)), x)]) as ->.
  { unfold matching. rewrite filter_app. f_equal.
    rewrite filter_cons, decide_True by done. done. }
  rewrite fmap_app. cbn [fmap list_fmap snd].
  set (rs := (matching (c_Review (collections (db e))) q).*2).
  destruct (sum_ratings rs) as [t|] eqn:Hsum; [| done].
  cbn [told]. intros Hbefore.
  rewrite (proj1 (game_info_members _ _ _ _)) in Hbefore.
  injection Hbefore as -> <-.
  assert (x !! "rating" = Some (JNum n)) as Hx_rating.
  { subst x. by rewrite !lookup_insert_ne by done. }
  rewrite (sum_ratings_snoc rs x total n Hsum Hx_rating). cbn [told].
  rewrite (proj1 (game_info_members _ _ _ _)), (proj2 (game_info_members _ _ _ _)).
  rewrite length_app. cbn [length]. rewrite Nat.add_1_r. split; reflexivity.
Qed.

Lemma review_is_counted_witness :
  let e := Sample.quiet Sample.chat_1_0 in
  let e' := Sample.quiet (_handle_submit_review e Sample.bob bob_reviews).1 in
  told "avg_rating" (_handle_game_info e' bob_reviews) = Some (RAvg 4 1)
  ∧ told "review_count" (_handle_game_info e' bob_reviews) = Some (RNum 1).
Proof.
  cbn zeta.
  set (e := Sample.quiet Sample.chat_1_0).
  set (e' := Sample.quiet (_handle_submit_review e Sample.bob bob_reviews).1).
  assert (bob_reviews !! "game_name" = Some (JStr "chat")) as Hname
    by (vm_compute; reflexivity).
  assert (bob_reviews !! "rating" = Some (JNum 4)) as Hrating
    by (vm_compute; reflexivity).
  assert (only_active (db e) (JStr "chat")) as Hactive.
  { intros k g Hin _.
    change (c_Game (collections (db e))) with [Sample.game "1.0" "active" 2] in Hin.
    apply list_elem_of_singleton in Hin. injection Hin as -> ->.
    vm_compute. reflexivity. }
  assert (succeeded (_handle_submit_review e Sample.bob bob_reviews).2) as Hsucc.
  { eexists. split; vm_compute; reflexivity. }
  assert (told "avg_rating" (_handle_game_info e bob_reviews) = Some (RAvg 0 0))
    as Hbefore by (vm_compute; reflexivity).
  exact (review_is_counted e e e' Sample.bob bob_reviews (JStr "chat") 4 0 0
           Hname Hrating Hactive Hsucc eq_refl eq_refl eq_refl eq_refl eq_refl
           eq_refl eq_refl Hbefore).
Defined.

End RatingFacts.
(** ** Uploads *)

Module UploadLaws.
Import Catalog Package Server Gateway LobbyWords.









End UploadLaws.
(** ** From the upload to the download *)

Module DeliveryFacts.
Import Catalog CatalogSpec CatalogWords Package Server Gateway LobbyWords Paths
  RequestFacts CatalogFacts CatalogLaws AccountFacts RatingFacts PackageLaws.

Lemma dict_set_new {V} (k : string) (v : V) (d : list (string * V)) :
  k ∉ d.*1 → dict_set k v d = d ++ [(k, v)].
Proof.
  induction d as [|[k0 v0] d IH]; [done |].
  rewrite fmap_cons, not_elem_of_cons. cbn [fst dict_set]. intros [Hne Hin].
  rewrite decide_False by done. cbn [app]. f_equal. by apply IH.
Qed.

(** The frames of a package, as the developer's client sends them, put
    the files of the package into the staging directory. *)
Lemma receive_package temp_dir rest (files : dir) : ∀ (acc : dir) (fs : filesystem),
  fs !! temp_dir = Some acc → NoDup (acc ++ files).*1 →
  receive_files (length files) temp_dir fs
    ((files ≫= fun f => [Sample.header f.1; File f.2]) ++ rest)
  = (<[temp_dir := acc ++ files]> fs, rest, None).
Proof.
  induction files as [|[path content] files IH]; intros acc fs Hacc Hnd.
  - cbn. rewrite app_nil_r. by rewrite insert_id.
  - cbn [length receive_files mbind list_bind app fst snd receive_message Sample.header].
    assert (no_message (Some (<["path" := JStr path]> (∅ : doc))) = false) as ->.
    { cbn [no_message]. apply bool_decide_eq_false_2. apply insert_non_empty. }
    cbn [default from_option]. unfold Datatypes.id. rewrite lookup_insert_eq.
    cbn [receive_file]. unfold write_file. rewrite Hacc. cbn [default from_option].
    unfold Datatypes.id.
    assert (path ∉ acc.*1) as Hpath.
    { rewrite fmap_app, fmap_cons in Hnd. apply NoDup_app in Hnd as (_ & Hdis & _).
      intros Hin. apply (Hdis _ Hin). left. }
    rewrite dict_set_new by done.
    rewrite (IH (acc ++ [(path, content)])).
    + by rewrite insert_insert_eq, <- app_assoc.
    + apply lookup_insert_eq.
    + by rewrite <- app_assoc.
Qed.

Lemma game_record_members s name version m :
  let g := game_record s name version m in
  g !! "_id" = None ∧ g !! "name" = Some (JStr name)
  ∧ g !! "status" = Some (JStr "active") ∧ g !! "latest_version" = Some version.
Proof.
  cbn zeta. unfold game_record. rewrite !lookup_insert_ne, lookup_empty by done.
  split; [done |]. split; [apply lookup_insert_eq |].
  rewrite !lookup_insert_ne by done.
  split; [| rewrite !lookup_insert_ne by done]; apply lookup_insert_eq.
Qed.

Lemma version_record_members gid version final :
  let v := version_record gid version final in
  v !! "_id" = None ∧ v !! "game_id" = Some gid
  ∧ v !! "version" = Some version ∧ v !! "file_path" = Some (JStr final).
Proof.
  cbn zeta. unfold version_record. rewrite !lookup_insert_ne, lookup_empty by done.
  split; [done |]. split; [apply lookup_insert_eq |].
  rewrite !lookup_insert_ne by done.
  split; [| rewrite !lookup_insert_ne by done]; apply lookup_insert_eq.
Qed.

(** What an insert of a document without [_id] does. *)
Lemma insert_new e st cn c d :
  coll_of_name cn = Some c → d !! "_id" = None →
  Catalog._process_request e st (insert_req cn d)
  = (_save_collection e c
       (with_coll c
          (dict_set (JStr (fresh_id e))
             (<["created_at" := JStr (now e)]> (<["_id" := JStr (fresh_id e)]> d))
             (get_coll c (collections st))) st),
     DbId (JStr (fresh_id e))).
Proof.
  intros Hc Hid. unfold Catalog._process_request, insert_req.
  cbn [action collection data]. rewrite Hc. simpl. unfold _handle_insert.
  cbn [body]. by rewrite Hid.
Qed.

(** The state that a successful upload of a package reaches. *)
Lemma upload_success_state cfg e st s request name files rest r :
  get_stripped request "game_name" = Some name →
  link e 0 = LinkUp → link e 2 = LinkUp →
  incoming e = Sample.chat_frames files ++ rest →
  NoDup files.*1 →
  fs st !! temp_dir_of cfg e = None →
  _handle_upload_game cfg e st s request = r →
  succeeded (reply r) →
  ∃ text m version,
    let final := name +:+ "_" +:+ py_str version in
    let db1 := (Catalog._process_request (dbe e 1) (db st)
                  (insert_req "Game" (game_record s name version m))).1 in
    let db2 := (Catalog._process_request (dbe e 2) db1
                  (insert_req "Version"
                     (version_record (JStr (fresh_id (dbe e 1))) version final))).1 in
    name ≠ EmptyString
    ∧ dict_get "game_info.json" files = Some text
    ∧ json_load cfg text = Parsed m
    ∧ fields m !! "version" = Some version
    ∧ list_find (fun kd : jval * doc =>
                   _match_query kd.2 (<["name" := JStr name]> ∅) = true)
        (c_Game (collections (db st))) = None
    ∧ fs (after r) !! path_join (upload_dir cfg) final = Some files
    ∧ db (after r) = db2.
Proof.
  intros Hname Hl0 Hl2 Hinc Hnd Hnew. unfold _handle_upload_game.
  rewrite Hname, Hl0, Hinc. case_bool_decide as Hempty.
  { intros <- (x & [= <-] & Hx). discriminate. }
  unfold _db_request at 1.
  destruct (success (Catalog._process_request (dbe e 0) (db st)
                       (find_one_req "Game" (<["name" := JStr name]> ∅))).2) eqn:Hcheck.
  { intros <- (x & [= <-] & Hx). discriminate. }
  apply (find_one_fails (dbe e 0) (db st) Game) in Hcheck.
  unfold Sample.chat_frames. cbn [app receive_message].
  assert (no_message (Some (<["file_count" := JNum (Z.of_nat (length files))]> (∅ : doc)))
          = false) as ->.
  { cbn [no_message]. apply bool_decide_eq_false_2. apply insert_non_empty. }
  cbn [default from_option]. unfold Datatypes.id. rewrite lookup_insert_eq.
  cbn [default from_option]. unfold Datatypes.id.
  case_bool_decide as Hcount.
  { intros <- (x & [= <-] & Hx). discriminate. }
  fold (temp_dir_of cfg e). set (temp_dir := temp_dir_of cfg e) in *.
  unfold upload_attempt. cbn [fs db]. rewrite Nat2Z.id.
  assert (makedirs (fs st) temp_dir = <[temp_dir := []]> (fs st)) as ->
    by (unfold makedirs; by rewrite Hnew).
  rewrite (receive_package temp_dir rest files [] (<[temp_dir := []]> (fs st)))
    by (try apply lookup_insert_eq; done).
  rewrite insert_insert_eq. cbn [app].
  destruct (validate_game_package (json_load cfg) (<[temp_dir := files]> (fs st)) temp_dir)
    as [[ok error] game_info] eqn:Hval.
  destruct ok; [| intros <- (x & [= <-] & Hx); discriminate].
  destruct game_info as [m|]; [| intros <- (x & [= <-] & Hx); discriminate].
  apply validate_read in Hval as (text & Hread & Hload).
  unfold read_file in Hread. rewrite lookup_insert_eq in Hread.
  cbn [mbind option_bind] in Hread.
  destruct (fields m !! "version") as [version|] eqn:Hversion;
    [| intros <- (x & [= <-] & Hx); discriminate].
  rewrite lookup_insert_eq.
  destruct (link e 1) as [|msg1] eqn:Hl1.
  2:{ cbn. intros <- (x & [= <-] & Hx). discriminate. }
  rewrite Hl2. unfold _db_request.
  rewrite (insert_new (dbe e 1) (db st) "Game" Game) by
    (try apply game_record_members; done).
  cbn [fst snd].
  destruct (Catalog._process_request (dbe e 2) _ _) as [db2 ?] eqn:Hdb2.
  intros <- _. exists text, m, version. cbn zeta.
  rewrite (insert_new (dbe e 1) (db st) "Game" Game) by
    (try apply game_record_members; done).
  cbn [fst]. rewrite Hdb2.
  cbn [after fs db fst]. split; [done |]. split; [done |]. split; [done |].
  split; [done |]. split; [done |].
  split; [apply lookup_insert_eq | done].
Qed.

Lemma collections_insert_new e st c d :
  collections (_save_collection e c (with_coll c d st)) = set_coll c d (collections st).
Proof. by rewrite collections_save. Qed.

(** X23: what a developer has uploaded is what a player downloads.  The
    upload is of files with distinct plain paths, none of which names as
    a file what another needs as a directory, into a staging directory
    that is new; it succeeds, with the Catalog answering and the new
    game's uuid unknown to the Version records.  The Lobby then reads
    the Catalog and the directories that the upload has left, each
    listed in some order.  [download_game] for the game's name answers
    success with the version of the uploaded manifest, then sends the
    number of files and the files of the package, each once, with its
    path, its size and its content, in the order of the listing. *)
Theorem uploaded_package_is_served cfg e st s request name files rest e' request' :
  get_stripped request "game_name" = Some name →
  link e 0 = LinkUp → link e 2 = LinkUp →
  incoming e = Sample.chat_frames files ++ rest →
  NoDup files.*1 →
  forallb plain files.*1 = true → no_clash files.*1 = true →
  fs st !! temp_dir_of cfg e = None →
  (∀ k v, (k, v) ∈ c_Version (collections (db st)) →
          v !! "game_id" ≠ Some (JStr (fresh_id (dbe e 1)))) →
  succeeded (reply (_handle_upload_game cfg e st s request)) →
  Lobby.db e' = db (after (_handle_upload_game cfg e st s request)) →
  same_files (Lobby.fs e') (fs (after (_handle_upload_game cfg e st s request))) →
  Lobby.link e' 0 = LinkUp → Lobby.link e' 1 = LinkUp →
  request' !! "game_name" = Some (JStr name) →
  ∃ text m version listing,
    dict_get "game_info.json" files = Some text
    ∧ json_load cfg text = Parsed m
    ∧ fields m !! "version" = Some version
    ∧ listing ≡ₚ files
    ∧ Lobby._handle_download_game cfg e' request'
      = (Lobby.OutMessage
           [("success", RBool true); ("version", RVal version);
            ("message", RStr ("Sending " +:+ pretty (length files) +:+ " files..."))]
         :: Lobby.OutMessage [("file_count", RNum (Z.of_nat (length files)))]
         :: Lobby.file_frames listing,
         NoReply).
Proof.
  intros Hname Hl0 Hl2 Hinc Hnd _ _ Hnew Hfresh Hsucc Hdb Hfs Hl0' Hl1' Hreq.
  destruct (upload_success_state cfg e st s request name files rest _
              Hname Hl0 Hl2 Hinc Hnd Hnew eq_refl Hsucc)
    as (text & m & version & Hne & Htext & Hload & Hversion & Hnone & Hfiles & Hdb2).
  cbn zeta in Hfiles, Hdb2. rewrite <- Hdb in Hdb2.
  specialize (Hfs (path_join (upload_dir cfg) (name +:+ "_" +:+ py_str version))).
  rewrite Hfiles in Hfs.
  destruct (Lobby.fs e' !! path_join (upload_dir cfg) (name +:+ "_" +:+ py_str version))
    as [listing|] eqn:Hlisting; [| done].
  clear Hsucc Hdb Hfiles.
  destruct (game_record_members s name version m) as (Hg_id & Hg_name & Hg_status & Hg_latest).
  set (final := name +:+ "_" +:+ py_str version) in *.
  set (id1 := JStr (fresh_id (dbe e 1))) in *.
  destruct (version_record_members id1 version final) as (Hv_id & Hv_game & Hv_version & Hv_path).
  rewrite (insert_new (dbe e 1) (db st) "Game" Game) in Hdb2 by done.
  cbn [fst] in Hdb2.
  rewrite (insert_new (dbe e 2) _ "Version" Version) in Hdb2 by done.
  cbn [fst] in Hdb2.
  set (gx := <["created_at" := JStr (now (dbe e 1))]>
               (<["_id" := id1]> (game_record s name version m))) in *.
  set (vx := <["created_at" := JStr (now (dbe e 2))]>
               (<["_id" := JStr (fresh_id (dbe e 2))]> (version_record id1 version final)))
    in *.
  assert (get_coll Game (collections (Lobby.db e'))
          = dict_set id1 gx (c_Game (collections (db st)))) as Hgames.
  { rewrite Hdb2, collections_save. cbn [collections with_coll].
    rewrite get_set_coll_ne by done. rewrite collections_save.
    cbn [collections with_coll]. apply (get_set_coll Game). }
  assert (get_coll Version (collections (Lobby.db e'))
          = dict_set (JStr (fresh_id (dbe e 2))) vx (c_Version (collections (db st))))
    as Hversions.
  { rewrite Hdb2, collections_save. cbn [collections with_coll].
    rewrite get_set_coll. f_equal. rewrite collections_save.
    cbn [collections with_coll]. by apply get_set_coll_ne. }
  clear Hdb2.
  (* the game *)
  assert (∃ i, list_find (fun kd : jval * doc =>
                            _match_query kd.2 (Lobby.active_game_by_name (JStr name)) = true)
                 (get_coll Game (collections (Lobby.db e'))) = Some (i, (id1, gx)))
    as [i Hgame].
  { rewrite Hgames. apply list_find_dict_set.
    - apply list_find_None. apply list_find_None in Hnone.
      eapply Forall_impl; [exact Hnone |]. intros kd Hno Hyes. cbv beta in *.
      apply Hno. by apply active_matches_name.
    - cbn [snd]. apply name_matches_active.
      + apply match_query_intro. intros key v Hq.
        apply lookup_insert_Some in Hq as [[<- <-]|[_ Hq]];
          [| by rewrite lookup_empty in Hq].
        subst gx. by rewrite !lookup_insert_ne by done.
      + subst gx. by rewrite !lookup_insert_ne by done. }
  (* its release *)
  set (q := <["game_id" := id1]> (<["version" := version]> (∅ : doc))).
  assert (∃ j, list_find (fun kd : jval * doc => _match_query kd.2 q = true)
                 (get_coll Version (collections (Lobby.db e')))
               = Some (j, (JStr (fresh_id (dbe e 2)), vx))) as [j Hrelease].
  { rewrite Hversions. apply list_find_dict_set.
    - apply list_find_None, Forall_forall. intros [k v] Hin Hm. cbn [snd] in Hm.
      apply (Hfresh k v Hin).
      apply (match_query_lookup v q); [done |]. subst q. apply lookup_insert_eq.
    - cbn [snd]. apply match_query_intro. intros key v Hq. subst q.
      apply lookup_insert_Some in Hq as [[<- <-]|[_ Hq]].
      { subst vx. by rewrite !lookup_insert_ne by done. }
      apply lookup_insert_Some in Hq as [[<- <-]|[_ Hq]];
        [| by rewrite lookup_empty in Hq].
      subst vx. by rewrite !lookup_insert_ne by done. }
  exists text, m, version, listing.
  split; [exact Htext |]. split; [exact Hload |]. split; [exact Hversion |].
  split; [exact Hfs |]. unfold Lobby._handle_download_game.
  rewrite Hreq. cbn [truthy]. rewrite bool_decide_eq_false_2 by done. cbn [negb].
  rewrite Hl0', Hl1'. unfold _db_request.
  assert (Catalog._process_request (Lobby.dbe e' 0) (Lobby.db e')
            (find_one_req "Game" (Lobby.active_game_by_name (JStr name)))
          = (Lobby.db e', DbResult gx)) as ->
    by (by apply (find_one_finds _ _ Game _ i id1)).
  cbn [snd].
  assert (gx !! "latest_version" = Some version) as ->
    by (subst gx; by rewrite !lookup_insert_ne by done).
  assert (gx !! "_id" = Some id1) as ->
    by (subst gx; rewrite lookup_insert_ne by done; apply lookup_insert_eq).
  fold q.
  assert (Catalog._process_request (Lobby.dbe e' 1) (Lobby.db e')
            (find_one_req "Version" q)
          = (Lobby.db e', DbResult vx)) as ->
    by (by apply (find_one_finds _ _ Version _ j (JStr (fresh_id (dbe e 2))))).
  cbn [snd].
  assert (vx !! "file_path" = Some (JStr final)) as ->
    by (subst vx; by rewrite !lookup_insert_ne by done).
  rewrite Hlisting. unfold get_game_files. rewrite Hlisting.
  cbn [default from_option]. unfold Datatypes.id.
  by rewrite length_fmap, (Permutation_length Hfs).
Qed.

Lemma same_files_refl (a : filesystem) : same_files a a.
Proof. intros d. by destruct (a !! d). Qed.

Lemma uploaded_package_is_served_witness :
  ∃ version listing,
    listing ≡ₚ Sample.chat_package Sample.chat_1_0_text
    ∧ Lobby._handle_download_game Sample.cfg once_uploaded download_chat
      = (Lobby.OutMessage
           [("success", RBool true); ("version", RVal version);
            ("message", RStr ("Sending " +:+ pretty 3%nat +:+ " files..."))]
         :: Lobby.OutMessage [("file_count", RNum 3)]
         :: Lobby.file_frames listing,
         NoReply).
Proof.
  assert (get_stripped Sample.upload_chat "game_name" = Some "chat") as Hname
    by (vm_compute; reflexivity).
  assert (incoming alice_uploads
          = Sample.chat_frames (Sample.chat_package Sample.chat_1_0_text) ++ []) as Hinc
    by (vm_compute; reflexivity).
  assert (NoDup (Sample.chat_package Sample.chat_1_0_text).*1) as Hnd.
  { apply (bool_decide_unpack _). vm_compute. reflexivity. }
  assert (forallb plain (Sample.chat_package Sample.chat_1_0_text).*1 = true) as Hplain
    by (vm_compute; reflexivity).
  assert (no_clash (Sample.chat_package Sample.chat_1_0_text).*1 = true) as Hclash
    by (vm_compute; reflexivity).
  assert (fs Sample.nothing_uploaded !! temp_dir_of Sample.cfg alice_uploads = None)
    as Hnew by apply lookup_empty.
  assert (∀ k v, (k, v) ∈ c_Version (collections (db Sample.nothing_uploaded)) →
                 v !! "game_id" ≠ Some (JStr (fresh_id (dbe alice_uploads 1)))) as Hfresh.
  { intros k v Hin. by apply elem_of_nil in Hin. }
  assert (succeeded (reply (_handle_upload_game Sample.cfg alice_uploads
                              Sample.nothing_uploaded Sample.alice Sample.upload_chat)))
    as Hsucc.
  { eexists. split; vm_compute; reflexivity. }
  assert (download_chat !! "game_name" = Some (JStr "chat")) as Hreq
    by (vm_compute; reflexivity).
  destruct (uploaded_package_is_served Sample.cfg alice_uploads Sample.nothing_uploaded
              Sample.alice Sample.upload_chat "chat"
              (Sample.chat_package Sample.chat_1_0_text) [] once_uploaded download_chat
              Hname eq_refl eq_refl Hinc Hnd Hplain Hclash Hnew Hfresh Hsucc eq_refl
              (same_files_refl _) eq_refl eq_refl Hreq)
    as (text & m & version & listing & _ & _ & _ & Hperm & Hserved).
  exists version, listing. split; [exact Hperm | exact Hserved].
Defined.

End DeliveryFacts.
(** ** The Developer Gateway's other requests *)

Module DeveloperFacts.
Import Catalog CatalogSpec CatalogWords Package Server Gateway Developer LobbyWords
  RequestFacts CatalogFacts CatalogLaws AccountFacts RatingFacts.

Lemma update_collection e st c q u :
  get_coll c (collections
                (Catalog._process_request e st (update_req (name_of_coll c) q u)).1)
  = (fun kd : jval * doc => if _match_query kd.2 q then (kd.1, updated e u kd.2) else kd)
      <$> get_coll c (collections st).
Proof.
  unfold Catalog._process_request, update_req. cbn [action collection data].
  rewrite coll_of_name_of_coll. simpl. unfold _handle_update. cbv zeta. cbn [fst].
  unfold query_of, update_of. cbn [query update default from_option]. unfold Datatypes.id.
  case_decide; rewrite ?collections_save; cbn [collections with_coll];
    by rewrite get_set_coll.
Qed.

Lemma update_other_collections e st c c' q u :
  c' ≠ c →
  get_coll c' (collections
                 (Catalog._process_request e st (update_req (name_of_coll c) q u)).1)
  = get_coll c' (collections st).
Proof.
  intros Hne. unfold Catalog._process_request, update_req. cbn [action collection data].
  rewrite coll_of_name_of_coll. simpl. unfold _handle_update. cbv zeta. cbn [fst].
  case_decide; rewrite ?collections_save; cbn [collections with_coll];
    by rewrite get_set_coll_ne.
Qed.

Lemma find_one_succeeds e st c q k d :
  (k, d) ∈ get_coll c (collections st) → _match_query d q = true →
  success (Catalog._process_request e st (find_one_req (name_of_coll c) q)).2 = true.
Proof.
  intros Hin Hm.
  destruct (list_find_elem_of (fun kd : jval * doc => _match_query kd.2 q = true)
              (get_coll c (collections st)) (k, d) Hin Hm) as [[i [k' d']] Hfind].
  by rewrite (find_one_finds e st c q i k' d' Hfind).
Qed.

Lemma owned_matches_name (g : doc) s name :
  _match_query g (owned_by s name) = true →
  _match_query g (<["name" := JStr name]> ∅) = true.
Proof.
  intros Hm. apply match_query_intro. intros key v Hq.
  apply lookup_insert_Some in Hq as [[<- <-]|[_ Hq]]; [| by rewrite lookup_empty in Hq].
  apply (match_query_lookup g (owned_by s name)); [done |].
  unfold owned_by. apply lookup_insert_eq.
Qed.

Lemma removed_keeps e (g : doc) key :
  key ≠ "status" → key ≠ "updated_at" →
  updated e (<["status" := JStr "removed"]> ∅) g !! key = g !! key.
Proof.
  intros H1 H2. unfold updated. rewrite lookup_insert_ne by done.
  rewrite lookup_union_r; [done |]. by rewrite lookup_insert_ne, lookup_empty.
Qed.

Lemma removed_status e (g : doc) :
  updated e (<["status" := JStr "removed"]> ∅) g !! "status" = Some (JStr "removed").
Proof.
  unfold updated. rewrite lookup_insert_ne by done.
  apply lookup_union_Some_l, lookup_insert_eq.
Qed.

Lemma removed_still_owned e (g : doc) s name :
  _match_query g (owned_by s name) = true →
  _match_query (updated e (<["status" := JStr "removed"]> ∅) g) (owned_by s name) = true.
Proof.
  intros Hm. apply match_query_intro. intros key v Hq.
  rewrite removed_keeps.
  - by apply (match_query_lookup g (owned_by s name)).
  - intros ->. unfold owned_by in Hq. by rewrite !lookup_insert_ne, lookup_empty in Hq.
  - intros ->. unfold owned_by in Hq. by rewrite !lookup_insert_ne, lookup_empty in Hq.
Qed.

Lemma removed_was_owned e (g : doc) s name :
  _match_query (updated e (<["status" := JStr "removed"]> ∅) g) (owned_by s name) = true →
  _match_query g (owned_by s name) = true.
Proof.
  intros Hm. apply match_query_intro. intros key v Hq.
  rewrite <- (removed_keeps e g key).
  - by apply (match_query_lookup _ (owned_by s name)).
  - intros ->. unfold owned_by in Hq. by rewrite !lookup_insert_ne, lookup_empty in Hq.
  - intros ->. unfold owned_by in Hq. by rewrite !lookup_insert_ne, lookup_empty in Hq.
Qed.

Lemma owned_none c s name :
  owned c s name = [] →
  list_find (fun kd : jval * doc => _match_query kd.2 (owned_by s name) = true)
    (get_coll Game (collections c)) = None.
Proof.
  unfold owned. intros Hnone. apply list_find_None, Forall_forall.
  intros kd Hin Hm.
  assert (kd ∈ filter (fun kd : jval * doc =>
                         _match_query kd.2 (owned_by s name) = true)
                 (c_Game (collections c))) as Hkd.
  { apply list_elem_of_filter. split; [exact Hm | exact Hin]. }
  rewrite Hnone in Hkd. by apply elem_of_nil in Hkd.
Qed.

Lemma filter_some {A} (P : A → Prop) `{!∀ x, Decision (P x)} (l : list A) :
  filter P l ≠ [] → ∃ x, x ∈ l ∧ P x.
Proof.
  induction l as [|a l IH]; [done |]. rewrite filter_cons.
  destruct (decide (P a)) as [Ha|Ha].
  - intros _. exists a. split; [left | done].
  - intros Hne. destruct (IH Hne) as (x & Hx & HP). exists x. split; [by right | done].
Qed.

Lemma owned_some c s name :
  owned c s name ≠ [] →
  ∃ k g, (k, g) ∈ c_Game (collections c) ∧ _match_query g (owned_by s name) = true.
Proof.
  unfold owned. intros Hsome. apply filter_some in Hsome as ([k g] & Hin & Hm).
  exists k, g. split; [exact Hin | exact Hm].
Qed.

Lemma find_one_none e st c q :
  list_find (fun kd : jval * doc => _match_query kd.2 q = true)
    (get_coll c (collections st)) = None →
  Catalog._process_request e st (find_one_req (name_of_coll c) q)
  = (st, DbError "Not found").
Proof.
  intros Hfind. unfold Catalog._process_request, find_one_req.
  cbn [action collection data]. rewrite coll_of_name_of_coll. simpl.
  unfold _handle_find_one, query_of. simpl. by rewrite Hfind.
Qed.

(** The Game collection after the update of [remove_game]. *)
Lemma removed_games e c s name k g :
  let c1 := (Catalog._process_request e c
               (update_req "Game" (owned_by s name)
                  (<["status" := JStr "removed"]> ∅))).1 in
  (k, g) ∈ c_Game (collections c1) ↔
  ∃ g0, (k, g0) ∈ c_Game (collections c)
        ∧ g = if _match_query g0 (owned_by s name)
              then updated e (<["status" := JStr "removed"]> ∅) g0 else g0.
Proof.
  cbn zeta.
  pose proof (update_collection e c Game (owned_by s name)
                (<["status" := JStr "removed"]> ∅)) as Hgames.
  cbn [name_of_coll get_coll] in Hgames. rewrite Hgames. clear Hgames.
  rewrite list_elem_of_fmap. split.
  - intros ([k' g'] & Heq & Hin). cbn [fst snd] in Heq. exists g'.
    destruct (_match_query g' (owned_by s name)); injection Heq as -> ->; by split.
  - intros (g0 & Hin & ->). exists (k, g0). cbn [fst snd]. split; [| done].
    by destruct (_match_query g0 (owned_by s name)).
Qed.

(** X24: [remove_game] is the owner's alone and is not undone by the
    name: for a developer who has no game of that name it fails and
    changes nothing; for the owner it answers success, and when the
    update reaches the Catalog every game of theirs with that name has
    the status [removed] while every other game is as before, and an
    upload under the same name is afterwards refused, whoever sends it.
    When the update does not reach the Catalog, it answers success all
    the same and nothing has changed. *)
Theorem remove_game_effect cfg e c s request name :
  get_stripped request "game_name" = Some name →
  name ≠ EmptyString →
  link e 0 = LinkUp →
  let r := _handle_remove_game e c s request in
  (owned c s name = [] →
   r = (c, Reply (failure "Game not found or you do not own it")))
  ∧ (owned c s name ≠ [] →
     succeeded r.2
     ∧ (link e 1 ≠ LinkUp → r.1 = c)
     ∧ (link e 1 = LinkUp →
        (∀ k g, (k, g) ∈ c_Game (collections r.1) →
                _match_query g (owned_by s name) = true →
                g !! "status" = Some (JStr "removed"))
        ∧ (∀ k g, _match_query g (owned_by s name) = false →
                  (k, g) ∈ c_Game (collections r.1) ↔ (k, g) ∈ c_Game (collections c))
        ∧ ∀ e2 fs2 s2 request2,
            get_stripped request2 "game_name" = Some name →
            link e2 0 = LinkUp →
            reply (_handle_upload_game cfg e2 {| fs := fs2; db := r.1 |} s2 request2)
            = Reply (failure "Game name already exists"))).
Proof.
  intros Hname Hne Hl0. cbn zeta. unfold _handle_remove_game.
  rewrite Hname, Hl0. rewrite (bool_decide_eq_false_2 _ Hne).
  unfold _db_request. split.
  - intros Hnone.
    pose proof (find_one_none (dbe e 0) c Game _ (owned_none c s name Hnone)) as Hfind.
    cbn [name_of_coll] in Hfind. rewrite Hfind. reflexivity.
  - intros Hsome. destruct (owned_some c s name Hsome) as (k0 & g0 & Hin0 & Hm0).
    pose proof (find_one_succeeds (dbe e 0) c Game (owned_by s name) k0 g0 Hin0 Hm0)
      as Hfind.
    cbn [name_of_coll] in Hfind. rewrite Hfind. cbn [negb]. clear Hfind.
    destruct (link e 1) as [|msg] eqn:Hl1.
    + pose proof (fun k g => removed_games (dbe e 1) c s name k g) as Hgames.
      cbn zeta in Hgames.
      set (upd := Catalog._process_request (dbe e 1) c
                    (update_req "Game" (owned_by s name)
                       (<["status" := JStr "removed"]> ∅))) in *.
      clearbody upd. destruct upd as [c1 res]. cbn [fst snd] in *.
      split; [eexists; split; reflexivity |].
      split; [intros Hdown; exfalso; apply Hdown; reflexivity |]. intros _.
      split; [| split].
      * intros k g Hin Hm. apply Hgames in Hin as (g' & Hin & ->).
        destruct (_match_query g' (owned_by s name)) eqn:Hm'.
        -- apply removed_status.
        -- rewrite Hm in Hm'. discriminate Hm'.
      * intros k g Hno. rewrite Hgames. split.
        -- intros (g' & Hin & ->).
           destruct (_match_query g' (owned_by s name)) eqn:Hm'; [| exact Hin].
           rewrite (removed_still_owned (dbe e 1) g' s name Hm') in Hno.
           discriminate Hno.
        -- intros Hin. exists g. rewrite Hno. split; [exact Hin | reflexivity].
      * intros e2 fs2 s2 request2 Hname2 Hl02. unfold _handle_upload_game.
        rewrite Hname2, Hl02. rewrite (bool_decide_eq_false_2 _ Hne).
        unfold _db_request. cbn [db].
        pose proof (find_one_succeeds (dbe e2 0) c1 Game (<["name" := JStr name]> ∅) k0
                      (updated (dbe e 1) (<["status" := JStr "removed"]> ∅) g0))
          as Htaken.
        cbn [name_of_coll get_coll] in Htaken. rewrite Htaken; [reflexivity | |].
        -- apply Hgames. exists g0. rewrite Hm0. split; [exact Hin0 | reflexivity].
        -- eapply owned_matches_name. apply removed_still_owned. exact Hm0.
    + cbn [fst snd]. split; [eexists; split; reflexivity |].
      split; [reflexivity |]. intros Hup. discriminate Hup.
Qed.

Lemma remove_game_effect_witness :
  let e := Sample.uploading LinkUp [] in
  succeeded (_handle_remove_game e Sample.chat_1_1 Sample.alice remove_chat).2
  ∧ _handle_remove_game e Sample.chat_1_1 carol remove_chat
    = (Sample.chat_1_1, Reply (failure "Game not found or you do not own it")).
Proof.
  cbn zeta.
  assert (get_stripped remove_chat "game_name" = Some "chat") as Hname
    by (vm_compute; reflexivity).
  assert ("chat" ≠ EmptyString) as Hne by discriminate.
  assert (length (owned Sample.chat_1_1 Sample.alice "chat") = 1%nat) as Hlen
    by (vm_compute; reflexivity).
  assert (owned Sample.chat_1_1 Sample.alice "chat" ≠ []) as Hmine.
  { intros Hnil. rewrite Hnil in Hlen. discriminate Hlen. }
  assert (owned Sample.chat_1_1 carol "chat" = []) as Hnot
    by (vm_compute; reflexivity).
  destruct (remove_game_effect Sample.cfg (Sample.uploading LinkUp []) Sample.chat_1_1
              Sample.alice remove_chat "chat" Hname Hne eq_refl) as [_ Howner].
  destruct (remove_game_effect Sample.cfg (Sample.uploading LinkUp []) Sample.chat_1_1
              carol remove_chat "chat" Hname Hne eq_refl) as [Hother _].
  split; [exact (proj1 (Howner Hmine)) | exact (Hother Hnot)].
Defined.

(** *** Accounts *)

Lemma lobby_register_result cfg e request name pw r :
  get_stripped request "username" = Some name →
  get_stripped request "password" = Some pw →
  Lobby._handle_register cfg e request = r →
  succeeded r.2 →
  (bool_decide (name = EmptyString) || bool_decide (pw = EmptyString)) = false
  ∧ ∃ id x, x !! "account_type" = Some (JStr "player")
            ∧ c_User (collections r.1)
              = dict_set id x (c_User (collections (Lobby.db e))).
Proof.
  intros Hname Hpw. unfold Lobby._handle_register. rewrite Hname, Hpw.
  destruct (bool_decide (name = EmptyString) || bool_decide (pw = EmptyString)).
  { intros <- (x & [= <-] & Hx). discriminate Hx. }
  destruct (success _).
  { intros <- (x & [= <-] & Hx). discriminate Hx. }
  destruct (Lobby.link e 1) as [|msg].
  2:{ cbn. intros <- (x & [= <-] & Hx). discriminate Hx. }
  unfold _db_request.
  set (body := <["username" := JStr name]> (
               <["password_hash" := JStr (hash_password cfg pw)]> (
               <["account_type" := JStr "player"]> (∅ : doc)))).
  assert (body !! "_id" = None) as Hnoid
    by (subst body; rewrite !lookup_insert_ne, lookup_empty by done; reflexivity).
  rewrite (DeliveryFacts.insert_new (Lobby.dbe e 1) (Lobby.db e) "User" User body eq_refl Hnoid).
  cbn [success fst snd]. intros <- _. split; [reflexivity |]. cbn [fst].
  eexists _, _. split; [| rewrite collections_save; cbn [collections with_coll];
                          apply (get_set_coll User)].
  subst body. rewrite !lookup_insert_ne by done. apply lookup_insert_eq.
Qed.

Lemma developer_query_type (u : doc) name :
  _match_query u (developer_by_name name) = true →
  u !! "username" = Some (JStr name) ∧ u !! "account_type" = Some (JStr "developer").
Proof.
  intros Hm. split; apply (match_query_lookup u (developer_by_name name) _ _ Hm);
    unfold developer_by_name.
  - apply lookup_insert_eq.
  - rewrite lookup_insert_ne by done. apply lookup_insert_eq.
Qed.

(** X25: the accounts of players and of developers are apart: when no
    developer has the name, the account that a player has registered at
    the Lobby does not log in at the Gateway, which answers 'Invalid
    username or password' and leaves the session alone, and the name is
    still free for a developer to register. *)
Theorem accounts_are_per_type cfg le ge s request name pw :
  get_stripped request "username" = Some name →
  get_stripped request "password" = Some pw →
  no_developer (Lobby.db le) name →
  succeeded (Lobby._handle_register cfg le request).2 →
  link ge 0 = LinkUp →
  let c1 := (Lobby._handle_register cfg le request).1 in
  Developer._handle_login cfg ge c1 s request
  = (s, Reply (failure "Invalid username or password"))
  ∧ (link ge 1 = LinkUp →
     succeeded (Developer._handle_register cfg ge c1 request).2).
Proof.
  intros Hname Hpw Hnone Hsucc Hl0. cbn zeta.
  destruct (lobby_register_result cfg le request name pw _ Hname Hpw eq_refl Hsucc)
    as (Hgiven & id & x & Hplayer & Husers).
  clear Hsucc. set (c1 := (Lobby._handle_register cfg le request).1) in *. clearbody c1.
  assert (list_find (fun kd : jval * doc =>
                       _match_query kd.2 (developer_by_name name) = true)
            (get_coll User (collections c1)) = None) as Hfind.
  { apply list_find_None, Forall_forall. intros [k u] Hin Hm. cbn [snd] in Hm.
    apply developer_query_type in Hm as [Hu Ht].
    cbn [get_coll] in Hin. rewrite Husers in Hin.
    apply dict_set_elem in Hin as [Hold|Hnew].
    - by apply (Hnone k u Hold Hu).
    - cbn [snd] in Hnew. subst u. rewrite Hplayer in Ht. discriminate Ht. }
  pose proof (find_one_none (dbe ge 0) c1 User _ Hfind) as Hnot.
  cbn [name_of_coll] in Hnot. split.
  - unfold Developer._handle_login. rewrite Hname, Hpw, Hgiven, Hl0.
    unfold _db_request. rewrite Hnot. reflexivity.
  - intros Hl1. unfold Developer._handle_register. rewrite Hname, Hpw, Hgiven, Hl0, Hl1.
    unfold _db_request. rewrite Hnot. cbn [snd success].
    destruct (Catalog._process_request (dbe ge 1) c1 _) as [c2 res] eqn:Hins.
    assert (success res = true) as ->.
    { set (body := <["username" := JStr name]> (
                   <["password_hash" := JStr (hash_password cfg pw)]> (
                   <["account_type" := JStr "developer"]> (∅ : doc)))) in *.
      assert (body !! "_id" = None) as Hnoid
        by (subst body; rewrite !lookup_insert_ne, lookup_empty by done; reflexivity).
      rewrite (DeliveryFacts.insert_new (dbe ge 1) c1 "User" User body eq_refl Hnoid) in Hins.
      by injection Hins as _ <-. }
    eexists. split; reflexivity.
Qed.

Lemma accounts_are_per_type_witness :
  let le := Sample.quiet Sample.players_only in
  Developer._handle_login Sample.cfg (Sample.uploading LinkUp [])
    (Lobby._handle_register Sample.cfg le dave).1 new_session dave
  = (new_session, Reply (failure "Invalid username or password")).
Proof.
  cbn zeta.
  assert (get_stripped dave "username" = Some "dave") as Hname
    by (vm_compute; reflexivity).
  assert (get_stripped dave "password" = Some "correct horse") as Hpw
    by (vm_compute; reflexivity).
  assert (no_developer (Lobby.db (Sample.quiet Sample.players_only)) "dave") as Hnone.
  { intros k u Hin Hu.
    change (c_User (collections (Lobby.db (Sample.quiet Sample.players_only))))
      with [Sample.player "u-bob" "bob" "hunter2";
            Sample.player "u-carol" "carol" "s3cret"] in Hin.
    apply elem_of_cons in Hin as [Hin|Hin];
      [| apply list_elem_of_singleton in Hin]; injection Hin as -> ->;
      vm_compute in Hu; discriminate Hu. }
  assert (succeeded (Lobby._handle_register Sample.cfg
                       (Sample.quiet Sample.players_only) dave).2) as Hsucc.
  { eexists. split; vm_compute; reflexivity. }
  exact (proj1 (accounts_are_per_type Sample.cfg (Sample.quiet Sample.players_only)
                  (Sample.uploading LinkUp []) new_session dave "dave" "correct horse"
                  Hname Hpw Hnone Hsucc eq_refl)).
Defined.

End DeveloperFacts.
(** ** Updating a game *)

Module UpdateFacts.
Import Catalog CatalogSpec CatalogWords Package Server Gateway Developer LobbyWords
  RequestFacts CatalogFacts CatalogLaws AccountFacts RatingFacts DeveloperFacts.

(** X26: [update_game] is for the owner: when the Catalog has no game of
    that name that is the session's user's, the request is refused before
    anything is sent or read and nothing is changed; and when the Catalog
    answers and has such a game, the ready signal is sent. *)
Theorem update_needs_ownership cfg e st s request name :
  get_stripped request "game_name" = Some name → name ≠ EmptyString →
  let r := _handle_update_game cfg e st s request in
  (owned (db st) s name = [] →
   r = {| after := st; sent := []; unread := incoming e;
          reply := Reply (failure "Game not found or you do not own it") |})
  ∧ (link e 0 = LinkUp → owned (db st) s name ≠ [] → sent r = [ready]).
Proof.
  intros Hname Hne. cbn zeta. unfold _handle_update_game. rewrite Hname.
  rewrite bool_decide_eq_false_2 by exact Hne. split.
  - intros Hnone. apply owned_none in Hnone.
    pose proof (find_one_none (dbe e 0) (db st) Game _ Hnone) as Hnot.
    cbn [name_of_coll] in Hnot. unfold _db_request.
    destruct (link e 0); [rewrite Hnot |]; reflexivity.
  - intros Hup Hsome. apply owned_some in Hsome as (k & g & Hin & Hm).
    destruct (list_find_elem_of
                (fun kd : jval * doc => _match_query kd.2 (owned_by s name) = true)
                (get_coll Game (collections (db st))) (k, g) Hin Hm)
      as [[i [k' g']] Hfind].
    pose proof (find_one_finds (dbe e 0) (db st) Game _ i k' g' Hfind) as Hfound.
    cbn [name_of_coll] in Hfound. rewrite Hup. unfold _db_request. rewrite Hfound.
    cbn [snd]. destruct (receive_message (incoming e)) as [file_msg inc1].
    destruct (no_message file_msg); [reflexivity |].
    destruct (update_attempt _ _ _ _ _ _ _ _) as [[st2 inc2] [msg|msg]]; reflexivity.
Qed.

Lemma update_needs_ownership_witness :
  _handle_update_game Sample.cfg (Sample.uploading LinkUp [])
    {| fs := ∅; db := Sample.chat_1_1 |} carol remove_chat
  = {| after := {| fs := ∅; db := Sample.chat_1_1 |}; sent := []; unread := [];
       reply := Reply (failure "Game not found or you do not own it") |}.
Proof.
  assert (get_stripped remove_chat "game_name" = Some "chat") as Hname
    by (vm_compute; reflexivity).
  assert ("chat" ≠ EmptyString) as Hne by discriminate.
  assert (owned Sample.chat_1_1 carol "chat" = []) as Hnone
    by (vm_compute; reflexivity).
  exact (proj1 (update_needs_ownership Sample.cfg (Sample.uploading LinkUp [])
                  {| fs := ∅; db := Sample.chat_1_1 |} carol remove_chat "chat"
                  Hname Hne) Hnone).
Defined.

End UpdateFacts.
(** ** The Lobby under its threads *)

Module ThreadFacts.
Import Catalog Package Server Lobby LobbySpec Threads RequestFacts RoomFacts.

(** *** The blocks make up the handlers *)

Lemma login_sections cfg e conn s request L :
  _handle_login cfg e conn s request L
  = match login_check cfg e s request L with
    | (s1, inl o) => (L, s1, o)
    | (s1, inr (uid, username)) =>
        (login_insert conn uid username L, s1, welcome username)
    end.
Proof.
  unfold _handle_login, login_check.
  destruct (get_stripped request "username") as [name|]; [| reflexivity].
  destruct (get_stripped request "password") as [pw|]; [| reflexivity].
  destruct (_ || _); [reflexivity |].
  destruct (_db_request (link e 0) _ _ _).2 as [| |user| |msg]; try reflexivity.
  destruct (user !! "password_hash") as [h|]; [| reflexivity].
  destruct (bool_decide (h ≠ _)); [reflexivity |].
  destruct (user !! "_id") as [uid|]; [| reflexivity].
  destruct (bool_decide (is_Some _)); [reflexivity |].
  destruct (user !! "username"); reflexivity.
Qed.

Lemma create_sections e s request L :
  _handle_create_room e s request L
  = match create_first e s request L with
    | (L1, inl o) => (L1, o)
    | (L1, inr (rid, r)) => (create_insert rid r L1, created rid r)
    end.
Proof.
  unfold _handle_create_room, create_first.
  destruct (request !! "game_name") as [game_name|]; [| reflexivity].
  destruct (negb (truthy game_name)); [reflexivity |].
  destruct (_db_request (link e 0) _ _ _).2 as [| |game| |msg]; try reflexivity.
  destruct (game !! "_id") as [gid|]; [| reflexivity].
  destruct (game !! "latest_version") as [latest|]; [| reflexivity].
  destruct (game !! "max_players") as [maxp|]; reflexivity.
Qed.

(** *** Every block keeps the rooms well formed *)

Lemma fine_profile rs : ∀ rs',
  profile rs' = profile rs → rooms_fine rs → rooms_fine rs'.
Proof.
  unfold rooms_fine. intros rs' Hprof Hall. revert rs' Hprof.
  induction Hall as [|kr rs Hkr Hall IH]; intros [|kr' rs']; try done.
  unfold profile. rewrite !fmap_cons. intros [= Hh Hp Hm Hrest].
  constructor; [| by apply IH].
  apply (room_ok_members kr.2); [| done]. unfold members. by rewrite Hh, Hp, Hm.
Qed.

Lemma remove_user_fine uid L :
  rooms_fine (rooms L) → rooms_fine (rooms (_remove_user_from_all_rooms uid L)).
Proof.
  intros Hall. rewrite rooms_remove_user.
  by destruct (remove_user_from_rooms_ok (sessions L) uid (rooms L) Hall).
Qed.

Lemma cleanup_fine s L :
  rooms_fine (rooms L) → rooms_fine (rooms (_cleanup_session s L)).
Proof. intros Hall. unfold _cleanup_session. by apply remove_user_fine. Qed.

Lemma new_room_ok rid game_name gid latest maxp s :
  room_ok (new_room rid game_name gid latest maxp s).
Proof.
  unfold room_ok, capacity. cbn [new_room host_id players max_players].
  split; [by left |]. split; [done |]. split; [apply NoDup_singleton |].
  simpl. destruct maxp; lia.
Qed.

Lemma create_first_fine e s request L :
  rooms_fine (rooms L) →
  rooms_fine (rooms (create_first e s request L).1)
  ∧ ∀ rid r, (create_first e s request L).2 = inr (rid, r) → room_ok r.
Proof.
  intros Hall. unfold create_first.
  destruct (request !! "game_name") as [game_name|]; [| by split].
  destruct (negb (truthy game_name)); [by split |].
  pose proof (remove_user_fine (user_id s) L Hall) as Hfine.
  destruct (_db_request (link e 0) _ _ _).2 as [| |game| |msg]; try by split.
  destruct (game !! "_id") as [gid|]; [| by split].
  destruct (game !! "latest_version") as [latest|]; [| by split].
  destruct (game !! "max_players") as [maxp|]; [| by split].
  split; [exact Hfine |]. intros rid r [= _ <-]. apply new_room_ok.
Qed.

Lemma create_insert_fine rid r L :
  rooms_fine (rooms L) → room_ok r → rooms_fine (rooms (create_insert rid r L)).
Proof. intros Hall Hr. unfold create_insert. by apply Forall_dict_set. Qed.

Lemma create_room_fine e s request L :
  rooms_fine (rooms L) → rooms_fine (rooms (_handle_create_room e s request L).1).
Proof.
  intros Hall. rewrite create_sections.
  destruct (create_first_fine e s request L Hall) as [Hfine Hnew].
  destruct (create_first e s request L) as [L1 [o|[rid r]]]; [exact Hfine |].
  apply create_insert_fine; [exact Hfine | by apply (Hnew rid r)].
Qed.

Lemma join_room_fine s request L :
  rooms_fine (rooms L) → rooms_fine (rooms (_handle_join_room s request L).1).
Proof.
  intros Hok. unfold _handle_join_room.
  destruct (request !! "room_id") as [room_id|]; [| exact Hok].
  destruct (negb (truthy room_id)); [exact Hok |].
  pose proof (remove_user_fine (user_id s) L Hok) as Hall.
  set (L1 := _remove_user_from_all_rooms (user_id s) L) in *.
  destruct (lookup_room room_id (rooms L1)) as [[rid r]|] eqn:Hroom; [| done].
  destruct (bool_decide (status r ≠ waiting)); [done |].
  destruct (max_players r) as [|m|] eqn:Hmax; try done.
  destruct (m <=? Z.of_nat (length (players r)))%Z eqn:Hfull; [done |].
  destruct (bool_decide (user_id s ∈ players r)) eqn:Hin; [done |].
  apply Z.leb_gt in Hfull. apply bool_decide_eq_false in Hin.
  assert (dict_get rid (rooms L1) = Some r) as Hget.
  { unfold lookup_room in Hroom. destruct room_id as [| |k]; try discriminate.
    destruct (dict_get k (rooms L1)) as [r0|] eqn:Hk; [| discriminate].
    simpl in Hroom. by injection Hroom as <- <-. }
  assert (room_ok r) as (Hhost & Hne & Hnodup & Hcap).
  { unfold rooms_fine in Hall. rewrite Forall_forall in Hall.
    by apply (Hall (rid, r)), dict_get_elem. }
  cbn [fst rooms set_rooms]. apply Forall_dict_set; [exact Hall |].
  unfold room_ok, capacity. cbn [set_players host_id players max_players].
  rewrite Hmax. split; [apply elem_of_app; by left |].
  split; [by destruct (players r) |].
  split.
  - apply NoDup_app. split; [done |]. split; [| apply NoDup_singleton].
    intros u Hu ->%list_elem_of_singleton. done.
  - rewrite length_app. simpl. lia.
Qed.

Lemma leave_room_fine e s L :
  rooms_fine (rooms L) → rooms_fine (rooms (_handle_leave_room e s L).1).
Proof.
  intros Hall. unfold _handle_leave_room.
  destruct (room_of (user_id s) (rooms L)) as [[i [rid r]]|] eqn:Hroom;
    [| exact Hall].
  apply room_of_lookup in Hroom as [Hi Hin].
  assert (room_ok r) as Hr.
  { unfold rooms_fine in Hall. rewrite Forall_forall in Hall. apply (Hall (rid, r)).
    by eapply list_elem_of_lookup_2. }
  destruct (remove_first (user_id s) (players r)) as [|p0 ps] eqn:Hps.
  { cbn [fst]. unfold del_room. cbn [rooms set_rooms].
    rewrite rooms_close_log, rooms_terminate_game. by apply Forall_delete. }
  assert (∀ r' L', rooms L' = rooms L →
            players r' = p0 :: ps → max_players r' = max_players r →
            (user_id s ≠ host_id r ∧ host_id r' = host_id r) ∨ host_id r' = p0 →
            rooms_fine (rooms (set_room i rid r' L'))) as Hset.
  { intros r' L' HL' Hp Hm Hh. unfold set_room. cbn [rooms set_rooms].
    rewrite HL'. apply Forall_insert; [done |]. cbn [snd].
    apply (room_ok_after_leaving (user_id s) r); try done.
    - by rewrite Hp, Hps.
    - by rewrite Hp.
    - destruct Hh as [?|?]; [by left | right; by exists p0, ps]. }
  destruct (bool_decide (user_id s = host_id r)) eqn:Hhost.
  - destruct (sessions L !! p0) as [se|]; cbn [fst].
    + destruct (_ && _); cbn [fst].
      * apply Hset; try done; [apply rooms_close_log | by right].
      * apply Hset; try done. by right.
    + apply Hset; try done. by right.
  - cbn [fst]. apply Hset; try done. left.
    split; [by apply bool_decide_eq_false in Hhost | done].
Qed.

Lemma process_request_fine cfg e conn s request L :
  rooms_fine (rooms L) →
  rooms_fine (rooms (lobby_after (_process_request cfg e conn s request L))).
Proof.
  intros Hok. unfold _process_request.
  repeat match goal with
         | |- context [if bool_decide ?P then _ else _] =>
             destruct (bool_decide P)
         | |- context [if negb ?b then _ else _] => destruct (negb b)
         end;
    try exact Hok.
  - pose proof (login_rooms cfg e conn s request L) as Hlogin.
    destruct (_handle_login cfg e conn s request L) as [[L1 s1] r].
    cbn [lobby_after]. cbn [fst] in Hlogin. by rewrite Hlogin.
  - by destruct (_handle_download_game cfg e request).
  - by apply create_room_fine.
  - by apply join_room_fine.
  - by apply leave_room_fine.
  - apply (fine_profile (rooms L)); [apply profile_start_game | done].
  - apply (fine_profile (rooms L)); [apply profile_check_game_status | done].
  - apply (fine_profile (rooms L)); [apply profile_end_game | done].
  - by apply cleanup_fine.
Qed.

Lemma after_handler_todo s o rid r : todo (after_handler s o) ≠ CreateInsert rid r.
Proof. by destruct o. Qed.

Lemma pool_fine_insert L ths log conn th :
  rooms_fine (rooms L) →
  (∀ conn' th' rid r,
      ths !! conn' = Some th' → todo th' = CreateInsert rid r → room_ok r) →
  (∀ rid r, todo th = CreateInsert rid r → room_ok r) →
  pool_fine {| lobby_of := L; threads := <[conn := th]> ths; answered := log |}.
Proof.
  intros HL Hths Hth. split; [exact HL |]. cbn [threads].
  intros conn' th' rid r Hlook Htodo.
  destruct (decide (conn' = conn)) as [->|Hne].
  - rewrite lookup_insert_eq in Hlook. injection Hlook as <-. by apply (Hth rid r).
  - rewrite lookup_insert_ne in Hlook by done. by apply (Hths conn' th' rid r).
Qed.

Lemma finish_fine conn s w : pool_fine w → pool_fine (finish conn s w).
Proof.
  intros [HL Hths]. split.
  - cbn [finish lobby_of]. destruct (logged_in s); [by apply cleanup_fine | done].
  - cbn [finish threads]. intros conn' th' rid r Hlook.
    apply lookup_delete_Some in Hlook as [_ Hlook]. by apply (Hths conn' th' rid r).
Qed.

Lemma receive_fine cfg e conn s request L :
  rooms_fine (rooms L) →
  rooms_fine (rooms (receive cfg e conn s request L).1.1)
  ∧ ∀ rid r, todo (receive cfg e conn s request L).1.2 = CreateInsert rid r →
             room_ok r.
Proof.
  intros HL. unfold receive.
  destruct (bool_decide (request !! "action" = Some (JStr "login"))).
  { destruct (login_check cfg e s request L) as [s1 [o|[uid username]]];
      cbn [fst snd todo]; (split; [exact HL |]); intros rid r Htodo;
      [by apply after_handler_todo in Htodo | discriminate Htodo]. }
  destruct (logged_in s && _).
  { destruct (create_first_fine e s request L HL) as [Hfine Hnew].
    destruct (create_first e s request L) as [L1 [o|[rid0 r0]]];
      cbn [fst snd todo] in *; (split; [exact Hfine |]); intros rid r Htodo.
    - by apply after_handler_todo in Htodo.
    - injection Htodo as <- <-. by apply (Hnew rid0 r0). }
  cbn [fst snd]. split; [by apply process_request_fine |].
  intros rid r Htodo. by apply after_handler_todo in Htodo.
Qed.

Lemma step_fine cfg w t : pool_fine w → pool_fine (step cfg w t).
Proof.
  intros Hw. pose proof Hw as [HL Hths].
  destruct t as [conn|conn request e|conn|conn]; cbn [step].
  - destruct (threads w !! conn) as [th|]; [exact Hw |].
    apply pool_fine_insert; [exact HL | exact Hths | discriminate].
  - destruct (threads w !! conn) as [th|] eqn:Hth; [| exact Hw].
    destruct (todo th); try exact Hw.
    destruct (bool_decide (request = ∅)); [by apply finish_fine |].
    destruct (receive_fine cfg e conn (sess th) request (lobby_of w) HL)
      as [Hfine Hnew].
    destruct (receive cfg e conn (sess th) request (lobby_of w)) as [[L1 th1] o].
    cbn [fst snd] in Hfine, Hnew. by apply pool_fine_insert.
  - destruct (threads w !! conn) as [th|] eqn:Hth; [| exact Hw].
    destruct (todo th) as [|uid username|rid r|] eqn:Htodo.
    + exact Hw.
    + apply pool_fine_insert; [exact HL | exact Hths | discriminate].
    + apply pool_fine_insert; [| exact Hths | discriminate].
      apply create_insert_fine; [exact HL |]. by apply (Hths conn th rid r).
    + by apply finish_fine.
  - destruct (threads w !! conn) as [th|]; [| exact Hw].
    destruct (todo th); try exact Hw. by apply finish_fine.
Qed.

Lemma threads_snoc cfg ticks t :
  Threads.run cfg (ticks ++ [t]) = step cfg (Threads.run cfg ticks) t.
Proof. unfold Threads.run. by rewrite foldl_app. Qed.

Lemma run_fine cfg ticks : pool_fine (Threads.run cfg ticks).
Proof.
  induction ticks as [|t ticks IH] using rev_ind.
  - split; [constructor |]. intros conn th rid r Hlook.
    change ((∅ : gmap nat thread) !! conn = Some th) in Hlook.
    by rewrite lookup_empty in Hlook.
  - rewrite threads_snoc. by apply step_fine.
Qed.

(** *** One message at a time *)

Lemma process_login cfg e conn s request L :
  request !! "action" = Some (JStr "login") →
  _process_request cfg e conn s request L
  = let '(L1, s1, r) := _handle_login cfg e conn s request L in
    {| lobby_after := L1; session_after := s1; db_after := db e; sent := [];
       reply := r |}.
Proof.
  intros Ha. unfold _process_request. rewrite Ha.
  rewrite bool_decide_eq_false_2 by discriminate.
  by rewrite bool_decide_eq_true_2 by reflexivity.
Qed.

Lemma process_create cfg e conn s request L :
  request !! "action" = Some (JStr "create_room") → logged_in s = true →
  _process_request cfg e conn s request L
  = on_lobby e s (_handle_create_room e s request L).
Proof.
  intros Ha Hin. unfold _process_request. rewrite Ha, Hin. cbn [negb].
  repeat rewrite bool_decide_eq_false_2 by discriminate.
  by rewrite bool_decide_eq_true_2 by reflexivity.
Qed.

(** What [receive] leaves to the second block is what the handler, run
    to its end, does after the first. *)
Lemma receive_process cfg e conn s request L :
  let h := _process_request cfg e conn s request L in
  match receive cfg e conn s request L with
  | (L1, th, Some o) =>
      L1 = lobby_after h ∧ th = after_handler (session_after h) (reply h)
      ∧ o = reply h
  | (L1, th, None) =>
      sess th = session_after h
      ∧ match todo th with
        | LoginInsert uid username =>
            login_insert conn uid username L1 = lobby_after h
            ∧ reply h = welcome username
        | CreateInsert rid r =>
            create_insert rid r L1 = lobby_after h ∧ reply h = created rid r
        | _ => False
        end
  end.
Proof.
  cbn zeta. unfold receive.
  destruct (bool_decide (request !! "action" = Some (JStr "login"))) eqn:Hlogin.
  { apply bool_decide_eq_true in Hlogin. rewrite process_login by done.
    rewrite login_sections.
    by destruct (login_check cfg e s request L) as [s1 [o|[uid username]]]. }
  destruct (logged_in s) eqn:Hin; cbn [andb]; [| done].
  destruct (bool_decide (request !! "action" = Some (JStr "create_room")))
    eqn:Hcreate; [| done].
  apply bool_decide_eq_true in Hcreate. rewrite process_create by done.
  rewrite create_sections.
  by destruct (create_first e s request L) as [L1 [o|[rid r]]].
Qed.

Lemma threads_of_world (w : world) log conn :
  threads (pool_of w log) !! conn = idle <$> conns w !! conn.
Proof. unfold pool_of. cbn [threads]. apply lookup_fmap. Qed.

Lemma finish_pool_of w log conn s th :
  finish conn s {| lobby_of := the_lobby w;
                   threads := <[conn := th]> (idle <$> conns w);
                   answered := log |}
  = pool_of (Lobby.finish conn s (the_lobby w) (conns w)) log.
Proof.
  unfold finish, Lobby.finish, pool_of. cbn [lobby_of threads answered the_lobby conns].
  by rewrite delete_insert_eq, fmap_delete.
Qed.

Lemma finish_pool_of_idle w log conn s :
  finish conn s (pool_of w log)
  = pool_of (Lobby.finish conn s (the_lobby w) (conns w)) log.
Proof.
  unfold finish, Lobby.finish, pool_of. cbn [lobby_of threads answered the_lobby conns].
  by rewrite fmap_delete.
Qed.

(** The ticks of one event, run from a world in which every thread is
    idle, do what [_handle_client] does with the event. *)
Lemma sequential_step cfg w log ev :
  ∃ log', foldl (step cfg) (pool_of w log) (ticks_of ev)
          = pool_of (_handle_client cfg w ev) log'.
Proof.
  destruct ev as [conn|conn request e|conn]; cbn [ticks_of foldl].
  - cbn [step _handle_client]. rewrite threads_of_world.
    destruct (conns w !! conn) as [s|]; cbn [fmap option_fmap option_map].
    + by exists log.
    + exists log. unfold pool_of. cbn [lobby_of threads answered the_lobby conns].
      by rewrite fmap_insert.
  - cbn [_handle_client]. unfold step at 2. rewrite threads_of_world.
    destruct (conns w !! conn) as [s|] eqn:Hconn;
      cbn [fmap option_fmap option_map].
    2:{ exists log. cbn [step]. by rewrite threads_of_world, Hconn. }
    cbn [idle todo sess].
    destruct (bool_decide (request = ∅)).
    { exists log. rewrite finish_pool_of_idle. cbn [step].
      rewrite threads_of_world. unfold Lobby.finish. cbn [conns].
      by rewrite lookup_delete_eq. }
    pose proof (receive_process cfg e conn s request (the_lobby w)) as Hrec.
    cbn zeta in Hrec. unfold pool_of at 1. cbn [lobby_of threads answered].
    destruct (receive cfg e conn s request (the_lobby w)) as [[L1 th] [o|]].
    + destruct Hrec as (-> & -> & ->). cbn [step threads].
      rewrite lookup_insert_eq.
      destruct (reply (_process_request cfg e conn s request (the_lobby w)));
        cbn [after_handler todo sess idle]; eexists.
      * unfold pool_of. cbn [lobby_of threads answered the_lobby conns].
        by rewrite fmap_insert.
      * unfold pool_of. cbn [lobby_of threads answered the_lobby conns].
        by rewrite fmap_insert.
      * unfold finish, Lobby.finish, pool_of.
        cbn [lobby_of threads answered the_lobby conns].
        by rewrite delete_insert_eq, fmap_delete.
    + destruct Hrec as [Hsess Htodo]. cbn [step threads].
      rewrite lookup_insert_eq.
      destruct (todo th) as [|uid username|rid r|]; try done;
        destruct Htodo as [HL Hreply]; rewrite Hreply; eexists;
        unfold pool_of, welcome, created;
        cbn [lobby_of threads answered the_lobby conns];
        by rewrite insert_insert_eq, fmap_insert, HL, Hsess.
  - cbn [step _handle_client]. rewrite threads_of_world.
    destruct (conns w !! conn) as [s|]; cbn [fmap option_fmap option_map].
    + exists log. cbn [idle todo sess]. apply finish_pool_of_idle.
    + by exists log.
Qed.

Lemma sequential_run cfg evs :
  ∃ log, Threads.run cfg (one_at_a_time evs) = pool_of (Lobby.run cfg evs) log.
Proof.
  induction evs as [|ev evs [log IH]] using rev_ind.
  - exists []. unfold pool_of. cbn. by rewrite fmap_empty.
  - unfold one_at_a_time in *. rewrite bind_app. cbn [mbind list_bind].
    rewrite app_nil_r. unfold Threads.run in *. rewrite foldl_app, IH, run_snoc.
    apply sequential_step.
Qed.

Lemma world_of_pool_of w log : world_of (pool_of w log) = w.
Proof.
  unfold world_of, pool_of. cbn [lobby_of threads]. destruct w as [L cs].
  cbn [the_lobby conns]. f_equal. rewrite <- map_fmap_compose.
  apply map_fmap_id.
Qed.

Lemma all_idle_pool_of w log : all_idle (pool_of w log).
Proof.
  intros conn th. rewrite threads_of_world.
  destruct (conns w !! conn); [| done]. by intros [= <-].
Qed.

(** *** The rooms *)

Lemma perform_fine cfg e s o L :
  rooms_fine (rooms L) → rooms_fine (rooms (perform cfg e s o L)).
Proof.
  intros Hok. destruct o; cbn [perform].
  - by apply create_room_fine.
  - by apply join_room_fine.
  - by apply leave_room_fine.
  - apply (fine_profile (rooms L)); [apply profile_start_game | done].
  - apply (fine_profile (rooms L)); [apply profile_check_game_status | done].
  - apply (fine_profile (rooms L)); [apply profile_end_game | done].
  - by apply cleanup_fine.
Qed.

(** *** The sessions *)

Lemma request_not_empty (request : doc) a :
  request !! "action" = Some a → bool_decide (request = ∅) = false.
Proof.
  intros Ha. apply bool_decide_eq_false. intros ->.
  by rewrite lookup_empty in Ha.
Qed.

(** A login that succeeds has passed the check of [self.sessions]; the
    same login passes it from any connection while the user has no entry
    there, and is refused from any once the user has one. *)
Lemma login_check_success cfg e conn s request L x :
  (_handle_login cfg e conn s request L).2 = Reply x →
  member "success" x = Some (RBool true) →
  ∃ s' uid name,
    logged_in s' = true ∧ user_id s' = uid
    ∧ sessions L !! uid = None
    ∧ (∀ s2 L2, sessions L2 !! uid = None →
         login_check cfg e s2 request L2 = (s', inr (uid, name)))
    ∧ (∀ s2 L2, is_Some (sessions L2 !! uid) →
         login_check cfg e s2 request L2
         = (s2, inl (Reply (failure "Account already logged in")))).
Proof.
  rewrite login_sections. unfold login_check.
  destruct (get_stripped request "username") as [name|]; [| discriminate].
  destruct (get_stripped request "password") as [pw|]; [| discriminate].
  destruct (_ || _).
  { intros [= <-] Hs. by apply not_success in Hs. }
  destruct (_db_request (link e 0) _ _ _).2 as [| |user| |msg]; try discriminate.
  2:{ intros [= <-] Hs. by apply not_success in Hs. }
  destruct (user !! "password_hash") as [h|]; [| discriminate].
  destruct (bool_decide (h ≠ _)).
  { intros [= <-] Hs. by apply not_success in Hs. }
  destruct (user !! "_id") as [uid|]; [| discriminate].
  destruct (bool_decide (is_Some (sessions L !! uid))) eqn:Hfree.
  { intros [= <-] Hs. by apply not_success in Hs. }
  destruct (user !! "username") as [uname|]; [| discriminate].
  intros _ _. apply bool_decide_eq_false in Hfree.
  exists {| logged_in := true; user_id := uid; username := uname |}, uid, name.
  split; [reflexivity |]. split; [reflexivity |].
  split; [by apply eq_None_not_Some |]. split.
  - intros s2 L2 Hnone. rewrite bool_decide_eq_false_2; [reflexivity |].
    rewrite Hnone. by intros [? ?].
  - intros s2 L2 Hsome. by rewrite bool_decide_eq_true_2.
Qed.

Lemma step_receive_login cfg w c t request e s' uid name :
  threads w !! c = Some t → todo t = Idle →
  request !! "action" = Some (JStr "login") →
  login_check cfg e (sess t) request (lobby_of w) = (s', inr (uid, name)) →
  step cfg w (Receive c request e)
  = {| lobby_of := lobby_of w;
       threads := <[c := {| sess := s'; todo := LoginInsert uid name |}]> (threads w);
       answered := answered w |}.
Proof.
  intros Ht Hidle Ha Hcheck. cbn [step]. rewrite Ht, Hidle.
  rewrite (request_not_empty request _ Ha). unfold receive.
  rewrite bool_decide_eq_true_2 by exact Ha. rewrite Hcheck.
  cbn [option_list fmap option_fmap option_map]. by rewrite app_nil_r.
Qed.

Lemma step_receive_refused cfg w c t request e msg :
  threads w !! c = Some t → todo t = Idle →
  request !! "action" = Some (JStr "login") →
  login_check cfg e (sess t) request (lobby_of w)
  = (sess t, inl (Reply (failure msg))) →
  step cfg w (Receive c request e)
  = {| lobby_of := lobby_of w;
       threads := <[c := idle (sess t)]> (threads w);
       answered := answered w ++ [(c, Reply (failure msg))] |}.
Proof.
  intros Ht Hidle Ha Hcheck. cbn [step]. rewrite Ht, Hidle.
  rewrite (request_not_empty request _ Ha). unfold receive.
  rewrite bool_decide_eq_true_2 by exact Ha. by rewrite Hcheck.
Qed.

Lemma step_resume_login cfg w c s uid name :
  threads w !! c = Some {| sess := s; todo := LoginInsert uid name |} →
  step cfg w (Resume c)
  = {| lobby_of := login_insert c uid name (lobby_of w);
       threads := <[c := idle s]> (threads w);
       answered := answered w ++ [(c, welcome name)] |}.
Proof. intros Ht. cbn [step]. by rewrite Ht. Qed.

Lemma step_resume_idle cfg w c s :
  threads w !! c = Some (idle s) → step cfg w (Resume c) = w.
Proof. intros Ht. cbn [step]. by rewrite Ht. Qed.

(** C8 fails when two logins of one account interleave: when a login
    would succeed on one connection, and the same request arrives on two
    connections whose threads both run the check of [self.sessions]
    before either enters the session, both are welcomed and both
    connections are logged in as the same user.  Handled one after the
    other, the second is refused. *)
Theorem interleaved_logins_both_succeed cfg w c1 c2 t1 t2 request e x :
  c1 ≠ c2 →
  threads w !! c1 = Some t1 → todo t1 = Idle →
  threads w !! c2 = Some t2 → todo t2 = Idle →
  request !! "action" = Some (JStr "login") →
  (_handle_login cfg e c1 (sess t1) request (lobby_of w)).2 = Reply x →
  member "success" x = Some (RBool true) →
  ∃ s' name,
    logged_in s' = true
    ∧ (let w' := foldl (step cfg) w
                   [Receive c1 request e; Receive c2 request e;
                    Resume c1; Resume c2] in
       threads w' !! c1 = Some (idle s') ∧ threads w' !! c2 = Some (idle s')
       ∧ answered w'
         = answered w ++ [(c1, welcome name); (c2, welcome name)]
       ∧ shared_login w')
    ∧ (let w' := foldl (step cfg) w
                   [Receive c1 request e; Resume c1;
                    Receive c2 request e; Resume c2] in
       threads w' !! c1 = Some (idle s')
       ∧ threads w' !! c2 = Some (idle (sess t2))
       ∧ answered w'
         = answered w ++ [(c1, welcome name);
                          (c2, Reply (failure "Account already logged in"))]).
Proof.
  intros Hne Ht1 Hidle1 Ht2 Hidle2 Ha Hlogin Hs.
  destruct (login_check_success cfg e c1 (sess t1) request (lobby_of w) x Hlogin Hs)
    as (s' & uid & name & Hin & Huid & Hfree & Hpass & Hrefused).
  exists s', name. split; [exact Hin |]. split.
  - cbn zeta. cbn [foldl].
    rewrite (step_receive_login cfg w c1 t1 request e s' uid name Ht1 Hidle1 Ha
               (Hpass (sess t1) (lobby_of w) Hfree)).
    rewrite (step_receive_login cfg _ c2 t2 request e s' uid name);
      [| cbn [threads]; by rewrite lookup_insert_ne | exact Hidle2 | exact Ha
       | cbn [lobby_of]; by apply Hpass].
    cbn [lobby_of threads answered].
    rewrite (step_resume_login cfg _ c1 s' uid name);
      [| cbn [threads]; rewrite lookup_insert_ne by done; apply lookup_insert_eq].
    cbn [lobby_of threads answered].
    rewrite (step_resume_login cfg _ c2 s' uid name);
      [| cbn [threads]; rewrite lookup_insert_ne by done; apply lookup_insert_eq].
    cbn [lobby_of threads answered].
    assert (<[c2:=idle s']> (<[c1:=idle s']>
              (<[c2:={| sess := s'; todo := LoginInsert uid name |}]>
                 (<[c1:={| sess := s'; todo := LoginInsert uid name |}]>
                    (threads w)))) !! c1 = Some (idle s')) as H1.
    { rewrite lookup_insert_ne by done. apply lookup_insert_eq. }
    assert (<[c2:=idle s']> (<[c1:=idle s']>
              (<[c2:={| sess := s'; todo := LoginInsert uid name |}]>
                 (<[c1:={| sess := s'; todo := LoginInsert uid name |}]>
                    (threads w)))) !! c2 = Some (idle s')) as H2
      by apply lookup_insert_eq.
    split; [exact H1 |]. split; [exact H2 |].
    split; [by rewrite <- app_assoc |].
    exists c1, c2, (idle s'), (idle s'). cbn [threads idle sess].
    split; [exact Hne |]. split; [exact H1 |]. split; [exact H2 |].
    split; [exact Hin |]. split; [exact Hin | reflexivity].
  - cbn zeta. cbn [foldl].
    rewrite (step_receive_login cfg w c1 t1 request e s' uid name Ht1 Hidle1 Ha
               (Hpass (sess t1) (lobby_of w) Hfree)).
    rewrite (step_resume_login cfg _ c1 s' uid name);
      [| cbn [threads]; apply lookup_insert_eq].
    cbn [lobby_of threads answered].
    rewrite (step_receive_refused cfg _ c2 t2 request e "Account already logged in");
      [| cbn [threads]; by rewrite !lookup_insert_ne | exact Hidle2 | exact Ha
       | cbn [lobby_of]; apply Hrefused; unfold login_insert, set_sessions;
         cbn [sessions]; rewrite lookup_insert_eq; by eexists].
    cbn [lobby_of threads answered].
    rewrite (step_resume_idle cfg _ c2 (sess t2));
      [| cbn [threads]; apply lookup_insert_eq].
    cbn [threads answered].
    split; [| split].
    + rewrite lookup_insert_ne by done. rewrite lookup_insert_eq. reflexivity.
    + apply lookup_insert_eq.
    + by rewrite <- app_assoc.
Qed.

Lemma interleaved_logins_both_succeed_witness :
  shared_login (Threads.run Sample.cfg bob_twice).
Proof.
  pose (w := Threads.run Sample.cfg [Accept 1; Accept 2]).
  pose (request := Sample.login "bob" "hunter2").
  pose (e := Sample.quiet Sample.chat_1_0).
  assert (threads w !! 1%nat = Some (idle new_session)) as Ht1
    by (vm_compute; reflexivity).
  assert (threads w !! 2%nat = Some (idle new_session)) as Ht2
    by (vm_compute; reflexivity).
  assert (request !! "action" = Some (JStr "login")) as Ha
    by (vm_compute; reflexivity).
  assert ((_handle_login Sample.cfg e 1 (sess (idle new_session)) request
             (lobby_of w)).2 = Reply (ok_message "Welcome bob!")) as Hlogin
    by (vm_compute; reflexivity).
  assert (member "success" (ok_message "Welcome bob!") = Some (RBool true)) as Hs
    by (vm_compute; reflexivity).
  assert (1%nat ≠ 2%nat) as Hne by discriminate.
  destruct (interleaved_logins_both_succeed Sample.cfg w 1 2 (idle new_session)
              (idle new_session) request e (ok_message "Welcome bob!")
              Hne Ht1 eq_refl Ht2 eq_refl Ha Hlogin Hs)
    as (s' & name & _ & (_ & _ & _ & Hshared) & _).
  exact Hshared.
Defined.

End ThreadFacts.
(** ** One room per user, under the threads *)

Module SeatsUnderThreads.
Import Catalog Package Server Lobby LobbySpec Threads RequestFacts RoomFacts ThreadFacts.

Lemma remove_user_occupancy uid L u :
  (occupancy u (rooms (_remove_user_from_all_rooms uid L)) ≤ occupancy u (rooms L))%nat.
Proof. rewrite rooms_remove_user. apply remove_user_from_rooms_occupancy. Qed.

Lemma cleanup_occupancy s L u :
  (occupancy u (rooms (_cleanup_session s L)) ≤ occupancy u (rooms L))%nat.
Proof. unfold _cleanup_session. apply (remove_user_occupancy _ (set_sessions _ L)). Qed.

Lemma create_first_occupancy e s request L u :
  (occupancy u (rooms (create_first e s request L).1) ≤ occupancy u (rooms L))%nat.
Proof.
  unfold create_first.
  destruct (request !! "game_name") as [game_name|]; [| done].
  destruct (negb (truthy game_name)); [done |].
  pose proof (remove_user_occupancy (user_id s) L u) as Hle.
  destruct (_db_request (link e 0) _ _ _).2 as [| |game| |msg]; try exact Hle.
  destruct (game !! "_id") as [gid|]; [| exact Hle].
  destruct (game !! "latest_version") as [latest|]; [| exact Hle].
  destruct (game !! "max_players") as [maxp|]; exact Hle.
Qed.

(** The room that [create_room] is about to enter holds its user alone,
    who is in no room after the first block. *)
Lemma create_first_room e s request L rid r :
  rooms_ok (rooms L) →
  (create_first e s request L).2 = inr (rid, r) →
  players r = [user_id s]
  ∧ in_no_room (user_id s) (rooms (create_first e s request L).1).
Proof.
  intros Hok. unfold create_first.
  destruct (request !! "game_name") as [game_name|]; [| discriminate].
  destruct (negb (truthy game_name)); [discriminate |].
  destruct (remove_user_rooms_ok (user_id s) L Hok) as [_ Hgone].
  destruct (_db_request (link e 0) _ _ _).2 as [| |game| |msg]; try discriminate.
  destruct (game !! "_id") as [gid|]; [| discriminate].
  destruct (game !! "latest_version") as [latest|]; [| discriminate].
  destruct (game !! "max_players") as [maxp|]; [| discriminate].
  cbn [fst snd]. intros [= _ <-]. split; [reflexivity | exact Hgone].
Qed.

Lemma create_insert_others rid r L u :
  u ∉ players r →
  (occupancy u (rooms (create_insert rid r L)) ≤ occupancy u (rooms L))%nat.
Proof.
  intros Hout. unfold create_insert. cbn [rooms set_rooms].
  etrans; [apply occupancy_dict_set |]. rewrite decide_False by done. lia.
Qed.

Lemma create_insert_ok rid r L :
  rooms_ok (rooms L) → room_ok r →
  (∃ u, players r = [u] ∧ in_no_room u (rooms L)) →
  rooms_ok (rooms (create_insert rid r L)).
Proof.
  intros [Hall Hocc] Hr (u & Hp & Hgone). split.
  - by apply create_insert_fine.
  - intros uid. unfold create_insert. cbn [rooms set_rooms].
    etrans; [apply occupancy_dict_set |]. rewrite Hp.
    destruct (decide (uid ∈ [u])) as [Hu|Hu].
    + apply list_elem_of_singleton in Hu as ->.
      apply occupancy_zero in Hgone. lia.
    + specialize (Hocc uid). lia.
Qed.

Lemma join_room_others s request L u :
  u ≠ user_id s →
  (occupancy u (rooms (_handle_join_room s request L).1) ≤ occupancy u (rooms L))%nat.
Proof.
  intros Hne. unfold _handle_join_room.
  destruct (request !! "room_id") as [room_id|]; [| done].
  destruct (negb (truthy room_id)); [done |].
  pose proof (remove_user_occupancy (user_id s) L u) as Hle.
  set (L1 := _remove_user_from_all_rooms (user_id s) L) in *.
  destruct (lookup_room room_id (rooms L1)) as [[rid r]|] eqn:Hroom; [| exact Hle].
  destruct (bool_decide (status r ≠ waiting)); [exact Hle |].
  destruct (max_players r) as [|m|]; try exact Hle.
  destruct (m <=? Z.of_nat (length (players r)))%Z; [exact Hle |].
  destruct (bool_decide (user_id s ∈ players r)); [exact Hle |].
  assert (dict_get rid (rooms L1) = Some r) as Hget.
  { unfold lookup_room in Hroom. destruct room_id as [| |k]; try discriminate.
    destruct (dict_get k (rooms L1)) as [r0|] eqn:Hk; [| discriminate].
    simpl in Hroom. by injection Hroom as <- <-. }
  cbn [fst rooms set_rooms].
  etrans; [apply (occupancy_dict_set_present u rid _ r); [exact Hget |] | exact Hle].
  cbn [set_players players].
  intros [?|?%list_elem_of_singleton]%elem_of_app; done.
Qed.

Lemma leave_room_occupancy e s L u :
  (occupancy u (rooms (_handle_leave_room e s L).1) ≤ occupancy u (rooms L))%nat.
Proof.
  unfold _handle_leave_room.
  destruct (room_of (user_id s) (rooms L)) as [[i [rid r]]|] eqn:Hroom; [| done].
  apply room_of_lookup in Hroom as [Hi Hin].
  destruct (remove_first (user_id s) (players r)) as [|p0 ps] eqn:Hps.
  { cbn [fst]. unfold del_room. cbn [rooms set_rooms].
    rewrite rooms_close_log, rooms_terminate_game. apply occupancy_delete. }
  assert (∀ r' L', rooms L' = rooms L → players r' = p0 :: ps →
            (occupancy u (rooms (set_room i rid r' L')) ≤ occupancy u (rooms L))%nat)
    as Hset.
  { intros r' L' HL' Hp. unfold set_room. cbn [rooms set_rooms]. rewrite HL'.
    apply (occupancy_insert u _ i rid r); [exact Hi |].
    rewrite Hp, <- Hps. apply remove_first_subset. }
  destruct (bool_decide (user_id s = host_id r)).
  - destruct (sessions L !! p0) as [se|]; cbn [fst].
    + destruct (_ && _); cbn [fst]; apply Hset; try done. apply rooms_close_log.
    + by apply Hset.
  - cbn [fst]. by apply Hset.
Qed.

Lemma occupancy_same_profile u rs rs' :
  profile rs' = profile rs → (occupancy u rs' ≤ occupancy u rs)%nat.
Proof. intros Hprof. by rewrite (occupancy_profile u rs rs'). Qed.

(** A handler adds to the rooms nobody but the user of its session. *)
Lemma process_request_others cfg e conn s request L u :
  rooms_ok (rooms L) → u ≠ user_id s →
  (occupancy u (rooms (lobby_after (_process_request cfg e conn s request L)))
   ≤ occupancy u (rooms L))%nat.
Proof.
  intros Hok Hne. unfold _process_request.
  repeat match goal with
         | |- context [if bool_decide ?P then _ else _] =>
             destruct (bool_decide P)
         | |- context [if negb ?b then _ else _] => destruct (negb b)
         end;
    try reflexivity.
  - pose proof (login_rooms cfg e conn s request L) as Hlogin.
    destruct (_handle_login cfg e conn s request L) as [[L1 s1] r].
    cbn [lobby_after]. cbn [fst] in Hlogin. by rewrite Hlogin.
  - by destruct (_handle_download_game cfg e request).
  - cbn [on_lobby lobby_after]. rewrite create_sections.
    pose proof (create_first_occupancy e s request L u) as Hle.
    pose proof (create_first_room e s request L) as Hroom.
    destruct (create_first e s request L) as [L1 [o|[rid r]]]; [exact Hle |].
    cbn [fst snd] in *. destruct (Hroom rid r Hok eq_refl) as [Hp _].
    etrans; [apply create_insert_others | exact Hle].
    rewrite Hp. by intros ?%list_elem_of_singleton.
  - by apply join_room_others.
  - apply leave_room_occupancy.
  - apply occupancy_same_profile, profile_start_game.
  - apply occupancy_same_profile, profile_check_game_status.
  - apply occupancy_same_profile, profile_end_game.
  - apply cleanup_occupancy.
Qed.

(** A connection that is not logged in leaves the rooms alone. *)
Lemma process_request_logged_out cfg e conn s request L :
  logged_in s = false →
  request !! "action" ≠ Some (JStr "login") →
  rooms (lobby_after (_process_request cfg e conn s request L)) = rooms L.
Proof.
  intros Hout Hnot. unfold _process_request. rewrite Hout. cbn [negb].
  destruct (bool_decide (request !! "action" = Some (JStr "register")));
    [reflexivity |].
  rewrite (bool_decide_eq_false_2 _ Hnot). reflexivity.
Qed.

Lemma no_room_kept u rs rs' :
  (occupancy u rs' ≤ occupancy u rs)%nat → in_no_room u rs → in_no_room u rs'.
Proof. rewrite <- !occupancy_zero. lia. Qed.

Lemma after_handler_not_create s o rid r : todo (after_handler s o) ≠ CreateInsert rid r.
Proof. by destruct o. Qed.

(** Two threads that are logged in, on connections that differ, are not
    the same user. *)
Lemma users_differ w c1 c2 t1 t2 :
  ¬ shared_login w → c1 ≠ c2 →
  threads w !! c1 = Some t1 → threads w !! c2 = Some t2 →
  logged_in (sess t1) = true → logged_in (sess t2) = true →
  user_id (sess t1) ≠ user_id (sess t2).
Proof.
  intros Hno Hne H1 H2 Hl1 Hl2 Heq. apply Hno. by exists c1, c2, t1, t2.
Qed.

(** The threads that wait to enter a room are not disturbed by a block
    of another thread that adds none of their users to a room. *)
Lemma pool_ok_update w L' conn th' log :
  pool_ok w →
  rooms_ok (rooms L') →
  (∀ c th rid r, c ≠ conn → threads w !! c = Some th →
                 todo th = CreateInsert rid r →
                 (occupancy (user_id (sess th)) (rooms L')
                  ≤ occupancy (user_id (sess th)) (rooms (lobby_of w)))%nat) →
  (∀ rid r, todo th' = CreateInsert rid r →
            room_ok r ∧ players r = [user_id (sess th')]
            ∧ logged_in (sess th') = true
            ∧ in_no_room (user_id (sess th')) (rooms L')) →
  pool_ok {| lobby_of := L'; threads := <[conn := th']> (threads w);
             answered := log |}.
Proof.
  intros [Hok Hths] HL' Hothers Hnew. split; [exact HL' |].
  cbn [threads lobby_of]. intros c th rid r Hlook Htodo.
  destruct (decide (c = conn)) as [->|Hne].
  - rewrite lookup_insert_eq in Hlook. injection Hlook as <-. by apply (Hnew rid r).
  - rewrite lookup_insert_ne in Hlook by done.
    destruct (Hths c th rid r Hlook Htodo) as (Hr & Hp & Hin & Hgone).
    split; [exact Hr |]. split; [exact Hp |]. split; [exact Hin |].
    apply (no_room_kept _ (rooms (lobby_of w))); [| exact Hgone].
    by apply (Hothers c th rid r).
Qed.

Lemma finish_ok conn s w : pool_ok w → pool_ok (finish conn s w).
Proof.
  intros [Hok Hths]. split.
  - cbn [finish lobby_of]. destruct (logged_in s); [by apply cleanup_session_ok | done].
  - cbn [finish threads lobby_of]. intros c th rid r Hlook Htodo.
    apply lookup_delete_Some in Hlook as [_ Hlook].
    destruct (Hths c th rid r Hlook Htodo) as (Hr & Hp & Hin & Hgone).
    split; [exact Hr |]. split; [exact Hp |]. split; [exact Hin |].
    destruct (logged_in s); [| exact Hgone].
    apply (no_room_kept _ (rooms (lobby_of w))); [| exact Hgone].
    apply cleanup_occupancy.
Qed.

Lemma step_ok cfg w t : pool_ok w → ¬ shared_login w → pool_ok (step cfg w t).
Proof.
  intros Hw Hno. pose proof Hw as [Hok Hths].
  destruct t as [conn|conn request e|conn|conn]; cbn [step].
  - destruct (threads w !! conn) as [th|]; [exact Hw |].
    apply pool_ok_update; [exact Hw | exact Hok | reflexivity | discriminate].
  - destruct (threads w !! conn) as [th|] eqn:Hth; [| exact Hw].
    destruct (todo th) eqn:Hidle; try exact Hw.
    destruct (bool_decide (request = ∅)); [by apply finish_ok |].
    unfold receive.
    destruct (bool_decide (request !! "action" = Some (JStr "login"))) eqn:Hlogin.
    { destruct (login_check cfg e (sess th) request (lobby_of w))
        as [s1 [o|[uid username]]];
        (apply pool_ok_update; [exact Hw | exact Hok | reflexivity |]);
        intros rid r Htodo;
        [by apply after_handler_not_create in Htodo | discriminate Htodo]. }
    apply bool_decide_eq_false in Hlogin.
    destruct (logged_in (sess th)) eqn:Hin; cbn [andb].
    2:{ pose proof (process_request_logged_out cfg e conn (sess th) request
                      (lobby_of w) Hin Hlogin) as Hrooms.
        apply pool_ok_update; [exact Hw | by rewrite Hrooms | |].
        - intros c th0 rid r _ _ _. by rewrite Hrooms.
        - intros rid r Htodo. by apply after_handler_not_create in Htodo. }
    assert (∀ c th0 rid r, c ≠ conn → threads w !! c = Some th0 →
              todo th0 = CreateInsert rid r →
              user_id (sess th0) ≠ user_id (sess th)) as Hdiffer.
    { intros c th0 rid r Hne Hlook Htodo.
      destruct (Hths c th0 rid r Hlook Htodo) as (_ & _ & Hin0 & _).
      by apply (users_differ w c conn th0 th). }
    destruct (bool_decide (request !! "action" = Some (JStr "create_room"))).
    + pose proof (create_first_fine e (sess th) request (lobby_of w)) as Hfine.
      pose proof (create_first_room e (sess th) request (lobby_of w)) as Hroom.
      pose proof (create_first_occupancy e (sess th) request (lobby_of w)) as Hle.
      assert (rooms_ok (rooms (create_first e (sess th) request (lobby_of w)).1))
        as Hok1.
      { destruct Hok as [Hall Hocc]. split; [by apply Hfine |].
        intros u. etrans; [apply Hle | apply Hocc]. }
      destruct (create_first e (sess th) request (lobby_of w)) as [L1 [o|[rid0 r0]]];
        cbn [fst snd] in *.
      * apply pool_ok_update; [exact Hw | exact Hok1 | |].
        -- intros c th0 rid r _ _ _. apply Hle.
        -- intros rid r Htodo. by apply after_handler_not_create in Htodo.
      * apply pool_ok_update; [exact Hw | exact Hok1 | |].
        -- intros c th0 rid r _ _ _. apply Hle.
        -- cbn [todo sess]. intros rid r [= <- <-].
           destruct (Hroom rid0 r0 Hok eq_refl) as [Hp Hgone].
           split; [apply (proj2 (Hfine (proj1 Hok)) rid0 r0 eq_refl) |].
           split; [exact Hp |]. split; [exact Hin | exact Hgone].
    + cbn [fst snd]. apply pool_ok_update; [exact Hw | | |].
      * by apply process_request_rooms_ok.
      * intros c th0 rid r Hne Hlook Htodo.
        apply process_request_others; [exact Hok |].
        by apply (Hdiffer c th0 rid r).
      * intros rid r Htodo. by apply after_handler_not_create in Htodo.
  - destruct (threads w !! conn) as [th|] eqn:Hth; [| exact Hw].
    destruct (todo th) as [|uid username|rid r|] eqn:Htodo.
    + exact Hw.
    + apply pool_ok_update; [exact Hw | exact Hok | reflexivity | discriminate].
    + destruct (Hths conn th rid r Hth Htodo) as (Hr & Hp & Hin & Hgone).
      apply pool_ok_update; [exact Hw | | | discriminate].
      * apply create_insert_ok; [exact Hok | exact Hr |]. by eexists.
      * intros c th0 rid0 r0 Hne Hlook Htodo0.
        apply create_insert_others. rewrite Hp.
        intros Hu%list_elem_of_singleton.
        destruct (Hths c th0 rid0 r0 Hlook Htodo0) as (_ & _ & Hin0 & _).
        by apply (users_differ w c conn th0 th Hno Hne Hlook Hth Hin0 Hin).
    + by apply finish_ok.
  - destruct (threads w !! conn) as [th|]; [| exact Hw].
    destruct (todo th); try exact Hw. by apply finish_ok.
Qed.

Lemma never_shared_snoc cfg ticks t :
  never_shared cfg (ticks ++ [t]) →
  never_shared cfg ticks ∧ ¬ shared_login (Threads.run cfg ticks).
Proof.
  intros Hnever. split.
  - intros k. destruct (decide (k ≤ length ticks)%nat) as [Hk|Hk].
    + specialize (Hnever k). by rewrite take_app_le in Hnever.
    + specialize (Hnever (length ticks)).
      rewrite take_app_length in Hnever. by rewrite take_ge by lia.
  - specialize (Hnever (length ticks)). by rewrite take_app_length in Hnever.
Qed.

Lemma run_ok cfg ticks : never_shared cfg ticks → pool_ok (Threads.run cfg ticks).
Proof.
  induction ticks as [|t ticks IH] using rev_ind; intros Hnever.
  - split; [apply rooms_ok_nil |]. intros conn th rid r Hlook.
    change ((∅ : gmap nat thread) !! conn = Some th) in Hlook.
    by rewrite lookup_empty in Hlook.
  - apply never_shared_snoc in Hnever as [Hnever Hlast].
    rewrite threads_snoc. apply step_ok; [by apply IH | exact Hlast].
Qed.

(** A schedule on which one connection alone takes part has no two
    connections logged in. *)
Lemma step_threads cfg w t c th :
  threads (step cfg w t) !! c = Some th →
  c = conn_of t ∨ threads w !! c = Some th.
Proof.
  destruct (decide (c = conn_of t)) as [|Hne]; [by left |]. right. revert H.
  destruct t as [conn|conn request e|conn|conn]; cbn [step conn_of] in *.
  - destruct (threads w !! conn); [done |]. cbn [threads].
    by rewrite lookup_insert_ne.
  - destruct (threads w !! conn) as [th0|]; [| done].
    destruct (todo th0); try done.
    destruct (bool_decide (request = ∅)).
    + cbn [finish threads]. by rewrite lookup_delete_ne.
    + destruct (receive cfg e conn (sess th0) request (lobby_of w)) as [[L1 th1] o].
      cbn [threads]. by rewrite lookup_insert_ne.
  - destruct (threads w !! conn) as [th0|]; [| done].
    destruct (todo th0); try done; cbn [finish threads];
      by rewrite ?lookup_insert_ne, ?lookup_delete_ne.
  - destruct (threads w !! conn) as [th0|]; [| done].
    destruct (todo th0); try done. cbn [finish threads].
    by rewrite lookup_delete_ne.
Qed.

Lemma alone_threads cfg conn ticks :
  Forall (fun t => conn_of t = conn) ticks →
  ∀ c th, threads (Threads.run cfg ticks) !! c = Some th → c = conn.
Proof.
  induction ticks as [|t ticks IH] using rev_ind; intros Hall c th Hlook.
  - change ((∅ : gmap nat thread) !! c = Some th) in Hlook.
    by rewrite lookup_empty in Hlook.
  - rewrite Forall_app, Forall_singleton in Hall. destruct Hall as [Hall Ht].
    rewrite threads_snoc in Hlook.
    apply step_threads in Hlook as [->|Hlook]; [exact Ht | by apply (IH Hall c th)].
Qed.

Lemma alone_never_shared cfg conn ticks :
  Forall (fun t => conn_of t = conn) ticks → never_shared cfg ticks.
Proof.
  intros Hall k (c1 & c2 & t1 & t2 & Hne & H1 & H2 & _).
  assert (Forall (fun t => conn_of t = conn) (take k ticks)) as Hk
    by (by apply Forall_take).
  apply Hne. rewrite (alone_threads cfg conn _ Hk c1 t1 H1).
  by rewrite (alone_threads cfg conn _ Hk c2 t2 H2).
Qed.

(** C1 (as amended): under every schedule of the threads, lock section
    by lock section, every room the Lobby holds has its host among its
    players, at least one player, no player twice, and at most
    [max(1, max_players)] players when [max_players] is an integer (one
    player when it is [None] or a string).  On every schedule along
    which no two connections are logged in as the same user, and so
    whenever every message is handled to the end before the next, every
    user is moreover in at most one room.  [create_room], [join_room],
    [leave_room], [start_game], [check_game_status], [end_game] and the
    cleanup of a session each preserve both. *)
Theorem rooms_under_threads cfg :
  (∀ ticks, rooms_fine (rooms (lobby_of (Threads.run cfg ticks))))
  ∧ (∀ ticks, never_shared cfg ticks →
              rooms_ok (rooms (lobby_of (Threads.run cfg ticks))))
  ∧ (∀ evs, rooms_ok (rooms (lobby_of (Threads.run cfg (one_at_a_time evs)))))
  ∧ (∀ e s o L, rooms_fine (rooms L) → rooms_fine (rooms (perform cfg e s o L)))
  ∧ (∀ e s o L, rooms_ok (rooms L) → rooms_ok (rooms (perform cfg e s o L))).
Proof.
  split; [| split; [| split; [| split]]].
  - intros ticks. apply run_fine.
  - intros ticks Hnever. by apply run_ok.
  - intros evs. destruct (sequential_run cfg evs) as [log ->].
    apply run_rooms_ok.
  - apply perform_fine.
  - apply perform_ok.
Qed.

(** Under the schedule on which Bob's two connections interleave, and
    under the one on which Bob plays alone. *)
Lemma rooms_under_threads_witness :
  rooms_fine (rooms (lobby_of (Threads.run Sample.cfg bob_two_rooms)))
  ∧ never_shared Sample.cfg (one_at_a_time Sample.bob_plays)
  ∧ rooms_ok (rooms (lobby_of (Threads.run Sample.cfg
                                 (one_at_a_time Sample.bob_plays)))).
Proof.
  destruct (rooms_under_threads Sample.cfg) as (Hall & Hnever & _).
  assert (never_shared Sample.cfg (one_at_a_time Sample.bob_plays)) as Halone.
  { apply (alone_never_shared _ 1). repeat constructor. }
  split; [apply Hall |]. split; [exact Halone | by apply Hnever].
Defined.

(** The schedule matters for the last part: when Bob is logged in on two
    connections and both create a room, each removing him from the rooms
    before the other enters its room, he ends up in two rooms. *)
Lemma two_rooms_by_interleaving :
  occupancy (JStr "u-bob")
    (rooms (lobby_of (Threads.run Sample.cfg bob_two_rooms))) = 2%nat
  ∧ ¬ rooms_ok (rooms (lobby_of (Threads.run Sample.cfg bob_two_rooms))).
Proof.
  assert (occupancy (JStr "u-bob")
            (rooms (lobby_of (Threads.run Sample.cfg bob_two_rooms))) = 2%nat)
    as Htwo by (vm_compute; reflexivity).
  split; [exact Htwo |]. intros [_ Hocc].
  specialize (Hocc (JStr "u-bob")). rewrite Htwo in Hocc. lia.
Qed.

End SeatsUnderThreads.
